(* ===== verification/_CoqProject ===== *)
-Q . S2P
Prelude.v
Bytes.v
Text.v
Dict.v
Sort.v
Random.v
PassLine.v
Lz4Block.v
Lz4Container.v
Fdt.v
FdtFixture.v
Tlc.v
ProtocolTrace.v
ProtocolTraceFacts.v
LogRing.v
LogRingFacts.v
Ext2Eq.v
Ext2EqFacts.v
Ext2Host.v
Ext2Gen.v
Ext2GenFacts.v
Ext2HostFacts.v
Overflow.v
OverflowFacts.v
Fuzz.v
FuzzFacts.v
SourceScan.v
SourceScanFacts.v
RangeObligations.v
RangeObligationsFacts.v
FrameSize.v
FrameSizeFacts.v
CallGraph.v
CallGraphFacts.v
MutationGuard.v
MutationGuardFacts.v
ReaderWait.v
ReaderWaitFacts.v
ReleaseLog.v
ReleaseLogFacts.v
AllowedCallers.v
AllowedCallersFacts.v
WorldStop.v
NetFrame.v
NetLink.v
ArpTest.v
ArpTestFacts.v
IcmpTest.v
IcmpTestFacts.v
TcpEcho.v
TcpEchoFacts.v
HttpdFacts.v
GlobalProtection.v
GlobalProtectionFacts.v
MemoryMap.v
MemoryMapFacts.v
SlotPool.v
SlotPoolFacts.v
FunctionMap.v
FunctionMapFacts.v
