(* ===== verification/Prelude.v ===== *)
(** * Takibi host tooling: a Rocq model

    Takibi is a systems language with a kernel written in it.  Around the OCaml
    compiler and the kernel sources the repository keeps Python programs that
    decide whether a build is good: they pack images, write and read device
    trees, check traces of the kernel against TLA+ models, compare the kernel's
    ext2 with host Linux, survey the compiler's integer operations, fuzz the
    compiler, re-check its range proofs with z3, bound stack frames, audit the
    call graph, the globals and the memory map of the kernel, tie its models to its
    functions, scan sources and test the network stack of a board.
    This development is a shallow embedding of those programs (paths below are
    under src/), with the theorems that make their verdicts mean what they say.

    ** Conventions

    Prelude.v: a Python int is a [Z]; str, bytes and bytearray are lists of [Z];
    exceptions are the error type [exn] of the monad [res], so that every path
    that raises is a value; a while loop is [while fuel body], whose [OutOfFuel]
    is no Python exception; a for loop is [foldM] or [mapM_res].  Bytes.v has
    struct and bytearray, Text.v the str methods and the pieces of regular
    expressions, Dict.v insertion-ordered dictionaries, Sort.v [sorted], Random.v
    the seeded generator as the interface [Rng].  Regular expressions are written
    out as matchers over the classes of ASCII letters and digits (Python's also
    admit other scripts); white space and line breaks are Python's full sets.
    Files that hold only definitions have their theorems in the file of the same
    name with Facts at the end.

    ** Components

    - LZ4 images, scripts/lz4_image.py.  Lz4Block.v: [compress] and [decompress]
      as index loops, against the abstract sequences of the block format
      ([expand]).  Lz4Container.v: [pack], [unpack] and [main] on a map of files,
      written against the class [BlockCodec], which Lz4Block discharges.
      Theorems: the decoder refines the format, is total and bounded by its
      capacity on arbitrary input, and inverts the compressor; the container
      round trip with its refusals; what [main] leaves in the files.
    - Device trees.  Fdt.v: the class [Builder] of scripts/make_fdt_fixture.py and
      [parse_fdt] of scripts/rpi5_dtb_iommu_report.py, two scripts that share only
      the format.  FdtFixture.v: the modes of the fixture and [report].  Theorems:
      the reader gives back the tree the writer was given, and for unbalanced
      calls their meaning, errors included; the reader is safe on any bytes; the
      report's verdict.
    - Trace validators.  Tlc.v: what both share, the configuration of TLC and the
      reading of its output.  ProtocolTrace.v and ProtocolTraceFacts.v:
      scripts/validate_protocol_trace.py.  LogRing.v and LogRingFacts.v:
      scripts/validate_log_ring_trace.py.  The TLC process is the parameter [tlc],
      from module and configuration to the text it prints.  Theorems: what a
      parsed window satisfies, that parsing does not depend on how the streams were
      interleaved, that the observations are the latest reports, the opening state,
      the rebased stamps, and that exit status 0 means exactly that TLC matched the
      whole window and every required step was taken.
    - The verdict line, scripts/pass_line.py: PassLine.v.
    - ext2 equivalence.  Ext2Eq.v and Ext2EqFacts.v: scripts/ext2_eq.py, with
      debugfs, dumpe2fs and qemu-user as the class [Ext2Tools].  Ext2Host.v (the
      oracle and the comparison) and Ext2Gen.v (generator, campaign, faults, hostile
      images, scenarios, self-test, [main]): scripts/ext2_host.py, with the program
      under test, e2fsck and mke2fs as [HostTools] and host Linux's system calls as
      [LinuxFs], whose law [LinuxLaw] an in-memory file system satisfies.
      Ext2GenFacts.v: the generator refines a transition relation on its model of
      the tree, which is well formed after every round, and is stable in its
      prefixes.  Ext2HostFacts.v: the replay of a failed write,
      the block bound, the near-full scenario, the end of the fault run, and the
      replay mode that raises.  Ext2EqFacts.v: well-formed rows and their round
      trip, the meaning of a passing comparison, the end of the walk.
    - Integer overflow, scripts/survey_integer_overflow.py: Overflow.v.
      OverflowFacts.v: an operation the table calls proven overflows in no build, on a
      target of 32 or 64 bits, for all operands the compiler's facts allow, but for the
      isize division whose 32-bit proof is not one for 64 bits.
    - Compiler fuzzer, scripts/fuzz_compiler.py: Fuzz.v, with the compilers and the
      compiled probe as [FuzzTools].  FuzzFacts.v: exact bounds and i32 outputs of
      the probes, the reduction ends and keeps the failure, a PASS accounts for
      every case.
    - Source scans, scripts/source_scan.py and scripts/function_source.py, on which
      the textual audits rest: SourceScan.v.  SourceScanFacts.v: the blanked text
      keeps its layout and, scanned again, its literals and no comment; a function's
      source runs from its header to the brace that closes its body.
    - Range obligations, scripts/buildcheck_range_obligations.py:
      RangeObligations.v, with z3 as the class [Z3] and MD5 as an argument.
      RangeObligationsFacts.v: the canonical form decides equality up to a renaming
      of atoms; under the laws [z3_laws], a run without reports means that every
      obligation is unsatisfiable, and the cache keeps that meaning.
    - Stack frames, scripts/buildcheck_frame_size.py: FrameSize.v.
      FrameSizeFacts.v: the frames of a printed listing, the meaning of the status,
      and the spelling of an offset that is not counted.
    - Call graph audits.  CallGraph.v and CallGraphFacts.v: the table of calls that
      the compiler writes, scripts/call_graph_table.py, and its round trip.  Five
      checks read it, all named scripts/buildcheck_*.py, each with its negative
      controls and [main]: MutationGuard.v (ext2_mutation_guard: callers of what
      reaches a block write hold the guard), ReaderWait.v (ext2_reader_self_wait: no
      counted reader comes to the guard's take), ReleaseLog.v (ext2_release_log:
      releases write through the undo log), AllowedCallers.v (allowed_callers: the
      users of a function are the reviewed ones) and WorldStop.v (world_stop_rank:
      the stop has the lowest lock rank).  The Facts files, and WorldStop.v itself,
      say that a check finds no problem exactly when the graph has the property,
      stated with the reflexive transitive closure of the calls; that the
      breadth-first search finds a shortest chain, the fixpoint all writers and the
      walk each function once; and that the controls of a rule are always refused.
      They assume one row for each name, which the compiler ensures: it refuses a
      second definition of a name.
    - Kernel globals, scripts/buildcheck_global_protection.py: GlobalProtection.v, the
      compiler's table of globals, the allow-list and its edits.
      GlobalProtectionFacts.v: [main] passes exactly when the list reads well, is the set
      of unprotected or scratch globals of production code, and its readers exist;
      [--prune] removes exactly the stale rows, or writes nothing.
    - Memory map, scripts/buildcheck_kernel_memory_map.py: MemoryMap.v, the tables of
      the document, the symbols of the two kernels, the refresh, the checks and the
      boot expectations.  MemoryMapFacts.v: the check passes exactly when document and
      build agree; a refresh is idempotent and what it writes passes, but for a
      negative offset, which is written as no number; the page counts and their bounds;
      a tagged row outside its table that is not read.
    - Slot pools, scripts/check_slot_pool_entries.py: SlotPool.v, the functions of the
      kernel's sources with their calls, the holders of slots, the rules of the pools
      and their order.  SlotPoolFacts.v: the search and the fixpoint are exact, the
      check passes exactly when the rules hold along all chains of calls, a pool's own
      acquire being exempt from the order, and the waits between pools then form no
      cycle; a second slot of one's own pool, taken through another file, is not seen.
    - Function map of the models, scripts/buildcheck_model_function_map.py:
      FunctionMap.v, the tables that map the actions of the TLA+ models to functions, the
      stamps of their review, the recorded digests and the refresh, with SHA-256 as an
      argument.  FunctionMapFacts.v: a row keeps its stamp exactly when the compiled
      bodies of the lower-case names it covers are the same; a refresh leaves nothing but
      the errors of the rows' content; the check reports exactly the rows that are not
      justified or not current; names with a capital letter, which the stamp does not
      cover, and the planted rows, which are refused for their empty stamp whatever they
      plant.
    - Network tests.  NetFrame.v: the Ethernet, IP, TCP, ICMP and ARP frames that the
      tests build and their checksums.  NetLink.v: a raw socket and the clock as the
      class [Link], the monad of the programs over it, and the laws [LinkLaws] that the
      theorems use: time passes in a receive, and what has been heard is kept.
      ArpTest.v (scripts/eth_arp_reply_test.py), IcmpTest.v
      (scripts/eth_icmp_echo_test.py) and TcpEcho.v (scripts/eth_tcp_echo_test.py): the
      tests and [main].  Theorems: a frame decodes to its arguments and its checksums
      verify; the ARP and ICMP runs end with status 0 exactly when the frames heard are
      the ones asked for (ArpTestFacts.v, IcmpTestFacts.v); the TCP client's loops end
      and take a prefix of the server's streams whatever is lost, repeated or out of
      order, and pass only on the expected streams, as long as the numbers stay below
      2^32; one that passes 2^32 is not reduced and raises (TcpEchoFacts.v, HttpdFacts.v).

    ** Fuel

    A bound is the length of what the loop consumes, one round more than needed:
    the input for the codecs and parsers, the limit of bytes for a write, the
    excluded values for an interval's ends, the budget and the width for the
    reduction, the names or entries of the table for the searches of the call graph.
    The theorems about those loops are total: they give the result.
    A loop up to a deadline has as many rounds as nanoseconds are left, counted in
    binary, because each receive takes at least one.  Draining a socket has the number
    of frames that come without a pause as an argument, with its law.
    Three loops have no bound in the source.  The walk of an image ends for a
    well-founded tree ([walk_reads_tree]), the fault run when the operation has no
    more writes ([fault_op_ends]), both with the fuel that suffices; the generator
    rejects draws, so it ends with the random numbers only, and the theorems about
    it speak of the runs that return.

    ** Not modelled

    Standard output and error are the returned lines, without the progress lines
    of long runs; temporary directories and permissions are left out or arguments,
    the clock too but for the network tests.  A socket's errors other than its timeout
    are not modelled.  Not modelled are argparse and usage messages; the parts that
    build something (the mutant compilers, make's dry run, rusage, the planted sources
    of the range obligations' failing control); floating-point figures (the MiB in a
    message of the memory map are exact below 2^53 bytes) and solving times; and
    the scripts that drive QEMU, GDB, a board or git, the textual audits of the
    source tree beyond their shared scanner and the slot pools, the other audits of the built kernel,
    the remaining transcript validators, the OCaml compiler and the kernel itself. *)
From stdpp Require Export base gmap list sorting strings numbers fin_maps.
From Stdlib Require Export ZArith Lia.
From Stdlib Require Import Ascii.

#[global] Open Scope Z_scope.

(** ** Python values

    A Python [int] is a [Z].  A [str] is the list of its code points and a
    [bytes] or [bytearray] the list of its byte values: both are [list Z]. *)

Abbreviation str := (list Z).
Abbreviation bytes := (list Z).

(** The code points of a string literal of the source. *)
Definition str_of (s : String.string) : str :=
  map (fun a => Z.of_N (N_of_ascii a)) (String.list_ascii_of_string s).

Notation "$ s" := (str_of s%string) (at level 1, s at level 0, format "$ s").

(** A double quote and a newline inside a source string. *)
Definition quo : str := [34].
Definition nl : str := [10].

(** Exceptions that a modelled function can raise.  [Custom] is an exception
    class the program declares, with its message; [OutOfFuel] is not a Python
    exception: it marks a loop that the model did not run to its end, and the
    termination theorems show that it never comes out. *)
Inductive exn : Type :=
| IndexError
| KeyError
| ValueError
| TypeError
| ZeroDivisionError
| StructError
| UnicodeError
| NameError
| Custom (cls : String.string) (msg : str)
| OutOfFuel.

Inductive res (A : Type) : Type :=
| Ok (a : A)
| Err (e : exn).
Arguments Ok {A} a.
Arguments Err {A} e.

#[global] Instance res_ret : MRet res := fun A a => Ok a.
#[global] Instance res_bind : MBind res := fun A B f m =>
  match m with Ok a => f a | Err e => Err e end.
#[global] Instance res_fmap : FMap res := fun A B f m =>
  match m with Ok a => Ok (f a) | Err e => Err e end.

#[global] Instance exn_eq_dec : EqDecision exn.
Proof. solve_decision. Defined.
#[global] Instance res_eq_dec {A} `{EqDecision A} : EqDecision (res A).
Proof. solve_decision. Defined.

(** [raise e unless b]: the guard of an early error exit. *)
Definition require (b : bool) (e : exn) : res unit := if b then Ok () else Err e.

Definition of_option {A} (e : exn) (o : option A) : res A :=
  match o with Some a => Ok a | None => Err e end.

Lemma bind_Ok_inv {A B} (m : res A) (f : A → res B) b :
  m ≫= f = Ok b → ∃ a, m = Ok a ∧ f a = Ok b.
Proof. destruct m; cbn; naive_solver. Qed.

Lemma bind_Ok {A B} (m : res A) (f : A → res B) a r : m = Ok a → f a = r → m ≫= f = r.
Proof. by intros -> <-. Qed.

Lemma fmap_Ok_inv {A B} (m : res A) (f : A → B) b :
  f <$> m = Ok b → ∃ a, m = Ok a ∧ b = f a.
Proof. destruct m; cbn; naive_solver. Qed.

Lemma require_Ok_inv b e u : require b e = Ok u → b = true.
Proof. destruct b; done. Qed.

Lemma of_option_Ok_inv {A} e (o : option A) a : of_option e o = Ok a → o = Some a.
Proof. destruct o; cbn; naive_solver. Qed.

(** Inverts every successful monadic step among the hypotheses. *)
Ltac res_inv :=
  repeat match goal with
  | H : _ ≫= _ = Ok _ |- _ => apply bind_Ok_inv in H as (? & ? & H)
  | H : _ <$> _ = Ok _ |- _ => apply fmap_Ok_inv in H as (? & ? & ?)
  | H : require _ _ = Ok _ |- _ => apply require_Ok_inv in H
  | H : of_option _ _ = Ok _ |- _ => apply of_option_Ok_inv in H
  | H : Ok _ = Ok _ |- _ => injection H as H
  | H : Err _ = Ok _ |- _ => discriminate H
  | H : mret _ = Ok _ |- _ => injection H as H
  end; simplify_eq.

(** Turns the boolean comparisons of the code into propositions. *)
Ltac zbool :=
  repeat match goal with
  | H : (_ && _)%bool = true |- _ => apply andb_true_iff in H as [? ?]
  | H : (_ && _)%bool = false |- _ => apply andb_false_iff in H
  | H : (_ || _)%bool = false |- _ => apply orb_false_iff in H as [? ?]
  | H : (_ || _)%bool = true |- _ => apply orb_true_iff in H
  | H : negb _ = true |- _ => apply negb_true_iff in H
  | H : negb _ = false |- _ => apply negb_false_iff in H
  | H : (_ <? _) = true |- _ => apply Z.ltb_lt in H
  | H : (_ <? _) = false |- _ => apply Z.ltb_ge in H
  | H : (_ <=? _) = true |- _ => apply Z.leb_le in H
  | H : (_ <=? _) = false |- _ => apply Z.leb_gt in H
  | H : (_ =? _) = true |- _ => apply Z.eqb_eq in H
  | H : (_ =? _) = false |- _ => apply Z.eqb_neq in H
  | H : bool_decide _ = true |- _ => apply bool_decide_eq_true in H
  | H : bool_decide _ = false |- _ => apply bool_decide_eq_false in H
  end.

(** Case analysis on the condition of the [if] in the goal. *)
Ltac zcase :=
  match goal with
  | |- context [if ?b then _ else _] =>
      lazymatch type of b with
      | bool => let E := fresh "E" in destruct b eqn:E; zbool
      | _ => case_decide
      end
  end.

(** Proves a closed decidable goal by evaluation.  The decision procedure of an
    equation is found from its type alone. *)
Lemma eq_by_decide {A} (eq_dec : EqDecision A) (x y : A) : bool_decide (x = y) = true → x = y.
Proof. apply bool_decide_eq_true_1. Qed.

Ltac by_compute :=
  match goal with
  | |- @eq ?A ?x ?y => apply (@eq_by_decide A _ x y); vm_compute; reflexivity
  | |- ?P => apply (@bool_decide_eq_true_1 P _); vm_compute; reflexivity
  end.

(** ** Loops

    A [while] loop is a body that either goes on with a new state or stops
    with the function's result; [iterate] runs it. *)

Inductive flow (S R : Type) : Type :=
| Next (s : S)
| Stop (r : R).
Arguments Next {S R} s.
Arguments Stop {S R} r.

Fixpoint iterate {S R} (fuel : nat) (body : S → flow S R) (s : S) : option R :=
  match fuel with
  | O => None
  | Datatypes.S fuel =>
      match body s with
      | Next s' => iterate fuel body s'
      | Stop r => Some r
      end
  end.

Definition while {S A} (fuel : nat) (body : S → flow S (res A)) (s : S) : res A :=
  default (Err OutOfFuel) (iterate fuel body s).

(** Lets a body that can raise be written in the monad: an exception ends the
    loop with that exception. *)
Definition try_flow {S A} (m : res (flow S (res A))) : flow S (res A) :=
  match m with Ok f => f | Err e => Stop (Err e) end.

Section loops.
Context {S R : Type}.
Implicit Types (body : S → flow S R) (I : S → Prop) (Q : R → Prop).

(** Partial correctness: an invariant of the body holds when the loop ends. *)
Lemma iterate_inv body I Q fuel s r :
  (∀ s, I s → match body s with Next s' => I s' | Stop r => Q r end) →
  I s → iterate fuel body s = Some r → Q r.
Proof.
  intros Hstep. revert s. induction fuel as [|fuel IH]; intros s Hs; [done|].
  cbn. specialize (Hstep s Hs). destruct (body s); naive_solver.
Qed.

(** Total correctness: a decreasing measure below the fuel makes the loop
    end, with the invariant. *)
Lemma iterate_total body I Q (μ : S → nat) fuel s :
  (∀ s, I s → match body s with Next s' => I s' ∧ (μ s' < μ s)%nat | Stop r => Q r end) →
  I s → (μ s < fuel)%nat → ∃ r, iterate fuel body s = Some r ∧ Q r.
Proof.
  intros Hstep. revert s. induction fuel as [|fuel IH]; intros s Hs Hlt; [lia|].
  cbn. specialize (Hstep s Hs). destruct (body s) as [s'|r]; [|eauto].
  destruct Hstep as [Hs' Hμ]. apply IH; [done|lia].
Qed.

Lemma iterate_mono body fuel fuel' s r :
  iterate fuel body s = Some r → (fuel ≤ fuel')%nat → iterate fuel' body s = Some r.
Proof.
  revert fuel' s. induction fuel as [|fuel IH]; intros fuel' s; [done|].
  intros Hit Hle. destruct fuel' as [|fuel']; [lia|]. cbn in *.
  destruct (body s); [|done]. apply IH; [done|lia].
Qed.
End loops.

Lemma while_total {S A} (body : S → flow S (res A)) (I : S → Prop) (Q : res A → Prop)
    (μ : S → nat) fuel s :
  (∀ s, I s → match body s with Next s' => I s' ∧ (μ s' < μ s)%nat | Stop r => Q r end) →
  I s → (μ s < fuel)%nat → Q (while fuel body s).
Proof.
  intros H1 H2 H3. unfold while.
  destruct (iterate_total body I Q μ fuel s H1 H2 H3) as (r & -> & Hr). done.
Qed.

Lemma while_inv {S A} (body : S → flow S (res A)) (I : S → Prop) (Q : res A → Prop)
    fuel s :
  (∀ s, I s → match body s with Next s' => I s' | Stop r => Q r end) →
  I s → Q (Err OutOfFuel) → Q (while fuel body s).
Proof.
  intros H1 H2 H3. unfold while.
  destruct (iterate fuel body s) as [r|] eqn:E; [|done].
  cbn. exact (iterate_inv body I Q fuel s r H1 H2 E).
Qed.

(** A [for] loop over a list whose body can raise. *)
Fixpoint foldM {S A} (f : S → A → res S) (s : S) (l : list A) : res S :=
  match l with
  | [] => Ok s
  | a :: l => s' ← f s a; foldM f s' l
  end.

Lemma foldM_app {S A} (f : S → A → res S) s l1 l2 :
  foldM f s (l1 ++ l2) = s' ← foldM f s l1; foldM f s' l2.
Proof.
  revert s. induction l1 as [|a l1 IH]; intros s; [done|].
  cbn. destruct (f s a); cbn; [apply IH|done].
Qed.

Lemma foldM_inv {S A} (f : S → A → res S) (I : S → Prop) s l s' :
  (∀ s a s', a ∈ l → I s → f s a = Ok s' → I s') →
  I s → foldM f s l = Ok s' → I s'.
Proof.
  revert s. induction l as [|a l IH]; intros s Hf Hs H; cbn in H; res_inv; [done|].
  eapply IH; [|by eapply Hf; [left| |]|done].
  intros; eapply Hf; [by right| |]; done.
Qed.

(** A comprehension whose element can raise. *)
Fixpoint mapM_res {A B} (f : A → res B) (l : list A) : res (list B) :=
  match l with
  | [] => Ok []
  | a :: l => b ← f a; bs ← mapM_res f l; Ok (b :: bs)
  end.

Lemma mapM_res_ok {A B} (f : A → res B) (g : A → B) l :
  Forall (fun a => f a = Ok (g a)) l → mapM_res f l = Ok (map g l).
Proof. induction 1 as [|a l Ha _ IH]; cbn; [done|]. by rewrite Ha, IH. Qed.

Lemma mapM_res_total {A B} (f : A → res B) l :
  Forall (fun a => ∃ b, f a = Ok b) l → ∃ bs, mapM_res f l = Ok bs.
Proof.
  induction 1 as [|a l [b Hb] _ [bs IH]]; [by exists []|]. exists (b :: bs). cbn. by rewrite Hb, IH.
Qed.

Lemma mapM_res_err {A B} (f : A → res B) l e :
  mapM_res f l = Err e → ∃ a, a ∈ l ∧ f a = Err e.
Proof.
  induction l as [|a l IH]; cbn; [done|]. destruct (f a) as [b|e'] eqn:Ea; cbn [mbind res_bind].
  - destruct (mapM_res f l); cbn; [done|]. intros H. destruct (IH H) as (a' & ? & ?).
    exists a'. split; [by right|done].
  - intros [= ->]. exists a. split; [by left|done].
Qed.

Lemma mapM_res_Forall2 {A B} (f : A → res B) l bs :
  mapM_res f l = Ok bs ↔ Forall2 (fun a b => f a = Ok b) l bs.
Proof.
  split.
  - revert bs. induction l as [|a l IH]; intros bs H; cbn in H.
    + injection H as <-. constructor.
    + apply bind_Ok_inv in H as (b & Hb & H). apply bind_Ok_inv in H as (bs' & Hbs & [= <-]).
      constructor; [done|by apply IH].
  - induction 1 as [|a b l bs Hb _ IH]; cbn; [done|]. by rewrite Hb, IH.
Qed.

(** Python's [range(a, b, k)] for a positive step. *)
Definition py_range (a b k : Z) : list Z :=
  map (fun i => a + k * Z.of_nat i) (seq 0 (Z.to_nat ((b - a + k - 1) / k))).

Definition zrange (n : Z) : list Z := py_range 0 n 1.

Lemma elem_of_py_range a b k x :
  0 < k → x ∈ py_range a b k → a ≤ x < b.
Proof.
  intros Hk. unfold py_range. rewrite list_elem_of_fmap.
  intros (i & -> & Hi%elem_of_seq).
  assert (Z.of_nat i < (b - a + k - 1) / k) by lia.
  assert (k * ((b - a + k - 1) / k) ≤ b - a + k - 1) by (apply Z.mul_div_le; lia).
  nia.
Qed.

Lemma zrange_seq n : zrange n = map Z.of_nat (seq 0 (Z.to_nat n)).
Proof.
  unfold zrange, py_range. rewrite Z.div_1_r.
  replace (n - 0 + 1 - 1) with n by lia.
  apply map_ext. intros; lia.
Qed.

Lemma elem_of_zrange n x : x ∈ zrange n ↔ 0 ≤ x < n.
Proof.
  rewrite zrange_seq, list_elem_of_fmap. setoid_rewrite elem_of_seq. split.
  - intros (i & -> & Hi). lia.
  - intros Hx. exists (Z.to_nat x). lia.
Qed.

(** ** Lists by integer index *)

Definition zlen {A} (l : list A) : Z := Z.of_nat (length l).

(** [l[a:b]] for [0 <= a]. *)
Definition slice {A} (l : list A) (a b : Z) : list A :=
  take (Z.to_nat (b - a)) (drop (Z.to_nat a) l).

(** [l[a:]] for [0 <= a]. *)
Definition from {A} (l : list A) (a : Z) : list A := drop (Z.to_nat a) l.

(** [l[i]] for [0 <= i]: [IndexError] past the end. *)
Definition item {A} (l : list A) (i : Z) : res A :=
  of_option IndexError (l !! Z.to_nat i).

(** [l[i]] for any [i]: a negative index counts from the end. *)
Definition py_item {A} (l : list A) (i : Z) : res A :=
  let i := if i <? 0 then zlen l + i else i in
  if i <? 0 then Err IndexError else item l i.

Definition zeros (n : Z) : bytes := replicate (Z.to_nat n) 0.

Section zlists.
Context {A : Type}.
Implicit Types (l k : list A).

Lemma zlen_nonneg l : 0 ≤ zlen l.
Proof. unfold zlen. lia. Qed.
Lemma zlen_nil : zlen (@nil A) = 0.
Proof. done. Qed.
Lemma zlen_cons a l : zlen (a :: l) = 1 + zlen l.
Proof. unfold zlen. cbn [length]. lia. Qed.
Lemma zlen_app l k : zlen (l ++ k) = zlen l + zlen k.
Proof. unfold zlen. rewrite length_app. lia. Qed.
Lemma zlen_replicate n (a : A) : zlen (replicate n a) = Z.of_nat n.
Proof. unfold zlen. by rewrite length_replicate. Qed.
Lemma zlen_slice l a b : 0 ≤ a ≤ b → b ≤ zlen l → zlen (slice l a b) = b - a.
Proof. unfold zlen, slice. rewrite length_take, length_drop. lia. Qed.
Lemma zlen_0_inv l : zlen l = 0 → l = [].
Proof. unfold zlen. destruct l; cbn [length]; [done|lia]. Qed.

Lemma zlen_pos l : 0 < zlen l ↔ l ≠ [].
Proof. destruct l; [done|]. rewrite zlen_cons. pose proof (zlen_nonneg l). split; [done|lia]. Qed.

Lemma slice_app l k a : a = zlen l → slice (l ++ k) 0 a = l.
Proof.
  intros ->. unfold slice, zlen. rewrite drop_0.
  replace (Z.to_nat (Z.of_nat (length l) - 0)) with (length l) by lia.
  by rewrite take_app_length.
Qed.

Lemma slice_mid l m r a b :
  a = zlen l → b = a + zlen m → slice (l ++ m ++ r) a b = m.
Proof.
  intros -> ->. unfold slice, zlen.
  replace (Z.to_nat (Z.of_nat (length l))) with (length l) by lia.
  rewrite drop_app_length.
  replace (Z.to_nat _) with (length m) by lia.
  by rewrite take_app_length.
Qed.

Lemma from_app l k a : a = zlen l → from (l ++ k) a = k.
Proof.
  intros ->. unfold from, zlen. rewrite Nat2Z.id. apply drop_app_length.
Qed.

Lemma item_app l k a i : i = zlen l → item (l ++ a :: k) i = Ok a.
Proof.
  intros ->. unfold item, zlen. rewrite Nat2Z.id.
  by rewrite list_lookup_middle.
Qed.

Lemma item_app_r l k i j : 0 ≤ j → i = zlen l + j → item (l ++ k) i = item k j.
Proof.
  intros ? ->. unfold item, zlen. rewrite lookup_app_r by lia. do 2 f_equal. lia.
Qed.

Lemma item_app_l l k i : 0 ≤ i < zlen l → item (l ++ k) i = item l i.
Proof. unfold item, zlen. intros ?. by rewrite lookup_app_l by lia. Qed.

Lemma item_replicate n (a : A) i : 0 ≤ i < Z.of_nat n → item (replicate n a) i = Ok a.
Proof. intros ?. unfold item. by rewrite lookup_replicate_2 by lia. Qed.

Lemma item_lookup l i a : item l i = Ok a ↔ l !! Z.to_nat i = Some a.
Proof. unfold item. destruct (l !! _); cbn; naive_solver. Qed.

Lemma item_inv l i a : 0 ≤ i → item l i = Ok a → i < zlen l.
Proof.
  intros Hi Ha%item_lookup%lookup_lt_Some. unfold zlen. lia.
Qed.

Lemma item_ok l i : 0 ≤ i < zlen l → ∃ a, item l i = Ok a.
Proof.
  intros Hi. destruct (lookup_lt_is_Some_2 l (Z.to_nat i)) as [a Ha].
  { unfold zlen in Hi. lia. }
  exists a. by apply item_lookup.
Qed.

Lemma slice_slice_app l a b c :
  0 ≤ a ≤ b → b ≤ c → slice l a b ++ slice l b c = slice l a c.
Proof.
  intros ? ?. unfold slice.
  replace (Z.to_nat (c - a)) with (Z.to_nat (b - a) + Z.to_nat (c - b))%nat by lia.
  replace (Z.to_nat b) with (Z.to_nat a + Z.to_nat (b - a))%nat by lia.
  rewrite <- drop_drop. apply take_take_drop.
Qed.

Lemma slice_all l : slice l 0 (zlen l) = l.
Proof.
  unfold slice. rewrite drop_0. apply take_ge. unfold zlen. lia.
Qed.

Lemma slice_from_split l a : 0 ≤ a → slice l 0 a ++ from l a = l.
Proof.
  intros ?. unfold slice, from. rewrite drop_0.
  replace (Z.to_nat (a - 0)) with (Z.to_nat a) by lia. apply take_drop.
Qed.

Lemma slice_from l a b : b = zlen l → slice l a b = from l a.
Proof.
  intros ->. unfold slice, from. apply take_ge. rewrite length_drop.
  unfold zlen. lia.
Qed.

(** Slices of a list that is put together. *)
Lemma slice_skip l k a b : 0 ≤ a → slice (l ++ k) (zlen l + a) (zlen l + b) = slice k a b.
Proof.
  intros Ha. unfold slice, zlen. replace (Z.of_nat (length l) + b - (Z.of_nat (length l) + a)) with (b - a) by lia.
  f_equal. rewrite Z2Nat.inj_add, Nat2Z.id by lia. by rewrite drop_app_add.
Qed.

Lemma slice_slice l a b i j : 0 ≤ a → 0 ≤ i ≤ j → a + j ≤ b → slice (slice l a b) i j = slice l (a + i) (a + j).
Proof.
  intros Ha Hi Hj. unfold slice. rewrite skipn_firstn_comm, take_take, drop_drop. f_equal; [lia|]. f_equal. lia.
Qed.

Lemma slice_within l k a b : 0 ≤ a → b ≤ zlen l → slice (l ++ k) a b = slice l a b.
Proof.
  intros Ha Hb. unfold slice, zlen in *. destruct (decide (b ≤ a)) as [|]; [by rewrite !(Z2Nat.nonpos (b - a)) by lia|].
  rewrite drop_app_le by lia. apply take_app_le. rewrite length_drop. lia.
Qed.

Lemma from_skip l k a : 0 ≤ a → from (l ++ k) (zlen l + a) = from k a.
Proof. intros Ha. unfold from, zlen. rewrite Z2Nat.inj_add, Nat2Z.id by lia. by rewrite drop_app_add. Qed.

Lemma slice_snoc l a b x :
  0 ≤ a ≤ b → item l b = Ok x → slice l a (b + 1) = slice l a b ++ [x].
Proof.
  intros ? Hx%item_lookup. unfold slice.
  replace (Z.to_nat (b + 1 - a)) with (S (Z.to_nat (b - a))) by lia.
  erewrite take_S_r; [done|]. rewrite lookup_drop.
  replace (Z.to_nat a + Z.to_nat (b - a))%nat with (Z.to_nat b) by lia. done.
Qed.

Lemma item_slice l a b i :
  0 ≤ a → 0 ≤ i < b - a → item (slice l a b) i = item l (a + i).
Proof.
  intros ? ?. unfold item, slice. rewrite lookup_take_lt, lookup_drop by lia.
  by replace (Z.to_nat a + Z.to_nat i)%nat with (Z.to_nat (a + i)) by lia.
Qed.
End zlists.

Create HintDb py.
Create Rewrite HintDb py.
#[export] Hint Rewrite @zlen_nil @zlen_cons @zlen_app @zlen_replicate : py.
#[export] Hint Resolve zlen_nonneg : py.

(** Adds that every length of the goal and of the hypotheses is nonnegative. *)
Ltac zpos :=
  let add l :=
    lazymatch goal with
    | _ : 0 ≤ zlen l |- _ => fail
    | |- _ => pose proof (zlen_nonneg l)
    end in
  repeat match goal with
  | |- context [zlen ?l] => add l
  | _ : context [zlen ?l] |- _ => add l
  end.

(** Normalises the lengths of the goal and decides it. *)
Ltac zl := autorewrite with py in *; zpos; try lia.

Lemma mapM_res_Ok {A B} (f : A → res B) (l : list A) : (∀ a, a ∈ l → ∃ b, f a = Ok b) →
  ∃ bs, mapM_res f l = Ok bs ∧ length bs = length l.
Proof.
  induction l as [|a l IH]; intros Hf; [by exists []|]. destruct (Hf a) as [b Eb]; [left|].
  destruct IH as (bs & Ebs & Hl); [intros; apply Hf; by right|]. exists (b :: bs). cbn [mapM_res]. rewrite Eb. cbn [mbind res_bind].
  rewrite Ebs. split; [done|]. cbn. by rewrite Hl.
Qed.

Lemma filter_empty_iff {A} (P : A → Prop) `{∀ x, Decision (P x)} l : filter P l = [] ↔ ∀ x, x ∈ l → ¬ P x.
Proof.
  split.
  - intros E x Hx HP. assert (x ∈ filter P l) as Hf by by apply list_elem_of_filter. rewrite E in Hf. by apply not_elem_of_nil in Hf.
  - intros Hall. destruct (filter P l) as [|x k] eqn:E; [done|]. assert (x ∈ filter P l) as [HP Hx]%list_elem_of_filter by (rewrite E; left).
    by destruct (Hall x Hx).
Qed.

Lemma filter_map {A B} (f : A → B) (P : B → Prop) `{∀ x, Decision (P x)} l : filter P (map f l) = map f (filter (fun a => P (f a)) l).
Proof. induction l as [|a l IH]; [done|]. cbn [map]. rewrite !filter_cons. by case_decide; cbn; rewrite IH. Qed.

Lemma filter_ext_in {A} (P Q : A → Prop) `{∀ x, Decision (P x)} `{∀ x, Decision (Q x)} (l : list A) :
  (∀ a, a ∈ l → P a ↔ Q a) → filter P l = filter Q l.
Proof.
  induction l as [|a l IH]; intros Hpq; [done|]. rewrite !filter_cons, IH by (intros; apply Hpq; by right).
  destruct (Hpq a ltac:(left)). repeat case_decide; tauto.
Qed.

Lemma NoDup_map_filter {A B} (f : A → B) (P : A → Prop) `{∀ x, Decision (P x)} l : NoDup (map f l) → NoDup (map f (filter P l)).
Proof.
  intros Hn. eapply sublist_NoDup; [exact Hn|]. clear Hn. induction l as [|a l IH]; [constructor|]. rewrite filter_cons. case_decide; cbn.
  - by apply sublist_skip.
  - by apply sublist_cons.
Qed.

Lemma existsb_none {A} (f : A → bool) l : (∀ a, a ∈ l → f a = false) → existsb f l = false.
Proof.
  intros Hf. destruct (existsb f l) eqn:E; [|done]. apply existsb_exists in E as (a & Hin%list_elem_of_In & Ha). by rewrite Hf in Ha.
Qed.

Lemma concat_nil {A} (ls : list (list A)) : concat ls = [] ↔ ∀ l, l ∈ ls → l = [].
Proof.
  induction ls as [|l ls IH]; cbn; [split; [by intros _ l ?%not_elem_of_nil|done]|]. rewrite app_nil, IH. setoid_rewrite elem_of_cons. naive_solver.
Qed.

Lemma concat_map_nil {A B} (f : A → list B) l : concat (map f l) = [] ↔ ∀ a, a ∈ l → f a = [].
Proof. rewrite concat_nil. setoid_rewrite list_elem_of_fmap. naive_solver. Qed.

(** Nothing is found when nothing is found in any of the parts. *)
Lemma problems_none {A B} (f : A → res (list B)) rows :
  (problems ← mapM_res f rows; Ok (concat problems)) = Ok [] ↔ Forall (fun row => f row = Ok []) rows.
Proof.
  split.
  - intros (ps & Hps%mapM_res_Forall2 & [= E])%bind_Ok_inv. rewrite concat_nil in E. induction Hps as [|row p rows ps Hp _ IH]; [constructor|].
    rewrite (E p) in Hp by left. constructor; [done|]. apply IH. intros l Hl. apply E. by right.
  - intros H. rewrite (mapM_res_ok _ (fun _ => [])) by done. cbn [mbind res_bind]. f_equal. apply concat_map_nil. done.
Qed.
