(* ===== verification/Bytes.v ===== *)
(** * Byte strings

    What the scripts use of Python's [struct] module and of [bytearray]: the
    fixed-width little- and big-endian fields ([struct.pack] and
    [struct.unpack_from] raise [struct.error] outside the width or past the
    buffer), [bytearray.append], and bit counting.  The round-trip lemmas here
    carry the ones of the containers ([Lz4Container], [Fdt]). *)
From S2P Require Import Prelude.

Definition is_byte (b : Z) : Prop := 0 ≤ b < 256.

(** [bytearray.append]. *)
Definition push (out : bytes) (b : Z) : res bytes :=
  if (0 <=? b) && (b <? 256) then Ok (out ++ [b]) else Err ValueError.

Fixpoint le_bytes (n : nat) (z : Z) : bytes :=
  match n with
  | O => []
  | S n => z mod 256 :: le_bytes n (z / 256)
  end.

Fixpoint le_value (l : bytes) : Z :=
  match l with
  | [] => 0
  | b :: l => b + 256 * le_value l
  end.

Definition be_bytes (n : nat) (z : Z) : bytes := reverse (le_bytes n z).
Definition be_value (l : bytes) : Z := le_value (reverse l).

(** [struct.pack] of one unsigned field of [n] bytes. *)
Definition pack_le (n : nat) (z : Z) : res bytes :=
  if (0 <=? z) && (z <? 256 ^ Z.of_nat n) then Ok (le_bytes n z) else Err StructError.
Definition pack_be (n : nat) (z : Z) : res bytes :=
  if (0 <=? z) && (z <? 256 ^ Z.of_nat n) then Ok (be_bytes n z) else Err StructError.

(** [struct.unpack_from] of one unsigned field of [n] bytes. *)
Definition unpack_le (n : nat) (buf : bytes) (at_ : Z) : res Z :=
  if at_ + Z.of_nat n <=? zlen buf
  then Ok (le_value (slice buf at_ (at_ + Z.of_nat n))) else Err StructError.
Definition unpack_be (n : nat) (buf : bytes) (at_ : Z) : res Z :=
  if at_ + Z.of_nat n <=? zlen buf
  then Ok (be_value (slice buf at_ (at_ + Z.of_nat n))) else Err StructError.

(** [bin(z).count("1")] for [0 <= z]. *)
Fixpoint pos_popcount (p : positive) : Z :=
  match p with
  | xH => 1
  | xO p => pos_popcount p
  | xI p => 1 + pos_popcount p
  end.
Definition popcount (z : Z) : Z :=
  match z with Zpos p => pos_popcount p | _ => 0 end.

(** ** Lemmas *)

Lemma length_le_bytes n z : length (le_bytes n z) = n.
Proof. revert z. induction n; intros z; cbn; [done|by rewrite IHn]. Qed.

Lemma zlen_le_bytes n z : zlen (le_bytes n z) = Z.of_nat n.
Proof. unfold zlen. by rewrite length_le_bytes. Qed.

Lemma zlen_be_bytes n z : zlen (be_bytes n z) = Z.of_nat n.
Proof. unfold zlen, be_bytes. by rewrite length_reverse, length_le_bytes. Qed.

#[export] Hint Rewrite zlen_le_bytes zlen_be_bytes : py.

Lemma le_bytes_is_byte n z : Forall is_byte (le_bytes n z).
Proof.
  revert z. induction n; intros z; cbn; constructor; [|done].
  unfold is_byte. apply Z.mod_pos_bound. lia.
Qed.

Lemma le_value_le_bytes n z :
  0 ≤ z < 256 ^ Z.of_nat n → le_value (le_bytes n z) = z.
Proof.
  revert z. induction n as [|n IH]; intros z Hz; cbn [le_bytes le_value].
  { change (256 ^ Z.of_nat 0) with 1 in Hz. lia. }
  rewrite IH.
  - pose proof (Z.div_mod z 256). lia.
  - rewrite Nat2Z.inj_succ, Z.pow_succ_r in Hz by lia. split.
    + apply Z.div_pos; lia.
    + apply Z.div_lt_upper_bound; lia.
Qed.

Lemma be_value_be_bytes n z :
  0 ≤ z < 256 ^ Z.of_nat n → be_value (be_bytes n z) = z.
Proof.
  intros. unfold be_value, be_bytes. rewrite reverse_involutive. by apply le_value_le_bytes.
Qed.

Lemma le_value_bound l : Forall is_byte l → 0 ≤ le_value l < 256 ^ zlen l.
Proof.
  induction 1 as [|b l [Hb1 Hb2] _ IH]; cbn [le_value]; [done|].
  pose proof (zlen_nonneg l). rewrite zlen_cons, Z.pow_add_r by lia. lia.
Qed.

Lemma pack_le_ok n z : 0 ≤ z < 256 ^ Z.of_nat n → pack_le n z = Ok (le_bytes n z).
Proof.
  intros [? ?]. unfold pack_le.
  by rewrite (proj2 (Z.leb_le _ _)), (proj2 (Z.ltb_lt _ _)).
Qed.

Lemma pack_be_ok n z : 0 ≤ z < 256 ^ Z.of_nat n → pack_be n z = Ok (be_bytes n z).
Proof.
  intros [? ?]. unfold pack_be.
  by rewrite (proj2 (Z.leb_le _ _)), (proj2 (Z.ltb_lt _ _)).
Qed.

Lemma pack_le_inv n z l :
  pack_le n z = Ok l → l = le_bytes n z ∧ 0 ≤ z < 256 ^ Z.of_nat n.
Proof. unfold pack_le. zcase; intros; res_inv; done. Qed.

Lemma pack_be_inv n z l :
  pack_be n z = Ok l → l = be_bytes n z ∧ 0 ≤ z < 256 ^ Z.of_nat n.
Proof. unfold pack_be. zcase; intros; res_inv; done. Qed.

(** A field that was packed reads back where it was put. *)
Lemma unpack_le_app n z pre post at_ :
  0 ≤ z < 256 ^ Z.of_nat n → at_ = zlen pre →
  unpack_le n (pre ++ le_bytes n z ++ post) at_ = Ok z.
Proof.
  intros Hz ->. unfold unpack_le.
  rewrite (proj2 (Z.leb_le _ _)) by (pose proof (zlen_nonneg post); zl).
  rewrite slice_mid; [|done|by rewrite zlen_le_bytes].
  by rewrite le_value_le_bytes.
Qed.

Lemma unpack_be_app n z pre post at_ :
  0 ≤ z < 256 ^ Z.of_nat n → at_ = zlen pre →
  unpack_be n (pre ++ be_bytes n z ++ post) at_ = Ok z.
Proof.
  intros Hz ->. unfold unpack_be.
  rewrite (proj2 (Z.leb_le _ _)) by (pose proof (zlen_nonneg post); zl).
  rewrite slice_mid; [|done|by rewrite zlen_be_bytes].
  by rewrite be_value_be_bytes.
Qed.

Lemma push_ok out b : is_byte b → push out b = Ok (out ++ [b]).
Proof.
  intros [? ?]. unfold push.
  by rewrite (proj2 (Z.leb_le _ _)), (proj2 (Z.ltb_lt _ _)).
Qed.

Lemma push_inv out b out' : push out b = Ok out' → out' = out ++ [b] ∧ is_byte b.
Proof. unfold push. zcase; intros; res_inv; done. Qed.

(** A low field and a shifted high field do not overlap: [|] adds them. *)
Lemma lor_shiftl_add h l k :
  0 ≤ k → 0 ≤ l < 2 ^ k → Z.lor (Z.shiftl h k) l = h * 2 ^ k + l.
Proof.
  intros Hk Hl. rewrite Z.shiftl_mul_pow2 by lia.
  pose proof (Z.add_lor_land (h * 2 ^ k) l) as Hsum.
  assert (Z.land (h * 2 ^ k) l = 0) as Hand; [|lia].
  apply Z.bits_inj'. intros i Hi. rewrite Z.land_spec, Z.bits_0.
  destruct (Z_lt_dec i k).
  - rewrite Z.mul_pow2_bits_low by lia. done.
  - destruct (decide (l = 0)) as [->|]; [by rewrite Z.bits_0, andb_false_r|].
    rewrite (Z.bits_above_log2 l i), andb_false_r; [done|lia|].
    apply Z.log2_lt_pow2; [lia|].
    assert (2 ^ k ≤ 2 ^ i) by (apply Z.pow_le_mono_r; lia). lia.
Qed.

(** Two four-bit fields of a byte. *)
Lemma nibbles h l :
  0 ≤ l < 16 → Z.lor (Z.shiftl h 4) l = 16 * h + l.
Proof. intros Hl. rewrite lor_shiftl_add by lia. change (2 ^ 4) with 16. lia. Qed.

Lemma nibble_high h l : 0 ≤ h → 0 ≤ l < 16 → Z.shiftr (16 * h + l) 4 = h.
Proof.
  intros. rewrite Z.shiftr_div_pow2 by lia. change (2 ^ 4) with 16.
  rewrite Z.mul_comm, Z.div_add_l, Z.div_small by lia. lia.
Qed.

Lemma nibble_low h l : 0 ≤ l < 16 → Z.land (16 * h + l) 15 = l.
Proof.
  intros. change 15 with (Z.ones 4). rewrite Z.land_ones by lia.
  change (2 ^ 4) with 16. rewrite Z.add_comm, Z.mul_comm, Z.mod_add by lia.
  by apply Z.mod_small.
Qed.

(** The little-endian two-byte field spelled with [|] and [<<]. *)
Lemma lor_shiftl_8 b0 b1 :
  is_byte b0 → Z.lor b0 (Z.shiftl b1 8) = b0 + 256 * b1.
Proof.
  intros Hb. rewrite Z.lor_comm, lor_shiftl_add by (unfold is_byte in Hb; lia).
  change (2 ^ 8) with 256. lia.
Qed.

Lemma item_byte l i b : Forall is_byte l → item l i = Ok b → is_byte b.
Proof. intros Hl Hi%item_lookup. by eapply Forall_lookup_1 in Hi. Qed.

Lemma slice_byte l a b : Forall is_byte l → Forall is_byte (slice l a b).
Proof. intros. by apply Forall_take, Forall_drop. Qed.
