(* ===== verification/Text.v ===== *)
(** * Text

    What the scripts use of Python's [str]: classification of code points,
    searching, splitting, joining and stripping, and the conversions between
    integers and their decimal or hexadecimal spelling.  Letters and digits
    are the ASCII ones; white space and line boundaries are the full sets of
    [str.isspace] and [str.splitlines]. *)
From S2P Require Import Prelude.

(** ** Code points *)

Definition in_range (lo hi c : Z) : bool := (lo <=? c) && (c <=? hi).
Definition is_digit (c : Z) : bool := in_range 48 57 c.
Definition is_upper (c : Z) : bool := in_range 65 90 c.
Definition is_lower (c : Z) : bool := in_range 97 122 c.
Definition is_alpha (c : Z) : bool := is_upper c || is_lower c.
Definition is_alnum (c : Z) : bool := is_alpha c || is_digit c.
(** The regular expression class [\w], and the first character of a name. *)
Definition is_word (c : Z) : bool := is_alnum c || (c =? 95).
Definition is_ident_start (c : Z) : bool := is_alpha c || (c =? 95).
Definition is_hex_digit (c : Z) : bool := is_digit c || in_range 97 102 c || in_range 65 70 c.

Definition is_space (c : Z) : bool :=
  in_range 9 13 c || in_range 28 32 c || (c =? 0x85) || (c =? 0xA0) || (c =? 0x1680)
  || in_range 0x2000 0x200A c || (c =? 0x2028) || (c =? 0x2029) || (c =? 0x202F)
  || (c =? 0x205F) || (c =? 0x3000).

Definition is_linebreak (c : Z) : bool :=
  in_range 10 13 c || in_range 28 30 c || (c =? 0x85) || (c =? 0x2028) || (c =? 0x2029).

Definition is_ascii (s : str) : bool := forallb (in_range 0 127) s.

Definition lower_char (c : Z) : Z := if is_upper c then c + 32 else c.
Definition upper_char (c : Z) : Z := if is_lower c then c - 32 else c.
Definition lower (s : str) : str := map lower_char s.

(** ** Searching *)

Fixpoint startswith (s p : str) {struct p} : bool :=
  match p, s with
  | [], _ => true
  | c :: p, d :: s => (c =? d) && startswith s p
  | _ :: _, [] => false
  end.

(** [s[len(p):]] when [s] starts with [p]. *)
Fixpoint strip_prefix (p s : str) : option str :=
  match p, s with
  | [], _ => Some s
  | c :: p, d :: s => if c =? d then strip_prefix p s else None
  | _ :: _, [] => None
  end.

Definition endswith (s p : str) : bool := startswith (reverse s) (reverse p).

(** [s.find(p)], with [None] for -1. *)
Fixpoint find (p s : str) : option Z :=
  if startswith s p then Some 0 else
  match s with
  | [] => None
  | _ :: s => Z.succ <$> find p s
  end.

(** [p in s]. *)
Definition contains (p s : str) : bool := match find p s with Some _ => true | None => false end.

(** ** Splitting and joining *)

Fixpoint span {A} (f : A → bool) (l : list A) : list A * list A :=
  match l with
  | [] => ([], [])
  | a :: l' => if f a then let '(x, y) := span f l' in (a :: x, y) else ([], l)
  end.

Definition lstrip_by (f : Z → bool) (s : str) : str := (span f s).2.
Definition rstrip_by (f : Z → bool) (s : str) : str := reverse (lstrip_by f (reverse s)).
Definition strip_by (f : Z → bool) (s : str) : str := rstrip_by f (lstrip_by f s).
Definition lstrip : str → str := lstrip_by is_space.
Definition rstrip : str → str := rstrip_by is_space.
Definition strip : str → str := strip_by is_space.

(** [s.split(c)] for one character [c]: the parts between its occurrences. *)
Fixpoint split_on (c : Z) (s : str) : list str :=
  match s with
  | [] => [[]]
  | d :: s =>
      if d =? c then [] :: split_on c s
      else match split_on c s with
           | [] => [[d]]
           | p :: ps => (d :: p) :: ps
           end
  end.

(** [s.split()]: the runs of characters that are not white space. *)
Fixpoint words (s : str) : list str :=
  match s with
  | [] => []
  | c :: s' =>
      if is_space c then words s'
      else match s' with
           | [] => [[c]]
           | d :: _ => if is_space d then [c] :: words s'
                       else match words s' with
                            | [] => [[c]]
                            | w :: ws => (c :: w) :: ws
                            end
           end
  end.

(** [s.splitlines()]. *)
Fixpoint splitlines (s : str) : list str :=
  match s with
  | [] => []
  | c :: s' =>
      if is_linebreak c then
        match s' with
        | d :: s'' => if (c =? 13) && (d =? 10) then [] :: splitlines s'' else [] :: splitlines s'
        | [] => [[]]
        end
      else match splitlines s' with
           | [] => [[c]]
           | l :: ls => (c :: l) :: ls
           end
  end.

(** [s.splitlines(keepends=True)]. *)
Fixpoint splitlines_keep (s : str) : list str :=
  match s with
  | [] => []
  | c :: s' =>
      if is_linebreak c then
        match s' with
        | d :: s'' => if (c =? 13) && (d =? 10) then [c; d] :: splitlines_keep s'' else [c] :: splitlines_keep s'
        | [] => [[c]]
        end
      else match splitlines_keep s' with
           | [] => [[c]]
           | l :: ls => (c :: l) :: ls
           end
  end.

(** [sep.join(parts)]. *)
Fixpoint join (sep : str) (parts : list str) : str :=
  match parts with
  | [] => []
  | [p] => p
  | p :: parts => p ++ sep ++ join sep parts
  end.

(** [s.replace(a, b)] for a nonempty [a]; the fuel is the length of [s]. *)
Fixpoint replace_fuel (fuel : nat) (a b s : str) : str :=
  match fuel with
  | O => s
  | S fuel =>
      match strip_prefix a s with
      | Some rest => b ++ replace_fuel fuel a b rest
      | None => match s with [] => [] | c :: s => c :: replace_fuel fuel a b s end
      end
  end.
Definition replace (a b s : str) : str := replace_fuel (S (length s)) a b s.

(** ** Words of a regular expression *)

(** [\b] between the character before a text and the text. *)
Definition boundary (prev : option Z) (s : str) : bool :=
  xorb (match prev with Some c => is_word c | None => false end)
       (match s with c :: _ => is_word c | [] => false end).

(** A word between word boundaries, at the head of a text. *)
Definition word_at (w : str) (prev : option Z) (s : str) : option str :=
  rest ← strip_prefix w s;
  if boundary prev s && boundary (match last w with Some c => Some c | None => prev end) rest then Some rest else None.

Fixpoint has_word (ws : list str) (prev : option Z) (s : str) : bool :=
  existsb (fun w => match word_at w prev s with Some _ => true | None => false end) ws
  || match s with [] => false | c :: s => has_word ws (Some c) s end.

(** ** Integers as text *)

Definition digit_char (d : Z) : Z := if d <? 10 then 48 + d else 87 + d.

Fixpoint show_digits (fuel : nat) (b n : Z) (acc : str) : str :=
  match fuel with
  | O => acc
  | S fuel =>
      let acc := digit_char (n mod b) :: acc in
      if n <? b then acc else show_digits fuel b (n / b) acc
  end.

Definition show_nat (b n : Z) : str := show_digits (S (Z.to_nat (Z.log2 n))) b n [].

(** [str(n)], [f"{n:x}"] and [f"{n:#x}"]. *)
Definition dec (n : Z) : str := if n <? 0 then 45 :: show_nat 10 (- n) else show_nat 10 n.
Definition hex (n : Z) : str := if n <? 0 then 45 :: show_nat 16 (- n) else show_nat 16 n.
Definition hex_alt (n : Z) : str :=
  if n <? 0 then $"-0x" ++ show_nat 16 (- n) else $"0x" ++ show_nat 16 n.

Definition digit_val (c : Z) : Z :=
  if is_digit c then c - 48 else
  if is_lower c then c - 87 else if is_upper c then c - 55 else 99.

(** The value of a run of digits: at least one, all below the base; single
    underscores may stand between digits. *)
Fixpoint digits_value (b : Z) (s : str) (acc : Z) : option Z :=
  match s with
  | [] => Some acc
  | c :: s' =>
      if c =? 95 then
        match s' with
        | d :: s'' => if digit_val d <? b then digits_value b s'' (acc * b + digit_val d) else None
        | [] => None
        end
      else if digit_val c <? b then digits_value b s' (acc * b + digit_val c) else None
  end.

Definition read_digits (b : Z) (s : str) : option Z :=
  match s with
  | [] => None
  | c :: _ => if c =? 95 then None else digits_value b s 0
  end.

(** After a base prefix an underscore may come first. *)
Definition read_prefixed (b : Z) (s : str) : option Z :=
  match s with
  | [] => None
  | _ => digits_value b s 0
  end.

Definition prefix_base (s : str) : option (Z * str) :=
  match s with
  | z :: c :: s =>
      if z =? 48 then
        if (c =? 120) || (c =? 88) then Some (16, s)
        else if (c =? 111) || (c =? 79) then Some (8, s)
        else if (c =? 98) || (c =? 66) then Some (2, s) else None
      else None
  | _ => None
  end.

(** The digits of [int(s, base)], without white space and sign.  With base 0 a
    decimal number has no leading zero unless it is zero. *)
Definition read_unsigned (base : Z) (s : str) : option Z :=
  match prefix_base s with
  | Some (b, rest) =>
      if (base =? 0) || (base =? b) then read_prefixed b rest else read_digits base s
  | None =>
      if base =? 0 then
        v ← read_digits 10 s;
        if bool_decide (head s = Some 48) && negb (v =? 0) then None else Some v
      else read_digits base s
  end.

(** [int(s, base)]; [int(s)] is [int(s, 10)]. *)
Definition py_int (base : Z) (s : str) : res Z :=
  of_option ValueError
    (match strip s with
     | c :: rest =>
         if c =? 45 then Z.opp <$> read_unsigned base rest
         else if c =? 43 then read_unsigned base rest
         else read_unsigned base (c :: rest)
     | [] => None
     end).

(** ** Found text *)

Lemma startswith_split s p : startswith s p = true → ∃ r, s = p ++ r.
Proof.
  revert s. induction p as [|c p IH]; intros s H; [by exists s|]. destruct s as [|d s]; [done|]. cbn in H.
  apply andb_prop in H as [->%Z.eqb_eq (r & ->)%IH]. by exists r.
Qed.

Lemma find_split p s i : find p s = Some i → ∃ a b, s = a ++ p ++ b ∧ zlen a = i.
Proof.
  revert i. induction s as [|c s IH]; intros i; cbn.
  - destruct p; [|done]. intros [= <-]. by exists [], [].
  - destruct (startswith (c :: s) p) eqn:E.
    { apply startswith_split in E as [r ->]. intros [= <-]. by exists [], r. }
    destruct (find p s) as [j|]; [|done]. intros [= <-]. destruct (IH j eq_refl) as (a & b & -> & <-).
    exists (c :: a), b. rewrite zlen_cons. split; [done|lia].
Qed.

Lemma contains_split p s : contains p s = true → ∃ a b, s = a ++ p ++ b.
Proof.
  unfold contains. destruct (find p s) as [i|] eqn:E; [|done]. intros _. destruct (find_split _ _ _ E) as (a & b & -> & _). by exists a, b.
Qed.

(** ** Round trips between integers and text *)

Lemma digit_char_facts d :
  0 ≤ d < 36 →
  digit_val (digit_char d) = d ∧ digit_char d ≠ 95 ∧ is_space (digit_char d) = false ∧
  (d < 10 → is_digit (digit_char d) = true).
Proof.
  intros Hd. assert (∃ n : nat, d = Z.of_nat n ∧ (n < 36)%nat) as (n & -> & Hn)
    by (exists (Z.to_nat d); lia).
  do 36 (destruct n as [|n]; [done|]). lia.
Qed.

Lemma digit_val_char d : 0 ≤ d < 36 → digit_val (digit_char d) = d.
Proof. apply digit_char_facts. Qed.

Lemma digit_char_not_underscore d : 0 ≤ d < 36 → digit_char d ≠ 95 ∧ is_space (digit_char d) = false.
Proof. intros ?. split; by apply digit_char_facts. Qed.

Lemma digits_value_digit b d s acc :
  2 ≤ b ≤ 36 → 0 ≤ d < b → digits_value b (digit_char d :: s) acc = digits_value b s (acc * b + d).
Proof.
  intros Hb Hd. cbn [digits_value]. rewrite digit_val_char by lia.
  rewrite (proj2 (Z.eqb_neq _ 95)) by (apply digit_char_not_underscore; lia).
  by rewrite (proj2 (Z.ltb_lt d b)) by lia.
Qed.

Lemma show_digits_value fuel b n acc :
  2 ≤ b ≤ 36 → 0 ≤ n < b ^ Z.of_nat fuel →
  digits_value b (show_digits fuel b n acc) 0 = digits_value b acc n.
Proof.
  intros Hb. revert n acc. induction fuel as [|fuel IH]; intros n acc Hn.
  { change (b ^ Z.of_nat 0) with 1 in Hn. by replace n with 0 by lia. }
  rewrite Nat2Z.inj_succ, Z.pow_succ_r in Hn by lia. cbn [show_digits].
  pose proof (Z.mod_pos_bound n b ltac:(lia)). pose proof (Z.div_mod n b ltac:(lia)).
  zcase.
  - rewrite digits_value_digit by lia. f_equal. rewrite Z.mod_small; lia.
  - rewrite IH by (split; [apply Z.div_pos|apply Z.div_lt_upper_bound]; lia).
    rewrite digits_value_digit by lia. f_equal. lia.
Qed.

Lemma show_fuel b n : 2 ≤ b → 0 ≤ n → n < b ^ Z.of_nat (S (Z.to_nat (Z.log2 n))).
Proof.
  intros Hb Hn. pose proof (Z.log2_nonneg n).
  replace (Z.of_nat _) with (Z.log2 n + 1) by lia.
  apply Z.lt_le_trans with (2 ^ (Z.log2 n + 1)); [|apply Z.pow_le_mono_l; lia].
  destruct (decide (n = 0)) as [->|]; [done|]. apply Z.log2_spec. lia.
Qed.

Lemma show_nat_value b n :
  2 ≤ b ≤ 36 → 0 ≤ n → digits_value b (show_nat b n) 0 = Some n.
Proof.
  intros Hb Hn. unfold show_nat. rewrite show_digits_value; [done|lia|].
  split; [done|]. apply show_fuel; lia.
Qed.

(** The characters of a number are digits of its base. *)
Lemma show_digits_chars fuel b n acc :
  2 ≤ b → Forall (fun c => ∃ d, 0 ≤ d < b ∧ c = digit_char d) acc →
  Forall (fun c => ∃ d, 0 ≤ d < b ∧ c = digit_char d) (show_digits fuel b n acc).
Proof.
  intros Hb. revert n acc. induction fuel as [|fuel IH]; intros n acc Hacc; [done|].
  cbn [show_digits]. pose proof (Z.mod_pos_bound n b ltac:(lia)).
  zcase; [|apply IH]; constructor; eauto.
Qed.

Lemma show_digits_head fuel b n acc :
  2 ≤ b ≤ 36 → 0 < n < b ^ Z.of_nat fuel →
  ∃ d s, 0 < d < b ∧ show_digits fuel b n acc = digit_char d :: s.
Proof.
  intros Hb. revert n acc. induction fuel as [|fuel IH]; intros n acc Hn.
  { change (b ^ Z.of_nat 0) with 1 in Hn. lia. }
  rewrite Nat2Z.inj_succ, Z.pow_succ_r in Hn by lia. cbn [show_digits]. zcase.
  - exists n, acc. rewrite Z.mod_small by lia. split; [lia|done].
  - apply IH. split; [apply Z.div_str_pos; lia|apply Z.div_lt_upper_bound; lia].
Qed.

Lemma show_nat_head b n :
  2 ≤ b ≤ 36 → 0 ≤ n → ∃ d s, 0 ≤ d < b ∧ (d = 0 → n = 0) ∧ show_nat b n = digit_char d :: s.
Proof.
  intros Hb Hn. destruct (decide (n = 0)) as [->|].
  - exists 0, []. split_and!; [lia|lia|done|].
    unfold show_nat. change (S _) with 1%nat. cbn [show_digits].
    rewrite Z.mod_0_l by lia. by rewrite (proj2 (Z.ltb_lt 0 b)) by lia.
  - destruct (show_digits_head (S (Z.to_nat (Z.log2 n))) b n []) as (d & s & ? & Heq); [lia| |].
    { split; [lia|]. apply show_fuel; lia. }
    exists d, s. split_and!; [lia|lia|lia|exact Heq].
Qed.

Lemma span_none {A} (f : A → bool) l : Forall (fun a => f a = false) l → span f l = ([], l).
Proof. destruct 1 as [|a l Ha]; cbn; [done|by rewrite Ha]. Qed.

Lemma strip_by_none f s : Forall (fun c => f c = false) s → strip_by f s = s.
Proof.
  intros Hs. unfold strip_by, rstrip_by, lstrip_by. rewrite (span_none f s Hs). cbn.
  rewrite span_none by by apply Forall_reverse. apply reverse_involutive.
Qed.

Lemma show_nat_no_space b n :
  2 ≤ b ≤ 36 → Forall (fun c => is_space c = false) (show_nat b n).
Proof.
  intros Hb. eapply Forall_impl; [apply show_digits_chars; [lia|constructor]|].
  intros c (d & ? & ->). apply digit_char_not_underscore. lia.
Qed.

Lemma read_digits_show b n : 2 ≤ b ≤ 36 → 0 ≤ n → read_digits b (show_nat b n) = Some n.
Proof.
  intros Hb Hn. pose proof (show_nat_value b n Hb Hn) as Hv.
  destruct (show_nat_head b n Hb Hn) as (d & s & Hd & _ & Heq). rewrite Heq in *.
  unfold read_digits.
  by rewrite (proj2 (Z.eqb_neq _ 95)) by (apply digit_char_not_underscore; lia).
Qed.

Lemma prefix_base_dec n : prefix_base (show_nat 10 n) = None.
Proof.
  assert (Forall (fun c => is_digit c = true) (show_nat 10 n)) as Hall.
  { eapply Forall_impl; [apply show_digits_chars; [done|constructor]|].
    intros c (d & ? & ->). apply digit_char_facts; lia. }
  destruct Hall as [|x l _ Hall]; [done|]. destruct Hall as [|c l Hc _]; [done|].
  cbn. unfold is_digit, in_range in Hc. zbool. zcase; [|done].
  rewrite !(proj2 (Z.eqb_neq c _)) by lia. done.
Qed.

Lemma py_int_unsigned base s n :
  s ≠ [] → Forall (fun c => is_space c = false) s → (∀ c, head s = Some c → c ≠ 45 ∧ c ≠ 43) →
  read_unsigned base s = Some n → py_int base s = Ok n ∧ py_int base (45 :: s) = Ok (- n).
Proof.
  intros Hne Hsp Hhd Hr. unfold py_int, strip.
  rewrite !strip_by_none by (try constructor; done). cbn. rewrite Hr. cbn. split; [|done].
  destruct s as [|c s]; [done|]. destruct (Hhd c eq_refl).
  rewrite !(proj2 (Z.eqb_neq c _)) by done. by rewrite Hr.
Qed.

Lemma read_unsigned_dec base n :
  base = 0 ∨ base = 10 → 0 ≤ n → read_unsigned base (show_nat 10 n) = Some n.
Proof.
  intros Hbase Hn. unfold read_unsigned. rewrite prefix_base_dec.
  pose proof (read_digits_show 10 n ltac:(lia) Hn) as Hr.
  destruct Hbase as [-> | ->]; [|exact Hr]. change (0 =? 0) with true.
  rewrite Hr. cbn [mbind option_bind]. destruct (show_nat_head 10 n ltac:(lia) Hn) as (d & s & Hd & H0 & ->).
  destruct (n =? 0) eqn:E; zbool; [by rewrite andb_false_r|].
  rewrite bool_decide_eq_false_2; [done|]. cbn. intros [= Hc].
  unfold digit_char in Hc. revert Hc. zcase; lia.
Qed.

Lemma show_nat_sign b n :
  2 ≤ b ≤ 36 → 0 ≤ n →
  show_nat b n ≠ [] ∧ ∀ c, head (show_nat b n) = Some c → c ≠ 45 ∧ c ≠ 43.
Proof.
  intros Hb Hn. destruct (show_nat_head b n Hb Hn) as (d & s & Hd & _ & ->).
  split; [done|]. cbn. intros c [= <-]. unfold digit_char. zcase; lia.
Qed.

(** [int(str(n))] and [int(str(n), 0)]. *)
Lemma py_int_dec base n : base = 0 ∨ base = 10 → py_int base (dec n) = Ok n.
Proof.
  intros Hbase. unfold dec. zcase.
  - destruct (show_nat_sign 10 (- n)) as [? ?]; [lia..|].
    replace n with (- - n) at 2 by lia. apply py_int_unsigned; try done.
    + apply show_nat_no_space. lia.
    + apply read_unsigned_dec; [done|lia].
  - destruct (show_nat_sign 10 n) as [? ?]; [lia..|].
    apply py_int_unsigned; try done.
    + apply show_nat_no_space. lia.
    + apply read_unsigned_dec; [done|lia].
Qed.

(** [int(f"{n:#x}", 0)] for a nonnegative [n]. *)
Lemma py_int_hex_alt base n : base = 0 ∨ base = 16 → 0 ≤ n → py_int base (hex_alt n) = Ok n.
Proof.
  intros Hbase Hn. unfold hex_alt. rewrite (proj2 (Z.ltb_ge n 0)) by lia.
  apply py_int_unsigned; [done| | |].
  - apply Forall_app_2; [by repeat constructor|]. apply show_nat_no_space. lia.
  - cbn. intros c [= <-]. done.
  - unfold read_unsigned. cbn [str_of String.list_ascii_of_string map app].
    change (prefix_base _) with (Some (16, show_nat 16 n)). cbv beta iota.
    replace ((base =? 0) || (base =? 16)) with true by (destruct Hbase as [-> | ->]; done).
    unfold read_prefixed. pose proof (show_nat_value 16 n ltac:(lia) Hn).
    destruct (show_nat_sign 16 n) as [? _]; [lia..|]. by destruct (show_nat 16 n).
Qed.

Lemma dec_inj n m : dec n = dec m → n = m.
Proof.
  intros H. pose proof (py_int_dec 10 n ltac:(auto)) as Hn. rewrite H in Hn.
  rewrite py_int_dec in Hn by auto. congruence.
Qed.

(** ** Matching

    The regular expressions of the scripts are literals with runs of a class
    of characters between them, each run followed by a character outside its
    class: matching them needs no backtracking. *)

(** [s.isdigit()]. *)
Definition isdigit (s : str) : bool := bool_decide (s ≠ []) && forallb is_digit s.

(** [int(s)] of a string of digits. *)
Definition int_of_digits (s : str) : Z := foldl (fun a c => a * 10 + (c - 48)) 0 s.

(** Literals, each followed by [(\d+)]: the numbers and what follows them. *)
Fixpoint match_numbers (literals : list str) (s : str) : option (list Z * str) :=
  match literals with
  | [] => Some ([], s)
  | p :: literals =>
      rest ← strip_prefix p s;
      let '(digits, rest) := span is_digit rest in
      if decide (digits = []) then None else
      '(ns, rest) ← match_numbers literals rest;
      Some (int_of_digits digits :: ns, rest)
  end.

(** The same with nothing after the last number. *)
Definition fullmatch_numbers (literals : list str) (s : str) : option (list Z) :=
  match match_numbers literals s with
  | Some (ns, []) => Some ns
  | _ => None
  end.

(** [re.search(pre + "(class+)" + post, s)]: the group of the first match. *)
Definition match_group (pre post : str) (class : Z → bool) (s : str) : option str :=
  rest ← strip_prefix pre s;
  let '(g, rest) := span class rest in
  if decide (g = []) then None else
  if startswith rest post then Some g else None.

Fixpoint search_group (pre post : str) (class : Z → bool) (s : str) : option str :=
  match match_group pre post class s with
  | Some g => Some g
  | None => match s with [] => None | _ :: s => search_group pre post class s end
  end.

(** [repr(s)]; code points above ASCII are taken as printable. *)
Definition repr_char (quote c : Z) : str :=
  if (c =? quote) || (c =? 92) then [92; c]
  else if c =? 10 then $"\n" else if c =? 13 then $"\r" else if c =? 9 then $"\t"
  else if (c <? 32) || (c =? 127) then $"\x" ++ [digit_char (c / 16); digit_char (c mod 16)]
  else [c].
Definition py_repr (s : str) : str :=
  let quote := if existsb (Z.eqb 39) s && negb (existsb (Z.eqb 34) s) then 34 else 39 in
  [quote] ++ concat (map (repr_char quote) s) ++ [quote].

(** [repr] of bytes. *)
Definition bytes_repr (b : bytes) : str :=
  let quote := if existsb (Z.eqb 39) b && negb (existsb (Z.eqb 34) b) then 34 else 39 in
  $"b" ++ [quote]
  ++ concat (map (fun c => if 127 <? c then $"\x" ++ [digit_char (c / 16); digit_char (c mod 16)]
                           else repr_char quote c) b)
  ++ [quote].

(** [line.rstrip("\r\n")]. *)
Definition chomp : str → str := rstrip_by (fun c => (c =? 13) || (c =? 10)).

Lemma span_app {A} (f : A → bool) l k :
  Forall (fun a => f a = true) l → (∀ a, head k = Some a → f a = false) →
  span f (l ++ k) = (l, k).
Proof.
  intros Hl Hk. induction Hl as [|a l Ha _ IH]; cbn.
  - destruct k as [|a k]; [done|]. cbn. by rewrite Hk.
  - by rewrite Ha, IH.
Qed.

Lemma show_nat_digits n : Forall (fun c => is_digit c = true) (show_nat 10 n).
Proof.
  eapply Forall_impl; [apply show_digits_chars; [done|constructor]|].
  intros c (d & ? & ->). apply digit_char_facts; lia.
Qed.

Lemma dec_digits n : 0 ≤ n → Forall (fun c => is_digit c = true) (dec n) ∧ dec n ≠ [].
Proof.
  intros Hn. unfold dec. rewrite (proj2 (Z.ltb_ge n 0)) by done.
  split; [apply show_nat_digits|]. by apply show_nat_sign.
Qed.

Lemma digits_value_fold s acc :
  Forall (fun c => is_digit c = true) s →
  digits_value 10 s acc = Some (foldl (fun a c => a * 10 + (c - 48)) acc s).
Proof.
  intros Hs. revert acc. induction Hs as [|c s Hc _ IH]; intros acc; [done|].
  cbn [digits_value foldl]. unfold digit_val. rewrite Hc. unfold is_digit, in_range in Hc. zbool.
  rewrite (proj2 (Z.eqb_neq c 95)), (proj2 (Z.ltb_lt _ 10)) by lia. apply IH.
Qed.

Lemma int_of_digits_dec n : 0 ≤ n → int_of_digits (dec n) = n.
Proof.
  intros Hn. pose proof (show_nat_value 10 n ltac:(lia) Hn) as Hv.
  rewrite digits_value_fold in Hv by apply show_nat_digits. injection Hv as Hv.
  unfold int_of_digits, dec. by rewrite (proj2 (Z.ltb_ge n 0)) by done.
Qed.

Lemma isdigit_dec n : 0 ≤ n → isdigit (dec n) = true.
Proof.
  intros Hn. destruct (dec_digits n Hn) as [Hd Hne]. unfold isdigit.
  rewrite bool_decide_eq_true_2 by done. cbn. apply forallb_forall.
  intros c Hc%list_elem_of_In. rewrite Forall_forall in Hd. by apply Hd.
Qed.

Lemma isdigit_nonneg s : isdigit s = true → 0 ≤ int_of_digits s.
Proof.
  unfold isdigit. intros H. zbool. unfold int_of_digits.
  assert (∀ acc, 0 ≤ acc → 0 ≤ foldl (fun a c => a * 10 + (c - 48)) acc s) as Hf; [|by apply Hf].
  clear H. induction s as [|c s IH]; intros acc Hacc; [done|]. cbn [forallb foldl] in *. zbool.
  apply IH; [done|]. unfold is_digit, in_range in *. zbool. lia.
Qed.

Lemma strip_prefix_app p s : strip_prefix p (p ++ s) = Some s.
Proof. induction p as [|c p IH]; cbn; [done|]. by rewrite Z.eqb_refl. Qed.

(** No number of a later literal runs on from the one before. *)
Definition starts_no_digit (s : str) : Prop := ∀ c, head s = Some c → is_digit c = false.

Lemma match_numbers_dec literals ns rest :
  Forall (fun n => 0 ≤ n) ns → length literals = length ns →
  Forall (fun p => p ≠ [] ∧ starts_no_digit p) literals → starts_no_digit rest →
  match_numbers literals (concat (zip_with (fun p n => p ++ dec n) literals ns) ++ rest)
    = Some (ns, rest).
Proof.
  intros Hns. revert literals. induction Hns as [|n ns Hn _ IH]; intros literals Hlen Hlit Hrest;
    destruct literals as [|p literals]; try done.
  apply Forall_cons in Hlit as [_ Hlit]. cbn [zip_with concat match_numbers].
  rewrite <- !app_assoc, strip_prefix_app. cbn [mbind option_bind].
  destruct (dec_digits n Hn) as [Hd Hne]. rewrite span_app; [|done|].
  - rewrite decide_False by done. rewrite IH by (try done; cbn in Hlen; lia). cbn.
    by rewrite int_of_digits_dec.
  - destruct literals as [|q literals], ns as [|m ns]; try done.
    apply Forall_cons in Hlit as [[Hq Hqd] _]. cbn. rewrite <- !app_assoc.
    destruct q as [|c q]; [done|]. exact Hqd.
Qed.

Lemma fullmatch_numbers_dec literals ns :
  Forall (fun n => 0 ≤ n) ns → length literals = length ns →
  Forall (fun p => p ≠ [] ∧ starts_no_digit p) literals →
  fullmatch_numbers literals (concat (zip_with (fun p n => p ++ dec n) literals ns)) = Some ns.
Proof.
  intros. unfold fullmatch_numbers. rewrite <- (app_nil_r (concat _)).
  by rewrite match_numbers_dec.
Qed.

(** A token: what [str.split] keeps together. *)
Definition token (s : str) : Prop := s ≠ [] ∧ Forall (fun c => is_space c = false) s.

Lemma words_token w : token w → words w = [w].
Proof.
  intros [Hne Hs]. induction Hs as [|c w Hc Hw IH]; [done|]. cbn. rewrite Hc.
  destruct Hw as [|d w Hd Hw]; [done|]. rewrite Hd, IH; done.
Qed.

Lemma words_cons w s : token w → words (w ++ 32 :: s) = w :: words s.
Proof.
  intros [Hne Hs]. induction Hs as [|c w Hc Hw IH]; [done|].
  cbn [app words]. rewrite Hc. destruct Hw as [|d w Hd Hw]; [done|].
  specialize (IH ltac:(done)). cbn [app] in *. by rewrite Hd, IH.
Qed.

Lemma words_join ws : Forall token ws → words (join ($" ") ws) = ws.
Proof.
  induction 1 as [|w ws Hw Hws IH]; [done|]. destruct ws as [|v ws]; [by apply words_token|].
  cbn [join]. change ($" ") with [32]. cbn [app]. rewrite words_cons by done. f_equal. exact IH.
Qed.

Lemma token_app a b : token a → Forall (fun c => is_space c = false) b → token (a ++ b).
Proof. intros [??] ?. split; [by destruct a|]. by apply Forall_app_2. Qed.

Lemma dec_token n : 0 ≤ n → token (dec n).
Proof.
  intros Hn. destruct (dec_digits n Hn) as [Hd ?]. split; [done|].
  unfold dec. rewrite (proj2 (Z.ltb_ge n 0)) by done. apply show_nat_no_space. lia.
Qed.

(** Lines: text without a line break in it. *)
Definition no_break (l : str) : Prop := Forall (fun c => is_linebreak c = false) l.

Lemma splitlines_cons l rest : no_break l → splitlines (l ++ 10 :: rest) = l :: splitlines rest.
Proof.
  induction 1 as [|c l Hc _ IH]; cbn [app splitlines].
  - change (is_linebreak 10) with true. destruct rest as [|d rest]; done.
  - by rewrite Hc, IH.
Qed.

Lemma splitlines_lines lines :
  Forall no_break lines → splitlines (concat (map (fun l => l ++ nl) lines)) = lines.
Proof.
  induction 1 as [|l lines Hl _ IH]; [done|]. cbn [map concat].
  rewrite <- app_assoc. change (nl ++ ?s) with (10 :: s). by rewrite splitlines_cons, IH.
Qed.

Lemma space_break c : is_space c = false → is_linebreak c = false.
Proof. unfold is_space, is_linebreak, in_range. rewrite !orb_false_iff. intros H. repeat split; lia. Qed.

Lemma token_break w : token w → no_break w.
Proof. intros [_ H]. eapply Forall_impl; [exact H|]. intros c. apply space_break. Qed.

Lemma join_break ws : Forall token ws → no_break (join ($" ") ws).
Proof.
  induction 1 as [|w ws Hw Hws IH]; [constructor|]. destruct ws as [|v ws]; [by apply token_break|].
  cbn [join]. repeat apply Forall_app_2; [by apply token_break|by repeat constructor|exact IH].
Qed.

Lemma span_head {A} (f : A → bool) a l : f a = false → span f (a :: l) = ([], a :: l).
Proof. intros H. cbn. by rewrite H. Qed.

Lemma concat_splitlines_keep s : concat (splitlines_keep s) = s.
Proof.
  induction s as [s IH] using (induction_ltof1 _ (@length Z)); unfold ltof in IH.
  destruct s as [|c s]; [done|]. cbn [splitlines_keep]. destruct (is_linebreak c).
  - destruct s as [|d s]; [done|]. destruct ((c =? 13) && (d =? 10)).
    + cbn [concat app]. by rewrite (IH s) by (cbn; lia).
    + change (concat ([c] :: splitlines_keep (d :: s))) with (c :: concat (splitlines_keep (d :: s))).
      by rewrite (IH (d :: s)) by (cbn; lia).
  - pose proof (IH s ltac:(cbn; lia)) as Hs. destruct (splitlines_keep s) as [|l ls]; cbn in *; by rewrite <- Hs.
Qed.

Lemma join_last ws : Forall token ws → ws ≠ [] → ∃ s c, join ($" ") ws = s ++ [c] ∧ is_space c = false.
Proof.
  induction 1 as [|w ws [Hne Hs] Hws IH]; [done|]. intros _. destruct ws as [|v ws].
  - cbn. destruct (exists_last Hne) as (s & c & ->). exists s, c. split; [done|].
    apply Forall_app in Hs as [_ Hs]. by apply Forall_cons in Hs as [? _].
  - destruct IH as (s & c & Hj & Hc); [done|]. cbn [join]. exists (w ++ $" " ++ s), c. split; [|done].
    cbn [join] in Hj. rewrite Hj. by rewrite <- !app_assoc.
Qed.

Lemma strip_join ws : Forall token ws → strip (join ($" ") ws) = join ($" ") ws.
Proof.
  intros Hws. destruct ws as [|w ws]; [done|]. destruct (join_last (w :: ws) Hws ltac:(done)) as (s & c & Hj & Hc).
  assert (∃ a l, join ($" ") (w :: ws) = a :: l ∧ is_space a = false) as (a & l & Ha & Hsp).
  { apply Forall_cons in Hws as [[Hne Hs] _]. destruct w as [|a w]; [done|]. apply Forall_cons in Hs as [Ha _].
    destruct ws; cbn; eauto. }
  unfold strip, strip_by, lstrip_by, rstrip_by, lstrip_by. rewrite Ha, span_head by done. cbn [snd].
  rewrite <- Ha, Hj, reverse_snoc, span_head by done. cbn [snd]. by rewrite <- reverse_snoc, reverse_involutive.
Qed.

Lemma span_spec {A} (f : A → bool) l :
  l = (span f l).1 ++ (span f l).2 ∧ Forall (fun a => f a = true) (span f l).1 ∧
  (∀ a, head (span f l).2 = Some a → f a = false).
Proof.
  induction l as [|a l IH]; cbn; [done|]. destruct (f a) eqn:E; cbn.
  - destruct (span f l) as [k k']. destruct IH as (E' & F & H). cbn in *. rewrite E' at 1. split_and!; [done|by constructor|done].
  - split_and!; [done|constructor|by intros ? [= <-]].
Qed.

Lemma strip_prefix_Some p s rest : strip_prefix p s = Some rest ↔ s = p ++ rest.
Proof.
  split; [|intros ->; apply strip_prefix_app]. revert s. induction p as [|c p IH]; intros s; cbn; [by intros [= ->]|].
  destruct s as [|d s]; [done|]. destruct (c =? d) eqn:E; [|done]. apply Z.eqb_eq in E as ->. by intros ->%IH.
Qed.

Lemma split_on_app c a b : Forall (fun x => x ≠ c) a → split_on c (a ++ c :: b) = a :: split_on c b.
Proof.
  induction 1 as [|x a Hx Ha IH]; cbn; [by rewrite Z.eqb_refl|].
  rewrite (proj2 (Z.eqb_neq x c)) by done. by rewrite IH.
Qed.
Lemma split_on_none c a : Forall (fun x => x ≠ c) a → split_on c a = [a].
Proof. induction 1 as [|x a Hx Ha IH]; cbn; [done|]. rewrite (proj2 (Z.eqb_neq x c)) by done. by rewrite IH. Qed.

(** [sep.join(parts).split(sep)] for a separator of one character. *)
Lemma split_on_join c parts :
  parts ≠ [] → Forall (Forall (fun x => x ≠ c)) parts → split_on c (join [c] parts) = parts.
Proof.
  intros Hne H. induction H as [|p parts Hp _ IH]; [done|]. destruct parts as [|q parts]; [by apply split_on_none|].
  change (join [c] (p :: q :: parts)) with (p ++ c :: join [c] (q :: parts)). by rewrite split_on_app, IH.
Qed.

Lemma split_on_not_nil c s : split_on c s ≠ [].
Proof. induction s as [|d s IH]; cbn; [done|]. destruct (_ =? _); [done|]. by destruct (split_on c s). Qed.

Lemma linebreak_space c : is_linebreak c = true → is_space c = true.
Proof. unfold is_linebreak, is_space, in_range. rewrite !orb_true_iff, !andb_true_iff, !Z.leb_le, !Z.eqb_eq. lia. Qed.

Lemma strip_nil s : strip s = [] ↔ Forall (fun c => is_space c = true) s.
Proof.
  unfold strip, strip_by, rstrip_by, lstrip_by. destruct (span_spec is_space s) as (E & Hs & Hh).
  destruct (span is_space s) as [sp rest] eqn:Esp. cbn [fst snd] in *. split.
  - intros E1. apply (f_equal reverse) in E1. rewrite reverse_involutive in E1. cbn in E1.
    destruct (span_spec is_space (reverse rest)) as (E2 & H2 & _). rewrite E1, app_nil_r in E2.
    rewrite E. apply Forall_app. split; [done|]. rewrite <- (reverse_involutive rest), E2. by apply Forall_reverse.
  - intros Hall. rewrite E in Hall. apply Forall_app in Hall as [_ Hall]. destruct rest as [|c rest]; [done|].
    apply Forall_cons in Hall as [Hc _]. by rewrite (Hh c eq_refl) in Hc.
Qed.

Lemma rstrip_none f (s : str) c : f c = false → rstrip_by f (s ++ [c]) = s ++ [c].
Proof. intros Hc. unfold rstrip_by, lstrip_by. rewrite reverse_snoc, span_head by done. cbn [snd]. by rewrite <- reverse_snoc, reverse_involutive. Qed.

(** ** Lines with their ends *)

Definition ended (line : str * Z) : Prop := no_break line.1 ∧ is_linebreak line.2 = true ∧ line.2 ≠ 13.
Definition with_end (line : str * Z) : str := line.1 ++ [line.2].

(** The last line has no end, and there is none when the text ends with one. *)
Definition unended (t : str) : list str := if decide (t = []) then [] else [t].

Lemma splitlines_ended lines t : Forall ended lines → no_break t →
  splitlines (concat (map with_end lines) ++ t) = map fst lines ++ unended t.
Proof.
  intros Hl Ht. induction Hl as [|[l b] lines (Hn & Hb & H13) _ IH]; cbn [map concat app].
  - unfold unended. case_decide as E; [by rewrite E|]. induction Ht as [|c t Hc Ht IH]; [done|]. cbn. rewrite Hc.
    destruct t; [done|]. by rewrite IH.
  - unfold with_end at 1. cbn [fst snd] in *. rewrite <- !app_assoc. rewrite <- IH. clear IH.
    generalize (concat (map with_end lines) ++ t). intros rest. change ([b] ++ rest) with (b :: rest). induction Hn as [|c l Hc Hn IHl]; cbn [app splitlines].
    + rewrite Hb. destruct rest as [|d rest]; [done|]. by rewrite (proj2 (Z.eqb_neq b 13)).
    + by rewrite Hc, IHl.
Qed.

Lemma splitlines_keep_shape s : 13 ∉ s →
  ∃ lines t, splitlines_keep s = map with_end lines ++ unended t ∧ Forall ended lines ∧ no_break t ∧ s = concat (map with_end lines) ++ t.
Proof.
  induction s as [|c s IH]; intros H13; [exists [], []; split_and!; done || constructor|]. apply not_elem_of_cons in H13 as [Hc H13].
  destruct (IH H13) as (lines & t & E & Hl & Ht & ->). cbn [splitlines_keep]. destruct (is_linebreak c) eqn:Eb.
  - exists (([], c) :: lines), t. cbn [map concat app with_end fst snd]. split_and!; [|constructor; [by split_and!; [constructor|..]|done]|done|done].
    destruct (concat (map with_end lines) ++ t) as [|d s']; [by rewrite <- E|].
    rewrite (proj2 (Z.eqb_neq c 13)) by done. cbn [andb]. by rewrite E.
  - rewrite E. destruct lines as [|[l b] lines]; cbn [map app].
    + exists [], (c :: t). cbn. split_and!; [|done|by constructor|done]. unfold unended. by destruct (decide (t = [])) as [->|].
    + exists ((c :: l, b) :: lines), t. apply Forall_cons in Hl as [(Hn & Hb & Hb13) Hl].
      split_and!; [done|constructor; [split_and!; [by constructor|done..]|done]|done|done].
Qed.

Lemma splitlines_keep_ended lines t : Forall ended lines → no_break t →
  splitlines_keep (concat (map with_end lines) ++ t) = map with_end lines ++ unended t.
Proof.
  intros Hl Ht. induction Hl as [|[l b] lines (Hn & Hb & H13) _ IH]; cbn [map concat app].
  - unfold unended. case_decide as E; [by rewrite E|]. induction Ht as [|c t Hc Ht IH]; [done|]. cbn. rewrite Hc.
    destruct t; [done|]. by rewrite IH.
  - unfold with_end at 1 3. cbn [fst snd] in *. rewrite <- !app_assoc. rewrite <- IH. clear IH.
    generalize (concat (map with_end lines) ++ t). intros rest. change ([b] ++ rest) with (b :: rest). induction Hn as [|c l Hc Hn IHl]; cbn [app splitlines_keep].
    + rewrite Hb. destruct rest as [|d rest]; [done|]. by rewrite (proj2 (Z.eqb_neq b 13)).
    + by rewrite Hc, IHl.
Qed.

(** ** Stripped text *)

Lemma lstrip_app f (sp s : str) : Forall (fun c => f c = true) sp → (∀ c, head s = Some c → f c = false) → lstrip_by f (sp ++ s) = s.
Proof. intros Hsp Hs. unfold lstrip_by. by rewrite span_app. Qed.

Lemma rstrip_app f (s sp : str) : Forall (fun c => f c = true) sp → (∀ c, last s = Some c → f c = false) → rstrip_by f (s ++ sp) = s.
Proof.
  intros Hsp Hs. unfold rstrip_by. rewrite reverse_app, lstrip_app; [apply reverse_involutive|by apply Forall_reverse|].
  intros c. rewrite <- last_reverse, reverse_involutive. apply Hs.
Qed.

(** What is left has no such character at its ends. *)
Definition bare (f : Z → bool) (s : str) : Prop := (∀ c, head s = Some c → f c = false) ∧ (∀ c, last s = Some c → f c = false).

Lemma strip_around f (sp s sp' : str) : Forall (fun c => f c = true) sp → Forall (fun c => f c = true) sp' → bare f s → s ≠ [] →
  strip_by f (sp ++ s ++ sp') = s.
Proof.
  intros Hsp Hsp' [Hh Hl] Hne. unfold strip_by. rewrite lstrip_app; [by apply rstrip_app|done|]. destruct s as [|a s]; [done|]. exact Hh.
Qed.

Lemma strip_split f (s : str) : ∃ sp sp' : str, s = sp ++ strip_by f s ++ sp' ∧ Forall (fun c => f c = true) sp ∧ Forall (fun c => f c = true) sp' ∧
  bare f (strip_by f s).
Proof.
  unfold strip_by, rstrip_by, lstrip_by. destruct (span_spec f s) as (E & Hsp & Hh). destruct (span f s) as [sp m]. cbn [fst snd] in *.
  destruct (span_spec f (reverse m)) as (E' & Hsp' & Hl). destruct (span f (reverse m)) as [sp' k]. cbn [fst snd] in *.
  apply (f_equal reverse) in E'. rewrite reverse_involutive, reverse_app in E'.
  exists sp, (reverse sp'). split_and!; [by rewrite <- E'|done|by apply Forall_reverse|]. split.
  - intros c Hc. apply Hh. rewrite E'. by destruct (reverse k).
  - intros c. rewrite last_reverse. apply Hl.
Qed.

Lemma strip_bare f (s : str) : bare f s → strip_by f s = s.
Proof. intros Hb. destruct (decide (s = [])) as [->|Hne]; [done|]. rewrite <- (app_nil_r s) at 1. by apply (strip_around f [] s []). Qed.

Lemma strip_sub f (s : str) c : c ∈ strip_by f s → c ∈ s.
Proof. intros Hc. destruct (strip_split f s) as (sp & sp' & -> & _). rewrite !elem_of_app. tauto. Qed.

(** White space around a text does not change what is left of it. *)
Lemma strip_pad (sp s sp' : str) : Forall (fun c => is_space c = true) sp → Forall (fun c => is_space c = true) sp' →
  strip (sp ++ s ++ sp') = strip s.
Proof.
  intros Hsp Hsp'. destruct (decide (strip s = [])) as [E|Hne].
  - rewrite E. apply strip_nil in E. apply strip_nil. by rewrite !Forall_app.
  - destruct (strip_split is_space s) as (a & b & E & Ha & Hb & Hbare). change (strip_by is_space s) with (strip s) in *.
    rewrite E at 1. replace (sp ++ (a ++ strip s ++ b) ++ sp') with ((sp ++ a) ++ strip s ++ (b ++ sp')) by by rewrite <- !app_assoc.
    apply strip_around; rewrite ?Forall_app; done.
Qed.

Lemma split_on_sub c s : Forall (fun p => ∀ x, x ∈ p → x ≠ c ∧ x ∈ s) (split_on c s).
Proof.
  induction s as [|d s IH]; cbn [split_on]; [constructor; [by intros x ?%not_elem_of_nil|done]|].
  assert (∀ p : str, (∀ x, x ∈ p → x ≠ c ∧ x ∈ s) → ∀ x, x ∈ p → x ≠ c ∧ x ∈ d :: s) as Hw
    by (intros p Hp x Hx; destruct (Hp x Hx); split; [done|by right]).
  destruct (Z.eqb_spec d c) as [->|Hd].
  - constructor; [by intros x ?%not_elem_of_nil|]. eapply Forall_impl; [exact IH|exact Hw].
  - destruct (split_on c s) as [|p ps].
    { apply Forall_singleton. intros x ->%list_elem_of_singleton. split; [done|by left]. }
    apply Forall_cons in IH as [Hp IH]. constructor; [|eapply Forall_impl; [exact IH|exact Hw]].
    intros x [->|Hx]%elem_of_cons; [split; [done|by left]|by apply Hw with p].
Qed.

Lemma splitlines_no_break s : Forall no_break (splitlines s).
Proof.
  induction s as [s IH] using (induction_ltof1 _ (@length Z)); unfold ltof in IH.
  destruct s as [|c s]; [done|]. cbn [splitlines]. destruct (is_linebreak c) eqn:Hc.
  - destruct s as [|d s]; [by repeat constructor|].
    destruct (_ && _); (constructor; [constructor|apply IH; cbn; lia]).
  - pose proof (IH s ltac:(cbn; lia)) as Hs. destruct (splitlines s) as [|l ls].
    + by repeat constructor.
    + inversion Hs; subst. constructor; [by constructor|done].
Qed.
