(* ===== verification/Dict.v ===== *)
(** * Dictionaries

    A Python [dict] whose order matters: the pairs in insertion order.
    Assigning to a key keeps its place, a new key goes to the end. *)
From S2P Require Import Prelude.

Section dict.
Context {K V : Type} `{EqDecision K}.
Implicit Types (k : K) (v : V) (d : list (K * V)).

(** [d.get(k)]. *)
Fixpoint dget (k : K) (d : list (K * V)) : option V :=
  match d with
  | [] => None
  | (k', v) :: d => if decide (k' = k) then Some v else dget k d
  end.

(** [d[k] = v]. *)
Fixpoint dset (k : K) (v : V) (d : list (K * V)) : list (K * V) :=
  match d with
  | [] => [(k, v)]
  | (k', v') :: d => if decide (k' = k) then (k', v) :: d else (k', v') :: dset k v d
  end.

(** [d[k]] and [k in d]. *)
Definition dget_or_raise (k : K) (d : list (K * V)) : res V := of_option KeyError (dget k d).
Definition dmem (k : K) (d : list (K * V)) : bool :=
  match dget k d with Some _ => true | None => false end.

Lemma dget_dset k v d : dget k (dset k v d) = Some v.
Proof.
  induction d as [|[k' v'] d IH]; cbn; [by rewrite decide_True|].
  case_decide; cbn; [by rewrite decide_True|by rewrite decide_False].
Qed.

Lemma dget_dset_ne k k' v d : k ≠ k' → dget k (dset k' v d) = dget k d.
Proof.
  intros Hne. induction d as [|[k'' v''] d IH]; cbn; [by rewrite decide_False|].
  case_decide; cbn; repeat case_decide; congruence.
Qed.

Lemma dset_twice k v v' d : dset k v (dset k v' d) = dset k v d.
Proof.
  induction d as [|[k1 v1] d IH]; cbn; [by rewrite decide_True|].
  case_decide; cbn; [by rewrite decide_True|by rewrite decide_False, IH].
Qed.

Lemma dget_elem_of k v d : dget k d = Some v → (k, v) ∈ d.
Proof.
  induction d as [|[k' v'] d IH]; cbn; [done|]. case_decide; [|by right; apply IH].
  intros [= ->]. subst. by left.
Qed.

Lemma dget_None k d : dget k d = None ↔ k ∉ map fst d.
Proof.
  induction d as [|[k' v'] d IH]; cbn; [by split; [intros _; apply not_elem_of_nil|]|].
  rewrite not_elem_of_cons, <- IH. case_decide; [by split; [|intros []]|]. split; [by split; [congruence|]|by intros []].
Qed.

Lemma dget_Some_in k d : k ∈ map fst d → ∃ v, dget k d = Some v.
Proof.
  intros Hin. destruct (dget k d) eqn:E; [eauto|]. by apply dget_None in E.
Qed.

Lemma dset_new k v d : k ∉ map fst d → dset k v d = d ++ [(k, v)].
Proof.
  induction d as [|[k' v'] d IH]; cbn; [done|]. rewrite not_elem_of_cons. intros [??].
  rewrite decide_False by congruence. by rewrite IH.
Qed.

Lemma dset_keys_old k v d : k ∈ map fst d → map fst (dset k v d) = map fst d.
Proof.
  induction d as [|[k' v'] d IH]; cbn; [by intros ?%not_elem_of_nil|].
  rewrite elem_of_cons. case_decide; [done|]. intros [?|?]; [congruence|].
  cbn. f_equal. by apply IH.
Qed.

Lemma dset_keys k v d :
  map fst (dset k v d) = map fst d ++ (if decide (k ∈ map fst d) then [] else [k]).
Proof.
  case_decide; [rewrite app_nil_r; by apply dset_keys_old|].
  by rewrite dset_new, map_app.
Qed.

Lemma dset_NoDup k v d : NoDup (map fst d) → NoDup (map fst (dset k v d)).
Proof.
  intros Hd. rewrite dset_keys. case_decide; [by rewrite app_nil_r|].
  apply NoDup_app. split_and!; [done| |apply NoDup_singleton].
  by intros x Hx ->%list_elem_of_singleton.
Qed.

Lemma dget_NoDup k v d : NoDup (map fst d) → (k, v) ∈ d → dget k d = Some v.
Proof.
  induction d as [|[k' v'] d IH]; cbn; [by intros _ ?%not_elem_of_nil|].
  rewrite NoDup_cons, elem_of_cons. intros [Hn Hd] [[= -> ->]|Hin]; [by rewrite decide_True|].
  rewrite decide_False; [by apply IH|]. intros <-. apply Hn.
  apply list_elem_of_fmap. by exists (k', v).
Qed.

Lemma dget_app k d d' :
  dget k (d ++ d') = match dget k d with Some v => Some v | None => dget k d' end.
Proof. induction d as [|[k' v'] d IH]; cbn; [done|]. by case_decide. Qed.

Lemma dset_elem_of k v d k' v' : (k', v') ∈ dset k v d → (k' = k ∧ v' = v) ∨ (k', v') ∈ d.
Proof.
  induction d as [|[k0 v0] d IH]; cbn.
  - intros [= -> ->]%list_elem_of_singleton. auto.
  - case_decide; rewrite !elem_of_cons; [naive_solver|]. intros [?|H1]; [auto|].
    destruct (IH H1); auto.
Qed.

Lemma dmem_true k d : dmem k d = true ↔ k ∈ map fst d.
Proof.
  unfold dmem. destruct (dget k d) as [v|] eqn:E.
  - split; [|done]. intros _. apply dget_elem_of in E. apply list_elem_of_fmap. by exists (k, v).
  - split; [done|]. intros Hin. by apply dget_None in E.
Qed.

(** [dict.update]. *)
Definition dupdate (d d' : list (K * V)) : list (K * V) := foldl (fun d kv => dset kv.1 kv.2 d) d d'.

Lemma dget_dupdate k d d' :
  NoDup (map fst d') →
  dget k (dupdate d d') = match dget k d' with Some v => Some v | None => dget k d end.
Proof.
  unfold dupdate. revert d. induction d' as [|[k' v'] d' IH]; intros d; cbn; [done|].
  intros [Hn Hd]%NoDup_cons. rewrite IH by done. case_decide as Ek.
  - subst. by rewrite (proj2 (dget_None k d')), dget_dset.
  - rewrite dget_dset_ne by congruence. done.
Qed.

Lemma dupdate_elem_of k v d d' : (k, v) ∈ dupdate d d' → (k, v) ∈ d ∨ (k, v) ∈ d'.
Proof.
  unfold dupdate. revert d. induction d' as [|[k' v'] d' IH]; intros d; cbn [foldl]; [by left|].
  intros [H|H]%IH; [|right; by right]. apply dset_elem_of in H as [[-> ->]|H]; [right; by left|by left].
Qed.

Lemma dupdate_keys d d' : (∀ k, k ∈ map fst d' → k ∈ map fst d) → map fst (dupdate d d') = map fst d.
Proof.
  unfold dupdate. revert d. induction d' as [|[k' v'] d' IH]; intros d Hin; cbn; [done|].
  assert (k' ∈ map fst d) as Hk by (apply Hin; by left).
  rewrite IH; [by apply dset_keys_old|]. intros k Hk'. rewrite dset_keys_old by done.
  apply Hin. by right.
Qed.
End dict.

Lemma dget_map {K V W} `{EqDecision K} (f : V → W) k (d : list (K * V)) :
  dget k (map (fun kv => (kv.1, f kv.2)) d) = f <$> dget k d.
Proof. induction d as [|[k' v'] d IH]; cbn; [done|]. by case_decide. Qed.

Lemma dget_keys {K V} `{EqDecision K} (f : K → V) k keys :
  k ∈ keys → dget k (map (fun k => (k, f k)) keys) = Some (f k).
Proof.
  induction keys as [|k' keys IH]; cbn; [by intros ?%not_elem_of_nil|].
  rewrite elem_of_cons. case_decide; [by subst|]. intros [?|?]; [congruence|auto].
Qed.

Lemma keys_map {K V} (f : K → V) keys : map fst (map (fun k => (k, f k)) keys) = keys.
Proof. rewrite map_map. apply map_id. Qed.
