(* ===== verification/Sort.v ===== *)
(** * Sorting

    Python's [sorted]: a stable sort, written as insertion from the right, with
    the facts the components use.  The order is a boolean [le], the comparison
    of the keys. *)
From stdpp Require Import sorting.
From S2P Require Import Prelude.

Section sort.
Context {A : Type} (le : A → A → bool).

Fixpoint insert_sorted (a : A) (l : list A) : list A :=
  match l with
  | [] => [a]
  | b :: l' => if le a b then a :: l else b :: insert_sorted a l'
  end.

Definition py_sorted (l : list A) : list A := foldr insert_sorted [] l.

Lemma insert_sorted_perm a l : insert_sorted a l ≡ₚ a :: l.
Proof.
  induction l as [|b l IH]; [done|]. cbn. destruct (le a b); [done|].
  rewrite IH. by constructor.
Qed.

Lemma py_sorted_perm l : py_sorted l ≡ₚ l.
Proof. induction l as [|a l IH]; [done|]. cbn. rewrite insert_sorted_perm. by constructor. Qed.

Lemma elem_of_py_sorted a l : a ∈ py_sorted l ↔ a ∈ l.
Proof. by rewrite py_sorted_perm. Qed.

Context (le_total : ∀ a b, le a b = false → le b a = true)
        (le_trans : ∀ a b c, le a b = true → le b c = true → le a c = true).

Lemma insert_sorted_sorted a l : StronglySorted (fun x y => le x y = true) l →
  StronglySorted (fun x y => le x y = true) (insert_sorted a l).
Proof.
  induction 1 as [|b l Hl IH Hb]; cbn; [by repeat constructor|]. destruct (le a b) eqn:E.
  - constructor; [by constructor|]. constructor; [done|]. eapply Forall_impl; [exact Hb|]. eauto.
  - constructor; [done|]. rewrite insert_sorted_perm. constructor; auto.
Qed.

Lemma py_sorted_sorted l : StronglySorted (fun x y => le x y = true) (py_sorted l).
Proof. induction l; cbn; [constructor|]. by apply insert_sorted_sorted. Qed.
End sort.

(** [sorted] of integers. *)
Definition sorted_Z : list Z → list Z := py_sorted Z.leb.

Lemma sorted_Z_sorted l : StronglySorted (fun x y => (x <=? y) = true) (sorted_Z l).
Proof. apply py_sorted_sorted; intros; lia. Qed.

Lemma sorted_Z_perm l : sorted_Z l ≡ₚ l.
Proof. apply py_sorted_perm. Qed.

Lemma py_sorted_nil {A} (le : A → A → bool) l : py_sorted le l = [] ↔ l = [].
Proof.
  split; [|by intros ->]. intros E. apply Permutation_nil. rewrite <- E. apply py_sorted_perm.
Qed.

(** ** Strings *)

(** The order of strings, by code point. *)
Fixpoint str_le (a b : str) : bool :=
  match a, b with
  | [], _ => true
  | _ :: _, [] => false
  | x :: a, y :: b => (x <? y) || ((x =? y) && str_le a b)
  end.

Lemma str_le_total a b : str_le a b = false → str_le b a = true.
Proof.
  revert b. induction a as [|x a IH]; intros [|y b]; cbn; try done.
  intros H. apply orb_false_iff in H as [Hlt H]. destruct (x =? y) eqn:E; cbn in H.
  - rewrite (IH b H). apply Z.eqb_eq in E. subst. by rewrite Z.eqb_refl, orb_true_r.
  - assert ((y <? x) = true) as -> by lia. done.
Qed.

Lemma str_le_trans a b c : str_le a b = true → str_le b c = true → str_le a c = true.
Proof.
  revert b c. induction a as [|x a IH]; intros [|y b] [|z c]; cbn; try done.
  rewrite !orb_true_iff, !andb_true_iff. intros [H1|[H1 H2]] [H3|[H3 H4]]; [left; lia..|].
  right. split; [lia|eauto].
Qed.

Lemma str_le_antisym a b : str_le a b = true → str_le b a = true → a = b.
Proof.
  revert b. induction a as [|x a IH]; intros [|y b]; cbn; try done.
  rewrite !orb_true_iff, !andb_true_iff. intros [H1|[H1 H2]] [H3|[H3 H4]]; [lia..|].
  f_equal; [lia|auto].
Qed.

(** [sorted(set(l))]. *)
Definition sorted_set (l : list str) : list str := py_sorted str_le (remove_dups l).

Lemma elem_of_sorted_set x l : x ∈ sorted_set l ↔ x ∈ l.
Proof. unfold sorted_set. by rewrite elem_of_py_sorted, elem_of_remove_dups. Qed.

Lemma sorted_set_nil l : sorted_set l = [] ↔ l = [].
Proof.
  split; [|by intros ->]. intros H. apply elem_of_nil_inv. intros x Hx%elem_of_sorted_set. rewrite H in Hx.
  by apply not_elem_of_nil in Hx.
Qed.

(** The sorted set is determined by its elements. *)
Lemma sorted_set_eq l k : NoDup k → sorted_set l = py_sorted str_le k ↔ ∀ x, x ∈ l ↔ x ∈ k.
Proof.
  intros Hk. split.
  - intros E x. rewrite <- (elem_of_sorted_set x l), E. apply elem_of_py_sorted.
  - intros H. unfold sorted_set.
    assert (AntiSymm (=) (fun x y => str_le x y = true)) by (intros x y; apply str_le_antisym).
    apply (StronglySorted_unique (fun x y => str_le x y = true)).
    + apply py_sorted_sorted; [apply str_le_total|apply str_le_trans].
    + apply py_sorted_sorted; [apply str_le_total|apply str_le_trans].
    + rewrite !py_sorted_perm. apply NoDup_Permutation; [apply NoDup_remove_dups|done|].
      intros x. by rewrite elem_of_remove_dups.
Qed.

(** Pairs of strings, as tuples are compared. *)
Definition str_pair_le (a b : str * str) : bool := if decide (a.1 = b.1) then str_le a.2 b.2 else str_le a.1 b.1.
