(* ===== verification/Random.v ===== *)
(** * Random choices

    What the scripts use of a seeded [random.Random], as an interface: how the
    numbers are drawn is left open, only that a draw is within its range. *)
From S2P Require Import Prelude.

Class Rng := {
  rng : Type;
  seeded : Z → rng;
  randbelow : rng → Z → Z * rng;               (* randrange(n), and the index of choice *)
  below : rng → Z → Z → bool * rng;            (* random() < a / b *)
  weighted : rng → list Z → Z * rng            (* the index of choices(..., weights)[0] *)
}.

(** What the interface promises: a draw is within its range. *)
Class RngLaw (R : Rng) : Prop := {
  randbelow_range r n : 0 < n → 0 ≤ fst (randbelow r n) < n;
  weighted_range r ws : ws ≠ [] → 0 ≤ fst (weighted r ws) < zlen ws
}.

Section draws.
Context {R : Rng}.

Definition choice {A} (d : A) (l : list A) (r : rng) : A * rng :=
  let '(i, r) := randbelow r (zlen l) in (default d (l !! Z.to_nat i), r).
Definition randrange (a b : Z) (r : rng) : Z * rng := let '(i, r) := randbelow r (b - a) in (a + i, r).

(** [randint(a, b)], the upper end included. *)
Definition randint (a b : Z) (r : rng) : Z * rng := randrange a (b + 1) r.

Context {HR : RngLaw R}.

Lemma choice_in {A} (d : A) l r a r' : choice d l r = (a, r') → l ≠ [] → a ∈ l.
Proof.
  unfold choice. destruct (randbelow r (zlen l)) as [i r1] eqn:E. intros [= <- <-] Hne.
  pose proof (randbelow_range r (zlen l)) as Hr. rewrite E in Hr. cbn in Hr.
  destruct (lookup_lt_is_Some_2 l (Z.to_nat i)) as [a Ha].
  { unfold zlen in Hr. destruct l; [done|]. cbn [length] in *. lia. }
  rewrite Ha. by eapply list_elem_of_lookup_2.
Qed.

Lemma randrange_in a b r n r' : randrange a b r = (n, r') → a < b → a ≤ n < b.
Proof.
  unfold randrange. destruct (randbelow r (b - a)) as [i r1] eqn:E. intros [= <- <-] Hab.
  pose proof (randbelow_range r (b - a) ltac:(lia)) as Hr. rewrite E in Hr. cbn in Hr. lia.
Qed.

Lemma randint_in a b r n r' : randint a b r = (n, r') → a ≤ b → a ≤ n ≤ b.
Proof. intros H Hab. apply randrange_in in H; lia. Qed.
End draws.

(** A generator that counts, for the witnesses. *)
#[global] Instance counting_rng : Rng := {|
  rng := Z; seeded s := s;
  randbelow r n := (r mod n, r * 7 + 3);
  below r a b := (r mod b <? a, r * 5 + 1);
  weighted r ws := (r mod zlen ws, r * 3 + 2)
|}.
#[global] Instance counting_law : RngLaw counting_rng.
Proof.
  split; cbn.
  - intros r n Hn. by apply Z.mod_pos_bound.
  - intros r ws Hne. apply Z.mod_pos_bound. destruct ws; [done|]. rewrite zlen_cons. pose proof (zlen_nonneg ws). lia.
Qed.
