(* ===== verification/PassLine.v ===== *)
(** * The PASS line

    Model of scripts/pass_line.py: the one place a check prints its verdict,
    which refuses to pass about nothing.  Printing is the returned line;
    [raise SystemExit(1)] after a message on standard error is the exception
    [SystemExit1] with that message. *)
From S2P Require Import Prelude Text Sort.

Definition SystemExit1 (message : str) : exn := Custom "SystemExit" message.

(** [CaseCount]: how many scenarios a control ran. *)
Record CaseCount := { ran : Z }.
Definition new_count : CaseCount := {| ran := 0 |}.
Definition note (c : CaseCount) : CaseCount := {| ran := ran c + 1 |}.

Definition count_le (a b : str * Z) : bool :=
  if decide (a.1 = b.1) then a.2 <=? b.2 else str_le a.1 b.1.

Definition report_pass (check message : str) (examined : list (str * Z)) : res str :=
  match examined with
  | [] => Err (SystemExit1 ($"ERROR " ++ check ++ $": reported PASS without naming anything it examined. Pass the count that is zero when the check did no work; see scripts/pass_line.py."))
  | _ =>
      match py_sorted count_le (List.filter (fun nc => nc.2 <=? 0) examined) with
      | (_ :: _) as empty =>
          let detail := join ($", ") (map (fun nc => nc.1 ++ $"=" ++ dec nc.2) empty) in
          Err (SystemExit1 ($"ERROR " ++ check ++ $": would have reported PASS having examined nothing ("
            ++ detail ++ $"). The property is not established -- the scan found no input. Fix what the check looks at, and if an empty set is genuinely the right answer, say so in the check rather than reporting a verdict about it."))
      | [] => Ok ($"PASS " ++ check ++ $": " ++ message)
      end
  end.

Lemma report_pass_ok check message examined line :
  report_pass check message examined = Ok line ↔
  line = $"PASS " ++ check ++ $": " ++ message ∧ examined ≠ [] ∧ Forall (fun nc => 0 < nc.2) examined.
Proof.
  unfold report_pass. destruct examined as [|e es] eqn:Ee; [by split; [|intros (_ & ? & _)]|]. rewrite <- Ee.
  destruct (py_sorted count_le _) as [|x l] eqn:Es.
  - split; [|by intros (-> & _)]. intros [= <-]. split_and!; [done|by rewrite Ee|].
    apply Forall_forall. intros nc Hin. destruct (decide (0 < nc.2)); [done|]. exfalso.
    assert (nc ∈ List.filter (fun nc => nc.2 <=? 0) examined) as Hf
      by (apply list_elem_of_In, filter_In; split; [by apply list_elem_of_In|lia]).
    rewrite <- (py_sorted_perm count_le), Es in Hf. by apply not_elem_of_nil in Hf.
  - split; [done|]. intros (_ & _ & Hall). exfalso. assert (x ∈ x :: l) as Hx by by left.
    rewrite <- Es, (py_sorted_perm count_le) in Hx. apply list_elem_of_In, filter_In in Hx as [Hx Hle].
    rewrite Forall_forall in Hall. apply list_elem_of_In in Hx. specialize (Hall x Hx). lia.
Qed.
