(* ===== verification/Lz4Block.v ===== *)
(** * The LZ4 block codec of scripts/lz4_image.py

    [compress] is the greedy compressor with its exact 4-byte dictionary and
    [decompress] the reference-format decoder, both as the script writes them:
    index loops over the input, a growing output, and the decoder's refusals.
    [expand] is the specification: the bytes that a list of LZ4 sequences
    stands for.  The theorems: the decoder computes [expand] on every encoding
    of valid sequences, the compressor emits such an encoding of its input, so
    that the two compose to the identity; the compressed size is bounded; the
    decoder never goes past its capacity, and both loops end. *)
From S2P Require Import Prelude Bytes.

Definition MIN_MATCH : Z := 4.
Definition LAST_LITERALS : Z := 5.
Definition MATCH_FIND_LIMIT : Z := 12.
Definition MAX_OFFSET : Z := 65535.

Definition Invalid (msg : String.string) : exn := Custom "Invalid" $msg.

(** ** Encoder *)

Definition length_bytes (len : Z) : res bytes :=
  while (S (Z.to_nat len))
    (fun '(out, len) =>
       if 255 <=? len then Next (out ++ [255], len - 255)
       else Stop (push out len))
    ([], len).

(** [_sequence(out, literals, offset, match_length)]: the new [out]. *)
Definition sequence (out literals : bytes) (offset match_length : Z) : res bytes :=
  let lit_nibble := Z.min (zlen literals) 15 in
  let match_nibble :=
    if match_length =? 0 then 0 else Z.min (match_length - MIN_MATCH) 15 in
  out ← push out (Z.lor (Z.shiftl lit_nibble 4) match_nibble);
  out ← (if lit_nibble =? 15
         then (out ++.) <$> length_bytes (zlen literals - 15) else Ok out);
  let out := out ++ literals in
  if match_length =? 0 then Ok out else
  field ← pack_le 2 offset;
  let out := out ++ field in
  if match_nibble =? 15
  then (out ++.) <$> length_bytes (match_length - MIN_MATCH - 15) else Ok out.

(** The [while] loop of [compress] that extends a match. *)
Definition extend_match (data : bytes) (ip ref match_limit : Z) : res Z :=
  while (S (length data))
    (fun len => try_flow (
       if ip + len <? match_limit then
         a ← item data (ip + len);
         b ← item data (ref + len);
         Ok (if a =? b then Next (len + 1) else Stop (Ok len))
       else Ok (Stop (Ok len))))
    MIN_MATCH.

(** The [for] loop of [compress] that indexes positions a match covered. *)
Definition index_positions (data : bytes) (ip len find_limit : Z)
    (last : gmap bytes Z) : gmap bytes Z :=
  foldl (fun last p => <[slice data p (p + 4) := p]> last) last
    (py_range (ip + 1) (Z.min (ip + len) find_limit) (if len <? 64 then 1 else 7)).

Record cstate := mk_cstate {
  c_out : bytes;
  c_anchor : Z;
  c_ip : Z;
  c_last : gmap bytes Z;
}.

(** One turn of the main loop of [compress]. *)
Definition compress_body (data : bytes) (find_limit match_limit : Z)
    (st : cstate) : flow cstate (res cstate) :=
  if c_ip st <? find_limit then
    let ip := c_ip st in
    let key := slice data ip (ip + 4) in
    let ref := c_last st !! key in
    let last := <[key := ip]> (c_last st) in
    let no_match := Next (mk_cstate (c_out st) (c_anchor st) (ip + 1) last) in
    match ref with
    | Some ref =>
        if ip - ref <=? MAX_OFFSET then
          try_flow (
            len ← extend_match data ip ref match_limit;
            out ← sequence (c_out st) (slice data (c_anchor st) ip) (ip - ref) len;
            Ok (Next (mk_cstate out (ip + len) (ip + len)
                        (index_positions data ip len find_limit last))))
        else no_match
    | None => no_match
    end
  else Stop (Ok st).

Definition compress (data : bytes) : res bytes :=
  let n := zlen data in
  st ← (if MATCH_FIND_LIMIT <? n then
          while (S (length data))
            (compress_body data (n - MATCH_FIND_LIMIT) (n - LAST_LITERALS))
            (mk_cstate [] 0 0 ∅)
        else Ok (mk_cstate [] 0 0 ∅));
  sequence (c_out st) (from data (c_anchor st)) 0 0.

(** ** Decoder *)

Definition read_length (src : bytes) (ip : Z) : res (Z * Z) :=
  while (S (length src))
    (fun '(total, ip) => try_flow (
       if zlen src <=? ip then Err (Invalid "length runs past the input") else
       value ← item src ip;
       let ip := ip + 1 in
       let total := total + value in
       Ok (if negb (value =? 255) then Stop (Ok (total, ip)) else Next (total, ip))))
    (0, ip).

(** [for k in range(length): out.append(out[start + k])]. *)
Definition copy_match (out : bytes) (start len : Z) : res bytes :=
  foldM (fun out k => b ← item out (start + k); push out b) out (zrange len).

(** One turn of the loop of [decompress]; the state is [(out, ip)]. *)
Definition decompress_body (src : bytes) (capacity : Z) (st : bytes * Z)
    : flow (bytes * Z) (res bytes) :=
  let '(out, ip) := st in
  try_flow (
    if ip <? zlen src then
      token ← item src ip;
      let ip := ip + 1 in
      let literals := Z.shiftr token 4 in
      '(literals, ip) ←
        (if literals =? 15 then
           '(more, ip) ← read_length src ip; Ok (literals + more, ip)
         else Ok (literals, ip));
      if (zlen src - ip <? literals) || (capacity <? zlen out + literals)
      then Err (Invalid "literals past an end") else
      let out := out ++ slice src ip (ip + literals) in
      let ip := ip + literals in
      if ip =? zlen src then Ok (Stop (Ok out)) else
      if zlen src <? ip + 2 then Err (Invalid "offset past the input") else
      b0 ← item src ip;
      b1 ← item src (ip + 1);
      let offset := Z.lor b0 (Z.shiftl b1 8) in
      let ip := ip + 2 in
      if (offset =? 0) || (zlen out <? offset)
      then Err (Invalid "offset outside the output") else
      let len := Z.land token 15 + MIN_MATCH in
      '(len, ip) ←
        (if Z.land token 15 =? 15 then
           '(more, ip) ← read_length src ip; Ok (len + more, ip)
         else Ok (len, ip));
      if capacity <? zlen out + len then Err (Invalid "match past the output") else
      out ← copy_match out (zlen out - offset) len;
      Ok (Next (out, ip))
    else Err (Invalid "no final literals")).

Definition decompress (src : bytes) (capacity : Z) : res bytes :=
  match src with
  | [] => Ok []
  | _ => while (S (length src)) (decompress_body src capacity) ([], 0)
  end.

(** The script's own self-test vectors. *)
Example reference_vector :
  decompress ([0x1F; 0x61; 1; 0; 0; 0x50] ++ $"aaaaa") 64 = Ok (replicate 25 97).
Proof. vm_compute. reflexivity. Qed.

Example refused_vectors :
  map (fun bad => decompress bad 64)
    [[0x10; 0x61; 0; 0; 0]; [0x10; 0x61; 2; 0; 0]; [0xF0]; [0x20; 0x61]] =
  [Err (Invalid "offset outside the output"); Err (Invalid "offset outside the output");
   Err (Invalid "length runs past the input"); Err (Invalid "literals past an end")].
Proof. vm_compute. reflexivity. Qed.

Example sample_round_trip :
  let d := concat (replicate 3 ($"abcdefghijklm")) in
  (c ← compress d; decompress c (zlen d)) = Ok d.
Proof. vm_compute. reflexivity. Qed.

(** ** Specification: what a list of sequences stands for *)

Record lzseq := mk_lzseq { q_lits : bytes; q_off : Z; q_len : Z }.

(** [n] bytes, each the one [off] back from the end. *)
Fixpoint copy_back (n : nat) (off : Z) (out : bytes) : bytes :=
  match n with
  | O => out
  | S n => copy_back n off (out ++ [default 0 (out !! Z.to_nat (zlen out - off))])
  end.

Definition expand_seq (out : bytes) (q : lzseq) : bytes :=
  copy_back (Z.to_nat (q_len q)) (q_off q) (out ++ q_lits q).
Definition expand (out : bytes) (qs : list lzseq) : bytes := foldl expand_seq out qs.

(** What the format asks of a sequence that follows the output [out]. *)
Definition valid_seq (out : bytes) (q : lzseq) : Prop :=
  MIN_MATCH ≤ q_len q ∧ 1 ≤ q_off q ≤ MAX_OFFSET ∧
  q_off q ≤ zlen out + zlen (q_lits q) ∧ Forall is_byte (q_lits q).

Fixpoint valid_seqs (out : bytes) (qs : list lzseq) : Prop :=
  match qs with
  | [] => True
  | q :: qs => valid_seq out q ∧ valid_seqs (expand_seq out q) qs
  end.

(** The bytes of an extended length, of a sequence, and of a whole block. *)
Definition enc_len (n : Z) : bytes := replicate (Z.to_nat (n / 255)) 255 ++ [n mod 255].
Definition enc_ext (n : Z) : bytes := if 15 <=? n then enc_len (n - 15) else [].
Definition enc_seq (q : lzseq) : bytes :=
  [16 * Z.min (zlen (q_lits q)) 15 + Z.min (q_len q - MIN_MATCH) 15]
  ++ enc_ext (zlen (q_lits q)) ++ q_lits q ++ le_bytes 2 (q_off q)
  ++ enc_ext (q_len q - MIN_MATCH).
Definition enc_last (lits : bytes) : bytes :=
  [16 * Z.min (zlen lits) 15] ++ enc_ext (zlen lits) ++ lits.
Definition encode (qs : list lzseq) (last : bytes) : bytes :=
  concat (map enc_seq qs) ++ enc_last last.

(** ** The encoder writes that format *)

Lemma length_bytes_enc n : 0 ≤ n → length_bytes n = Ok (enc_len n).
Proof.
  intros Hn. unfold length_bytes.
  apply (while_total _
    (fun '(out, len) => 0 ≤ len ∧ out ++ enc_len len = enc_len n)
    (fun r => r = Ok (enc_len n))
    (fun '(_, len) => Z.to_nat len)); [|done|lia].
  intros [out len] [Hlen Hout]. zcase.
  - split; [|lia]. split; [lia|]. rewrite <- Hout, <- app_assoc. f_equal.
    unfold enc_len.
    replace (Z.to_nat (len / 255)) with (S (Z.to_nat ((len - 255) / 255)))
      by (Z.to_euclidean_division_equations; lia).
    replace ((len - 255) mod 255) with (len mod 255)
      by (Z.to_euclidean_division_equations; lia). done.
  - rewrite push_ok by (unfold is_byte; lia). rewrite <- Hout.
    unfold enc_len. rewrite Z.div_small, Z.mod_small by lia. done.
Qed.

Lemma ext_nibble n out :
  0 ≤ n →
  (if Z.min n 15 =? 15 then (out ++.) <$> length_bytes (n - 15) else Ok out)
  = Ok (out ++ enc_ext n).
Proof.
  intros Hn. unfold enc_ext. destruct (Z.leb_spec 15 n).
  - rewrite (proj2 (Z.eqb_eq _ _)) by lia. by rewrite length_bytes_enc by lia.
  - rewrite (proj2 (Z.eqb_neq _ _)) by lia. by rewrite app_nil_r.
Qed.

Lemma sequence_match out q :
  MIN_MATCH ≤ q_len q → 0 ≤ q_off q ≤ MAX_OFFSET →
  sequence out (q_lits q) (q_off q) (q_len q) = Ok (out ++ enc_seq q).
Proof.
  unfold MIN_MATCH, MAX_OFFSET. intros Hlen Hoff. unfold sequence, MIN_MATCH.
  pose proof (zlen_nonneg (q_lits q)).
  rewrite (proj2 (Z.eqb_neq (q_len q) 0)) by lia.
  rewrite nibbles by lia. rewrite push_ok by (unfold is_byte; lia). cbn [mbind res_bind].
  rewrite ext_nibble by lia. cbn [mbind res_bind].
  rewrite pack_le_ok by (change (256 ^ Z.of_nat 2) with 65536; lia). cbn [mbind res_bind].
  rewrite ext_nibble by lia.
  unfold enc_seq, MIN_MATCH. by rewrite <- !app_assoc.
Qed.

Lemma sequence_last out lits : sequence out lits 0 0 = Ok (out ++ enc_last lits).
Proof.
  unfold sequence. pose proof (zlen_nonneg lits). cbn [Z.eqb].
  rewrite Z.lor_0_r, Z.shiftl_mul_pow2, Z.mul_comm by lia. change (2 ^ 4) with 16.
  rewrite push_ok by (unfold is_byte; lia). cbn [mbind res_bind].
  rewrite ext_nibble by lia. cbn [mbind res_bind].
  unfold enc_last. by rewrite <- !app_assoc.
Qed.

(** ** The decoder reads that format *)

Lemma zlen_enc_len n : 0 ≤ n → zlen (enc_len n) = n / 255 + 1.
Proof.
  intros. unfold enc_len. zl. rewrite Z2Nat.id by (apply Z.div_pos; lia). lia.
Qed.

Lemma read_length_enc pre n post ip :
  0 ≤ n → ip = zlen pre →
  read_length (pre ++ enc_len n ++ post) ip = Ok (n, ip + zlen (enc_len n)).
Proof.
  intros Hn ->. unfold read_length. set (src := pre ++ enc_len n ++ post).
  assert (zlen src = zlen pre + n / 255 + 1 + zlen post) as Hsrc.
  { unfold src. zl. rewrite zlen_enc_len; lia. }
  pose proof (zlen_nonneg post). pose proof (zlen_nonneg pre).
  assert (0 ≤ n / 255) by (apply Z.div_pos; lia).
  apply (while_total _
    (fun '(total, ip) => ∃ j, 0 ≤ j ≤ n / 255 ∧ total = 255 * j ∧ ip = zlen pre + j)
    (fun r => r = Ok (n, zlen pre + zlen (enc_len n)))
    (fun '(_, ip) => Z.to_nat (zlen src - ip))).
  - intros [total ip] (j & Hj & -> & ->).
    rewrite (proj2 (Z.leb_gt _ _)) by lia.
    assert (item src (zlen pre + j) = Ok (if decide (j = n / 255) then n mod 255 else 255)) as ->.
    { unfold src, enc_len. rewrite (item_app_r _ _ _ j), <- app_assoc by lia.
      cbn [app]. case_decide.
      - rewrite item_app; [done|]. zl.
      - rewrite item_app_l, item_replicate; [done|lia|]. zl. }
    cbn [mbind res_bind try_flow]. case_decide.
    + rewrite (proj2 (Z.eqb_neq _ _)) by (pose proof (Z.mod_pos_bound n 255); lia).
      cbn [negb try_flow]. rewrite zlen_enc_len by lia. do 2 f_equal; [|lia].
      pose proof (Z.div_mod n 255). lia.
    + cbn [Z.eqb negb try_flow]. split; [exists (j + 1); lia|].
      lia.
  - exists 0. lia.
  - unfold zlen in *. lia.
Qed.

(** A four-bit field with its extension, as both fields of a token are read. *)
Lemma read_ext_enc pre n post c ip :
  0 ≤ n → ip = zlen pre →
  (if Z.min n 15 =? 15 then
     '(more, ip) ← read_length (pre ++ enc_ext n ++ post) ip; Ok (Z.min n 15 + c + more, ip)
   else Ok (Z.min n 15 + c, ip)) = Ok (n + c, ip + zlen (enc_ext n)).
Proof.
  intros Hn ->. unfold enc_ext. destruct (Z.leb_spec 15 n).
  - rewrite (proj2 (Z.eqb_eq _ _)) by lia.
    rewrite read_length_enc by (done || lia). cbn. do 2 f_equal. lia.
  - rewrite (proj2 (Z.eqb_neq _ _)) by lia. do 2 f_equal; [|zl]. lia.
Qed.

Lemma zlen_copy_back n off out : zlen (copy_back n off out) = zlen out + Z.of_nat n.
Proof. revert out. induction n as [|n IH]; intros out; cbn; [lia|]. rewrite IH. zl. Qed.

Lemma copy_back_byte n off out :
  Forall is_byte out → Forall is_byte (copy_back n off out).
Proof.
  revert out. induction n as [|n IH]; intros out Hout; cbn [copy_back]; [done|].
  apply IH, Forall_app. split; [done|]. constructor; [|done].
  destruct (out !! _) eqn:E; [|unfold is_byte; cbn; lia].
  by eapply Forall_lookup_1 in E.
Qed.

Lemma copy_match_back out off len :
  Forall is_byte out → 1 ≤ off ≤ zlen out →
  copy_match out (zlen out - off) len = Ok (copy_back (Z.to_nat len) off out).
Proof.
  intros Hout Hoff. unfold copy_match. rewrite zrange_seq.
  assert (∀ n k out start, Forall is_byte out → start = zlen out - Z.of_nat k - off →
    1 ≤ off ≤ zlen out →
    foldM (λ out k, b ← item out (start + k); push out b) out
      (map Z.of_nat (seq k n)) = Ok (copy_back n off out)) as Hgen.
  { clear. induction n as [|n IH]; intros k out start Hout -> Hoff; [done|].
    cbn [seq map foldM copy_back].
    replace (zlen out - Z.of_nat k - off + Z.of_nat k) with (zlen out - off) by lia.
    destruct (item_ok out (zlen out - off)) as [b Hb]; [lia|].
    pose proof Hb as Hb'%item_lookup. rewrite Hb, Hb'. cbn [mbind res_bind default].
    assert (is_byte b) by (by eapply Forall_lookup_1 in Hb').
    rewrite push_ok by done. cbn [mbind res_bind].
    apply IH; [by apply Forall_app; split; [|constructor]|zl|zl]. }
  apply Hgen; [done|lia|done].
Qed.

Lemma zlen_expand_seq out q :
  zlen (expand_seq out q) = zlen out + zlen (q_lits q) + Z.max 0 (q_len q).
Proof. unfold expand_seq. rewrite zlen_copy_back. zl. Qed.

Lemma expand_seq_byte out q :
  Forall is_byte out → Forall is_byte (q_lits q) → Forall is_byte (expand_seq out q).
Proof. intros. by apply copy_back_byte, Forall_app. Qed.

(** One turn of the decoder on one encoded sequence. *)
Lemma decompress_body_seq pre q post out cap :
  Forall is_byte out → valid_seq out q → zlen (expand_seq out q) ≤ cap →
  decompress_body (pre ++ enc_seq q ++ post) cap (out, zlen pre)
  = Next (expand_seq out q, zlen pre + zlen (enc_seq q)).
Proof.
  intros Hout (Hlen & Hoff & Hin & Hlits) Hcap. rewrite zlen_expand_seq in Hcap.
  unfold MIN_MATCH, MAX_OFFSET in *.
  set (src := pre ++ enc_seq q ++ post). unfold decompress_body, MIN_MATCH.
  set (L := zlen (q_lits q)) in *. assert (0 ≤ L) by apply zlen_nonneg.
  pose proof (zlen_nonneg pre). pose proof (zlen_nonneg post).
  assert (0 ≤ zlen (enc_ext L)) by apply zlen_nonneg.
  assert (0 ≤ zlen (enc_ext (q_len q - 4))) by apply zlen_nonneg.
  assert (zlen src = zlen pre + 1 + zlen (enc_ext L) + L + 2 + zlen (enc_ext (q_len q - 4))
    + zlen post) as Hsrc by (unfold src, enc_seq; zl; fold L; unfold MIN_MATCH; lia).
  rewrite (proj2 (Z.ltb_lt _ _)) by lia.
  assert (item src (zlen pre) = Ok (16 * Z.min L 15 + Z.min (q_len q - 4) 15)) as ->
    by (by apply item_app).
  cbn [mbind res_bind]. rewrite nibble_high, nibble_low by lia.
  pose proof (read_ext_enc
    (pre ++ [16 * Z.min L 15 + Z.min (q_len q - 4) 15]) L
    (q_lits q ++ le_bytes 2 (q_off q) ++ enc_ext (q_len q - 4) ++ post) 0
    (zlen pre + 1)) as Hlit.
  replace ((pre ++ _) ++ enc_ext L ++ _) with src in Hlit
    by (unfold src, enc_seq; by rewrite <- !app_assoc).
  rewrite !Z.add_0_r in Hlit. rewrite Hlit by (done || zl). clear Hlit.
  cbn [mbind res_bind].
  rewrite (proj2 (Z.ltb_ge _ _)), (proj2 (Z.ltb_ge _ _)) by lia. cbn [orb].
  set (ip := zlen pre + 1 + zlen (enc_ext L)).
  assert (slice src ip (ip + L) = q_lits q) as ->.
  { unfold src, enc_seq. rewrite <- !app_assoc.
    rewrite (app_assoc pre), (app_assoc (pre ++ _)). apply slice_mid; unfold ip; zl; by fold L. }
  rewrite (proj2 (Z.eqb_neq _ _)), (proj2 (Z.ltb_ge _ _)) by lia.
  assert (∃ b0 b1, le_bytes 2 (q_off q) = [b0; b1] ∧ is_byte b0 ∧ b0 + 256 * b1 = q_off q)
    as (b0 & b1 & Hb & Hb0 & Hval).
  { cbn [le_bytes]. do 2 eexists. split_and!; [done|apply Z.mod_pos_bound; lia|].
    Z.to_euclidean_division_equations; lia. }
  assert (src = (pre ++ [16 * Z.min L 15 + Z.min (q_len q - 4) 15] ++ enc_ext L ++ q_lits q)
    ++ b0 :: b1 :: enc_ext (q_len q - 4) ++ post) as Heq.
  { unfold src, enc_seq. rewrite Hb. by rewrite <- !app_assoc. }
  assert (item src (ip + L) = Ok b0) as ->.
  { rewrite Heq. apply item_app. unfold ip. zl. }
  assert (item src (ip + L + 1) = Ok b1) as ->.
  { rewrite Heq, (item_app_r _ _ _ 1); [done|lia|]. unfold ip. zl. }
  cbn [mbind res_bind]. rewrite lor_shiftl_8, Hval by done.
  rewrite (proj2 (Z.eqb_neq _ _)), (proj2 (Z.ltb_ge _ _)) by zl. cbn [orb].
  pose proof (read_ext_enc
    (pre ++ [16 * Z.min L 15 + Z.min (q_len q - 4) 15] ++ enc_ext L ++ q_lits q ++ [b0; b1])
    (q_len q - 4) post 4 (ip + L + 2)) as Hlen'.
  replace ((pre ++ _) ++ enc_ext (q_len q - 4) ++ post) with src in Hlen'
    by (rewrite Heq; by rewrite <- !app_assoc).
  rewrite Hlen' by (unfold ip; zl). clear Hlen'. cbn [mbind res_bind].
  rewrite (proj2 (Z.ltb_ge _ _)) by zl.
  rewrite copy_match_back by (try apply Forall_app; zl; done).
  cbn [mbind res_bind try_flow]. unfold expand_seq.
  replace (q_len q - 4 + 4) with (q_len q) by lia. do 2 f_equal.
  unfold ip, enc_seq. zl. fold L. unfold MIN_MATCH. lia.
Qed.

Lemma decompress_body_last pre lits out cap :
  zlen (out ++ lits) ≤ cap →
  decompress_body (pre ++ enc_last lits) cap (out, zlen pre) = Stop (Ok (out ++ lits)).
Proof.
  intros Hcap. rewrite zlen_app in Hcap.
  set (src := pre ++ enc_last lits). unfold decompress_body.
  set (L := zlen lits) in *. assert (0 ≤ L) by apply zlen_nonneg.
  assert (0 ≤ zlen (enc_ext L)) by apply zlen_nonneg.
  assert (zlen src = zlen pre + 1 + zlen (enc_ext L) + L) as Hsrc
    by (unfold src, enc_last; zl; fold L; lia).
  rewrite (proj2 (Z.ltb_lt _ _)) by lia.
  assert (item src (zlen pre) = Ok (16 * Z.min L 15)) as -> by (by apply item_app).
  cbn [mbind res_bind]. rewrite <- (Z.add_0_r (16 * _)), nibble_high by lia.
  pose proof (read_ext_enc (pre ++ [16 * Z.min L 15]) L lits 0 (zlen pre + 1)) as Hlit.
  replace ((pre ++ _) ++ enc_ext L ++ lits) with src in Hlit
    by (unfold src, enc_last; by rewrite <- !app_assoc).
  rewrite !Z.add_0_r in Hlit. rewrite Hlit by (done || zl). clear Hlit.
  cbn [mbind res_bind].
  rewrite (proj2 (Z.ltb_ge _ _)), (proj2 (Z.ltb_ge _ _)) by lia. cbn [orb].
  rewrite (proj2 (Z.eqb_eq _ _)) by lia. cbn [try_flow]. do 3 f_equal.
  unfold src, enc_last. rewrite slice_from by (zl; fold L; lia).
  rewrite (app_assoc pre), (app_assoc (pre ++ _)). apply from_app. zl. fold L. lia.
Qed.

Lemma expand_app out qs qs' : expand out (qs ++ qs') = expand (expand out qs) qs'.
Proof. apply foldl_app. Qed.

Lemma valid_seqs_app out qs qs' :
  valid_seqs out (qs ++ qs') ↔ valid_seqs out qs ∧ valid_seqs (expand out qs) qs'.
Proof.
  revert out. induction qs as [|q qs IH]; intros out; cbn; [tauto|].
  rewrite IH. unfold expand. tauto.
Qed.

Lemma zlen_expand_mono out qs : valid_seqs out qs → zlen out ≤ zlen (expand out qs).
Proof.
  revert out. induction qs as [|q qs IH]; intros out Hv; cbn; [lia|].
  destruct Hv as [_ Hv]. specialize (IH _ Hv). rewrite zlen_expand_seq in IH.
  pose proof (zlen_nonneg (q_lits q)). unfold expand in IH. lia.
Qed.

Lemma expand_byte out qs :
  Forall is_byte out → valid_seqs out qs → Forall is_byte (expand out qs).
Proof.
  revert out. induction qs as [|q qs IH]; intros out Hout Hv; [done|].
  destruct Hv as [(_ & _ & _ & Hl) Hv]. apply (IH (expand_seq out q)); [|done].
  by apply expand_seq_byte.
Qed.

(** Hypotheses on the encoded block that the decoder is run on. *)
Section decode.
Context (qs : list lzseq) (last : bytes) (cap : Z).
Hypothesis Hvalid : valid_seqs [] qs.
Hypothesis Hcap : zlen (expand [] qs ++ last) ≤ cap.

(** What the decoder has done between two turns: the sequences [done] are
    decoded, [todo] are not. *)
Definition decoder_at (st : bytes * Z) : Prop :=
  ∃ done todo, qs = done ++ todo ∧
    st = (expand [] done, zlen (concat (map enc_seq done))).

Lemma decoder_step st :
  decoder_at st →
  match decompress_body (encode qs last) cap st with
  | Next st' => decoder_at st' ∧
      (Z.to_nat (zlen (encode qs last) - st'.2) < Z.to_nat (zlen (encode qs last) - st.2))%nat
  | Stop r => r = Ok (expand [] qs ++ last)
  end.
Proof.
  intros (done & todo & Hqs & ->).
  assert (valid_seqs [] done ∧ valid_seqs (expand [] done) todo) as [Hd Ht]
    by (apply valid_seqs_app; by rewrite <- Hqs).
  assert (Forall is_byte (expand [] done)) by (by apply expand_byte).
  unfold encode. rewrite Hqs, map_app, concat_app, <- !app_assoc. destruct todo as [|q todo].
  - cbn [map concat app]. rewrite Hqs, app_nil_r in Hcap.
    rewrite decompress_body_last, app_nil_r; done.
  - cbn [map concat]. rewrite <- !app_assoc. destruct Ht as [Hq Ht].
    rewrite decompress_body_seq; [|done|done|].
    + split.
      * exists (done ++ [q]), todo. rewrite map_app, concat_app, expand_app, <- app_assoc.
        split; [done|]. cbn. f_equal. zl.
      * cbn [snd]. zl. assert (0 < zlen (enc_seq q)) by (unfold enc_seq; zl).
        pose proof (zlen_nonneg (concat (map enc_seq todo))).
        pose proof (zlen_nonneg (enc_last last)). lia.
    + rewrite Hqs, expand_app in Hcap. cbn in Hcap. rewrite zlen_app in Hcap.
      apply zlen_expand_mono in Ht. unfold expand in *. pose proof (zlen_nonneg last). lia.
Qed.

Lemma decompress_encode : decompress (encode qs last) cap = Ok (expand [] qs ++ last).
Proof.
  assert (encode qs last ≠ []) as Hne.
  { intros [_ H]%app_eq_nil. done. }
  unfold decompress. destruct (encode qs last) as [|b src] eqn:E; [done|].
  rewrite <- E.
  apply (while_total _ decoder_at (fun r => r = Ok (expand [] qs ++ last))
    (fun st => Z.to_nat (zlen (encode qs last) - st.2))).
  - apply decoder_step.
  - exists [], qs. done.
  - cbn [snd]. unfold zlen. rewrite E. cbn [length]. lia.
Qed.
End decode.

(** ** The compressor emits an encoding of its input *)

(** The dictionary maps a key to an earlier position that holds it. *)
Definition dict_ok (data : bytes) (bound : Z) (last : gmap bytes Z) : Prop :=
  ∀ key p, last !! key = Some p → 0 ≤ p < bound ∧ key = slice data p (p + 4).

Lemma dict_ok_insert data bound last p :
  dict_ok data bound last → 0 ≤ p < bound →
  dict_ok data bound (<[slice data p (p + 4) := p]> last).
Proof.
  intros Hd Hp key p' [[<- <-]|[_ ?]]%lookup_insert_Some; [done|by apply Hd].
Qed.

Lemma dict_ok_mono data b b' last : dict_ok data b last → b ≤ b' → dict_ok data b' last.
Proof. intros Hd ? key p Hp. destruct (Hd _ _ Hp). split; [lia|done]. Qed.

Lemma index_positions_ok data ip len find_limit last :
  0 ≤ ip → dict_ok data (ip + len) last →
  dict_ok data (ip + len) (index_positions data ip len find_limit last).
Proof.
  intros Hip Hd. unfold index_positions.
  assert (∀ p, p ∈ py_range (ip + 1) (Z.min (ip + len) find_limit)
    (if len <? 64 then 1 else 7) → 0 ≤ p < ip + len) as Hrange.
  { intros p Hp%elem_of_py_range; [lia|]. destruct (len <? 64); lia. }
  revert last Hd Hrange. generalize (py_range (ip + 1) (Z.min (ip + len) find_limit)
    (if len <? 64 then 1 else 7)).
  intros ps. induction ps as [|p ps IH]; intros last Hd Hrange; cbn; [done|].
  apply IH; [|by intros; apply Hrange; right].
  apply dict_ok_insert; [done|apply Hrange; by left].
Qed.

Definition agree (data : bytes) (ref ip len : Z) : Prop :=
  ∀ k, 0 ≤ k < len → item data (ref + k) = item data (ip + k).

Lemma agree_slices data ref ip len :
  0 ≤ ref → 0 ≤ ip → slice data ref (ref + len) = slice data ip (ip + len) →
  agree data ref ip len.
Proof.
  intros ? ? Heq k Hk.
  rewrite <- (item_slice data ref (ref + len)), Heq, item_slice by lia. done.
Qed.

Lemma extend_match_ok data ip ref limit :
  0 ≤ ref < ip → ip + MIN_MATCH ≤ limit ≤ zlen data → agree data ref ip MIN_MATCH →
  ∃ len, extend_match data ip ref limit = Ok len ∧
    MIN_MATCH ≤ len ∧ ip + len ≤ limit ∧ agree data ref ip len.
Proof.
  unfold MIN_MATCH. intros Href Hlimit Hagree. unfold extend_match.
  set (I := fun len => 4 ≤ len ∧ ip + len ≤ limit ∧ agree data ref ip len).
  apply (while_total _ I (fun r => ∃ len, r = Ok len ∧ I len)
    (fun len => Z.to_nat (limit - (ip + len))));
    [|by unfold I, MIN_MATCH; split_and!; [lia|lia|]|unfold zlen, MIN_MATCH in *; lia].
  intros len (H4 & Hle & Hag). zcase; [|cbn; unfold I; eauto].
  destruct (item_ok data (ip + len)) as [a Ha]; [lia|].
  destruct (item_ok data (ref + len)) as [b Hb]; [lia|].
  rewrite Ha, Hb. cbn. zcase; cbn; [|unfold I; eauto].
  split; [|lia]. split_and!; [lia|lia|].
  intros k Hk. destruct (decide (k = len)) as [->|]; [congruence|apply Hag; lia].
Qed.

(** A back reference that agrees with the data ahead copies that data. *)
Lemma copy_back_agree data n off ip :
  1 ≤ off ≤ ip → ip + Z.of_nat n ≤ zlen data → agree data (ip - off) ip (Z.of_nat n) →
  copy_back n off (slice data 0 ip) = slice data 0 (ip + Z.of_nat n).
Proof.
  revert ip. induction n as [|n IH]; intros ip Hoff Hle Hag; cbn [copy_back].
  { f_equal. lia. }
  destruct (item_ok data ip) as [x Hx]; [lia|].
  assert (item data (ip - off) = Ok x) as Hx'.
  { specialize (Hag 0). rewrite !Z.add_0_r in Hag. rewrite Hag; [done|lia]. }
  rewrite zlen_slice by lia. replace (ip - 0 - off) with (ip - off) by lia.
  assert (slice data 0 ip !! Z.to_nat (ip - off) = Some x) as ->.
  { apply item_lookup. rewrite item_slice by lia. done. }
  cbn [default]. rewrite <- slice_snoc by (done || lia).
  rewrite IH; [f_equal; lia|lia|lia|].
  intros k Hk. specialize (Hag (k + 1)). rewrite <- !Z.add_assoc, (Z.add_comm 1 k).
  replace (ip + 1 - off + k) with (ip - off + (k + 1)) by lia. apply Hag. lia.
Qed.

(** LZ4's rules for the end of a block of [n] bytes: the last match starts
    more than 12 bytes before the end, and at least 5 literals come last. *)
Definition end_rules (n : Z) (qs : list lzseq) : Prop :=
  ∀ qs1 q qs2, qs = qs1 ++ q :: qs2 →
    zlen (expand [] qs1) + zlen (q_lits q) < n - MATCH_FIND_LIMIT ∧
    zlen (expand [] (qs1 ++ [q])) ≤ n - LAST_LITERALS.

(** The state between two turns of the compressor's loop. *)
Definition compressed_to (data : bytes) (st : cstate) : Prop :=
  0 ≤ c_anchor st ≤ c_ip st ∧ c_ip st ≤ zlen data ∧
  dict_ok data (c_ip st) (c_last st) ∧
  255 * zlen (c_out st) ≤ 256 * c_anchor st ∧
  ∃ qs, c_out st = concat (map enc_seq qs) ∧ valid_seqs [] qs ∧
    expand [] qs = slice data 0 (c_anchor st) ∧ end_rules (zlen data) qs.

Lemma zlen_enc_ext n : 0 ≤ n → 255 * zlen (enc_ext n) ≤ (if 15 <=? n then n + 240 else 0).
Proof.
  intros. unfold enc_ext. zcase; [|by zl].
  rewrite zlen_enc_len by lia. Z.to_euclidean_division_equations; lia.
Qed.

(** A match pays for its own encoding. *)
Lemma zlen_enc_seq q :
  MIN_MATCH ≤ q_len q → 255 * zlen (enc_seq q) ≤ 256 * (zlen (q_lits q) + q_len q).
Proof.
  unfold MIN_MATCH. intros. unfold enc_seq, MIN_MATCH. zl.
  pose proof (zlen_enc_ext (zlen (q_lits q)) ltac:(lia)) as Hext.
  pose proof (zlen_enc_ext (q_len q - 4) ltac:(lia)) as Hext'.
  destruct (Z.leb_spec 15 (zlen (q_lits q))), (Z.leb_spec 15 (q_len q - 4)); lia.
Qed.

Lemma end_rules_snoc n qs q :
  end_rules n qs → zlen (expand [] qs) + zlen (q_lits q) < n - MATCH_FIND_LIMIT →
  zlen (expand [] (qs ++ [q])) ≤ n - LAST_LITERALS → end_rules n (qs ++ [q]).
Proof.
  intros Hr Hfind Hlast qs1 q' qs2 Heq.
  destruct (exists_last (l := q' :: qs2)) as (l & x & Hl); [done|].
  rewrite Hl, app_assoc in Heq. apply app_inj_tail in Heq as [-> ->].
  destruct l as [|y l]; simplify_eq/=; [by rewrite app_nil_r in *|].
  by eapply Hr.
Qed.

Lemma compress_step data st :
  Forall is_byte data → MATCH_FIND_LIMIT < zlen data → compressed_to data st →
  match compress_body data (zlen data - MATCH_FIND_LIMIT) (zlen data - LAST_LITERALS) st with
  | Next st' => compressed_to data st' ∧
      (Z.to_nat (zlen data - c_ip st') < Z.to_nat (zlen data - c_ip st))%nat
  | Stop r => ∃ st', r = Ok st' ∧ compressed_to data st'
  end.
Proof.
  intros Hdata Hn Hst. pose proof Hst as (Ha & Hip & Hd & Hsize & qs & Hout & Hv & Hx & Hend).
  unfold compress_body. zcase; [|eauto]. unfold MATCH_FIND_LIMIT, LAST_LITERALS in *.
  set (key := slice data (c_ip st) (c_ip st + 4)).
  assert (dict_ok data (c_ip st + 1) (<[key := c_ip st]> (c_last st))) as Hd'.
  { apply dict_ok_insert; [|lia]. eapply dict_ok_mono; [done|lia]. }
  assert (compressed_to data (mk_cstate (c_out st) (c_anchor st) (c_ip st + 1)
    (<[key := c_ip st]> (c_last st)))) as Hskip.
  { unfold compressed_to; cbn. split_and!; [lia|lia|lia|done|done|eauto]. }
  destruct (c_last st !! key) as [ref|] eqn:Eref; [|cbn; split; [done|lia]].
  zcase; [|cbn; split; [done|lia]].
  destruct (Hd _ _ Eref) as [Href Hkey].
  destruct (extend_match_ok data (c_ip st) ref (zlen data - 5)) as (len & -> & Hlen & Hlim & Hag);
    [lia|unfold MIN_MATCH; lia|apply agree_slices; [lia|lia|exact (eq_sym Hkey)]|].
  cbn [mbind res_bind].
  set (q := mk_lzseq (slice data (c_anchor st) (c_ip st)) (c_ip st - ref) len).
  pose proof (sequence_match (c_out st) q Hlen ltac:(cbn; lia)) as Hseq. cbn in Hseq.
  rewrite Hseq. cbn [mbind res_bind try_flow c_ip]. clear Hseq. unfold MIN_MATCH in Hlen.
  assert (zlen (q_lits q) = c_ip st - c_anchor st) as Hlits by (cbn; rewrite zlen_slice; lia).
  assert (expand [] (qs ++ [q]) = slice data 0 (c_ip st + len)) as Hexp.
  { rewrite expand_app, Hx. cbn. unfold expand_seq. cbn.
    rewrite slice_slice_app by lia.
    rewrite copy_back_agree; [f_equal; lia|lia|lia|].
    replace (c_ip st - (c_ip st - ref)) with ref by lia. by rewrite Z2Nat.id by lia. }
  assert (zlen (expand [] qs) = c_anchor st) as Hzx by (rewrite Hx, zlen_slice; lia).
  split; [|lia]. unfold compressed_to; cbn. split_and!; [lia|lia|lia| | | ].
  - apply index_positions_ok; [lia|]. eapply dict_ok_mono; [done|lia].
  - rewrite zlen_app. pose proof (zlen_enc_seq q Hlen). cbn in *. lia.
  - exists (qs ++ [q]). rewrite map_app, concat_app, <- Hout. cbn [map concat].
    rewrite app_nil_r. split_and!; [done| |done| ].
    + apply valid_seqs_app. split; [done|]. cbn. split; [|done].
      split_and!; [done|cbn;lia|cbn;lia|unfold MAX_OFFSET in *; cbn in *; lia|].
      by apply slice_byte.
    + apply end_rules_snoc; [done|unfold MATCH_FIND_LIMIT; lia|].
      rewrite Hexp, zlen_slice; unfold LAST_LITERALS; lia.
Qed.

(** The compressor's contract: it returns, its output encodes valid sequences
    that stand for the data, obeys the end-of-block rules and is at most a
    255th and two bytes longer than the data. *)
Lemma compress_spec data :
  Forall is_byte data →
  ∃ qs last, compress data = Ok (encode qs last) ∧ valid_seqs [] qs ∧
    expand [] qs ++ last = data ∧ end_rules (zlen data) qs ∧
    255 * zlen (encode qs last) ≤ 256 * zlen data + 495.
Proof.
  intros Hdata. unfold compress.
  assert (compressed_to data (mk_cstate [] 0 0 ∅)) as Hinit.
  { unfold compressed_to; cbn. split_and!; [lia|lia|apply zlen_nonneg|done|done|].
    exists []. split_and!; [done|done|done|]. intros qs1 q qs2 H. by destruct qs1. }
  assert (∃ st, (if MATCH_FIND_LIMIT <? zlen data then
      while (S (length data)) (compress_body data (zlen data - MATCH_FIND_LIMIT)
        (zlen data - LAST_LITERALS)) (mk_cstate [] 0 0 ∅)
      else Ok (mk_cstate [] 0 0 ∅)) = Ok st ∧ compressed_to data st) as (st & -> & Hst).
  { zcase; [|eauto].
    apply (while_total _ (compressed_to data) (fun r => ∃ st, r = Ok st ∧ compressed_to data st)
      (fun st => Z.to_nat (zlen data - c_ip st))); [|done|unfold zlen; cbn; lia].
    intros st Hst. by apply compress_step. }
  destruct Hst as (Ha & Hip & _ & Hsize & qs & Hout & Hv & Hx & Hend).
  cbn [mbind res_bind]. rewrite sequence_last, Hout.
  exists qs, (from data (c_anchor st)). split_and!; [done|done| |done|].
  - rewrite Hx. apply slice_from_split. lia.
  - unfold encode, enc_last. rewrite <- Hout. zl.
    assert (zlen (from data (c_anchor st)) = zlen data - c_anchor st) as ->
      by (unfold from, zlen in *; rewrite length_drop; lia).
    pose proof (zlen_enc_ext (zlen data - c_anchor st) ltac:(lia)) as Hext.
    destruct (Z.leb_spec 15 (zlen data - c_anchor st)); lia.
Qed.

(** ** The decoder on arbitrary input *)

Definition is_invalid (e : exn) : Prop := ∃ msg, e = Invalid msg.

Lemma read_length_total src ip :
  Forall is_byte src → 0 ≤ ip →
  match read_length src ip with
  | Ok (total, ip') => 0 ≤ total ∧ ip < ip' ≤ zlen src
  | Err e => is_invalid e
  end.
Proof.
  intros Hsrc Hip. unfold read_length.
  destruct (Z.leb_spec (zlen src) ip) as [Hge|Hlt].
  { cbn. rewrite (proj2 (Z.leb_le _ _)) by done. by eexists. }
  apply (while_total _ (fun '(total, i) => 0 ≤ total ∧ ip ≤ i ≤ zlen src)
    (fun r => match r with Ok (total, ip') => 0 ≤ total ∧ ip < ip' ≤ zlen src
              | Err e => is_invalid e end)
    (fun '(_, i) => Z.to_nat (zlen src - i))); [|lia|unfold zlen in *; lia].
  intros [total i] [Ht Hi]. zcase; [by eexists|].
  destruct (item_ok src i) as [v Hv]; [lia|]. rewrite Hv. cbn.
  assert (is_byte v) as [? ?] by (by eapply (item_byte src)).
  zcase; cbn; lia.
Qed.

(** The common part of both length fields of a token. *)
Lemma read_ext_total src v w ip :
  Forall is_byte src → 0 ≤ ip ≤ zlen src → 0 ≤ w →
  match (if v =? 15 then '(more, ip) ← read_length src ip; Ok (w + more, ip) else Ok (w, ip)) with
  | Ok (n, ip') => 0 ≤ n ∧ ip ≤ ip' ≤ zlen src
  | Err e => is_invalid e
  end.
Proof.
  intros Hsrc Hip Hw. zcase; [|lia].
  pose proof (read_length_total src ip Hsrc ltac:(lia)) as Hr.
  destruct (read_length src ip) as [[more ip']|e]; cbn; [lia|done].
Qed.

Definition decoded_within (cap : Z) (r : res bytes) : Prop :=
  match r with
  | Ok out => zlen out ≤ cap ∧ Forall is_byte out
  | Err e => is_invalid e
  end.

Lemma decompress_body_total src cap out ip :
  Forall is_byte src → Forall is_byte out → zlen out ≤ cap → 0 ≤ ip ≤ zlen src →
  match decompress_body src cap (out, ip) with
  | Next (out', ip') => (Forall is_byte out' ∧ zlen out' ≤ cap ∧ 0 ≤ ip' ≤ zlen src) ∧ ip < ip'
  | Stop r => decoded_within cap r
  end.
Proof.
  intros Hsrc Hout Hcap Hip. unfold decompress_body. zcase; [|by eexists].
  destruct (item_ok src ip) as [token Htok]; [lia|]. rewrite Htok. cbn [mbind res_bind].
  assert (is_byte token) as [Ht _] by (by eapply (item_byte src)).
  pose proof (read_ext_total src (Z.shiftr token 4) (Z.shiftr token 4) (ip + 1) Hsrc
    ltac:(lia) (proj2 (Z.shiftr_nonneg token 4) Ht)) as Hlit.
  destruct (if _ =? 15 then _ else _) as [[literals ip1]|e]; [|done]. cbn [mbind res_bind].
  zcase; [by eexists|].
  assert (Forall is_byte (out ++ slice src ip1 (ip1 + literals))) as Hout'
    by (apply Forall_app; split; [done|by apply slice_byte]).
  assert (zlen (out ++ slice src ip1 (ip1 + literals)) = zlen out + literals) as Hlen
    by (rewrite zlen_app, zlen_slice; lia).
  zcase; [cbn; rewrite Hlen; split; [lia|done]|]. zcase; [by eexists|].
  destruct (item_ok src (ip1 + literals)) as [b0 Hb0]; [lia|].
  destruct (item_ok src (ip1 + literals + 1)) as [b1 Hb1]; [lia|].
  rewrite Hb0, Hb1, Hlen. cbn [mbind res_bind].
  set (offset := Z.lor b0 (Z.shiftl b1 8)). zcase; [by eexists|].
  assert (0 ≤ offset) as Hoff.
  { apply item_byte in Hb0, Hb1; [|done..]. unfold is_byte in *. apply Z.lor_nonneg. split; [lia|]. apply Z.shiftl_nonneg. lia. }
  pose proof (read_ext_total src (Z.land token 15) (Z.land token 15 + MIN_MATCH)
    (ip1 + literals + 2) Hsrc ltac:(lia)) as Hl.
  assert (0 ≤ Z.land token 15) by (apply Z.land_nonneg; lia).
  specialize (Hl ltac:(unfold MIN_MATCH; lia)).
  destruct (if _ =? 15 then _ else _) as [[len ip2]|e]; [|done]. cbn [mbind res_bind].
  zcase; [by eexists|].
  rewrite <- Hlen, copy_match_back by (try done; lia). cbn [mbind res_bind try_flow].
  split; [|lia]. split_and!; [by apply copy_back_byte| |lia|lia].
  rewrite zlen_copy_back. lia.
Qed.

Lemma decompress_total src cap :
  Forall is_byte src → 0 ≤ cap → decoded_within cap (decompress src cap).
Proof.
  intros Hsrc Hcap. unfold decompress. destruct src as [|b src]; [by cbn|].
  remember (b :: src) as s eqn:Hs. clear Hs b src.
  apply (while_total _
    (fun '(out, ip) => Forall is_byte out ∧ zlen out ≤ cap ∧ 0 ≤ ip ≤ zlen s)
    (decoded_within cap) (fun '(_, ip) => Z.to_nat (zlen s - ip))).
  - intros [out ip] (Hout & Hc & Hip).
    pose proof (decompress_body_total s cap out ip Hsrc Hout Hc Hip) as H.
    destruct (decompress_body s cap (out, ip)) as [[out' ip']|r]; [|done].
    destruct H as [? ?]. split; [done|lia].
  - split_and!; [done|zl|lia|zl].
  - unfold zlen. lia.
Qed.

(** ** Properties *)

(** C1: round trip.  Whatever the data, [compress] returns and [decompress]
    with at least the data's length as capacity gives the data back. *)
Theorem decompress_compress data capacity :
  Forall is_byte data → zlen data ≤ capacity →
  (coded ← compress data; decompress coded capacity) = Ok data.
Proof.
  intros Hdata Hcap. destruct (compress_spec data Hdata) as (qs & last & -> & Hv & Hx & _).
  cbn [mbind res_bind]. rewrite decompress_encode; [by rewrite Hx|done|by rewrite Hx].
Qed.

Lemma decompress_compress_witness :
  (coded ← compress ($"abcdabcdabcdabcdabcdabcd"); decompress coded 24)
  = Ok ($"abcdabcdabcdabcdabcdabcd").
Proof.
  apply (decompress_compress ($"abcdabcdabcdabcdabcdabcd") 24).
  - vm_compute. repeat constructor; done.
  - vm_compute. done.
Defined.

(** C12: refinement of the format.  On the encoding of any valid sequences the
    decoder computes the bytes that the sequences stand for, whenever they fit
    the capacity. *)
Theorem decompress_refines_format qs last capacity :
  valid_seqs [] qs → zlen (expand [] qs ++ last) ≤ capacity →
  decompress (encode qs last) capacity = Ok (expand [] qs ++ last).
Proof. apply decompress_encode. Qed.

Lemma decompress_refines_format_witness :
  decompress (encode [mk_lzseq [97] 1 19] ($"aaaaa")) 64
  = Ok (expand [] [mk_lzseq [97] 1 19] ++ $"aaaaa").
Proof.
  apply (decompress_refines_format [mk_lzseq [97] 1 19] ($"aaaaa") 64).
  - cbn. unfold valid_seq, MIN_MATCH, MAX_OFFSET. cbn.
    split_and!; try lia; [by vm_compute|]. by repeat constructor.
  - vm_compute. done.
Defined.

(** Bounds.  The compressed block is at most a 255th and two bytes longer
    than the data, and it obeys LZ4's end-of-block rules: every match starts
    more than [MATCH_FIND_LIMIT] bytes before the end of the data and leaves
    at least [LAST_LITERALS] bytes to the last literals. *)
Theorem compress_bounds data :
  Forall is_byte data →
  ∃ qs last, compress data = Ok (encode qs last) ∧ expand [] qs ++ last = data ∧
    255 * zlen (encode qs last) ≤ 256 * zlen data + 495 ∧ end_rules (zlen data) qs.
Proof.
  intros Hdata. destruct (compress_spec data Hdata) as (qs & last & ? & ? & ? & ? & ?).
  exists qs, last. done.
Qed.

Lemma compress_bounds_witness :
  ∃ qs last, compress (replicate 40 7) = Ok (encode qs last) ∧
    expand [] qs ++ last = replicate 40 7 ∧
    255 * zlen (encode qs last) ≤ 256 * zlen (replicate 40 7) + 495 ∧
    end_rules (zlen (replicate 40 7)) qs.
Proof.
  apply (compress_bounds (replicate 40 7)). apply Forall_replicate. done.
Defined.

(** C19: safety of the decoder.  On any byte string it ends; it either returns
    bytes that fit the capacity or raises [Invalid], and never anything else. *)
Theorem decompress_safe src capacity :
  Forall is_byte src → 0 ≤ capacity →
  (∃ out, decompress src capacity = Ok out ∧ zlen out ≤ capacity ∧ Forall is_byte out) ∨
  (∃ msg, decompress src capacity = Err (Invalid msg)).
Proof.
  intros Hsrc Hcap. pose proof (decompress_total src capacity Hsrc Hcap) as H.
  destruct (decompress src capacity) as [out|e]; [left; naive_solver|right].
  destruct H as [msg ->]. eauto.
Qed.

Lemma decompress_safe_witness :
  (∃ out, decompress [0x1F; 0x61; 1; 0] 8 = Ok out ∧ zlen out ≤ 8 ∧ Forall is_byte out) ∨
  (∃ msg, decompress [0x1F; 0x61; 1; 0] 8 = Err (Invalid msg)).
Proof.
  apply (decompress_safe [0x1F; 0x61; 1; 0] 8); [by repeat constructor|done].
Defined.
