(* ===== verification/Lz4Container.v ===== *)
(** * The TKZ1 container of scripts/lz4_image.py

    [pack] cuts an image into 64 KiB chunks, drops the blocks that are all
    zero, and stores each chunk's remaining blocks as one LZ4 block; [unpack]
    is the inverse the script checks every container with, and [main] the
    command line with its files.  The container is written against an
    interface to the block codec ([BlockCodec]): its theorems use only the
    codec's law, and [Lz4Block] discharges it. *)
From S2P Require Import Prelude Bytes Text PassLine Lz4Block.

(** ** The codec the container relies on *)

Class BlockCodec := {
  encode_block : bytes → res bytes;
  decode_block : bytes → Z → res bytes;
}.

(** The law: what is encoded decodes within any capacity that holds it, and
    the code of a chunk fits its length field. *)
Class BlockCodecLaw (C : BlockCodec) : Prop := {
  codec_round_trip : ∀ data, Forall is_byte data → ∃ coded,
    encode_block data = Ok coded ∧ 255 * zlen coded ≤ 256 * zlen data + 495 ∧
    ∀ capacity, zlen data ≤ capacity → decode_block coded capacity = Ok data;
}.

Instance lz4_codec : BlockCodec := {
  encode_block := compress;
  decode_block := decompress;
}.

Instance lz4_codec_law : BlockCodecLaw lz4_codec.
Proof.
  constructor. intros data Hdata.
  destruct (compress_spec data Hdata) as (qs & last & Hc & Hv & Hx & _ & Hsize).
  exists (encode qs last). split_and!; [done|done|].
  intros cap Hcap. cbn. rewrite decompress_encode; [by rewrite Hx|done|by rewrite Hx].
Qed.

Definition MAGIC : bytes := $"TKZ1".
Definition BLOCK_SIZE : Z := 1024.
Definition CHUNK_BLOCKS : Z := 64.
Definition chunk_bytes : Z := BLOCK_SIZE * CHUNK_BLOCKS.

Section container.
Context {C : BlockCodec}.

(** The blocks of one chunk: its [present] word and the kept bytes. *)
Definition scan_chunk (image : bytes) (c : Z) : Z * bytes :=
  foldl (fun '(present, kept) b =>
      let start := c * chunk_bytes + b * BLOCK_SIZE in
      let block := slice image start (start + BLOCK_SIZE) in
      if decide (block ≠ zeros BLOCK_SIZE)
      then (Z.lor present (Z.shiftl 1 b), kept ++ block) else (present, kept))
    (0, []) (zrange CHUNK_BLOCKS).

Definition pack (image : bytes) : res bytes :=
  if negb (zlen image mod chunk_bytes =? 0) then Err ValueError else
  let chunks := zlen image / chunk_bytes in
  size ← pack_le 4 BLOCK_SIZE;
  blocks ← pack_le 4 CHUNK_BLOCKS;
  count ← pack_le 4 chunks;
  foldM (fun out c =>
      let '(present, kept) := scan_chunk image c in
      coded ← (if decide (kept = []) then Ok [] else encode_block kept);
      word ← pack_le 8 present;
      len ← pack_le 4 (zlen coded);
      Ok (out ++ word ++ len ++ coded))
    (MAGIC ++ size ++ blocks ++ count) (zrange chunks).

(** The blocks of one chunk put back: [(image, k)] after the loop over [b]. *)
Definition place_blocks (present : Z) (kept image : bytes) : bytes * Z :=
  foldl (fun '(image, k) b =>
      if Z.land (Z.shiftr present b) 1 =? 1
      then (image ++ slice kept (k * BLOCK_SIZE) ((k + 1) * BLOCK_SIZE), k + 1)
      else (image ++ zeros BLOCK_SIZE, k))
    (image, 0) (zrange CHUNK_BLOCKS).

(** One turn of [unpack]'s loop over the chunks; the state is [(at, image)]. *)
Definition unpack_chunk (container : bytes) (st : Z * bytes) (_ : Z) : res (Z * bytes) :=
  let '(at_, image) := st in
  present ← unpack_le 8 container at_;
  coded_len ← unpack_le 4 container (at_ + 8);
  let at_ := at_ + 12 in
  let coded := slice container at_ (at_ + coded_len) in
  if negb (zlen coded =? coded_len) then Err (Invalid "chunk past the container") else
  let at_ := at_ + coded_len in
  let count := popcount present in
  kept ← (if count =? 0 then Ok [] else decode_block coded (count * BLOCK_SIZE));
  if negb (zlen kept =? count * BLOCK_SIZE)
  then Err (Invalid "chunk decodes to the wrong length") else
  Ok (at_, (place_blocks present kept image).1).

Definition unpack (container : bytes) : res bytes :=
  if decide (slice container 0 4 ≠ MAGIC) then Err (Invalid "no TKZ1 magic") else
  block_size ← unpack_le 4 container 4;
  chunk_blocks ← unpack_le 4 container 8;
  chunks ← unpack_le 4 container 12;
  if negb ((block_size =? BLOCK_SIZE) && (chunk_blocks =? CHUNK_BLOCKS))
  then Err (Invalid "unexpected geometry") else
  '(at_, image) ← foldM (unpack_chunk container) (16, []) (zrange chunks);
  if existsb (fun b => negb (b =? 0)) (from container at_)
  then Err (Invalid "nonzero bytes after the last chunk") else Ok image.

(** ** The command line

    [files] is the file system that [main] reads and writes; an exit status
    of 1 or 2 leaves it as it was, apart from what was written before. *)

Definition read_file (files : gmap str bytes) (path : str) : res bytes :=
  of_option (Custom "FileNotFoundError" path) (files !! path).

(** [max(len(out) for out in outs)]. *)
Definition width_of (outs : list bytes) : Z := foldr Z.max 0 (map zlen outs).
Definition pad_to (width : Z) (out : bytes) : bytes := out ++ zeros (width - zlen out).

(** The verdict line, after the files have been written; [report_pass] exits with 1 when
    the images have no bytes. *)
Definition pack_verdict (ins : list str) (images : list bytes) (width : Z) : res str :=
  report_pass ($"lz4-image")
    (join ($", ") (map (fun pi => pi.1 ++ $": " ++ dec (zlen pi.2) ++ $" -> " ++ dec width ++ $" bytes") (zip ins images)))
    [($"bytes", foldl Z.add 0 (map zlen images))].

(** The [pack] and [pack-pair] branch of [main]: [ins] and [paths] are the
    [count] input and output paths.  The result is the exit status and the files. *)
Definition main_pack (ins paths : list str) (files : gmap str bytes)
    : res (Z * gmap str bytes) :=
  images ← mapM_res (read_file files) ins;
  outs ← mapM_res pack images;
  let width := width_of outs in
  let outs := map (pad_to width) outs in
  ok ← foldM (fun (ok : bool) (io : bytes * bytes) =>
         if ok then image' ← unpack io.2; Ok (bool_decide (image' = io.1)) else Ok ok)
       true (zip images outs);
  if (ok : bool) then
    let files := foldl (fun (files : gmap str bytes) (po : str * bytes) => <[po.1 := po.2]> files)
                   files (zip paths outs) in
    Ok (match pack_verdict ins images width with Ok _ => 0 | Err _ => 1 end, files)
  else Ok (1, files).

End container.

(** [fixture_image]: the input of the linux_user/lz4 test. *)
Definition assign (l : bytes) (at_ : Z) (v : bytes) : bytes :=
  slice l 0 at_ ++ v ++ from l (at_ + zlen v).

Definition lcg (state : Z) : Z := Z.land (state * 1103515245 + 12345) 0x7FFFFFFF.

Fixpoint noise (n : nat) (state : Z) : bytes :=
  match n with
  | O => []
  | S n => let state := lcg state in Z.land (Z.shiftr state 16) 255 :: noise n state
  end.

Definition fixture_text : bytes :=
  concat (replicate 40 ($"Takibi provisions the stick from this image. ")).

Definition fixture_image : bytes * bytes :=
  let image := zeros (chunk_bytes * 3) in
  let image := assign image BLOCK_SIZE fixture_text in
  let image := assign image (20 * BLOCK_SIZE) (noise (Z.to_nat (8 * BLOCK_SIZE)) 12345) in
  let image := assign image (63 * BLOCK_SIZE + BLOCK_SIZE - 1) [0xA5] in
  let image := assign image (chunk_bytes + 5 * BLOCK_SIZE)
                 (replicate (Z.to_nat (4 * BLOCK_SIZE)) 0x5A) in
  (image, fixture_text).

(** [self_test]: an assertion that fails raises. *)
Definition AssertionError : exn := Custom "AssertionError" [].

Definition self_test_samples : list bytes :=
  [[]; $"a"; $"abcdefghijkl"; concat (replicate 3 ($"abcdefghijklm")); zeros 5000;
   concat (replicate 40 (zrange 256)); replicate (Z.to_nat 70000) 120;
   map (fun i => Z.land (Z.shiftr (i * 7919) 3) 255) (zrange 9000)].

(** [raises_invalid m]: the [try]/[except Invalid] around a call that must
    raise; another exception goes through. *)
Definition raises_invalid (m : res bytes) : res unit :=
  match m with
  | Ok _ => Err AssertionError
  | Err e => match e with
             | Custom cls _ => if decide (cls = "Invalid"%string) then Ok () else Err e
             | _ => Err e
             end
  end.

Definition self_test_image : bytes :=
  assign (assign (zeros (BLOCK_SIZE * CHUNK_BLOCKS * 2)) (5 * BLOCK_SIZE)
            (replicate (Z.to_nat BLOCK_SIZE) 1))
    (70 * BLOCK_SIZE + 3) [9].

Definition self_test {C : BlockCodec} : res unit :=
  _ ← foldM (fun _ sample =>
         coded ← encode_block sample;
         back ← decode_block coded (zlen sample);
         require (bool_decide (back = sample)) AssertionError) () self_test_samples;
  back ← decode_block ([0x1F; 0x61; 1; 0; 0; 0x50] ++ $"aaaaa") 64;
  _ ← require (bool_decide (back = replicate 25 97)) AssertionError;
  _ ← foldM (fun _ bad => raises_invalid (decode_block bad 64)) ()
        [[0x10; 0x61; 0; 0; 0x00]; [0x10; 0x61; 2; 0; 0x00]; [0xF0]; [0x20; 0x61]];
  container ← pack self_test_image;
  image ← unpack container;
  _ ← require (bool_decide (image = self_test_image)) AssertionError;
  image ← unpack (container ++ zeros 3);
  _ ← require (bool_decide (image = self_test_image)) AssertionError;
  _ ← raises_invalid (unpack (container ++ [1]));
  present ← unpack_le 8 container 16;
  require (present =? Z.shiftl 1 5) AssertionError.

(** [write_fixture], and the dispatch of [main]. *)
Definition join_path (dir name : str) : str :=
  match last dir with
  | None => name
  | Some c => if c =? 47 then dir ++ name else dir ++ $"/" ++ name
  end.

Definition write_fixture {C : BlockCodec} (dir : str) (files : gmap str bytes)
    : res (gmap str bytes) :=
  let '(image, text) := fixture_image in
  packed ← pack image;
  coded ← encode_block text;
  Ok (foldl (fun (files : gmap str bytes) '(name, data) =>
          <[join_path dir name := data]> files) files
        [($"image.bin", image); ($"image.tkz", packed); ($"text.bin", text);
         ($"text.lz4", coded)]).

Definition main {C : BlockCodec} (argv : list str) (files : gmap str bytes)
    : res (Z * gmap str bytes) :=
  match argv with
  | [_; cmd] =>
      if decide (cmd = $"self-test") then _ ← self_test; Ok (0, files) else Ok (2, files)
  | [_; cmd; dir] =>
      if decide (cmd = $"fixture") then files' ← write_fixture dir files; Ok (0, files')
      else Ok (2, files)
  | [_; cmd; image; out] =>
      if decide (cmd = $"pack") then main_pack [image] [out] files else Ok (2, files)
  | [_; cmd; a; b; outa; outb] =>
      if decide (cmd = $"pack-pair") then main_pack [a; b] [outa; outb] files
      else Ok (2, files)
  | _ => Ok (2, files)
  end.

(** ** Counting bits *)

Lemma popcount_double y : 0 ≤ y → popcount (2 * y) = popcount y.
Proof. by destruct y. Qed.

Lemma popcount_double_1 y : 0 ≤ y → popcount (2 * y + 1) = 1 + popcount y.
Proof. destruct y; try done; lia. Qed.

Lemma popcount_add_pow2 n x :
  0 ≤ x < 2 ^ Z.of_nat n → popcount (x + 2 ^ Z.of_nat n) = 1 + popcount x.
Proof.
  revert x. induction n as [|n IH]; intros x Hx.
  { change (2 ^ Z.of_nat 0) with 1 in *. by replace x with 0 by lia. }
  rewrite Nat2Z.inj_succ, Z.pow_succ_r in * by lia.
  assert (x = 2 * (x / 2) ∨ x = 2 * (x / 2) + 1) as Hpar
    by (Z.to_euclidean_division_equations; lia).
  assert (0 ≤ x / 2 < 2 ^ Z.of_nat n) as Hhalf by (Z.to_euclidean_division_equations; lia).
  specialize (IH _ Hhalf). destruct Hpar as [Hpar|Hpar]; rewrite Hpar; clear Hpar.
  - rewrite <- Z.mul_add_distr_l, !popcount_double by lia. done.
  - replace (2 * (x / 2) + 1 + 2 * 2 ^ Z.of_nat n) with (2 * (x / 2 + 2 ^ Z.of_nat n) + 1) by lia.
    rewrite !popcount_double_1 by lia. lia.
Qed.

Lemma zrange_succ m : 0 ≤ m → zrange (m + 1) = zrange m ++ [m].
Proof.
  intros. rewrite !zrange_seq. replace (Z.to_nat (m + 1)) with (Z.to_nat m + 1)%nat by lia.
  rewrite seq_app, map_app. cbn. do 2 f_equal. lia.
Qed.

Lemma zrange_split m n : 0 ≤ m < n → ∃ r, zrange n = zrange m ++ m :: r.
Proof.
  intros. rewrite !zrange_seq. exists (map Z.of_nat (seq (S (Z.to_nat m)) (Z.to_nat (n - m - 1)))).
  replace (Z.to_nat n) with (Z.to_nat m + S (Z.to_nat (n - m - 1)))%nat by lia.
  rewrite seq_app, map_app. cbn. do 2 f_equal. lia.
Qed.

Lemma land_shiftr_1 p b : 0 ≤ b → (Z.land (Z.shiftr p b) 1 =? 1) = Z.testbit p b.
Proof.
  intros. change 1 with (Z.ones 1) at 1. rewrite Z.land_ones by lia.
  change (2 ^ 1) with 2. rewrite Zmod_odd, Z.testbit_odd. by destruct (Z.odd _).
Qed.

(** ** A chunk packs and comes back *)

Section chunks.
Context (blk : Z → bytes).
Hypothesis Hblk : ∀ b, 0 ≤ b < CHUNK_BLOCKS → zlen (blk b) = BLOCK_SIZE.

Definition nonzero (b : Z) : Prop := blk b ≠ zeros BLOCK_SIZE.
#[global] Instance nonzero_dec b : Decision (nonzero b).
Proof. unfold nonzero. apply _. Defined.

Definition kept_of (m : Z) : bytes := concat (map blk (filter nonzero (zrange m))).
Definition count_of (m : Z) : Z := zlen (filter nonzero (zrange m)).

Definition scan_to (m : Z) : Z * bytes :=
  foldl (fun '(present, kept) b =>
      if decide (nonzero b) then (Z.lor present (Z.shiftl 1 b), kept ++ blk b)
      else (present, kept)) (0, []) (zrange m).

Lemma scan_to_spec m :
  0 ≤ m ≤ CHUNK_BLOCKS →
  let '(present, kept) := scan_to m in
  kept = kept_of m ∧ 0 ≤ present < 2 ^ m ∧ popcount present = count_of m ∧
  zlen kept = count_of m * BLOCK_SIZE ∧
  ∀ b, 0 ≤ b < m → Z.testbit present b = bool_decide (nonzero b).
Proof.
  intros [H0 Hm]. revert Hm. pattern m. apply natlike_ind; [| |done]; clear m H0.
  { intros _. unfold scan_to. cbn. split_and!; try done. intros; lia. }
  intros m H0 IH Hm. specialize (IH ltac:(lia)). rewrite <- Z.add_1_r in *.
  unfold scan_to, kept_of, count_of in *. rewrite zrange_succ by done.
  rewrite foldl_app, filter_app, map_app, concat_app. cbn [foldl].
  destruct (foldl _ _ (zrange m)) as [present kept].
  destruct IH as (-> & Hp & Hpop & Hlen & Hbits).
  rewrite filter_cons, filter_nil. case_decide as Hnz.
  - pose proof (lor_shiftl_add 1 present m ltac:(lia) ltac:(lia)) as Hlor.
    rewrite Z.lor_comm. cbn [map concat]. rewrite app_nil_r. split_and!; [done|rewrite Hlor; lia| | | | ].
    + rewrite Hlor, Z.pow_add_r by lia. lia.
    + rewrite Hlor, Z.mul_1_l, Z.add_comm. rewrite <- (Z2Nat.id m) in Hp |- * by lia.
      rewrite popcount_add_pow2, Hpop by done. rewrite Z2Nat.id by lia. zl.
    + rewrite !zlen_app, Hblk by lia. zl.
    + intros b Hb. rewrite Z.lor_spec.
      destruct (decide (b = m)) as [->|].
      * rewrite Z.shiftl_spec, Z.sub_diag by lia. rewrite bool_decide_eq_true_2; done.
      * rewrite Z.shiftl_spec_low, Hbits by lia. done.
  - rewrite !app_nil_r. split_and!; try done; [lia|rewrite Z.pow_add_r; lia|].
    intros b Hb. destruct (decide (b = m)) as [->|]; [|apply Hbits; lia].
    rewrite bool_decide_eq_false_2 by done.
    destruct (decide (present = 0)) as [->|]; [apply Z.bits_0|].
    apply Z.bits_above_log2; [lia|]. apply Z.log2_lt_pow2; lia.
Qed.

Lemma kept_split m n :
  0 ≤ m < n → nonzero m → ∃ rest, kept_of n = kept_of m ++ blk m ++ rest.
Proof.
  intros Hm Hnz. destruct (zrange_split m n Hm) as [r Hr].
  exists (concat (map blk (filter nonzero r))). unfold kept_of.
  rewrite Hr, filter_app, filter_cons, decide_True by done.
  by rewrite map_app, concat_app.
Qed.

Lemma place_spec present image m :
  0 ≤ m ≤ CHUNK_BLOCKS →
  (∀ b, 0 ≤ b < CHUNK_BLOCKS → Z.testbit present b = bool_decide (nonzero b)) →
  foldl (fun '(image, k) b =>
      if Z.land (Z.shiftr present b) 1 =? 1
      then (image ++ slice (kept_of CHUNK_BLOCKS) (k * BLOCK_SIZE) ((k + 1) * BLOCK_SIZE), k + 1)
      else (image ++ zeros BLOCK_SIZE, k)) (image, 0) (zrange m)
  = (image ++ concat (map blk (zrange m)), count_of m).
Proof.
  intros [H0 Hm] Hbits. revert Hm. pattern m. apply natlike_ind; [| |done]; clear m H0.
  { intros _. cbn. by rewrite app_nil_r. }
  intros m H0 IH. unfold Z.succ. intros Hm. specialize (IH ltac:(lia)).
  rewrite zrange_succ, foldl_app, IH by done. cbn [foldl].
  rewrite land_shiftr_1, Hbits by lia. unfold count_of.
  rewrite zrange_succ, filter_app, filter_cons, filter_nil, map_app, concat_app by done.
  case_bool_decide as Hnz; cbn [map concat]; rewrite app_nil_r, <- app_assoc.
  - rewrite decide_True by done. f_equal; [|zl]. do 2 f_equal.
    destruct (kept_split m CHUNK_BLOCKS) as [rest ->]; [lia|done|].
    pose proof (scan_to_spec m ltac:(lia)) as Hscan.
    destruct (scan_to m) as [p k]. destruct Hscan as (-> & _ & _ & Hlen & _).
    apply slice_mid; [by rewrite Hlen|]. rewrite Hblk by lia. unfold count_of. lia.
  - rewrite decide_False, app_nil_r by done. do 3 f_equal.
    by apply dec_stable in Hnz.
Qed.
End chunks.

Section round_trip.
Context {C : BlockCodec} {L : BlockCodecLaw C}.

Section image.
Context (image : bytes).
Hypothesis Hbytes : Forall is_byte image.

Definition block_at (c b : Z) : bytes :=
  slice image (c * chunk_bytes + b * BLOCK_SIZE) (c * chunk_bytes + b * BLOCK_SIZE + BLOCK_SIZE).

Lemma zlen_block_at c b :
  0 ≤ c → (c + 1) * chunk_bytes ≤ zlen image → 0 ≤ b < CHUNK_BLOCKS →
  zlen (block_at c b) = BLOCK_SIZE.
Proof.
  unfold block_at, chunk_bytes, BLOCK_SIZE, CHUNK_BLOCKS. intros. rewrite zlen_slice; lia.
Qed.

Lemma concat_blocks c m :
  0 ≤ c → 0 ≤ m ≤ CHUNK_BLOCKS →
  concat (map (block_at c) (zrange m)) = slice image (c * chunk_bytes)
    (c * chunk_bytes + m * BLOCK_SIZE).
Proof.
  intros Hc [H0 Hm]. revert Hm. pattern m. apply natlike_ind; [| |done]; clear m H0.
  { intros _. unfold slice. by replace (Z.to_nat _) with 0%nat by lia. }
  intros m H0 IH. unfold Z.succ. intros Hm. specialize (IH ltac:(lia)).
  rewrite zrange_succ, map_app, concat_app, IH by done. cbn [map concat].
  rewrite app_nil_r. unfold block_at, chunk_bytes, BLOCK_SIZE, CHUNK_BLOCKS in *.
  rewrite slice_slice_app by lia. f_equal. lia.
Qed.

Lemma scan_chunk_eq c : scan_chunk image c = scan_to (block_at c) CHUNK_BLOCKS.
Proof. done. Qed.

(** The bytes of chunk [c], and that they decode to its part of the image
    wherever they stand. *)
Lemma chunk_round_trip c :
  0 ≤ c → (c + 1) * chunk_bytes ≤ zlen image →
  ∃ code, (∀ out, (let '(present, kept) := scan_chunk image c in
      coded ← (if decide (kept = []) then Ok [] else encode_block kept);
      word ← pack_le 8 present;
      len ← pack_le 4 (zlen coded);
      Ok (out ++ word ++ len ++ coded)) = Ok (out ++ code)) ∧
    ∀ pre post img x, unpack_chunk (pre ++ code ++ post) (zlen pre, img) x =
      Ok (zlen pre + zlen code,
          img ++ slice image (c * chunk_bytes) ((c + 1) * chunk_bytes)).
Proof.
  intros Hc Hin. rewrite scan_chunk_eq.
  pose proof (scan_to_spec (block_at c) (λ b, zlen_block_at c b Hc Hin) CHUNK_BLOCKS
    ltac:(done)) as Hscan.
  destruct (scan_to (block_at c) CHUNK_BLOCKS) as [present kept].
  destruct Hscan as (Hkept & Hp & Hpop & Hlen & Hbits).
  assert (0 ≤ count_of (block_at c) CHUNK_BLOCKS ≤ CHUNK_BLOCKS) as Hcount.
  { unfold count_of. split; [apply zlen_nonneg|].
    unfold zlen. pose proof (length_filter (nonzero (block_at c)) (zrange CHUNK_BLOCKS)).
    change (length (zrange CHUNK_BLOCKS)) with 64%nat in *.
    assert (CHUNK_BLOCKS = 64) by done. lia. }
  assert (Forall is_byte kept) as Hkb.
  { rewrite Hkept. apply Forall_concat, Forall_map, Forall_forall. intros b _.
    by apply slice_byte. }
  assert (∃ coded, (if decide (kept = []) then Ok [] else encode_block kept) = Ok coded ∧
    0 ≤ zlen coded < 256 ^ Z.of_nat 4 ∧
    (if popcount present =? 0 then Ok [] else decode_block coded (popcount present * BLOCK_SIZE))
      = Ok kept) as (coded & Henc & Hsize & Hdec).
  { rewrite Hpop. change (256 ^ Z.of_nat 4) with 4294967296. case_decide as Hk.
    - exists []. rewrite Hk in *. split_and!; [done|by vm_compute|by vm_compute|].
      rewrite zlen_nil in Hlen. unfold BLOCK_SIZE in Hlen.
      rewrite (proj2 (Z.eqb_eq _ _)); [done|lia].
    - destruct (codec_round_trip kept Hkb) as (coded & Henc & Hb & Hdec).
      exists coded. rewrite (proj2 (Z.eqb_neq _ _)).
      + split_and!; [done|apply zlen_nonneg| |apply Hdec; lia].
        rewrite Hlen in Hb. unfold BLOCK_SIZE, CHUNK_BLOCKS in *. lia.
      + intros H0. apply Hk, zlen_0_inv. rewrite Hlen, H0. done. }
  assert (0 ≤ present < 256 ^ Z.of_nat 8) as Hp8 by (change (256 ^ Z.of_nat 8) with (2 ^ 64); done).
  exists (le_bytes 8 present ++ le_bytes 4 (zlen coded) ++ coded). split.
  { intros out. rewrite Henc. cbn [mbind res_bind].
    by rewrite !pack_le_ok by done. }
  intros pre post img x. rewrite <- !app_assoc. unfold unpack_chunk.
  rewrite unpack_le_app by done. cbn [mbind res_bind].
  rewrite (app_assoc pre), unpack_le_app by (done || zl). cbn [mbind res_bind].
  rewrite (app_assoc (pre ++ _)), slice_mid by zl.
  rewrite (proj2 (Z.eqb_eq _ _)) by done. cbn [negb].
  rewrite Hdec. cbn [mbind res_bind]. rewrite Hlen, Hpop, Z.eqb_refl. cbn [negb].
  rewrite Hkept. unfold place_blocks.
  rewrite (place_spec (block_at c) (λ b, zlen_block_at c b Hc Hin)) by done.
  cbn [fst]. rewrite concat_blocks by done.
  do 2 f_equal; [zl|]. f_equal. f_equal. unfold chunk_bytes. lia.
Qed.

(** The first [m] chunks, with any bytes before and after them. *)
Lemma chunks_round_trip head m :
  0 ≤ m → m * chunk_bytes ≤ zlen image →
  ∃ body, foldM (fun out c =>
      let '(present, kept) := scan_chunk image c in
      coded ← (if decide (kept = []) then Ok [] else encode_block kept);
      word ← pack_le 8 present;
      len ← pack_le 4 (zlen coded);
      Ok (out ++ word ++ len ++ coded)) head (zrange m) = Ok (head ++ body) ∧
    ∀ post, foldM (unpack_chunk (head ++ body ++ post)) (zlen head, []) (zrange m)
      = Ok (zlen head + zlen body, slice image 0 (m * chunk_bytes)).
Proof.
  intros H0. pattern m. apply natlike_ind; [| |done]; clear m H0.
  { intros _. exists []. cbn [zrange foldM]. split; [by rewrite app_nil_r|]. intros post.
    change (zrange 0) with (@nil Z). cbn [foldM]. rewrite zlen_nil, Z.add_0_r. done. }
  intros m H0 IH. unfold Z.succ. intros Hm.
  assert (0 < chunk_bytes) by done.
  destruct (IH ltac:(lia)) as (body & Hpack & Hunpack).
  destruct (chunk_round_trip m H0 Hm) as (code & Hcode & Hback).
  exists (body ++ code). rewrite zrange_succ, foldM_app, Hpack by done. cbn [mbind res_bind].
  split.
  - cbn [foldM]. rewrite Hcode. cbn [mbind res_bind]. by rewrite app_assoc.
  - intros post. rewrite foldM_app, <- app_assoc, Hunpack. cbn [mbind res_bind foldM].
    rewrite <- zlen_app, app_assoc, Hback. cbn [mbind res_bind].
    rewrite slice_slice_app by lia. do 2 f_equal. zl.
Qed.

Definition header (chunks : Z) : bytes :=
  MAGIC ++ le_bytes 4 BLOCK_SIZE ++ le_bytes 4 CHUNK_BLOCKS ++ le_bytes 4 chunks.

Lemma header_fields n rest :
  0 ≤ n < 256 ^ Z.of_nat 4 →
  unpack_le 4 (header n ++ rest) 4 = Ok BLOCK_SIZE ∧
  unpack_le 4 (header n ++ rest) 8 = Ok CHUNK_BLOCKS ∧
  unpack_le 4 (header n ++ rest) 12 = Ok n.
Proof.
  intros Hn. unfold header. rewrite <- !app_assoc. split_and!.
  - by apply unpack_le_app.
  - rewrite app_assoc. by apply unpack_le_app.
  - rewrite 2!app_assoc. by apply unpack_le_app.
Qed.

(** An image of a whole number of chunks packs, and what follows the
    container decides between the image and a refusal. *)
Lemma container_round_trip :
  zlen image mod chunk_bytes = 0 → zlen image < 2 ^ 48 →
  ∃ container, pack image = Ok container ∧ 16 ≤ zlen container ∧
    ∀ tail, unpack (container ++ tail) =
      if existsb (fun b => negb (b =? 0)) tail
      then Err (Invalid "nonzero bytes after the last chunk") else Ok image.
Proof.
  intros Hmod Hlt. set (n := zlen image / chunk_bytes).
  assert (zlen image = n * chunk_bytes) as Hn.
  { unfold n. rewrite Z.mul_comm. apply Z.div_exact; [done|]. done. }
  pose proof (zlen_nonneg image). unfold chunk_bytes, BLOCK_SIZE, CHUNK_BLOCKS in Hn.
  assert (0 ≤ n < 256 ^ Z.of_nat 4) as Hn32
    by (change (256 ^ Z.of_nat 4) with (2 ^ 32); change (2 ^ 48) with (2 ^ 32 * 65536) in Hlt; lia).
  destruct (chunks_round_trip (header n) n) as (body & Hpack & Hunpack);
    [lia|unfold chunk_bytes, BLOCK_SIZE, CHUNK_BLOCKS; lia|].
  exists (header n ++ body). split_and!.
  - unfold pack. rewrite Hmod. fold n. cbn [Z.eqb negb].
    rewrite !pack_le_ok by done. exact Hpack.
  - rewrite zlen_app. change (zlen (header n)) with 16. zl.
  - intros tail. unfold unpack. rewrite <- !app_assoc.
    assert (slice (header n ++ body ++ tail) 0 4 = MAGIC) as -> by done.
    rewrite decide_False by (intros []; done).
    destruct (header_fields n (body ++ tail) Hn32) as (-> & -> & ->). cbn [mbind res_bind].
    rewrite !Z.eqb_refl. cbn [andb negb].
    specialize (Hunpack tail). change (zlen (header n)) with 16 in Hunpack.
    rewrite Hunpack. cbn [mbind res_bind].
    rewrite app_assoc, from_app by (rewrite zlen_app; done).
    replace (n * chunk_bytes) with (zlen image) by (unfold chunk_bytes, BLOCK_SIZE, CHUNK_BLOCKS; lia).
    by rewrite slice_all.
Qed.
End image.

Lemma existsb_zeros n : existsb (fun b => negb (b =? 0)) (replicate n 0) = false.
Proof. by induction n. Qed.

(** An image that [main] can pack: bytes, whole chunks, and a chunk count that
    fits the header. *)
Definition packable (image : bytes) : Prop :=
  Forall is_byte image ∧ zlen image mod chunk_bytes = 0 ∧ zlen image < 2 ^ 48.

Lemma pack_pad image :
  packable image →
  ∃ container, pack image = Ok container ∧ ∀ n, unpack (container ++ replicate n 0) = Ok image.
Proof.
  intros (Hb & Hmod & Hlt).
  destruct (container_round_trip image Hb Hmod Hlt) as (container & Hpack & _ & Hun).
  exists container. split; [done|]. intros n. by rewrite Hun, existsb_zeros.
Qed.

Lemma width_of_max out outs : out ∈ outs → zlen out ≤ width_of outs.
Proof.
  unfold width_of. induction outs as [|o outs IH]; [by intros ?%not_elem_of_nil|].
  cbn. intros [->|Hin]%elem_of_cons; [lia|]. specialize (IH Hin). lia.
Qed.

Lemma zlen_pad_to w out : zlen out ≤ w → zlen (pad_to w out) = w.
Proof. intros. unfold pad_to, zeros. zl. Qed.

(** The status: there were bytes to pack. *)
Lemma pack_verdict_status ins images width :
  match pack_verdict ins images width with Ok _ => 0 | Err _ => 1 end = (if 0 <? foldl Z.add 0 (map zlen images) then 0 else 1).
Proof.
  unfold pack_verdict. destruct (report_pass _ _ _) as [line|e] eqn:E.
  - apply report_pass_ok in E as (_ & _ & H). apply Forall_cons in H as [H _]. cbn [snd] in H. by rewrite (proj2 (Z.ltb_lt _ _) H).
  - destruct (Z.ltb_spec 0 (foldl Z.add 0 (map zlen images))); [|done]. match type of E with report_pass ?c ?m ?x = _ =>
      assert (report_pass c m x = Ok ($"PASS " ++ c ++ $": " ++ m)) as E2 end; [|congruence].
    apply report_pass_ok. split_and!; [done|done|]. by constructor; [|constructor].
Qed.

(** What a run wrote to the output paths, and its status. *)
Lemma main_pack_ok ins paths files images :
  mapM_res (read_file files) ins = Ok images → Forall packable images →
  ∃ outs w, main_pack ins paths files =
      Ok (if 0 <? foldl Z.add 0 (map zlen images) then 0 else 1, foldl (fun (files : gmap str bytes) (po : str * bytes) => <[po.1 := po.2]> files)
               files (zip paths outs)) ∧
    Forall2 (fun image out => unpack out = Ok image ∧ zlen out = w) images outs.
Proof.
  intros Hread Himages. unfold main_pack. rewrite Hread. cbn [mbind res_bind].
  assert (∃ outs, mapM_res pack images = Ok outs ∧
    Forall2 (fun image out => ∀ n, unpack (out ++ replicate n 0) = Ok image) images outs)
    as (outs & -> & Houts).
  { clear Hread. induction Himages as [|image images Him _ (outs & IH1 & IH2)]; cbn.
    - exists []. done.
    - destruct (pack_pad image Him) as (container & Hpack & Hun).
      exists (container :: outs). rewrite Hpack. cbn. rewrite IH1. cbn. auto. }
  cbn [mbind res_bind]. set (w := width_of outs).
  assert (∀ out, out ∈ outs → zlen out ≤ w) as Hw by (intros; by apply width_of_max).
  assert (Forall2 (fun image out => unpack out = Ok image ∧ zlen out = w) images
    (map (pad_to w) outs)) as Hpad.
  { apply Forall2_fmap_r. apply Forall2_same_length_lookup_2; [by eapply Forall2_length|].
    intros i image out Hi Ho. split; [|apply zlen_pad_to, Hw; by eapply list_elem_of_lookup_2].
    eapply Forall2_lookup_lr in Houts; [|done..]. apply Houts. }
  exists (map (pad_to w) outs), w.
  assert (foldM (fun (ok : bool) (io : bytes * bytes) =>
      if ok then image' ← unpack io.2; Ok (bool_decide (image' = io.1)) else Ok ok)
    true (zip images (map (pad_to w) outs)) = Ok true) as ->.
  { clear -Hpad. induction Hpad as [|image out images' outs' [Hun _] _ IH]; [done|].
    cbn [zip_with foldM fst snd]. rewrite Hun. cbn [mbind res_bind].
    by rewrite bool_decide_eq_true_2. }
  cbn [mbind res_bind]. rewrite pack_verdict_status. done.
Qed.
End round_trip.

(** ** The theorems *)

Lemma lookup_write (files : gmap str bytes) (paths : list str) (outs : list bytes) p :
  p ∉ paths →
  foldl (fun (files : gmap str bytes) (po : str * bytes) => <[po.1 := po.2]> files)
    files (zip paths outs) !! p = files !! p.
Proof.
  revert files outs. induction paths as [|q paths IH]; intros files outs Hp; [done|].
  destruct outs as [|o outs]; [done|]. apply not_elem_of_cons in Hp as [??].
  cbn. rewrite IH by done. by rewrite lookup_insert_ne.
Qed.

(** C2: a container gives its image back.  Packing an image of whole chunks
    succeeds; unpacking what it wrote, with padding after it, returns exactly
    the image when the padding is zero and refuses it otherwise.  Any codec
    that keeps the [BlockCodecLaw] will do. *)
Theorem unpack_pack {C : BlockCodec} {L : BlockCodecLaw C} (image : bytes) :
  packable image →
  ∃ container, pack image = Ok container ∧
    ∀ tail, unpack (container ++ tail) =
      if existsb (fun b => negb (b =? 0)) tail
      then Err (Invalid "nonzero bytes after the last chunk") else Ok image.
Proof.
  intros (Hb & Hmod & Hlt).
  destruct (container_round_trip image Hb Hmod Hlt) as (container & ? & _ & ?). eauto.
Qed.

Lemma zeros_packable n : 0 ≤ n < 2 ^ 32 → packable (zeros (n * chunk_bytes)).
Proof.
  intros Hn. assert (zlen (zeros (n * chunk_bytes)) = n * chunk_bytes) as Hl.
  { unfold zeros, chunk_bytes, BLOCK_SIZE, CHUNK_BLOCKS. zl. }
  split_and!.
  - unfold zeros. apply Forall_replicate. done.
  - rewrite Hl. by apply Z_mod_mult.
  - rewrite Hl. unfold chunk_bytes, BLOCK_SIZE, CHUNK_BLOCKS.
    change (2 ^ 48) with (2 ^ 32 * 65536). lia.
Qed.

Lemma unpack_pack_witness :
  ∃ container, pack (zeros (2 * chunk_bytes)) = Ok container ∧
    unpack container = Ok (zeros (2 * chunk_bytes)).
Proof.
  destruct (unpack_pack (zeros (2 * chunk_bytes)) (zeros_packable 2 ltac:(lia)))
    as (container & Hpack & Hun).
  exists container. split; [done|]. rewrite <- (app_nil_r container). exact (Hun []).
Defined.

(** C25: [pack-pair] keeps its promise.  Given two readable images of whole
    chunks and two distinct output paths, the command leaves two files of the
    same size that unpack to the images, and every other file is as it was.
    It exits with 0, or with 1 when both images are empty. *)
Theorem main_pack_pair {C : BlockCodec} {L : BlockCodecLaw C} files prog a b outa outb
    imagea imageb :
  files !! a = Some imagea → files !! b = Some imageb → outa ≠ outb →
  packable imagea → packable imageb →
  ∃ files' ta tb, main [prog; $"pack-pair"; a; b; outa; outb] files =
      Ok (if decide (imagea = [] ∧ imageb = []) then 1 else 0, files') ∧
    files' !! outa = Some ta ∧ files' !! outb = Some tb ∧ zlen ta = zlen tb ∧
    unpack ta = Ok imagea ∧ unpack tb = Ok imageb ∧
    ∀ p, p ≠ outa → p ≠ outb → files' !! p = files !! p.
Proof.
  intros Ha Hb Hne Hpa Hpb.
  destruct (main_pack_ok [a; b] [outa; outb] files [imagea; imageb]) as (outs & w & Hm & Hf).
  { cbn. unfold read_file. by rewrite Ha, Hb. }
  { by rewrite !Forall_cons, Forall_nil. }
  apply Forall2_cons_inv_l in Hf as (ta & outs' & [Hta Hla] & Hf & ->).
  apply Forall2_cons_inv_l in Hf as (tb & outs'' & [Htb Hlb] & Hf & ->).
  apply Forall2_nil_inv_l in Hf as ->.
  assert ((if 0 <? foldl Z.add 0 (map zlen [imagea; imageb]) then 0 else 1) =
    (if decide (imagea = [] ∧ imageb = []) then 1 else 0)) as Es.
  { cbn [map foldl]. pose proof (zlen_nonneg imagea). pose proof (zlen_nonneg imageb). case_decide as E; [by destruct E as [-> ->]|].
    rewrite (proj2 (Z.ltb_lt _ _)); [done|]. destruct imagea as [|x imagea], imageb as [|y imageb]; [by destruct E| | |]; zl. }
  rewrite Es in Hm. unfold main. rewrite (decide_True (P := $"pack-pair" = $"pack-pair")) by done. eexists _, ta, tb. split; [exact Hm|].
  split_and!; cbn; [|by rewrite lookup_insert_eq|lia|done|done|].
  - rewrite lookup_insert_ne by done. by rewrite lookup_insert_eq.
  - intros p Hpa' Hpb'. apply (lookup_write files [outa; outb] [ta; tb] p). set_solver.
Qed.

Lemma main_pack_pair_witness :
  ∃ files' ta tb,
    main [$"lz4_image.py"; $"pack-pair"; $"a"; $"b"; $"a.tkz"; $"b.tkz"]
      {[ $"a" := zeros (1 * chunk_bytes); $"b" := zeros (2 * chunk_bytes) ]} = Ok (0, files') ∧
    files' !! $"a.tkz" = Some ta ∧ files' !! $"b.tkz" = Some tb ∧ zlen ta = zlen tb.
Proof.
  destruct (main_pack_pair {[ $"a" := zeros (1 * chunk_bytes); $"b" := zeros (2 * chunk_bytes) ]}
    ($"lz4_image.py") ($"a") ($"b") ($"a.tkz") ($"b.tkz") (zeros (1 * chunk_bytes)) (zeros (2 * chunk_bytes)))
    as (files' & ta & tb & H1 & H2 & H3 & H4 & _).
  - apply lookup_insert_eq.
  - rewrite lookup_insert_ne by done. apply lookup_singleton_eq.
  - done.
  - apply zeros_packable. lia.
  - apply zeros_packable. lia.
  - exists files', ta, tb. exact (conj H1 (conj H2 (conj H3 H4))).
Defined.

Lemma replicate_byte n b : is_byte b → Forall is_byte (replicate n b).
Proof. apply Forall_replicate. Qed.

Lemma repeat_byte n l : Forall is_byte l → Forall is_byte (concat (replicate n l)).
Proof. intros Hl. induction n as [|n IH]; cbn; [done|]. by apply Forall_app_2. Qed.

Lemma land_byte (f : Z → Z) l : Forall is_byte (map (fun i => Z.land (f i) 255) l).
Proof.
  apply Forall_fmap, Forall_forall. intros i _. unfold compose, is_byte.
  change 255 with (Z.ones 8). rewrite Z.land_ones by lia. by apply Z.mod_pos_bound.
Qed.

Lemma self_test_samples_bytes : Forall (Forall is_byte) self_test_samples.
Proof.
  unfold self_test_samples, zeros. rewrite !Forall_cons, Forall_nil. split_and!.
  - done.
  - by repeat constructor.
  - by repeat constructor.
  - apply repeat_byte. by repeat constructor.
  - by apply replicate_byte.
  - apply repeat_byte, Forall_forall. by intros x Hx%elem_of_zrange.
  - by apply replicate_byte.
  - apply land_byte.
  - done.
Qed.

Lemma zlen_assign l at_ v : 0 ≤ at_ → at_ + zlen v ≤ zlen l → zlen (assign l at_ v) = zlen l.
Proof.
  intros H1 H2. unfold assign. rewrite !zlen_app, zlen_slice by (zpos; lia).
  unfold from, zlen. rewrite length_drop. unfold zlen in H2. lia.
Qed.

Lemma assign_byte l at_ v :
  Forall is_byte l → Forall is_byte v → Forall is_byte (assign l at_ v).
Proof.
  intros Hl Hv. unfold assign. repeat apply Forall_app_2; [by apply slice_byte|done|].
  by apply Forall_drop.
Qed.

Lemma zlen_self_test_image : zlen self_test_image = 131072.
Proof.
  unfold self_test_image, BLOCK_SIZE, CHUNK_BLOCKS, zeros.
  rewrite !zlen_assign; rewrite ?zlen_assign; rewrite ?zlen_replicate; try lia;
    cbn [zlen length]; rewrite ?zlen_cons, ?zlen_replicate; change (zlen (@nil Z)) with 0; lia.
Qed.

Lemma self_test_image_packable : packable self_test_image.
Proof.
  split_and!; [|by rewrite zlen_self_test_image..]. unfold self_test_image.
  apply assign_byte; [apply assign_byte|].
  - exact (replicate_byte _ 0 ltac:(done)).
  - exact (replicate_byte _ 1 ltac:(done)).
  - by repeat constructor.
Qed.

(** The word after the header is the first chunk's block mask. *)
Lemma pack_first_word {C : BlockCodec} image container :
  chunk_bytes ≤ zlen image → 0 ≤ (scan_chunk image 0).1 < 256 ^ Z.of_nat 8 →
  pack image = Ok container → unpack_le 8 container 16 = Ok (scan_chunk image 0).1.
Proof.
  intros Hlen Hword. unfold pack. zcase; [done|]. intros Hp.
  assert (1 ≤ zlen image / chunk_bytes) as Hc by (apply Z.div_le_lower_bound; [done|lia]).
  destruct (zrange_split 0 (zlen image / chunk_bytes)) as [r Hr]; [lia|].
  rewrite Hr in Hp. change (zrange 0 ++ 0 :: r) with (0 :: r) in Hp. cbn [foldM] in Hp.
  destruct (scan_chunk image 0) as [present kept]. cbn [fst] in *. res_inv.
  repeat match goal with H : pack_le _ _ = Ok _ |- _ => apply pack_le_inv in H as [-> _] end.
  match type of Hp with foldM _ ?out _ = _ =>
    apply (foldM_inv _ (fun out' => ∃ more, out' = out ++ more)) in Hp as [more ->]
  end.
  - rewrite <- (unpack_le_app 8 present (header (zlen image / chunk_bytes))
      (le_bytes 4 (zlen x3) ++ x3 ++ more) 16) by done.
    f_equal.
  - intros out c out' _ [more ->] Hf. destruct (scan_chunk image c). res_inv.
    eexists. by rewrite <- app_assoc.
  - exists []. by rewrite app_nil_r.
Qed.

(** The assertions of [self_test] about a container. *)
Lemma self_test_container {C : BlockCodec} {L : BlockCodecLaw C} image :
  packable image → chunk_bytes ≤ zlen image → (scan_chunk image 0).1 = Z.shiftl 1 5 →
  (container ← pack image;
   image' ← unpack container;
   _ ← require (bool_decide (image' = image)) AssertionError;
   image' ← unpack (container ++ zeros 3);
   _ ← require (bool_decide (image' = image)) AssertionError;
   _ ← raises_invalid (unpack (container ++ [1]));
   present ← unpack_le 8 container 16;
   require (present =? Z.shiftl 1 5) AssertionError) = Ok ().
Proof.
  intros (Hb & Hmod & Hlt) Hlen Hscan.
  destruct (container_round_trip image Hb Hmod Hlt) as (container & Hpack & _ & Hun).
  pose proof (Hun []) as Hun0. rewrite app_nil_r in Hun0. cbn [existsb] in Hun0.
  rewrite Hpack. cbn [mbind res_bind]. rewrite Hun0, !Hun.
  cbn [mbind res_bind]. rewrite !bool_decide_eq_true_2 by done. cbn [mbind res_bind require].
  change (existsb _ [1]) with true. change (existsb _ (zeros 3)) with false.
  cbn [mbind res_bind raises_invalid]. rewrite bool_decide_eq_true_2 by done.
  cbn [mbind res_bind require]. rewrite (pack_first_word image container); rewrite ?Hscan; done.
Qed.

Lemma self_test_scan : (scan_chunk self_test_image 0).1 = Z.shiftl 1 5.
Proof. by_compute. Qed.

Lemma self_test_samples_pass {C : BlockCodec} {L : BlockCodecLaw C} samples :
  Forall (Forall is_byte) samples →
  foldM (fun (_ : unit) sample =>
         coded ← encode_block sample;
         back ← decode_block coded (zlen sample);
         require (bool_decide (back = sample)) AssertionError) () samples = Ok ().
Proof.
  induction 1 as [|sample samples Hs _ IH]; [done|].
  cbn [foldM]. destruct (codec_round_trip sample Hs) as (coded & -> & _ & Hd).
  cbn [mbind res_bind]. rewrite Hd by lia. cbn [mbind res_bind].
  by rewrite bool_decide_eq_true_2.
Qed.

Lemma self_test_vectors :
  decompress ([0x1F; 0x61; 1; 0; 0; 0x50] ++ $"aaaaa") 64 = Ok (replicate 25 97) ∧
  foldM (fun (_ : unit) bad => raises_invalid (decompress bad 64)) ()
    [[0x10; 0x61; 0; 0; 0x00]; [0x10; 0x61; 2; 0; 0x00]; [0xF0]; [0x20; 0x61]] = Ok ().
Proof. split; by_compute. Qed.

(** [self-test] passes: every assertion of the script about the codec and
    the container holds, so the command exits with 0 and no exception. *)
Theorem main_self_test prog files :
  main (C := lz4_codec) [prog; $"self-test"] files = Ok (0, files).
Proof.
  unfold main. rewrite decide_True by done.
  assert (self_test (C := lz4_codec) = Ok ()) as ->; [|done].
  destruct self_test_vectors as [Href Hbad]. unfold self_test.
  eapply bind_Ok; [apply self_test_samples_pass, self_test_samples_bytes|].
  eapply bind_Ok; [exact Href|].
  eapply bind_Ok; [by rewrite bool_decide_eq_true_2|].
  eapply bind_Ok; [exact Hbad|].
  apply self_test_container; [exact self_test_image_packable| |exact self_test_scan].
  rewrite zlen_self_test_image. clear. done.
Qed.
