(* ===== verification/Fdt.v ===== *)
(** * Flattened device trees

    The writer is the class [Builder] of scripts/make_fdt_fixture.py, the
    reader [parse_fdt] of scripts/rpi5_dtb_iommu_report.py.  The two scripts
    share only the blob format; the theorems here tie them together: what the
    writer makes of a device tree, the reader reads back as that tree. *)
From S2P Require Import Prelude Bytes Text Dict.

(** ** The writer *)

Definition FDT_BEGIN_NODE : Z := 1.
Definition FDT_END_NODE : Z := 2.
Definition FDT_PROP : Z := 3.
Definition FDT_END : Z := 9.
Definition FDT_MAGIC : Z := 0xD00DFEED.

Record builder := Builder {
  b_struct : bytes;
  b_strings : bytes;
  b_offsets : gmap str Z;
}.

Definition new_builder : builder := Builder [] [] ∅.

(** [name.encode("ascii")] and [name.decode("ascii")]. *)
Definition ascii_bytes (s : str) : res bytes := if is_ascii s then Ok s else Err UnicodeError.

Definition string (b : builder) (name : str) : res (builder * Z) :=
  match b_offsets b !! name with
  | Some off => Ok (b, off)
  | None =>
      let off := zlen (b_strings b) in
      enc ← ascii_bytes name;
      Ok (Builder (b_struct b) (b_strings b ++ enc ++ [0]) (<[name := off]> (b_offsets b)), off)
  end.

(** At most three turns: the loop adds one byte until the length is a
    multiple of four. *)
Definition align (s : bytes) : res bytes :=
  while 4 (fun s => if zlen s mod 4 =? 0 then Stop (Ok s) else Next (s ++ [0])) s.

Definition set_struct (b : builder) (s : bytes) : builder :=
  Builder s (b_strings b) (b_offsets b).

Definition begin_ (b : builder) (name : str) : res builder :=
  token ← pack_be 4 FDT_BEGIN_NODE;
  enc ← ascii_bytes name;
  s ← align (b_struct b ++ token ++ enc ++ [0]);
  Ok (set_struct b s).

Definition end_ (b : builder) : res builder :=
  token ← pack_be 4 FDT_END_NODE;
  Ok (set_struct b (b_struct b ++ token)).

Definition prop (b : builder) (name : str) (value : bytes) : res builder :=
  '(b, off) ← string b name;
  token ← pack_be 4 FDT_PROP;
  len ← pack_be 4 (zlen value);
  nameoff ← pack_be 4 off;
  s ← align (b_struct b ++ (token ++ len ++ nameoff) ++ value);
  Ok (set_struct b s).

Definition cells (values : list Z) : res bytes :=
  parts ← mapM_res (pack_be 4) values;
  Ok (concat parts).

(** [struct.pack(">QQ", address, size)]. *)
Definition pack_reservation (r : Z * Z) : res bytes :=
  a ← pack_be 8 r.1; s ← pack_be 8 r.2; Ok (a ++ s).

Definition reserve_map (reservations : list (Z * Z)) : res bytes :=
  parts ← mapM_res pack_reservation reservations;
  last ← pack_reservation (0, 0);
  Ok (concat parts ++ last).

Definition finish (b : builder) (reservations : list (Z * Z)) : res bytes :=
  token ← pack_be 4 FDT_END;
  let b := set_struct b (b_struct b ++ token) in
  let header_size := 40 in
  reserve ← reserve_map reservations;
  let off_rsv := header_size in
  let off_struct := off_rsv + zlen reserve in
  let off_strings := off_struct + zlen (b_struct b) in
  let total := off_strings + zlen (b_strings b) in
  header ← mapM_res (pack_be 4)
    [FDT_MAGIC; total; off_struct; off_strings; off_rsv; 17; 16; 0;
     zlen (b_strings b); zlen (b_struct b)];
  Ok (concat header ++ reserve ++ b_struct b ++ b_strings b).

(** ** The reader *)

(** [blob.index(b"\0", start)]. *)
Definition index_of (c : Z) (l : bytes) (start : Z) : res Z :=
  match list_find (.= c) (from l start) with
  | Some (i, _) => Ok (start + Z.of_nat i)
  | None => Err ValueError
  end.

(** [value.decode("ascii", "replace")]. *)
Definition decode_replace (b : bytes) : str := map (fun c => if c <? 128 then c else 0xFFFD) b.

(** A node is a path and a dictionary.  The reader appends one object to
    [nodes] and to [stack] both, and a property goes to the object on top of
    the stack: here the stack holds positions in [nodes]. *)
Abbreviation node := (str * list (str * bytes))%type.

Record pstate := PState {
  p_nodes : list node;
  p_stack : list nat;
  p_pos : Z;
}.

Definition node_path (nodes : list node) (stack : list nat) (name : str) : str :=
  match stack with
  | [] => $"/"
  | i :: _ => rstrip_by (Z.eqb 47) (default [] (fst <$> nodes !! i)) ++ $"/" ++ name
  end.

Definition enter_node (nodes : list node) (stack : list nat) (name : str)
    : list node * list nat :=
  (nodes ++ [(node_path nodes stack name, [])], length nodes :: stack).

Definition set_prop (nodes : list node) (stack : list nat) (name : str) (value : bytes)
    : res (list node) :=
  match stack with
  | [] => Err IndexError
  | i :: _ => Ok (alter (fun '(path, props) => (path, dset name value props)) i nodes)
  end.

Definition round_up (z : Z) : Z := Z.land z (Z.lnot 3).

Definition parse_body (blob strings : bytes) (st : pstate)
    : flow pstate (res (list node)) :=
  let '(PState nodes stack pos) := st in
  try_flow (
    token ← unpack_be 4 blob pos;
    let pos := pos + 4 in
    if token =? 1 then
      end_ ← index_of 0 blob pos;
      let name := decode_replace (slice blob pos end_) in
      let pos := round_up (end_ + 4) in
      let '(nodes, stack) := enter_node nodes stack name in
      Ok (Next (PState nodes stack pos))
    else if token =? 2 then
      match stack with
      | [] => Err IndexError
      | _ :: stack => Ok (Next (PState nodes stack pos))
      end
    else if token =? 3 then
      length_ ← unpack_be 4 blob pos;
      nameoff ← unpack_be 4 blob (pos + 4);
      let pos := pos + 8 in
      let value := slice blob pos (pos + length_) in
      let pos := round_up (pos + length_ + 3) in
      name_end ← index_of 0 strings nameoff;
      pname ← ascii_bytes (slice strings nameoff name_end);
      nodes ← set_prop nodes stack pname value;
      Ok (Next (PState nodes stack pos))
    else if token =? 4 then Ok (Next (PState nodes stack pos))
    else if token =? 9 then Ok (Stop (Ok nodes))
    else Err ValueError).

Definition parse_fdt (blob : bytes) : res (list node) :=
  magic ← unpack_be 4 blob 0;
  total ← unpack_be 4 blob 4;
  off_struct ← unpack_be 4 blob 8;
  off_strings ← unpack_be 4 blob 12;
  if negb (magic =? FDT_MAGIC) then Err ValueError else
  if total >? zlen blob then Err ValueError else
  let strings := from blob off_strings in
  while (S (length blob)) (parse_body blob strings) (PState [] [] off_struct).

(** [cells] of the reader: the 32-bit words of a property, a short tail left out. *)
Definition read_cells (value : bytes) : res (list Z) :=
  mapM_res (fun i => unpack_be 4 (slice value i (i + 4)) 0) (py_range 0 (zlen value - 3) 4).

(** ** Scripts of builder calls and what they mean

    A run of the writer is a list of calls; [interp] is its meaning on the
    node list the reader is to return. *)

Inductive cmd : Type :=
| Begin (name : str)
| End_
| Prop_ (name : str) (value : bytes)
| Cells (name : str) (values : list Z).

Definition exec (b : builder) (c : cmd) : res builder :=
  match c with
  | Begin name => begin_ b name
  | End_ => end_ b
  | Prop_ name value => prop b name value
  | Cells name values => value ← cells values; prop b name value
  end.

Definition build (cmds : list cmd) : res builder := foldM exec new_builder cmds.

Definition interp (st : list node * list nat) (c : cmd) : res (list node * list nat) :=
  let '(nodes, stack) := st in
  match c with
  | Begin name => Ok (enter_node nodes stack name)
  | End_ => match stack with [] => Err IndexError | _ :: stack => Ok (nodes, stack) end
  | Prop_ name value => nodes ← set_prop nodes stack name value; Ok (nodes, stack)
  | Cells name values =>
      nodes ← set_prop nodes stack name (concat (map (be_bytes 4) values)); Ok (nodes, stack)
  end.

Definition meaning (cmds : list cmd) : res (list node) := fst <$> foldM interp ([], []) cmds.

(** A name the format can carry: ASCII without a NUL.  Cells are 32 bits. *)
Definition name_ok (name : str) : bool := forallb (in_range 1 127) name.
Definition u32 (z : Z) : bool := in_range 0 0xFFFFFFFF z.
Definition u64 (z : Z) : bool := in_range 0 0xFFFFFFFFFFFFFFFF z.

Definition cmd_ok (c : cmd) : bool :=
  match c with
  | Begin name => name_ok name
  | End_ => true
  | Prop_ name value => name_ok name
  | Cells name values => name_ok name && forallb u32 values
  end.

(** An upper bound on the bytes a call adds to the blob. *)
Definition cmd_size (c : cmd) : Z :=
  match c with
  | Begin name => 8 + zlen name
  | End_ => 4
  | Prop_ name value => 16 + zlen value + zlen name
  | Cells name values => 16 + 4 * zlen values + zlen name
  end.

Definition blob_bound (cmds : list cmd) (reservations : list (Z * Z)) : Z :=
  foldr (fun c n => cmd_size c + n) 60 cmds + 16 * zlen reservations.

(** ** Alignment *)

Lemma round_up_spec z : round_up z = 4 * (z / 4).
Proof.
  unfold round_up. rewrite <- Z.ldiff_land. change 3 with (Z.ones 2).
  rewrite Z.ldiff_ones_r, Z.shiftl_mul_pow2, Z.shiftr_div_pow2 by lia. change (2 ^ 2) with 4. lia.
Qed.

Definition pad4 (s : bytes) : bytes := s ++ zeros ((- zlen s) mod 4).

Lemma zlen_zeros n : 0 ≤ n → zlen (zeros n) = n.
Proof. intros ?. unfold zeros. zl. Qed.

Lemma align_spec s : align s = Ok (pad4 s).
Proof.
  unfold align, pad4.
  apply (while_total _ (fun s' => ∃ k, 0 ≤ k ≤ (- zlen s) mod 4 ∧ s' = s ++ zeros k)
    (fun r => r = _) (fun s' => Z.to_nat ((- zlen s') mod 4))).
  - intros s' (k & Hk & ->). rewrite !zlen_app, zlen_zeros by lia.
    zcase.
    + do 3 f_equal. Z.to_euclidean_division_equations; lia.
    + split.
      * exists (k + 1). split; [Z.to_euclidean_division_equations; lia|].
        rewrite <- app_assoc. unfold zeros. f_equal.
        replace (Z.to_nat (k + 1)) with (Z.to_nat k + 1)%nat by lia. by rewrite replicate_add.
      * zl. rewrite zlen_zeros in * by lia. Z.to_euclidean_division_equations; lia.
  - exists 0. split; [Z.to_euclidean_division_equations; lia|]. by rewrite app_nil_r.
  - Z.to_euclidean_division_equations; lia.
Qed.

Lemma zlen_pad4 s : zlen (pad4 s) = round_up (zlen s + 3).
Proof.
  unfold pad4. rewrite zlen_app, zlen_zeros, round_up_spec by (apply Z.mod_pos_bound; lia).
  Z.to_euclidean_division_equations; lia.
Qed.

Lemma pad4_app l s : zlen l mod 4 = 0 → pad4 (l ++ s) = l ++ pad4 s.
Proof.
  intros Hl. unfold pad4. rewrite <- app_assoc. do 3 f_equal. rewrite zlen_app.
  Z.to_euclidean_division_equations; lia.
Qed.

(** ** The writer's state *)

(** Every known name stands at its offset of the string table, NUL-terminated. *)
Definition strings_ok (strings : bytes) (offsets : gmap str Z) : Prop :=
  ∀ name off, offsets !! name = Some off →
    name_ok name = true ∧ ∃ pre post, strings = pre ++ name ++ 0 :: post ∧ off = zlen pre.

(** The bytes of a call, given the offsets of the names. *)
Definition prop_code (off : Z) (value : bytes) : bytes :=
  pad4 ((be_bytes 4 FDT_PROP ++ be_bytes 4 (zlen value) ++ be_bytes 4 off) ++ value).

Definition code (offsets : gmap str Z) (c : cmd) : bytes :=
  match c with
  | Begin name => pad4 (be_bytes 4 FDT_BEGIN_NODE ++ name ++ [0])
  | End_ => be_bytes 4 FDT_END_NODE
  | Prop_ name value => prop_code (default 0 (offsets !! name)) value
  | Cells name values =>
      prop_code (default 0 (offsets !! name)) (concat (map (be_bytes 4) values))
  end.

(** The name of a property is in the table. *)
Definition named (offsets : gmap str Z) (c : cmd) : Prop :=
  match c with
  | Prop_ name _ | Cells name _ => is_Some (offsets !! name)
  | _ => True
  end.

Lemma name_ok_ascii name : name_ok name = true → ascii_bytes name = Ok name.
Proof.
  intros Hn. unfold ascii_bytes. replace (is_ascii name) with true; [done|].
  symmetry. unfold is_ascii. apply forallb_forall. intros c Hc.
  apply (proj1 (forallb_forall _ _) Hn) in Hc. unfold in_range in *. zbool.
  apply andb_true_iff. lia.
Qed.

Lemma string_spec b name :
  name_ok name = true → strings_ok (b_strings b) (b_offsets b) →
  ∃ more off offsets', string b name = Ok (Builder (b_struct b) (b_strings b ++ more) offsets', off) ∧
    0 ≤ off ≤ zlen (b_strings b) ∧ zlen more ≤ zlen name + 1 ∧
    offsets' !! name = Some off ∧ b_offsets b ⊆ offsets' ∧
    strings_ok (b_strings b ++ more) offsets'.
Proof.
  intros Hn Hs. unfold string. destruct (b_offsets b !! name) as [off|] eqn:E.
  - exists [], off, (b_offsets b). rewrite app_nil_r. destruct (Hs name off E) as (_ & pre & post & Heq & ->).
    split_and!; [by destruct b|zl| |zl|done|done|done]. rewrite Heq. zl.
  - exists (name ++ [0]), (zlen (b_strings b)), (<[name := zlen (b_strings b)]> (b_offsets b)).
    rewrite name_ok_ascii by done. cbn [mbind res_bind].
    split_and!; [done|zl|zl|zl|by rewrite lookup_insert_eq|by apply insert_subseteq|].
    intros n o. destruct (decide (n = name)) as [->|Hne].
    + rewrite lookup_insert_eq. intros [= <-]. split; [done|].
      exists (b_strings b), []. done.
    + rewrite lookup_insert_ne by done. intros Ho.
      destruct (Hs n o Ho) as (Hn' & pre & post & -> & ->). split; [done|].
      exists pre, (post ++ name ++ [0]). by rewrite <- !app_assoc.
Qed.

Lemma u32_range v : u32 v = true → 0 ≤ v < 256 ^ Z.of_nat 4.
Proof. unfold u32, in_range. intros ?. zbool. change (256 ^ _) with 0x100000000. lia. Qed.

Lemma u32_pack v : u32 v = true → pack_be 4 v = Ok (be_bytes 4 v).
Proof. intros ?. by apply pack_be_ok, u32_range. Qed.

Lemma cells_spec values :
  forallb u32 values = true → cells values = Ok (concat (map (be_bytes 4) values)).
Proof.
  intros Hv. unfold cells. rewrite (mapM_res_ok _ (be_bytes 4)); [done|].
  apply Forall_forall. intros v Hin%list_elem_of_In. apply u32_pack.
  by apply (proj1 (forallb_forall _ _) Hv).
Qed.

Lemma zlen_concat_cells values : zlen (concat (map (be_bytes 4) values)) = 4 * zlen values.
Proof. induction values as [|v vs IH]; cbn [map concat]; [done|]. zl. Qed.

Lemma prop_spec b name value :
  name_ok name = true → strings_ok (b_strings b) (b_offsets b) →
  zlen (b_struct b) mod 4 = 0 → zlen value < 2 ^ 32 → zlen (b_strings b) < 2 ^ 32 →
  ∃ more off offsets', prop b name value =
      Ok (Builder (b_struct b ++ prop_code off value) (b_strings b ++ more) offsets') ∧
    zlen more ≤ zlen name + 1 ∧ offsets' !! name = Some off ∧ b_offsets b ⊆ offsets' ∧
    strings_ok (b_strings b ++ more) offsets'.
Proof.
  intros Hn Hs Hmod Hv Hlt. destruct (string_spec b name Hn Hs) as (more & off & offs & Hstr & ? & ? & ? & ? & ?).
  exists more, off, offs. split; [|done]. unfold prop. rewrite Hstr. cbn [mbind res_bind].
  rewrite !pack_be_ok by (change (256 ^ Z.of_nat 4) with (2 ^ 32); unfold FDT_PROP; zpos; lia).
  cbn [mbind res_bind]. rewrite align_spec. cbn [mbind res_bind b_struct].
  by rewrite pad4_app.
Qed.

(** ** A run of the writer *)

Record writer_ok (b : builder) : Prop := {
  w_aligned : zlen (b_struct b) mod 4 = 0;
  w_strings : strings_ok (b_strings b) (b_offsets b);
}.

Lemma code_aligned offsets c : zlen (code offsets c) mod 4 = 0.
Proof.
  assert (∀ s, zlen (pad4 s) mod 4 = 0).
  { intros s. rewrite zlen_pad4, round_up_spec, Z.mul_comm. by apply Z_mod_mult. }
  destruct c; try (by cbn [code prop_code]; unfold prop_code); done.
Qed.

Lemma code_mono offsets offsets' c :
  offsets ⊆ offsets' → named offsets c → code offsets c = code offsets' c.
Proof.
  intros Hsub. assert (∀ name, is_Some (offsets !! name) →
    default 0 (offsets !! name) = default 0 (offsets' !! name)) as Heq.
  { intros name [off Hoff]. rewrite Hoff. by rewrite (lookup_weaken _ _ _ _ Hoff Hsub). }
  destruct c; cbn; intros; try done; by rewrite Heq.
Qed.

Lemma named_mono offsets offsets' c : offsets ⊆ offsets' → named offsets c → named offsets' c.
Proof. intros Hsub. destruct c; cbn; try done; intros [off ?]; exists off; by eapply lookup_weaken. Qed.

Lemma exec_spec b c :
  cmd_ok c = true → writer_ok b →
  zlen (b_struct b) + zlen (b_strings b) + cmd_size c < 2 ^ 32 →
  ∃ b', exec b c = Ok b' ∧ writer_ok b' ∧ b_offsets b ⊆ b_offsets b' ∧ named (b_offsets b') c ∧
    b_struct b' = b_struct b ++ code (b_offsets b') c ∧
    zlen (b_struct b') + zlen (b_strings b') ≤ zlen (b_struct b) + zlen (b_strings b) + cmd_size c.
Proof.
  intros Hc [Hal Hst] Hsize.
  assert (∀ name value, name_ok name = true → 16 + zlen value + zlen name ≤ cmd_size c →
    ∃ b' off, prop b name value = Ok b' ∧ writer_ok b' ∧ b_offsets b ⊆ b_offsets b' ∧
      b_offsets b' !! name = Some off ∧ b_struct b' = b_struct b ++ prop_code off value ∧
      zlen (b_struct b') + zlen (b_strings b') ≤ zlen (b_struct b) + zlen (b_strings b) + cmd_size c)
    as Hprop.
  { intros name value Hname Hle.
    destruct (prop_spec b name value Hname Hst Hal) as (more & off & offs & Heq & Hm & Ho & Hsub & Hs');
      [zpos; lia..|].
    eexists _, off. split; [exact Heq|]. cbn [b_struct b_offsets b_strings].
    pose proof (code_aligned offs (Prop_ name value)) as Hca. cbn [code] in Hca. rewrite Ho in Hca.
    change (default 0 (Some off)) with off in Hca. split_and!; try done.
    - split; cbn [b_struct b_offsets b_strings]; [|done].
      rewrite zlen_app. Z.to_euclidean_division_equations; lia.
    - unfold prop_code. rewrite !zlen_app, zlen_pad4, round_up_spec, !zlen_app, !zlen_be_bytes.
      Z.to_euclidean_division_equations; lia. }
  destruct c as [name| |name value|name values]; cbn [cmd_ok cmd_size exec code named] in *.
  - exists (set_struct b (b_struct b ++ pad4 (be_bytes 4 FDT_BEGIN_NODE ++ name ++ [0]))).
    unfold begin_. rewrite pack_be_ok, name_ok_ascii by done. cbn [mbind res_bind].
    rewrite align_spec, pad4_app by done. cbn [mbind res_bind].
    pose proof (code_aligned ∅ (Begin name)) as Hca. cbn [code] in Hca.
    split_and!; try done.
    + split; [cbn [b_struct set_struct]|done]. rewrite zlen_app. Z.to_euclidean_division_equations; lia.
    + cbn [b_struct b_strings set_struct]. rewrite zlen_app, zlen_pad4, round_up_spec. zl.
      Z.to_euclidean_division_equations; lia.
  - exists (set_struct b (b_struct b ++ be_bytes 4 FDT_END_NODE)). unfold end_.
    rewrite pack_be_ok by done. split_and!; try done.
    + split; [cbn [b_struct set_struct]|done]. zl. Z.to_euclidean_division_equations; lia.
    + cbn [b_struct b_strings set_struct]. zl.
  - destruct (Hprop name value) as (b' & off & ? & ? & ? & Ho & ? & ?); [done|lia|].
    exists b'. rewrite Ho. split_and!; done || by eexists.
  - zbool. rewrite cells_spec by done. cbn [mbind res_bind].
    destruct (Hprop name (concat (map (be_bytes 4) values))) as (b' & off & ? & ? & ? & Ho & ? & ?);
      [done|rewrite zlen_concat_cells; lia|].
    exists b'. rewrite Ho. split_and!; done || by eexists.
Qed.

Definition size_sum (cmds : list cmd) : Z := foldr (fun c n => cmd_size c + n) 0 cmds.

Lemma cmd_size_nonneg c : 0 ≤ cmd_size c.
Proof. destruct c; cbn [cmd_size]; zpos; lia. Qed.

Lemma run_spec cmds b :
  forallb cmd_ok cmds = true → writer_ok b →
  zlen (b_struct b) + zlen (b_strings b) + size_sum cmds < 2 ^ 32 →
  ∃ b', foldM exec b cmds = Ok b' ∧ writer_ok b' ∧ b_offsets b ⊆ b_offsets b' ∧
    Forall (named (b_offsets b')) cmds ∧
    b_struct b' = b_struct b ++ concat (map (code (b_offsets b')) cmds) ∧
    zlen (b_struct b') + zlen (b_strings b') ≤
      zlen (b_struct b) + zlen (b_strings b) + size_sum cmds.
Proof.
  revert b. induction cmds as [|c cmds IH]; intros b Hok Hb Hsize.
  { exists b. cbn. rewrite app_nil_r. split_and!; try done. lia. }
  cbn [forallb size_sum foldr] in *. fold (size_sum cmds) in *. zbool.
  assert (0 ≤ size_sum cmds).
  { clear. induction cmds as [|c cmds IH]; [done|]. unfold size_sum in *. cbn [foldr].
    pose proof (cmd_size_nonneg c). lia. }
  destruct (exec_spec b c) as (b1 & Hexec & Hb1 & Hsub1 & Hn1 & Hs1 & Hz1); [done|done|lia|].
  destruct (IH b1) as (b2 & Hrun & Hb2 & Hsub2 & Hn2 & Hs2 & Hz2); [done|done|lia|].
  exists b2. cbn [foldM]. rewrite Hexec. cbn [mbind res_bind].
  split_and!; try done.
  - by etrans.
  - constructor; [|done]. by eapply named_mono.
  - cbn [map concat]. rewrite Hs2, Hs1, <- app_assoc. do 2 f_equal. by apply code_mono.
  - lia.
Qed.

(** ** One turn of the reader *)

Lemma index_of_spec pre name post start :
  start = zlen pre → 0 ∉ name → index_of 0 (pre ++ name ++ 0 :: post) start = Ok (start + zlen name).
Proof.
  intros Hst Hn. unfold index_of. rewrite from_app by done.
  assert (list_find (.= 0) (name ++ 0 :: post) = Some (length name, 0)) as ->; [|done].
  apply list_find_Some. split_and!.
  - by rewrite list_lookup_middle.
  - done.
  - intros j y Hj Hlt ->. rewrite lookup_app_l in Hj by done. by apply list_elem_of_lookup_2 in Hj.
Qed.

Lemma name_ok_no_nul name : name_ok name = true → 0 ∉ name.
Proof. intros Hn Hin%list_elem_of_In. by apply (proj1 (forallb_forall _ _) Hn) in Hin. Qed.

Lemma decode_replace_ok name : name_ok name = true → decode_replace name = name.
Proof.
  unfold decode_replace, name_ok. induction name as [|c name IH]; [done|]. cbn [forallb map].
  intros Hn. zbool. unfold in_range in *. zbool. rewrite IH by done.
  by rewrite (proj2 (Z.ltb_lt c 128)) by lia.
Qed.

Section reader.
Context (blob strings : bytes) (offsets : gmap str Z).
Hypothesis Hstrings : strings_ok strings offsets.

Lemma parse_begin pre post nodes stack name :
  blob = pre ++ code offsets (Begin name) ++ post → zlen pre mod 4 = 0 → name_ok name = true →
  parse_body blob strings (PState nodes stack (zlen pre)) =
    Next (PState (enter_node nodes stack name).1 (enter_node nodes stack name).2
      (zlen pre + zlen (code offsets (Begin name)))).
Proof.
  intros Hblob Hpre Hname. unfold parse_body. cbn [code] in *. unfold pad4 at 1 in Hblob.
  rewrite <- !app_assoc in Hblob.
  assert (unpack_be 4 blob (zlen pre) = Ok 1) as ->.
  { rewrite Hblob. by apply (unpack_be_app 4 1). }
  cbn [mbind res_bind Z.eqb Pos.eqb].
  rewrite Hblob, (app_assoc pre) at 1. cbn [app].
  rewrite index_of_spec by first [by apply name_ok_no_nul | zl]. cbn [mbind res_bind].
  rewrite Hblob, (app_assoc pre), slice_mid by zl.
  rewrite decode_replace_ok by done. cbn [enter_node try_flow fst snd]. do 2 f_equal.
  rewrite zlen_pad4. zl. rewrite !round_up_spec. Z.to_euclidean_division_equations; lia.
Qed.

Lemma parse_end pre post nodes stack :
  blob = pre ++ code offsets End_ ++ post →
  parse_body blob strings (PState nodes stack (zlen pre)) =
    match stack with
    | [] => Stop (Err IndexError)
    | _ :: stack => Next (PState nodes stack (zlen pre + zlen (code offsets End_)))
    end.
Proof.
  intros Hblob. unfold parse_body.
  assert (unpack_be 4 blob (zlen pre) = Ok 2) as ->.
  { rewrite Hblob. by apply (unpack_be_app 4 2). }
  by destruct stack.
Qed.

Lemma parse_prop pre post nodes stack name off value :
  blob = pre ++ prop_code off value ++ post → zlen pre mod 4 = 0 → zlen blob < 2 ^ 32 →
  offsets !! name = Some off → zlen strings < 2 ^ 32 →
  parse_body blob strings (PState nodes stack (zlen pre)) =
    match set_prop nodes stack name value with
    | Ok nodes => Next (PState nodes stack (zlen pre + zlen (prop_code off value)))
    | Err e => Stop (Err e)
    end.
Proof.
  intros Hblob Hpre Hlt Hoff Hslt. unfold parse_body.
  destruct (Hstrings name off Hoff) as (Hname & spre & spost & Hs & Hspre).
  assert (zlen (prop_code off value) = round_up (12 + zlen value + 3)) as Hcode.
  { unfold prop_code. rewrite zlen_pad4. f_equal. zl. }
  assert (0 ≤ zlen value < 256 ^ Z.of_nat 4 ∧ 0 ≤ off < 256 ^ Z.of_nat 4) as [Hv Ho].
  { change (256 ^ Z.of_nat 4) with (2 ^ 32). rewrite Hblob, !zlen_app, Hcode, round_up_spec in Hlt.
    rewrite Hs in Hslt. zl. Z.to_euclidean_division_equations; lia. }
  rewrite Hcode. clear Hcode. unfold prop_code, pad4 in Hblob. rewrite <- !app_assoc in Hblob.
  assert (unpack_be 4 blob (zlen pre) = Ok 3) as ->.
  { rewrite Hblob. by apply (unpack_be_app 4 3). }
  assert (unpack_be 4 blob (zlen pre + 4) = Ok (zlen value)) as Hlen.
  { rewrite Hblob, (app_assoc pre). apply unpack_be_app; [done|zl]. }
  assert (unpack_be 4 blob (zlen pre + 4 + 4) = Ok off) as Hnoff.
  { rewrite Hblob, (app_assoc pre), (app_assoc (pre ++ _)). apply unpack_be_app; [done|zl]. }
  cbn [mbind res_bind Z.eqb Pos.eqb]. rewrite Hlen. cbn [mbind res_bind].
  rewrite Hnoff. cbn [mbind res_bind].
  rewrite Hs, index_of_spec by first [done | by apply name_ok_no_nul].
  cbn [mbind res_bind]. rewrite slice_mid, name_ok_ascii by done. cbn [mbind res_bind].
  assert (slice blob (zlen pre + 4 + 8) (zlen pre + 4 + 8 + zlen value) = value) as ->.
  { rewrite Hblob, (app_assoc pre), (app_assoc (pre ++ _)), (app_assoc ((pre ++ _) ++ _)).
    apply slice_mid; zl. }
  destruct (set_prop _ _ _ _); cbn [mbind res_bind try_flow]; [|done]. do 2 f_equal.
  rewrite !round_up_spec. Z.to_euclidean_division_equations; lia.
Qed.
End reader.

(** ** The whole blob *)

Lemma while_next {S A} (body : S → flow S (res A)) fuel s s' :
  body s = Next s' → while (Datatypes.S fuel) body s = while fuel body s'.
Proof. intros H. unfold while. cbn. by rewrite H. Qed.

Lemma while_stop {S A} (body : S → flow S (res A)) fuel s r :
  body s = Stop r → while (Datatypes.S fuel) body s = r.
Proof. intros H. unfold while. cbn. by rewrite H. Qed.

(** The reader runs the calls one by one, to the end token or to the call that
    has no node to act on. *)
Lemma parse_run blob strings offsets cmds pre post nodes stack fuel :
  strings_ok strings offsets → zlen blob < 2 ^ 32 → zlen strings < 2 ^ 32 →
  Forall (named offsets) cmds → forallb cmd_ok cmds = true →
  blob = pre ++ concat (map (code offsets) cmds) ++ be_bytes 4 FDT_END ++ post →
  zlen pre mod 4 = 0 → (length cmds < fuel)%nat →
  while fuel (parse_body blob strings) (PState nodes stack (zlen pre)) =
    fst <$> foldM interp (nodes, stack) cmds.
Proof.
  intros Hs Hlt Hslt. revert pre nodes stack fuel.
  induction cmds as [|c cmds IH]; intros pre nodes stack fuel Hn Hok Hblob Hpre Hfuel;
    (destruct fuel as [|fuel]; [cbn in Hfuel; lia|]).
  - apply while_stop. unfold parse_body.
    assert (unpack_be 4 blob (zlen pre) = Ok 9) as ->; [|done].
    rewrite Hblob. by apply (unpack_be_app 4 9).
  - apply Forall_cons in Hn as [Hc Hn]. cbn [forallb] in Hok. zbool.
    cbn [map concat] in Hblob. rewrite <- app_assoc in Hblob.
    assert (∀ nodes' stack',
      while fuel (parse_body blob strings)
        (PState nodes' stack' (zlen pre + zlen (code offsets c))) =
      fst <$> foldM interp (nodes', stack') cmds) as Hrest.
    { intros nodes' stack'. rewrite <- zlen_app. apply IH; try done.
      - rewrite Hblob. by rewrite <- app_assoc.
      - pose proof (code_aligned offsets c). zl. Z.to_euclidean_division_equations; lia.
      - cbn in Hfuel. lia. }
    clear IH. cbn [foldM]. destruct c as [name| |name value|name values]; cbn [interp cmd_ok named] in *.
    + erewrite while_next by (eapply parse_begin; done). apply Hrest.
    + pose proof (parse_end blob strings offsets pre _ nodes stack Hblob) as Hend.
      destruct stack as [|i stack].
      * by rewrite (while_stop _ _ _ _ Hend).
      * rewrite (while_next _ _ _ _ Hend). apply Hrest.
    + destruct Hc as [off Hoff]. cbn [code] in *. rewrite Hoff in *.
      pose proof (parse_prop blob strings offsets Hs _ _ nodes stack name off value
        Hblob Hpre Hlt Hoff Hslt) as Hprop.
      destruct (set_prop nodes stack name value); cbn [mbind res_bind].
      * rewrite (while_next _ _ _ _ Hprop). apply Hrest.
      * by rewrite (while_stop _ _ _ _ Hprop).
    + destruct Hc as [off Hoff]. cbn [code] in *. rewrite Hoff in *.
      pose proof (parse_prop blob strings offsets Hs _ _ nodes stack name off _
        Hblob Hpre Hlt Hoff Hslt) as Hprop.
      destruct (set_prop nodes stack name _); cbn [mbind res_bind].
      * rewrite (while_next _ _ _ _ Hprop). apply Hrest.
      * by rewrite (while_stop _ _ _ _ Hprop).
Qed.

Lemma length_concat_code offsets cmds :
  (length cmds ≤ length (concat (map (code offsets) cmds)))%nat.
Proof.
  induction cmds as [|c cmds IH]; [done|]. cbn [map concat length]. rewrite length_app.
  assert (0 < zlen (code offsets c)); [|unfold zlen in *; lia].
  destruct c; cbn [code]; unfold prop_code; rewrite ?zlen_pad4, ?round_up_spec; zl;
    Z.to_euclidean_division_equations; lia.
Qed.

Definition u64_pair (r : Z * Z) : bool := u64 r.1 && u64 r.2.

Lemma reserve_map_spec reservations :
  forallb u64_pair reservations = true →
  ∃ reserve, reserve_map reservations = Ok reserve ∧ zlen reserve = 16 + 16 * zlen reservations.
Proof.
  intros Hr. unfold reserve_map.
  rewrite (mapM_res_ok _ (fun r => be_bytes 8 r.1 ++ be_bytes 8 r.2)).
  - eexists. split; [done|].
    assert (zlen (concat (map (fun r : Z * Z => be_bytes 8 r.1 ++ be_bytes 8 r.2) reservations))
      = 16 * zlen reservations) as Hl; [|rewrite zlen_app, Hl; apply Z.add_comm].
    clear. induction reservations as [|r rs IH]; [done|]. cbn [map concat]. zl.
  - apply Forall_forall. intros [a s] Hin%list_elem_of_In.
    apply (proj1 (forallb_forall _ _) Hr) in Hin. unfold u64_pair, u64, in_range in Hin. cbn [fst snd] in Hin.
    zbool. unfold pack_reservation. cbn [fst snd].
    by rewrite !pack_be_ok by (change (256 ^ Z.of_nat 8) with 0x10000000000000000; lia).
Qed.

Lemma new_builder_ok : writer_ok new_builder.
Proof. split; [done|]. intros name off. cbn. by rewrite lookup_empty. Qed.

(** The [i]th word of a packed header. *)
Lemma header_read fields rest i v at_ :
  Forall (fun v => u32 v = true) fields → fields !! i = Some v → at_ = 4 * Z.of_nat i →
  unpack_be 4 (concat (map (be_bytes 4) fields) ++ rest) at_ = Ok v.
Proof.
  intros Hall Hi ->. rewrite Forall_lookup in Hall. pose proof (u32_range v (Hall i v Hi)) as Hv.
  rewrite <- (take_drop_middle fields i v Hi), map_app, concat_app. cbn [map concat].
  rewrite <- !app_assoc. apply unpack_be_app; [done|].
  rewrite zlen_concat_cells. unfold zlen. apply lookup_lt_Some in Hi. rewrite length_take. lia.
Qed.

Lemma finish_spec b reservations :
  forallb u64_pair reservations = true →
  zlen (b_struct b) + zlen (b_strings b) + 60 + 16 * zlen reservations < 2 ^ 32 →
  ∃ head blob, finish b reservations = Ok blob ∧
    blob = head ++ b_struct b ++ be_bytes 4 FDT_END ++ b_strings b ∧
    zlen head = 56 + 16 * zlen reservations ∧
    unpack_be 4 blob 0 = Ok FDT_MAGIC ∧ unpack_be 4 blob 4 = Ok (zlen blob) ∧
    unpack_be 4 blob 8 = Ok (zlen head) ∧
    unpack_be 4 blob 12 = Ok (zlen head + zlen (b_struct b) + 4).
Proof.
  intros Hres Hsize. destruct (reserve_map_spec reservations Hres) as (reserve & Hrm & Hrl).
  unfold finish. cbn [set_struct b_struct b_strings]. rewrite pack_be_ok by done.
  cbn [mbind res_bind]. rewrite Hrm. cbn [mbind res_bind]. rewrite !zlen_app, zlen_be_bytes.
  set (fields := [FDT_MAGIC; _; _; _; _; _; _; _; _; _]).
  assert (Forall (fun v => u32 v = true) fields) as Hf.
  { unfold fields. zpos. repeat constructor; unfold u32, in_range; apply andb_true_iff;
      rewrite !Z.leb_le; unfold FDT_MAGIC; lia. }
  rewrite (mapM_res_ok _ (be_bytes 4)) by (eapply Forall_impl; [exact Hf|apply u32_pack]).
  cbn [mbind res_bind]. exists (concat (map (be_bytes 4) fields) ++ reserve).
  eexists. split; [done|]. split; [by rewrite <- !app_assoc|].
  assert (zlen (concat (map (be_bytes 4) fields) ++ reserve) = 56 + 16 * zlen reservations) as Hh.
  { rewrite zlen_app, Hrl, zlen_concat_cells. change (zlen fields) with 10. lia. }
  split; [exact Hh|]. rewrite Hh.
  rewrite (header_read fields _ 0 _ 0 Hf eq_refl eq_refl),
    (header_read fields _ 1 _ 4 Hf eq_refl eq_refl), (header_read fields _ 2 _ 8 Hf eq_refl eq_refl),
    (header_read fields _ 3 _ 12 Hf eq_refl eq_refl).
  split_and!; f_equal; [|lia..].
  rewrite !zlen_app, zlen_concat_cells, zlen_be_bytes. change (zlen fields) with 10. lia.
Qed.

(** What the writer makes of a list of calls, and what the reader makes of
    that. *)
Lemma build_parse cmds reservations :
  forallb cmd_ok cmds = true → forallb u64_pair reservations = true →
  blob_bound cmds reservations < 2 ^ 32 →
  ∃ b blob, build cmds = Ok b ∧ finish b reservations = Ok blob ∧
    parse_fdt blob = meaning cmds.
Proof.
  intros Hok Hres Hsize.
  assert (blob_bound cmds reservations = size_sum cmds + 60 + 16 * zlen reservations) as Hbound.
  { unfold blob_bound, size_sum. clear. induction cmds as [|c cmds IH]; cbn [foldr]; lia. }
  destruct (run_spec cmds new_builder Hok new_builder_ok)
    as (b & Hrun & [_ Hstr] & _ & Hn & Hstruct & Hz); [cbn [b_struct b_strings new_builder]; change (zlen (@nil Z)) with 0; zpos; lia|].
  cbn [b_struct b_strings new_builder app] in *. change (zlen (@nil Z)) with 0 in Hz.
  destruct (finish_spec b reservations Hres) as (head & blob & Hfin & Hblob & Hhead & H0 & H4 & H8 & H12);
    [zpos; lia|].
  exists b, blob. split_and!; [done|done|]. unfold parse_fdt, meaning.
  rewrite H0, H4, H8, H12. cbn [mbind res_bind]. change (FDT_MAGIC =? FDT_MAGIC) with true.
  cbn [negb]. rewrite Z.gtb_ltb, Z.ltb_irrefl.
  assert (from blob (zlen head + zlen (b_struct b) + 4) = b_strings b) as ->.
  { rewrite Hblob, (app_assoc head), app_assoc. apply from_app. zl. }
  apply parse_run with (offsets := b_offsets b) (post := b_strings b); try done.
  - rewrite Hblob. zl.
  - zpos. lia.
  - by rewrite Hblob, Hstruct.
  - rewrite Hhead. Z.to_euclidean_division_equations; lia.
  - pose proof (length_concat_code (b_offsets b) cmds). rewrite <- Hstruct in *.
    rewrite Hblob, !length_app. lia.
Qed.

(** ** Device trees *)

#[warnings="-register-all"]
Inductive dtree : Type :=
| DNode (name : str) (props : list (str * bytes)) (children : list dtree).

(** The calls that write a tree, and the nodes it has, in tree order. *)
Fixpoint tree_cmds (t : dtree) : list cmd :=
  let '(DNode name props children) := t in
  Begin name :: map (fun nv => Prop_ nv.1 nv.2) props
    ++ concat (map tree_cmds children) ++ [End_].

Definition child_path (parent : option str) (name : str) : str :=
  match parent with
  | None => $"/"
  | Some p => rstrip_by (Z.eqb 47) p ++ $"/" ++ name
  end.

Definition prop_map (props : list (str * bytes)) : list (str * bytes) :=
  foldl (fun d nv => dset nv.1 nv.2 d) [] props.

Fixpoint tree_nodes (parent : option str) (t : dtree) : list node :=
  let '(DNode name props children) := t in
  let path := child_path parent name in
  (path, prop_map props) :: concat (map (tree_nodes (Some path)) children).

Fixpoint tree_ok (t : dtree) : bool :=
  let '(DNode name props children) := t in
  name_ok name && forallb (fun nv => name_ok nv.1) props && forallb tree_ok children.

Lemma dtree_ind' (P : dtree → Prop) :
  (∀ name props children, Forall P children → P (DNode name props children)) → ∀ t, P t.
Proof.
  intros H. fix IH 1. intros [name props children]. apply H.
  induction children as [|c children IHc]; constructor; [apply IH|exact IHc].
Qed.

Lemma tree_cmds_ok t : tree_ok t = true → forallb cmd_ok (tree_cmds t) = true.
Proof.
  induction t as [name props children IH] using dtree_ind'. cbn [tree_ok tree_cmds]. intros H.
  apply andb_true_iff in H as [[Hn Hp]%andb_true_iff Hch].
  cbn [forallb cmd_ok]. rewrite !forallb_app. repeat (apply andb_true_iff; split); try done.
  - apply forallb_forall. intros c. rewrite in_map_iff. intros (nv & <- & Hin).
    exact (proj1 (forallb_forall _ props) Hp nv Hin).
  - apply forallb_forall. intros c. rewrite in_concat. intros (l & Hl & Hc).
    apply in_map_iff in Hl as (t & <- & Ht). rewrite Forall_forall in IH.
    pose proof (proj1 (forallb_forall _ children) Hch t Ht) as Hok.
    apply (proj1 (forallb_forall _ _) (IH t (proj2 (list_elem_of_In _ _) Ht) Hok)), Hc.
Qed.

Definition top_path (nodes : list node) (stack : list nat) : option str :=
  match stack with [] => None | i :: _ => Some (default [] (fst <$> nodes !! i)) end.

Lemma top_path_app nodes more stack :
  Forall (fun i => (i < length nodes)%nat) stack → top_path (nodes ++ more) stack = top_path nodes stack.
Proof. destruct 1 as [|i stack Hi _]; cbn; [done|]. by rewrite lookup_app_l. Qed.

Lemma interp_props nodes path props m0 stack :
  foldM interp (nodes ++ [(path, m0)], length nodes :: stack) (map (fun nv => Prop_ nv.1 nv.2) props)
  = Ok (nodes ++ [(path, foldl (fun d nv => dset nv.1 nv.2 d) m0 props)],
        length nodes :: stack).
Proof.
  revert m0. induction props as [|[n v] props IH]; intros m0; [done|].
  cbn [map foldM interp set_prop]. cbn [mbind res_bind fst snd foldl].
  rewrite alter_app_r_alt, Nat.sub_diag by lia. apply IH.
Qed.

Lemma interp_tree t nodes stack :
  Forall (fun i => (i < length nodes)%nat) stack →
  foldM interp (nodes, stack) (tree_cmds t) = Ok (nodes ++ tree_nodes (top_path nodes stack) t, stack).
Proof.
  revert nodes stack. induction t as [name props children IH] using dtree_ind'.
  intros nodes stack Hst. cbn [tree_cmds tree_nodes foldM interp]. unfold enter_node.
  cbn [mbind res_bind]. rewrite foldM_app, interp_props. cbn [mbind res_bind].
  assert (node_path nodes stack name = child_path (top_path nodes stack) name) as -> by by destruct stack.
  set (path := child_path _ _). fold (prop_map props).
  assert (∀ done_, foldM interp (nodes ++ (path, prop_map props) :: done_, length nodes :: stack)
    (concat (map tree_cmds children))
    = Ok (nodes ++ (path, prop_map props) :: done_ ++ concat (map (tree_nodes (Some path)) children),
          length nodes :: stack)) as Hch.
  { induction IH as [|t children Ht _ IHc]; intros done_; cbn [map concat].
    - cbn [foldM]. by rewrite app_nil_r.
    - rewrite foldM_app, Ht.
      + cbn [mbind res_bind top_path]. rewrite list_lookup_middle by done. cbn [fmap option_fmap option_map fst].
        rewrite <- app_assoc. cbn [app]. rewrite IHc. by rewrite app_assoc.
      + constructor; [rewrite length_app; cbn; lia|]. eapply Forall_impl; [exact Hst|].
        intros i Hi. rewrite length_app. cbn in *. lia. }
  rewrite foldM_app, Hch. done.
Qed.

(** ** Safety of the reader *)

Lemma index_of_ok c l start i :
  0 ≤ start → index_of c l start = Ok i → start ≤ i < zlen l.
Proof.
  unfold index_of, from. intros Hs. destruct (list_find _ _) as [[j y]|] eqn:E; [|done].
  intros [= <-]. apply list_find_Some in E as (E & _ & _). rewrite lookup_drop in E.
  apply lookup_lt_Some in E. unfold zlen. lia.
Qed.

Lemma unpack_be_bound n l at_ v :
  Forall is_byte l → unpack_be n l at_ = Ok v → 0 ≤ v ∧ at_ + Z.of_nat n ≤ zlen l.
Proof.
  intros Hl. unfold unpack_be. zcase; [|done]. intros [= <-]. split; [|done].
  unfold be_value. apply le_value_bound, Forall_reverse. by apply slice_byte.
Qed.

Lemma unpack_be_err n l at_ e : unpack_be n l at_ = Err e → e = StructError.
Proof. unfold unpack_be. zcase; congruence. Qed.

Lemma index_of_err c l start e : index_of c l start = Err e → e = ValueError.
Proof. unfold index_of. destruct (list_find _ _) as [[]|]; congruence. Qed.

Lemma rstrip_prefix f s : ∃ k, s = rstrip_by f s ++ k.
Proof.
  unfold rstrip_by, lstrip_by.
  assert (∀ l, l = (span f l).1 ++ (span f l).2) as Hsp.
  { induction l as [|a l IH]; [done|]. cbn. destruct (f a); [|done].
    destruct (span f l); cbn in *. by rewrite <- IH. }
  exists (reverse (span f (reverse s)).1).
  rewrite <- reverse_app, <- Hsp. by rewrite reverse_involutive.
Qed.

Definition rooted (n : node) : Prop := head n.1 = Some 47.

Lemma node_path_rooted nodes stack name :
  Forall rooted nodes → Forall (fun i => (i < length nodes)%nat) stack →
  head (node_path nodes stack name) = Some 47.
Proof.
  intros Hn Hs. destruct Hs as [|i stack Hi _]; [done|]. cbn [node_path].
  destruct (lookup_lt_is_Some_2 _ _ Hi) as [[path props] Hp]. rewrite Hp. cbn.
  eapply Forall_lookup_1 in Hn; [|exact Hp]. unfold rooted in Hn. cbn in Hn.
  destruct (rstrip_prefix (Z.eqb 47) path) as [k Hk].
  destruct (rstrip_by (Z.eqb 47) path); [done|]. rewrite Hk in Hn. done.
Qed.

(** The exceptions the reader raises on a malformed blob. *)
Definition parse_error (e : exn) : Prop :=
  e = StructError ∨ e = ValueError ∨ e = IndexError ∨ e = UnicodeError.

Definition parsed (r : res (list node)) : Prop :=
  match r with Ok nodes => Forall rooted nodes | Err e => parse_error e end.

Definition reader_ok (st : pstate) : Prop :=
  0 ≤ p_pos st ∧ Forall rooted (p_nodes st) ∧
  Forall (fun i => (i < length (p_nodes st))%nat) (p_stack st).

Lemma round_up_ge z : z - 3 ≤ round_up z.
Proof. rewrite round_up_spec. Z.to_euclidean_division_equations; lia. Qed.

Lemma set_prop_ok nodes stack name value nodes' :
  Forall rooted nodes → set_prop nodes stack name value = Ok nodes' →
  Forall rooted nodes' ∧ length nodes' = length nodes.
Proof.
  intros Hn. destruct stack as [|i stack]; cbn; [done|]. intros [= <-].
  split; [|apply length_alter]. apply Forall_alter; [done|]. by intros [path props].
Qed.

Lemma parse_body_safe blob strings st :
  Forall is_byte blob → Forall is_byte strings → reader_ok st →
  match parse_body blob strings st with
  | Next st' => reader_ok st' ∧
      (Z.to_nat (zlen blob - p_pos st') < Z.to_nat (zlen blob - p_pos st))%nat
  | Stop r => parsed r
  end.
Proof.
  intros Hb Hs (Hpos & Hn & Hst). destruct st as [nodes stack pos]. cbn [p_pos p_nodes p_stack] in *.
  unfold parse_body. destruct (unpack_be 4 blob pos) as [token|e] eqn:Et.
  2: { left. by eapply unpack_be_err. }
  apply unpack_be_bound in Et as [_ Hle]; [|done]. cbn [mbind res_bind].
  zcase; [|zcase; [|zcase; [|zcase; [|zcase]]]].
  - destruct (index_of 0 blob (pos + 4)) as [e|e] eqn:Ei; cbn [mbind res_bind try_flow enter_node].
    + apply index_of_ok in Ei; [|lia]. pose proof (round_up_ge (e + 4)).
      unfold reader_ok. cbn [p_pos p_nodes p_stack]. split_and!; [lia| | |lia].
      * apply Forall_app_2; [done|]. constructor; [|done]. by apply node_path_rooted.
      * rewrite length_app. cbn [length]. constructor; [lia|].
        eapply Forall_impl; [exact Hst|]. cbn. lia.
    + right. left. by eapply index_of_err.
  - destruct stack as [|i stack]; cbn [try_flow]; [right; right; by left|].
    apply Forall_cons in Hst as [_ Hst]. unfold reader_ok. cbn [p_pos p_nodes p_stack].
    split_and!; done || lia.
  - destruct (unpack_be 4 blob (pos + 4)) as [len|e] eqn:El; cbn [mbind res_bind try_flow].
    2: { left. by eapply unpack_be_err. }
    apply unpack_be_bound in El as [Hlen _]; [|done].
    destruct (unpack_be 4 blob (pos + 4 + 4)) as [off|e] eqn:Eo; cbn [mbind res_bind try_flow].
    2: { left. by eapply unpack_be_err. }
    destruct (index_of 0 strings off) as [e|e] eqn:Ei; cbn [mbind res_bind try_flow].
    2: { right. left. by eapply index_of_err. }
    unfold ascii_bytes. zcase; cbn [mbind res_bind try_flow]; [|right; right; by right].
    destruct (set_prop _ _ _ _) as [nodes'|e'] eqn:Ep; cbn [mbind res_bind try_flow].
    + apply set_prop_ok in Ep as [Hr Hl]; [|done]. pose proof (round_up_ge (pos + 4 + 8 + len + 3)).
      unfold reader_ok. cbn [p_pos p_nodes p_stack]. rewrite Hl. split_and!; done || lia.
    + destruct stack; cbn in Ep; simplify_eq. right. right. by left.
  - unfold reader_ok. cbn [try_flow p_pos p_nodes p_stack]. split_and!; done || lia.
  - done.
  - right. by left.
Qed.

(** ** The theorems *)

(** C4: the reader undoes the writer.  Every device tree whose names the
    format can carry and whose blob stays below 4 GiB is written without an
    error, and [parse_fdt] of the blob returns the nodes of the tree: their
    paths in tree order, each with its own properties, whatever reservations
    the header carries. *)
Theorem fdt_round_trip (t : dtree) (reservations : list (Z * Z)) :
  tree_ok t = true → forallb u64_pair reservations = true →
  blob_bound (tree_cmds t) reservations < 2 ^ 32 →
  ∃ b blob, build (tree_cmds t) = Ok b ∧ finish b reservations = Ok blob ∧
    parse_fdt blob = Ok (tree_nodes None t).
Proof.
  intros Ht Hr Hb.
  destruct (build_parse (tree_cmds t) reservations) as (b & blob & Hbuild & Hfin & Hparse);
    [by apply tree_cmds_ok|done|done|].
  exists b, blob. split_and!; [done..|]. rewrite Hparse. unfold meaning.
  by rewrite interp_tree.
Qed.

Definition sample_tree : dtree :=
  DNode [] [($"compatible", $"takibi"); ($"empty", [])]
    [DNode ($"soc@1") [($"compatible", $"simple-bus")] [DNode ($"uart@2") [($"reg", [0; 0; 0; 1])] []];
     DNode ($"memory@0") [($"reg", [1; 2; 3; 4; 5])] []].

Lemma fdt_round_trip_witness :
  ∃ b blob, build (tree_cmds sample_tree) = Ok b ∧ finish b [(0x1000, 0x2000)] = Ok blob ∧
    parse_fdt blob = Ok (tree_nodes None sample_tree).
Proof. apply (fdt_round_trip sample_tree [(0x1000, 0x2000)]); [done|done|vm_compute; done]. Defined.

(** The reader follows the calls.  For any sequence of calls, balanced or
    not, the blob the writer makes of it is read as the meaning of the
    sequence: an [end] or a property with no open node raises [IndexError] in
    the reader, and every call before the end token takes effect once. *)
Theorem parse_follows_calls (cmds : list cmd) (reservations : list (Z * Z)) :
  forallb cmd_ok cmds = true → forallb u64_pair reservations = true →
  blob_bound cmds reservations < 2 ^ 32 →
  ∃ b blob, build cmds = Ok b ∧ finish b reservations = Ok blob ∧ parse_fdt blob = meaning cmds.
Proof. apply build_parse. Qed.

Lemma parse_follows_calls_witness :
  ∃ b blob, build [Begin []; Cells ($"reg") [7; 8]; End_; End_] = Ok b ∧ finish b [] = Ok blob ∧
    parse_fdt blob = Err IndexError.
Proof.
  destruct (parse_follows_calls [Begin []; Cells ($"reg") [7; 8]; End_; End_] [])
    as (b & blob & Hb & Hf & Hp); [done|done|vm_compute; done|].
  exists b, blob. split_and!; [done|done|]. rewrite Hp. vm_compute. done.
Defined.

(** C31: the reader is safe on any input.  On every blob of bytes [parse_fdt]
    ends; it returns nodes whose paths all start at the root, or raises one of
    the four exceptions of a malformed blob. *)
Theorem parse_fdt_safe (blob : bytes) : Forall is_byte blob → parsed (parse_fdt blob).
Proof.
  intros Hb. unfold parse_fdt.
  destruct (unpack_be 4 blob 0) as [magic|e] eqn:E0; [|left; by eapply unpack_be_err].
  destruct (unpack_be 4 blob 4) as [total|e] eqn:E1; [|left; by eapply unpack_be_err].
  destruct (unpack_be 4 blob 8) as [o1|e] eqn:E2; [|left; by eapply unpack_be_err].
  destruct (unpack_be 4 blob 12) as [o2|e] eqn:E3; [|left; by eapply unpack_be_err].
  cbn [mbind res_bind]. zcase; [right; by left|]. zcase; [right; by left|].
  apply unpack_be_bound in E2 as [Ho1 _]; [|done].
  apply (while_total _ reader_ok parsed (fun st => Z.to_nat (zlen blob - p_pos st))).
  - intros st Hst. apply parse_body_safe; [done|by apply Forall_drop|done].
  - repeat split; [done|constructor..].
  - cbn [p_pos]. unfold zlen. lia.
Qed.

Lemma parse_fdt_safe_witness : parsed (parse_fdt (be_bytes 4 FDT_MAGIC ++ zeros 28)).
Proof. apply (parse_fdt_safe (be_bytes 4 FDT_MAGIC ++ zeros 28)). by apply Forall_app_2; [repeat constructor|apply Forall_replicate]. Defined.

(** Cells survive the trip: what [Builder.cells] packs, the reader's
    [cells] unpacks, for any list of 32-bit values. *)
Theorem read_cells_cells (values : list Z) :
  forallb u32 values = true → ∃ value, cells values = Ok value ∧ read_cells value = Ok values.
Proof.
  intros Hv. rewrite cells_spec by done. eexists. split; [done|]. unfold read_cells.
  rewrite zlen_concat_cells. unfold py_range.
  replace (Z.to_nat _) with (length values)
    by (unfold zlen; Z.to_euclidean_division_equations; lia).
  assert (∀ pre, mapM_res (fun i => unpack_be 4 (slice (concat (map (be_bytes 4) (pre ++ values))) i (i + 4)) 0)
    (map (fun i => 0 + 4 * Z.of_nat i) (seq (length pre) (length values))) = Ok values) as H;
    [|exact (H [])].
  induction values as [|v values IH]; intros pre; [done|]. cbn [forallb] in Hv. zbool.
  cbn [length seq map mapM_res].
  assert (slice (concat (map (be_bytes 4) (pre ++ v :: values))) (0 + 4 * Z.of_nat (length pre))
    (0 + 4 * Z.of_nat (length pre) + 4) = be_bytes 4 v) as ->.
  { rewrite map_app, concat_app. cbn [map concat]. apply slice_mid.
    - rewrite zlen_concat_cells. unfold zlen. lia.
    - zl. }
  assert (unpack_be 4 (be_bytes 4 v) 0 = Ok v) as ->.
  { rewrite <- (app_nil_r (be_bytes 4 v)). apply (unpack_be_app 4 v []); [by apply u32_range|done]. }
  cbn [mbind res_bind]. specialize (IH ltac:(done) (pre ++ [v])).
  rewrite <- app_assoc, length_app, Nat.add_1_r in IH. cbn [app] in IH. by rewrite IH.
Qed.

Lemma read_cells_cells_witness :
  ∃ value, cells [0xC0; 0x40030000; 0; 0x100] = Ok value ∧
    read_cells value = Ok [0xC0; 0x40030000; 0; 0x100].
Proof. apply (read_cells_cells [0xC0; 0x40030000; 0; 0x100]). done. Defined.
