(* ===== verification/FdtFixture.v ===== *)
(** * The device-tree fixture and the IOMMU report

    [main] of scripts/make_fdt_fixture.py, as the calls it makes on the
    [Builder] in each of its modes, and [report] of
    scripts/rpi5_dtb_iommu_report.py on what [parse_fdt] returns. *)
From S2P Require Import Prelude Bytes Text Dict Fdt.

(** A property of NUL-terminated strings. *)
Definition zs (parts : list String.string) : bytes :=
  concat (map (fun p => str_of p ++ [0]) parts).

Definition is_mode (mode : str) (name : String.string) : bool := bool_decide (mode = str_of name).

Definition rng_seed : bytes := py_range 1 33 1.
Definition kaslr_seed : bytes := py_range 0x41 0x49 1.

Definition fixture_root : list cmd :=
  [Begin [];
   Cells ($"#address-cells") [2];
   Cells ($"#size-cells") [2];
   Cells ($"interrupt-parent") [0x8003]].

Definition fixture_seed (mode : str) : list cmd :=
  (if is_mode mode "--seed-nested" then
     [Begin ($"soc");
      Begin ($"chosen");
      Prop_ ($"rng-seed") rng_seed;
      End_;
      End_]
  else (if startswith mode ($"--seed-") then
        [Begin ($"chosen")]
        ++ (if is_mode mode "--seed-rng" then
           [Prop_ ($"kaslr-seed") kaslr_seed;
            Prop_ ($"rng-seed") rng_seed]
        else (if is_mode mode "--seed-kaslr" then
              [Prop_ ($"kaslr-seed") kaslr_seed]
           else (if is_mode mode "--seed-zero-rng" then
                 [Prop_ ($"rng-seed") (zeros 32);
                  Prop_ ($"kaslr-seed") kaslr_seed]
              else (if is_mode mode "--seed-short" then
                    [Prop_ ($"rng-seed") (py_range 1 8 1)]
                 else []))))
        ++ [End_]
     else [])).

Definition fixture_psci (mode : str) : list cmd :=
  (if negb (is_mode mode "--missing-interrupt") then
     [Begin ($"psci");
      Prop_ ($"compatible") (zs ["arm,psci-1.0"; "arm,psci-0.2"; "arm,psci"]%string)]
     ++ (if is_mode mode "--invalid-device" then
        [Prop_ ($"method") (zs ["doorbell"]%string)]
     else (if is_mode mode "--psci-smc" then
           [Prop_ ($"method") (zs ["smc"]%string)]
        else [Prop_ ($"method") (zs ["hvc"]%string)]))
     ++ (if is_mode mode "--invalid-gic" then
        [Prop_ ($"status") (zs ["disabled"]%string)]
     else [])
     ++ [End_]
  else []).

Definition fixture_console (mode : str) : list cmd :=
  [Begin ($"pl011-disabled@8ffffff");
   Prop_ ($"compatible") (zs ["arm,pl011"; "arm,primecell"]%string);
   Cells ($"reg") [0; 0x08FFFFFF; 0];
   Prop_ ($"status") (zs ["disabled"]%string);
   End_]
  ++ (if is_mode mode "--invalid-device" then
     [Begin ($"pl011@8ffff000");
      Prop_ ($"compatible") (zs ["arm,pl011"; "arm,primecell"]%string);
      Cells ($"reg") [0; 0x08FFF000; 0; 0];
      End_]
  else [])
  ++ [Begin ($"pl011@9000000");
   Cells ($"reg") [0; 0x09000000; 0; 0x1000]]
  ++ (if is_mode mode "--invalid-interrupt" then
     [Cells ($"interrupts") [0; 1; 0]]
  else (if negb (is_mode mode "--missing-interrupt") then
        [Cells ($"interrupts") [0; 1; 4]]
     else []))
  ++ [Prop_ ($"compatible") (zs ["arm,pl011"; "arm,primecell"]%string);
   Prop_ ($"status") (zs ["okay"]%string);
   End_].

Definition fixture_virtio (mode : str) : list cmd :=
  [Begin ($"virtio_mmio@9ffff00");
   Prop_ ($"compatible") (zs ["virtio,mmio"]%string);
   Cells ($"reg") [0; 0x09FFFF00; 0];
   Prop_ ($"status") (zs ["disabled"]%string);
   End_;
   Begin ($"virtio_mmio@a000000");
   Prop_ ($"compatible") (zs ["virtio,mmio"]%string);
   Cells ($"reg") [0; 0x0A000000; 0; 0x200]]
  ++ (if negb (is_mode mode "--missing-interrupt") then
     [Cells ($"interrupts") [0; 16; 1]]
  else [])
  ++ [End_;
   Begin ($"virtio_mmio@a000200");
   Prop_ ($"compatible") (zs ["virtio,mmio"]%string)]
  ++ (if is_mode mode "--invalid-virtio" then
     [Cells ($"reg") [0; 0x0A000200; 0]]
  else [Cells ($"reg") [0; 0x0A000200; 0; 0x200]])
  ++ (if negb (is_mode mode "--missing-interrupt") then
     [Cells ($"interrupts") [0; 17; 1]]
  else [])
  ++ [End_].

Definition fixture_gic (mode : str) : list cmd :=
  [Begin ($"intc@8000000");
   Cells ($"#interrupt-cells") [3];
   Prop_ ($"interrupt-controller") [];
   Cells ($"phandle") [0x8003];
   Prop_ ($"compatible") (zs ["arm,cortex-a15-gic"]%string)]
  ++ (if is_mode mode "--invalid-gic" then
     [Cells ($"reg") [0; 0x08000000; 0; 0x10000]]
  else [Cells ($"reg") [0; 0x08000000; 0; 0x10000; 0; 0x08010000; 0; 0x10000]])
  ++ [Begin ($"v2m@8020000");
   Prop_ ($"compatible") (zs ["arm,gic-v2m-frame"]%string);
   Cells ($"reg") [0; 0x08020000; 0; 0x1000];
   End_;
   End_].

Definition fixture_memory (mode : str) : list cmd :=
  [Begin ($"memory@0");
   Prop_ ($"device_type") (zs ["memory"]%string);
   Cells ($"reg") [0; 0x3F000000; 0; 0x02000000; 0; 0; 0; 0x40000000; 0; 0x41000000; 0; 0x01000000; 0; 0x80000000; 0; 0x10000000];
   End_;
   Begin ($"memory@100000000");
   Prop_ ($"device_type") (zs ["memory"]%string);
   Cells ($"reg") [1; 0; 0; 0x20000000];
   End_;
   Begin ($"memory@200000000");
   Prop_ ($"device_type") (zs ["memory"]%string);
   Cells ($"reg") [2; 0; 0];
   Prop_ ($"status") (zs ["disabled"]%string);
   End_;
   Begin ($"memory@210000000");
   Prop_ ($"device_type") (zs ["memory"]%string);
   Prop_ ($"status") (zs ["disabled"]%string);
   Cells ($"reg") [2; 0; 0];
   End_]
  ++ (if is_mode mode "--invalid-memory" then
     [Begin ($"memory@ffffffffffffffff");
      Prop_ ($"device_type") (zs ["memory"]%string);
      Cells ($"reg") [0xFFFFFFFF; 0xFFFFFFFF; 0; 2];
      End_]
  else []).

Definition fixture_reserved (mode : str) : list cmd :=
  [Begin ($"reserved-memory");
   Cells ($"#address-cells") [2];
   Cells ($"#size-cells") [2];
   Prop_ ($"ranges") [];
   Begin ($"firmware@2000");
   Cells ($"reg") [0; 0x2000; 0; 0x1000];
   Prop_ ($"status") (zs ["okay"]%string);
   End_;
   Begin ($"buffer@100001000");
   Cells ($"reg") [1; 0x1000; 0; 0x1000];
   End_;
   Begin ($"disabled@30000000");
   Cells ($"reg") [0; 0x30000000; 0; 0];
   Prop_ ($"status") (zs ["disabled"]%string);
   End_]
  ++ (if is_mode mode "--invalid-tree-reservation" then
     [Begin ($"invalid@4000");
      Cells ($"reg") [0; 0x4000; 0; 0];
      End_]
  else [])
  ++ [End_].

Definition fixture_soc (mode : str) : list cmd :=
  [Begin ($"soc@107c000000");
   Prop_ ($"compatible") (zs ["simple-bus"]%string);
   Cells ($"ranges") [0x00000000; 0x00000010; 0x00000000; 0x80000000];
   Cells ($"#address-cells") [1];
   Cells ($"#size-cells") [1];
   Begin ($"timer@7c003000");
   Cells ($"clock-frequency") [1000000];
   Cells ($"reg") [0x7C003000; 0x00001000];
   Prop_ ($"compatible") (zs ["brcm,bcm2835-system-timer"]%string);
   End_;
   Begin ($"serial@7d001000");
   Prop_ ($"compatible") (zs ["arm,pl011-axi"; "arm,pl011"; "arm,primecell"]%string);
   Cells ($"reg") [0x7D001000; 0x1000];
   Prop_ ($"status") (zs ["okay"]%string);
   End_;
   Begin ($"interrupt-controller@7fff9000")]
  ++ (if is_mode mode "--invalid-gic" then
     [Cells ($"reg") [0x7FFF9000; 0x1000; 0x7FFFA000; 0x2000; 0x7FFFC000; 0x2000]]
  else [Cells ($"reg") [0x7FFF9000; 0x1000; 0x7FFFA000; 0x2000; 0x7FFFC000; 0x2000; 0x7FFFE000; 0x2000]])
  ++ [Prop_ ($"compatible") (zs ["arm,gic-400"]%string);
   End_;
   Begin ($"reset-controller@119500");
   Cells ($"reg") [0x00119500; 0x10];
   Prop_ ($"compatible") (zs ["brcm,bcm7216-pcie-sata-rescal"]%string);
   End_;
   Begin ($"reset-controller@1504318");
   Cells ($"reg") [0x01504318; 0x30];
   Prop_ ($"compatible") (zs ["brcm,brcmstb-reset"]%string);
   End_;
   End_].

Definition fixture_timer (mode : str) : list cmd :=
  [Begin ($"timer")]
  ++ (if is_mode mode "--invalid-interrupt" then
     [Cells ($"interrupts") [1; 14; 0]]
  else (if negb (is_mode mode "--missing-interrupt") then
        [Cells ($"interrupts") [1; 13; 0xF08; 1; 14; 0xF08; 1; 11; 0xF08; 1; 10; 0xF08; 1; 12; 0xF08]]
     else []))
  ++ [Prop_ ($"compatible") (zs ["arm,armv8-timer"]%string);
   End_].

Definition fixture_axi (mode : str) : list cmd :=
  [Begin ($"axi");
   Cells ($"ranges") [0; 0; 0; 0; 0x10; 0; 0x10; 0; 0x10; 0; 1; 0; 0x14; 0; 0x14; 0; 4; 0; 0x18; 0; 0x18; 0; 4; 0; 0x1C; 0; 0x1C; 0; 4; 0];
   Cells ($"#address-cells") [2];
   Cells ($"#size-cells") [2];
   Begin ($"msi-controller@1000131000");
   Cells ($"reg") [0x10; 0x00131000; 0; 0xC0; 0xFF; 0xFFFFE000; 0; 0x1000];
   Prop_ ($"compatible") (zs ["brcm,bcm2712-mip"]%string);
   End_;
   Begin ($"msi-controller@1000130000")]
  ++ (if is_mode mode "--invalid-device" then
     [Cells ($"reg") [0x10; 0x00130000; 0; 0xC0]]
  else [Cells ($"reg") [0x10; 0x00130000; 0; 0xC0; 0xFF; 0xFFFFF000; 0; 0x1000]])
  ++ [Prop_ ($"compatible") (zs ["brcm,bcm2712-mip"]%string);
   End_]
  ++ concat (map (fun address =>
     [Begin ($"pcie@" ++ hex address);
      Prop_ ($"compatible") (zs ["brcm,bcm2712-pcie"]%string);
      Cells ($"reg") [0x10; Z.land address 0xFFFFFFFF; 0];
      Prop_ ($"status") (zs ["disabled"]%string);
      End_])
   [0x1000100000; 0x1000110000]).

Definition fixture_pcie (mode : str) : list cmd :=
  [Begin ($"pcie@1000120000");
   Cells ($"reg") [0x10; 0x00120000; 0; 0x9310]]
  ++ (if is_mode mode "--invalid-pcie-ranges" then
     [Cells ($"ranges") [0x02000000; 0; 0; 0x1F; 0; 0]]
  else [Cells ($"ranges") [0x02000000; 0; 0; 0x1F; 0; 0; 0xFFFFFFFC; 0x43000000; 0x4; 0; 0x1C; 0; 0x3; 0]])
  ++ (if is_mode mode "--invalid-pcie-dma-ranges" then
     [Cells ($"dma-ranges") [0x02000000; 0; 0; 0x1F; 0; 0]]
  else [Cells ($"dma-ranges") [0x02000000; 0; 0; 0x1F; 0; 0; 0x00400000; 0x43000000; 0x10; 0; 0; 0; 0x10; 0; 0x03000000; 0xFF; 0xFFFFF000; 0x10; 0x00130000; 0; 0x1000]])
  ++ [Prop_ ($"compatible") (zs ["brcm,bcm2712-pcie"]%string);
   Cells ($"#size-cells") [2];
   Cells ($"#address-cells") [3];
   Prop_ ($"status") (zs ["okay"]%string)].

Definition fixture_rp1 (mode : str) : list cmd :=
  [Begin ($"rp1");
   Cells ($"ranges") [0xC0; 0x40000000; 0x02000000; 0; 0; 0; 0x00410000];
   Prop_ ($"compatible") (zs ["simple-bus"]%string);
   Cells ($"#size-cells") [2];
   Cells ($"#address-cells") [2];
   Begin ($"serial@30000");
   Cells ($"reg") [0xC0; 0x40030000; 0; 0x100];
   Prop_ ($"status") (zs ["okay"]%string);
   Prop_ ($"compatible") (zs ["arm,pl011-axi"]%string);
   End_;
   Begin ($"clocks@18000");
   Cells ($"reg") [0xC0; 0x40018000; 0; 0x10038];
   Prop_ ($"compatible") (zs ["raspberrypi,rp1-clocks"]%string);
   End_;
   Begin ($"gpio@d0000")]
  ++ (if is_mode mode "--invalid-device" then
     [Cells ($"reg") [0xC0; 0x400D0000; 0; 0xC000; 0xC0; 0x400E0000; 0; 0xC000]]
  else [Cells ($"reg") [0xC0; 0x400D0000; 0; 0xC000; 0xC0; 0x400E0000; 0; 0xC000; 0xC0; 0x400F0000; 0; 0xC000]])
  ++ [Prop_ ($"compatible") (zs ["raspberrypi,rp1-gpio"]%string);
   End_;
   Begin ($"ethernet@100000");
   Cells ($"reg") [0xC0; 0x40100000; 0; 0x4000];
   Prop_ ($"compatible") (zs ["raspberrypi,rp1-gem"; "cdns,macb"]%string);
   End_;
   Begin ($"usb@300000");
   Cells ($"reg") [0xC0; 0x40300000; 0; 0x100000];
   Prop_ ($"compatible") (zs ["snps,dwc3"]%string);
   End_;
   Begin ($"usb@200000")]
  ++ (if is_mode mode "--invalid-device" then
     [Cells ($"reg") [0xC0; 0x40200000; 0]]
  else [Cells ($"reg") [0xC0; 0x40200000; 0; 0x100000]])
  ++ [Prop_ ($"compatible") (zs ["snps,dwc3"]%string);
   End_;
   End_;
   End_;
   End_;
   End_].

Definition fixture_cmds (mode : str) : list cmd :=
  fixture_root ++ fixture_seed mode ++ fixture_psci mode ++ fixture_console mode
  ++ fixture_virtio mode ++ fixture_gic mode ++ fixture_memory mode ++ fixture_reserved mode
  ++ fixture_soc mode ++ fixture_timer mode ++ fixture_axi mode ++ fixture_pcie mode
  ++ fixture_rp1 mode.

Definition fixture_reservations (mode : str) : list (Z * Z) :=
  [(0x1000, 0x1000); (0x1800, 0x1000); (0x80000000, 0x2000)]
  ++ (if is_mode mode "--invalid-reservation" then [(0xFFFFFFFFFFFFFFFF, 2)] else []).

Definition valid_modes : list str :=
  [$"--invalid-memory"; $"--invalid-reservation"; $"--invalid-tree-reservation";
   $"--invalid-device"; $"--invalid-interrupt"; $"--missing-interrupt"]
  ++ [$"--invalid-gic"] ++ [$"--invalid-pcie-ranges"; $"--invalid-pcie-dma-ranges"]
  ++ [$"--invalid-virtio"] ++ [$"--psci-smc"]
  ++ [$"--seed-rng"; $"--seed-kaslr"; $"--seed-zero-rng"; $"--seed-short"; $"--seed-nested"].

(** [main]: the exit status and the files. *)
Definition main (argv : list str) (files : gmap str bytes) : res (Z * gmap str bytes) :=
  let write (out mode : str) :=
    b ← build (fixture_cmds mode);
    blob ← finish b (fixture_reservations mode);
    Ok (0, <[out := blob]> files) in
  match argv with
  | [_; out] => write out []
  | [_; out; mode] => if bool_decide (mode ∈ valid_modes) then write out mode else Ok (2, files)
  | _ => Ok (2, files)
  end.

(** ** The report *)

Definition SUBTREES : list str := [$"pcie@1000120000"; $"rp1"].
Definition IOMMU_PROPERTIES : list str :=
  [$"iommus"; $"iommu-map"; $"iommu-map-mask"; $"dma-ranges"].

Definition text_list (value : bytes) : list str :=
  map decode_replace (filter (.≠ []) (split_on 0 value)).

(** [None] is Python's [None], the handle of a node without a phandle. *)
Definition iommu_line (path : str) (compatible : list str) (handle : option Z) : str :=
  $"iommu-node: " ++ path ++ $" compatible=" ++ join ($",") compatible ++ $" phandle="
  ++ match handle with Some h => dec h | None => $"-" end.

Definition report_iommu (st : gmap (option Z) str * list str) (n : node)
    : res (gmap (option Z) str * list str) :=
  let '(iommus, out) := st in
  let '(path, props) := n in
  let compatible := text_list (default [] (dget ($"compatible") props)) in
  if existsb (fun c => contains ($"iommu") c || contains ($"smmu") c) compatible then
    handle ← match dget ($"phandle") props with
             | Some value => ws ← read_cells value; h ← item ws 0; Ok (Some h)
             | None => Ok None
             end;
    Ok (<[handle := path]> iommus, out ++ [iommu_line path compatible handle])
  else Ok (iommus, out).

Definition report_property (iommus : gmap (option Z) str) (n : node)
    (st : Z * list str) (name : str) : res (Z * list str) :=
  let '(carriers, out) := st in
  match dget name n.2 with
  | None => Ok (carriers, out)
  | Some value =>
      ws ← read_cells value;
      let note :=
        match ws with
        | w :: _ =>
            if bool_decide (name = $"iommus") then
              $" -> " ++ default ($"phandle " ++ dec w ++ $" (not an IOMMU node)")
                           (iommus !! Some w)
            else []
        | [] => []
        end in
      let out := out ++ [$"property: " ++ n.1 ++ $" " ++ name ++ $"=<"
                         ++ join ($" ") (map hex_alt ws) ++ $">" ++ note] in
      Ok (if bool_decide (name ≠ $"dma-ranges") then carriers + 1 else carriers, out)
  end.

Definition report_subtree (nodes : list node) (root : str) : list str :=
  match filter (fun n : node => existsb (fun part => startswith part root) (split_on 47 n.1) = true)
          nodes with
  | [] => [$"subtree: " ++ root ++ $" absent"]
  | matched =>
      map (fun n : node =>
          let held := filter (fun name => is_Some (dget name n.2)) IOMMU_PROPERTIES in
          $"subtree: " ++ n.1 ++ $" iommu-properties="
          ++ match held with [] => $"none" | _ => join ($",") held end) matched
  end.

Definition verdict (carriers iommus : Z) : str :=
  $"verdict: " ++ dec carriers ++ $" node(s) carry iommus/iommu-map; " ++ dec iommus
  ++ $" IOMMU node(s)".

(** [report]: the lines printed, or the exception raised. *)
Definition report (blob : bytes) : res (list str) :=
  nodes ← parse_fdt blob;
  '(iommus, out) ← foldM report_iommu (∅, []) nodes;
  let out := if decide (iommus = ∅) then out ++ [$"iommu-node: none"] else out in
  '(carriers, out) ← foldM (fun st n => foldM (report_property iommus n) st IOMMU_PROPERTIES)
                       (0, out) nodes;
  let out := out ++ concat (map (report_subtree nodes) SUBTREES) in
  Ok (out ++ [verdict carriers (Z.of_nat (size iommus))]).

(** ** Theorems about the fixture *)

Definition fixture_ok (mode : str) : bool :=
  forallb cmd_ok (fixture_cmds mode) && forallb u64_pair (fixture_reservations mode)
  && (blob_bound (fixture_cmds mode) (fixture_reservations mode) <? 2 ^ 32)
  && match meaning (fixture_cmds mode) with Ok _ => true | Err _ => false end.

Lemma fixture_modes_ok : forallb fixture_ok ([] :: valid_modes) = true.
Proof. vm_compute. done. Qed.

(** The blob of a mode, and its nodes as the reader sees them. *)
Definition fixture_blob (mode : str) : res bytes :=
  b ← build (fixture_cmds mode); finish b (fixture_reservations mode).
Definition fixture_nodes (mode : str) : res (list node) := fixture_blob mode ≫= parse_fdt.

Lemma fixture_ok_blob mode :
  mode ∈ [] :: valid_modes →
  ∃ b blob nodes, build (fixture_cmds mode) = Ok b ∧ finish b (fixture_reservations mode) = Ok blob ∧
    parse_fdt blob = Ok nodes ∧ meaning (fixture_cmds mode) = Ok nodes.
Proof.
  intros Hm%list_elem_of_In. pose proof fixture_modes_ok as Hok. rewrite forallb_forall in Hok.
  specialize (Hok mode Hm). unfold fixture_ok in Hok. zbool.
  destruct (build_parse (fixture_cmds mode) (fixture_reservations mode))
    as (b & blob & Hbuild & Hfin & Hparse); [done..|].
  destruct (meaning (fixture_cmds mode)) as [nodes|] eqn:Hmean; [|done].
  by exists b, blob, nodes.
Qed.

Lemma fixture_nodes_meaning mode :
  mode ∈ [] :: valid_modes → fixture_nodes mode = meaning (fixture_cmds mode).
Proof.
  intros (b & blob & nodes & Hb & Hf & Hp & Hm)%fixture_ok_blob.
  unfold fixture_nodes, fixture_blob. rewrite Hb. cbn [mbind res_bind]. rewrite Hf, Hm. exact Hp.
Qed.

Definition prop_at (nodes : res (list node)) (path name : str) : option bytes :=
  match nodes with
  | Ok nodes => n ← List.find (fun n : node => bool_decide (n.1 = path)) nodes; dget name n.2
  | Err _ => None
  end.
Definition has_node (nodes : res (list node)) (path : str) : bool :=
  match nodes with
  | Ok nodes => existsb (fun n : node => bool_decide (n.1 = path)) nodes
  | Err _ => false
  end.

(** Every mode of the fixture is a device tree.  With any of its modes
    the command exits with 0 and writes one file, which the reader accepts and
    reads as the calls the script made; with a mode it does not know it exits
    with 2 and writes nothing. *)
Theorem fixture_main prog out mode files :
  (mode ∈ valid_modes → ∃ blob nodes,
    main [prog; out; mode] files = Ok (0, <[out := blob]> files) ∧
    parse_fdt blob = Ok nodes ∧ meaning (fixture_cmds mode) = Ok nodes) ∧
  (mode ∉ valid_modes → main [prog; out; mode] files = Ok (2, files)).
Proof.
  unfold main. split; intros Hm.
  2: { by rewrite bool_decide_eq_false_2. }
  rewrite bool_decide_eq_true_2 by done.
  destruct (fixture_ok_blob mode) as (b & blob & nodes & -> & Hf & Hp & Hmean); [by right|].
  exists blob, nodes. cbn [mbind res_bind]. by rewrite Hf.
Qed.

Lemma fixture_main_witness :
  (∃ blob nodes, main [$"make_fdt_fixture.py"; $"out.dtb"; $"--seed-rng"] ∅
      = Ok (0, <[$"out.dtb" := blob]> ∅) ∧
    parse_fdt blob = Ok nodes ∧ meaning (fixture_cmds ($"--seed-rng")) = Ok nodes) ∧
  main [$"make_fdt_fixture.py"; $"out.dtb"; $"--seed"] ∅ = Ok (2, ∅).
Proof.
  split.
  - apply (fixture_main ($"make_fdt_fixture.py") ($"out.dtb") ($"--seed-rng") ∅).
    by_compute.
  - apply (fixture_main ($"make_fdt_fixture.py") ($"out.dtb") ($"--seed") ∅).
    by_compute.
Defined.

(** The values the script's header comment pins are what the default blob
    says, read back through the reader: the root's and the SoC's cell counts,
    the [ranges] that place the SoC bus, the system timer's bus address and
    frequency, the generic timer without a frequency, and RP1's UART. *)
Theorem fixture_pinned_values :
  let nodes := fixture_nodes [] in
  let be := fun values => Some (concat (map (be_bytes 4) values)) in
  prop_at nodes ($"/") ($"#address-cells") = be [2] ∧
  prop_at nodes ($"/") ($"#size-cells") = be [2] ∧
  prop_at nodes ($"/soc@107c000000") ($"#address-cells") = be [1] ∧
  prop_at nodes ($"/soc@107c000000") ($"#size-cells") = be [1] ∧
  prop_at nodes ($"/soc@107c000000") ($"ranges") = be [0; 0x10; 0; 0x80000000] ∧
  prop_at nodes ($"/soc@107c000000/timer@7c003000") ($"compatible")
    = Some (zs ["brcm,bcm2835-system-timer"]%string) ∧
  prop_at nodes ($"/soc@107c000000/timer@7c003000") ($"reg") = be [0x7c003000; 0x1000] ∧
  prop_at nodes ($"/soc@107c000000/timer@7c003000") ($"clock-frequency") = be [1000000] ∧
  prop_at nodes ($"/timer") ($"compatible") = Some (zs ["arm,armv8-timer"]%string) ∧
  prop_at nodes ($"/timer") ($"clock-frequency") = None ∧
  prop_at nodes ($"/axi/pcie@1000120000/rp1/serial@30000") ($"compatible")
    = Some (zs ["arm,pl011-axi"]%string) ∧
  prop_at nodes ($"/axi/pcie@1000120000/rp1/serial@30000") ($"reg")
    = be [0xc0; 0x40030000; 0; 0x100].
Proof.
  cbv zeta. rewrite fixture_nodes_meaning by by_compute.
  repeat (apply conj; [by_compute|]). by_compute.
Qed.

(** The nodes of a mode but /chosen and /soc. *)
Definition without_seed (mode : str) : res (list node) :=
  List.filter (fun n : node => negb (bool_decide (n.1 ∈ [$"/chosen"; $"/soc"; $"/soc/chosen"])))
    <$> fixture_nodes mode.

(** The boot-seed shapes.  The default blob has no /chosen; the seed modes
    differ from it in that node alone: both seeds, the KASLR seed only, an
    all-zero RNG seed, a short one, and a node named chosen below /soc that is
    not the root's. *)
Theorem fixture_seed_shapes :
  let seed := fun mode name => prop_at (fixture_nodes (str_of mode)) ($"/chosen") (str_of name) in
  has_node (fixture_nodes []) ($"/chosen") = false ∧
  seed "--seed-rng"%string "rng-seed"%string = Some rng_seed ∧
  seed "--seed-rng"%string "kaslr-seed"%string = Some kaslr_seed ∧
  seed "--seed-kaslr"%string "rng-seed"%string = None ∧
  seed "--seed-kaslr"%string "kaslr-seed"%string = Some kaslr_seed ∧
  seed "--seed-zero-rng"%string "rng-seed"%string = Some (zeros 32) ∧
  seed "--seed-zero-rng"%string "kaslr-seed"%string = Some kaslr_seed ∧
  (zlen <$> seed "--seed-short"%string "rng-seed"%string) = Some 7 ∧
  has_node (fixture_nodes ($"--seed-nested")) ($"/chosen") = false ∧
  prop_at (fixture_nodes ($"--seed-nested")) ($"/soc/chosen") ($"rng-seed") = Some rng_seed ∧
  map without_seed [$"--seed-rng"; $"--seed-kaslr"; $"--seed-zero-rng"; $"--seed-short"; $"--seed-nested"]
    = replicate 5 (fixture_nodes []).
Proof.
  cbv zeta. unfold without_seed. cbn [map]. rewrite !fixture_nodes_meaning by by_compute.
  repeat (apply conj; [by_compute|]). by_compute.
Qed.

(** ** Theorems about the report *)

Lemma read_cells_total value : ∃ ws, read_cells value = Ok ws.
Proof.
  apply mapM_res_total, Forall_forall. intros i Hi%elem_of_py_range; [|done].
  unfold unpack_be. rewrite zlen_slice by lia.
  rewrite (proj2 (Z.leb_le _ _)) by lia. by eexists.
Qed.

Lemma length_mapM_res {A B} (f : A → res B) l bs : mapM_res f l = Ok bs → length bs = length l.
Proof.
  revert bs. induction l as [|a l IH]; intros bs H; cbn in H; res_inv; [done|].
  cbn. f_equal. by apply IH.
Qed.

Lemma read_cells_first value : 4 ≤ zlen value → ∃ w ws, read_cells value = Ok (w :: ws).
Proof.
  intros Hv. destruct (read_cells_total value) as [ws Hws].
  apply length_mapM_res in Hws as Hl. unfold py_range in Hl. rewrite length_map, length_seq in Hl.
  destruct ws as [|w ws]; [|by exists w, ws].
  cbn in Hl. exfalso. Z.to_euclidean_division_equations; lia.
Qed.

(** An IOMMU node by its compatible list, and the handle it is filed under. *)
Definition is_iommu (n : node) : bool :=
  existsb (fun c => contains ($"iommu") c || contains ($"smmu") c)
    (text_list (default [] (dget ($"compatible") n.2))).

Definition handle_of (n : node) : option Z :=
  match dget ($"phandle") n.2 with
  | Some value => match read_cells value with Ok (h :: _) => Some h | _ => None end
  | None => None
  end.

Definition carriers_of (n : node) : Z :=
  zlen (filter (fun name => is_Some (dget name n.2)) [$"iommus"; $"iommu-map"; $"iommu-map-mask"]).

Definition phandle_ok (n : node) : bool :=
  match dget ($"phandle") n.2 with Some value => 4 <=? zlen value | None => true end.

Lemma report_iommu_spec nodes iommus out :
  forallb phandle_ok nodes = true →
  ∃ iommus' out', foldM report_iommu (iommus, out) nodes = Ok (iommus', out') ∧
    dom iommus' = dom iommus ∪ list_to_set (map handle_of (List.filter is_iommu nodes)).
Proof.
  revert iommus out. induction nodes as [|[path props] nodes IH]; intros iommus out Hn.
  { exists iommus, out. split; [done|]. cbn. by rewrite (right_id_L ∅ (∪)). }
  cbn [forallb] in Hn. apply andb_true_iff in Hn as [Hp Hn]. cbn [foldM report_iommu List.filter].
  destruct (is_iommu (path, props)) eqn:E; unfold is_iommu in E; cbn [fst snd] in E; rewrite E;
    [|apply IH, Hn].
  assert (∃ h, match dget ($"phandle") props with
      | Some value => ws ← read_cells value; h ← item ws 0; Ok (Some h)
      | None => Ok None end = Ok h ∧ handle_of (path, props) = h) as (h & -> & Hh).
  { unfold handle_of, phandle_ok in *. cbn [snd] in *. destruct (dget ($"phandle") props); [|eauto].
    apply Z.leb_le in Hp.
    destruct (read_cells_first _ Hp) as (w & ws & ->). by exists (Some w). }
  cbn [mbind res_bind map]. rewrite Hh.
  destruct (IH (<[h := path]> iommus)
    (out ++ [iommu_line path (text_list (default [] (dget ($"compatible") props))) h]) Hn)
    as (iommus' & out' & Hf & Hd).
  exists iommus', out'. split; [exact Hf|]. rewrite Hd, dom_insert_L. cbn.
  by rewrite (assoc_L (∪)), (comm_L (∪) (dom iommus)).
Qed.

Lemma report_property_spec iommus n carriers out :
  ∃ out', foldM (report_property iommus n) (carriers, out) IOMMU_PROPERTIES
    = Ok (carriers + carriers_of n, out').
Proof.
  assert (∀ name carriers out, ∃ out', report_property iommus n (carriers, out) name =
    Ok (carriers + (if decide (is_Some (dget name n.2)) then
          if bool_decide (name ≠ $"dma-ranges") then 1 else 0 else 0), out')) as Hstep.
  { intros name c o. unfold report_property. destruct (dget name n.2) as [v|] eqn:E.
    - rewrite decide_True by done. destruct (read_cells_total v) as [ws ->]. cbn [mbind res_bind].
      destruct (bool_decide _); eexists; do 2 f_equal; lia.
    - rewrite decide_False by (by intros []). eexists. do 2 f_equal. lia. }
  unfold IOMMU_PROPERTIES. cbn [foldM].
  destruct (Hstep ($"iommus") carriers out) as [o1 ->]. cbn [mbind res_bind].
  edestruct (Hstep ($"iommu-map")) as [o2 ->]. cbn [mbind res_bind].
  edestruct (Hstep ($"iommu-map-mask")) as [o3 ->]. cbn [mbind res_bind].
  edestruct (Hstep ($"dma-ranges")) as [o4 ->]. cbn [mbind res_bind].
  exists o4. do 2 f_equal. unfold carriers_of.
  rewrite (bool_decide_eq_false_2 ($"dma-ranges" ≠ $"dma-ranges")) by (intros H; by apply H).
  rewrite !bool_decide_eq_true_2 by done. rewrite !filter_cons, filter_nil.
  repeat case_decide; try contradiction; unfold zlen; cbn [length]; lia.
Qed.

(** The report of a readable tree.  When every phandle holds a cell the
    report completes, and its last line is the verdict: it counts the
    iommus, iommu-map and iommu-map-mask properties of all nodes, and the
    distinct handles of the IOMMU nodes. *)
Theorem report_verdict blob nodes :
  parse_fdt blob = Ok nodes → forallb phandle_ok nodes = true →
  ∃ lines, report blob = Ok (lines ++
    [verdict (foldr Z.add 0 (map carriers_of nodes))
       (Z.of_nat (size (list_to_set (C := gset (option Z))
          (map handle_of (List.filter is_iommu nodes)))))]).
Proof.
  intros Hp Hn. unfold report. rewrite Hp. cbn [mbind res_bind].
  destruct (report_iommu_spec nodes ∅ [] Hn) as (iommus & out & -> & Hd). cbn [mbind res_bind].
  set (out1 := if decide (iommus = ∅) then _ else _).
  assert (∀ carriers out, ∃ out', foldM (fun st n => foldM (report_property iommus n) st IOMMU_PROPERTIES)
    (carriers, out) nodes = Ok (carriers + foldr Z.add 0 (map carriers_of nodes), out')) as H.
  { clear. induction nodes as [|n nodes IH]; intros c o.
    - exists o. cbn. do 2 f_equal. lia.
    - cbn [foldM]. destruct (report_property_spec iommus n c o) as [o1 ->]. cbn [mbind res_bind].
      destruct (IH (c + carriers_of n) o1) as [o2 ->]. exists o2. cbn. do 2 f_equal. lia. }
  destruct (H 0 out1) as [out2 ->]. cbn [mbind res_bind]. eexists.
  rewrite dom_empty_L, union_empty_l_L in Hd. by rewrite <- Hd, size_dom.
Qed.

Lemma report_verdict_witness :
  ∃ lines, (b ← build (tree_cmds sample_tree); finish b [] ≫= report) =
    Ok (lines ++ [verdict 0 0]).
Proof.
  destruct (build_parse (tree_cmds sample_tree) []) as (b & blob & Hb & Hf & Hp);
    [done|done|vm_compute; done|].
  unfold meaning in Hp. rewrite interp_tree in Hp by done.
  destruct (report_verdict blob (tree_nodes None sample_tree) Hp) as [lines Hr].
  { by_compute. }
  exists lines. rewrite Hb. cbn [mbind res_bind]. rewrite Hf. cbn [mbind res_bind]. rewrite Hr.
  do 3 f_equal; vm_compute; reflexivity.
Defined.

(** A tree with one node that carries the three IOMMU properties, below two
    IOMMU nodes without a phandle. *)
Definition carrier_tree : dtree :=
  DNode [] []
    [DNode ($"iommu@1") [($"compatible", zs ["brcm,bcm2712-iommu"]%string)] [];
     DNode ($"iommu@2") [($"compatible", zs ["brcm,bcm2712-iommu"]%string)] [];
     DNode ($"gem@3") [($"iommus", [0; 0; 0; 5]); ($"iommu-map", [0; 0; 0; 5]);
                       ($"iommu-map-mask", [0; 0; 0; 5])] []].

(** The verdict does not count nodes.  For a tree with one node that
    carries IOMMU properties and two IOMMU nodes, the report's last line says
    3 nodes carry them and that there is 1 IOMMU node. *)
Theorem report_verdict_miscounts :
  List.filter (fun n => negb (carriers_of n =? 0)) (tree_nodes None carrier_tree)
    = [($"/gem@3", prop_map [($"iommus", [0; 0; 0; 5]); ($"iommu-map", [0; 0; 0; 5]);
                             ($"iommu-map-mask", [0; 0; 0; 5])])] ∧
  zlen (List.filter is_iommu (tree_nodes None carrier_tree)) = 2 ∧
  (b ← build (tree_cmds carrier_tree); blob ← finish b []; lines ← report blob;
   Ok (last lines)) = Ok (Some (verdict 3 1)).
Proof. repeat (apply conj; [by_compute|]). by_compute. Qed.
