(* ===== verification/Tlc.v ===== *)
(** * What the trace validators share

    scripts/validate_log_ring_trace.py imports scripts/validate_protocol_trace.py
    and both put a kernel trace before the TLC model checker.  This file has the
    part they share: the exception they raise, the configuration file TLC gets,
    the reading of TLC's output ([behaviour], the verdict, the count of the
    actions) and the policy on required actions.  TLC itself is no part of the
    sources: it is the parameter [tlc], a function from the generated module
    and configuration to the text it prints. *)
From S2P Require Import Prelude Text Dict.

Definition TraceError (msg : str) : exn := Custom "TraceError" msg.

(** The positions of the lines of a report that start with [begin ]. *)
Definition begins_of (body : list str) : list nat :=
  map fst (List.filter (fun p => startswith (snd p) ($"begin ")) (zip (seq 0 (length body)) body)).

(** A state of TLC's error trace: the variables it printed, in order. *)
Abbreviation tlc_state := (list (str * str)).

(** [STATE_RE.match(line)]: [State (\d+): ] at the start of the line. *)
Definition state_heading (line : str) : bool :=
  match match_numbers [$"State "] line with
  | Some (_, rest) => startswith rest ($": ")
  | None => false
  end.

(** [VAR_RE.match(line)]: a conjunct [/\ name = text]. *)
Definition var_line (line : str) : option (str * str) :=
  rest ← strip_prefix ($"/\ ") line;
  let '(name, rest) := span is_word rest in
  if decide (name = []) then None else
  text ← strip_prefix ($" = ") rest;
  Some (name, text).

Definition behaviour_line (states : list tlc_state) (line : str) : list tlc_state :=
  if state_heading line || contains ($"is violated by the initial state") line
  then states ++ [[]]
  else match states with
       | [] => []
       | _ => match var_line line with
              | Some (name, text) => alter (dset name text) (length states - 1)%nat states
              | None => states
              end
       end.

Definition behaviour (output : str) : list tlc_state :=
  foldl behaviour_line [] (splitlines output).

(** [re.search(r"Invariant (\w+) is violated", output)]. *)
Definition violated_invariant (output : str) : option str :=
  search_group ($"Invariant ") ($" is violated") is_word output.

Definition completed (output : str) : bool :=
  contains ($"Model checking completed. No error has been found.") output.

(** The depth TLC reports, if it does. *)
Definition search_depth (output : str) : option Z :=
  int_of_digits <$> search_group ($"depth of the complete state graph search is ") [] is_digit output.

Definition unquote (s : str) : str := strip_by (Z.eqb 34) s.

(** [counts[name] += 1] for every step whose action is a known one. *)
Definition count_step (counts : list (str * Z)) (step : tlc_state) : list (str * Z) :=
  let name := unquote (default [] (dget ($"act") step)) in
  match dget name counts with
  | Some n => dset name (n + 1) counts
  | None => counts
  end.

Definition zero_counts (actions : list str) : list (str * Z) := map (fun name => (name, 0)) actions.
Definition count_actions (actions : list str) (output : str) : list (str * Z) :=
  foldl count_step (zero_counts actions) (behaviour output).

(** [f"    {k} = {v}"] for every variable of a state. *)
Definition state_lines (s : tlc_state) : str :=
  join nl (map (fun kv => $"    " ++ kv.1 ++ $" = " ++ kv.2) s).

Definition bool_name (b : bool) : str := if b then $"TRUE" else $"FALSE".

(** [trace_config]: the constants with the [--model] ones updated, the action
    left out, the depth to stop at, and the invariants. *)
Definition trace_config (fixed : list (str * bool)) (invariants : list str)
    (without : option str) (model : list (str * bool)) (stop_at : Z) : str :=
  let constants := foldl (fun d kv => dset kv.1 kv.2 d) fixed model in
  let lines :=
    [$"SPECIFICATION Spec"; $"CONSTANTS"]
    ++ map (fun kv => $"  " ++ kv.1 ++ $" = " ++ bool_name kv.2) constants
    ++ [$"  WITHOUT = " ++ quo ++ default ($"none") without ++ quo]
    ++ [$"  STOP_AT = " ++ dec stop_at]
    ++ map (fun inv => $"INVARIANT " ++ inv) invariants in
  join nl lines ++ nl.

(** The steps of [REQUIRED] that no counted action took. *)
Definition count_of (name : str) (counts : list (str * Z)) : Z := default 0 (dget name counts).
Definition unseen (required : list (list str)) (without : option str) (counts : list (str * Z))
    : list str :=
  map (join ($" or "))
    (List.filter (fun step =>
        negb (match without with Some a => bool_decide (a ∈ step) | None => false end)
        && negb (existsb (fun name => negb (count_of name counts =? 0)) step)) required).

(** The [--model NAME=BOOL] options; [None] is the usage error. *)
Definition partition_eq (item : str) : str * str :=
  match span (fun c => negb (c =? 61)) item with
  | (name, _ :: flag) => (name, flag)
  | (name, []) => (name, [])
  end.
Definition parse_model (constants : list str) (items : list str) : option (list (str * bool)) :=
  foldl (fun model item =>
      model ← model;
      let '(name, flag) := partition_eq item in
      if bool_decide (name ∈ constants) && bool_decide (flag ∈ [$"TRUE"; $"FALSE"])
      then Some (dset name (bool_decide (flag = $"TRUE")) model) else None)
    (Some []) items.

(** ** Reading back an error trace *)

Definition initial_phrase : str := $"is violated by the initial state".

(** A line that neither opens a state nor adds a variable to one. *)
Definition plain (l : str) : Prop :=
  no_break l ∧ state_heading l = false ∧ contains initial_phrase l = false ∧ var_line l = None.

(** How TLC prints a variable, and a state with its number and its action. *)
Definition var_text (kv : str * str) : str := $"/\ " ++ kv.1 ++ $" = " ++ kv.2.
Definition var_ok (kv : str * str) : Prop :=
  kv.1 ≠ [] ∧ Forall (fun c => is_word c = true) kv.1 ∧ no_break (var_text kv) ∧
  contains initial_phrase (var_text kv) = false.
Definition heading (n : Z) (note : str) : str := $"State " ++ dec n ++ $": " ++ note.

Fixpoint trace_lines (n : Z) (trace : list (str * tlc_state)) : list str :=
  match trace with
  | [] => []
  | (note, s) :: trace => heading n note :: map var_text s ++ [[]] ++ trace_lines (n + 1) trace
  end.

Definition state_ok (s : str * tlc_state) : Prop :=
  no_break s.1 ∧ Forall var_ok s.2 ∧ NoDup (map fst s.2).

Lemma var_line_text kv : var_ok kv → var_line (var_text kv) = Some kv.
Proof.
  destruct kv as [name text]. intros (Hne & Hw & _ & _). unfold var_line, var_text. cbn [fst snd] in *.
  rewrite strip_prefix_app. cbn [mbind option_bind].
  rewrite (span_app is_word name); [|done|by intros c [= <-]].
  rewrite decide_False by done. by rewrite strip_prefix_app.
Qed.

Lemma heading_is_heading n note : 0 ≤ n → state_heading (heading n note) = true.
Proof.
  intros Hn. unfold state_heading, heading.
  pose proof (match_numbers_dec [$"State "] [n] ($": " ++ note)) as Hm.
  cbn [zip_with concat] in Hm. rewrite app_nil_r, <- app_assoc in Hm.
  rewrite Hm; [done|by constructor|done| |by intros c [= <-]].
  constructor; [|constructor]. split; [done|]. by intros c [= <-].
Qed.

Lemma behaviour_vars states d s :
  Forall var_ok s →
  foldl behaviour_line (states ++ [d]) (map var_text s)
    = states ++ [foldl (fun d kv => dset kv.1 kv.2 d) d s].
Proof.
  intros Hs. revert d. induction Hs as [|kv s Hkv _ IH]; intros d; [done|].
  cbn [map foldl]. rewrite <- IH. f_equal. unfold behaviour_line.
  assert (state_heading (var_text kv) = false) as -> by done.
  pose proof Hkv as (_ & _ & _ & Hc). unfold initial_phrase in Hc. rewrite Hc. cbn [orb].
  destruct (states ++ [d]) as [|x l] eqn:E; [by destruct states|]. rewrite <- E.
  rewrite var_line_text by done. destruct kv as [name text].
  rewrite length_app, Nat.add_sub, alter_app_r_alt, Nat.sub_diag by done. done.
Qed.

Lemma foldl_dset_new {V} (d s : list (str * V)) :
  NoDup (map fst (d ++ s)) → foldl (fun d kv => dset kv.1 kv.2 d) d s = d ++ s.
Proof.
  revert d. induction s as [|[k v] s IH]; intros d Hnd; [by rewrite app_nil_r|].
  cbn [foldl fst snd]. rewrite dset_new.
  - rewrite IH; rewrite <- app_assoc; done.
  - rewrite map_app in Hnd. apply NoDup_app in Hnd as (_ & Hnd & _). intros Hin.
    apply (Hnd k Hin). by left.
Qed.

Lemma behaviour_trace n trace states :
  0 ≤ n → Forall state_ok trace →
  foldl behaviour_line states (trace_lines n trace) = states ++ map snd trace.
Proof.
  intros Hn Ht. revert n states Hn. induction Ht as [|[note s] trace (Hnote & Hvars & Hnd) _ IH];
    intros n states Hn; [by rewrite app_nil_r|].
  cbn [trace_lines foldl fst snd] in *. rewrite foldl_app.
  unfold behaviour_line at 3. rewrite heading_is_heading by done. cbn [orb].
  rewrite behaviour_vars by done. rewrite foldl_dset_new by done.
  rewrite foldl_app, IH by lia. cbn [foldl map app fst snd].
  unfold behaviour_line. change (state_heading []) with false. change (contains _ []) with false.
  cbn [orb]. change (var_line []) with (@None (str * str)).
  assert (∀ l : list tlc_state, match l with [] => [] | _ => l end = l) as -> by by intros [].
  by rewrite <- app_assoc.
Qed.

Lemma behaviour_plain states lines :
  Forall plain lines → foldl behaviour_line states lines = states.
Proof.
  induction 1 as [|l lines (_ & Hh & Hc & Hv) _ IH]; [done|]. cbn [foldl].
  unfold behaviour_line at 2. unfold initial_phrase in Hc. rewrite Hh, Hc, Hv. cbn [orb].
  by destruct states.
Qed.

(** An error trace is read back as TLC printed it.  For output made of
    plain lines, a numbered error trace and plain lines again, [behaviour] is
    the list of the trace's states, each with its variables in the order and
    with the text TLC gave them. *)
Theorem behaviour_reads_trace before after trace :
  Forall plain before → Forall plain after → Forall state_ok trace →
  behaviour (concat (map (fun l => l ++ nl) (before ++ trace_lines 1 trace ++ after)))
    = map snd trace.
Proof.
  intros Hb Ha Ht. unfold behaviour. rewrite splitlines_lines.
  - rewrite !foldl_app, behaviour_plain, behaviour_trace, behaviour_plain by (done || lia). done.
  - apply Forall_app_2; [|apply Forall_app_2].
    + eapply Forall_impl; [exact Hb|]. by intros l (? & _).
    + assert (∀ n, 0 ≤ n → Forall no_break (trace_lines n trace)) as H; [|by apply H].
      clear Hb Ha. induction Ht as [|[note s] trace (Hnote & Hvars & _) _ IH]; intros n Hn; [done|].
      cbn [trace_lines]. constructor; [|apply Forall_app_2; [|constructor; [constructor|apply IH; lia]]].
      * unfold heading. repeat apply Forall_app_2; try by repeat constructor.
        { eapply Forall_impl; [apply dec_digits; done|]. intros c Hc.
          unfold is_digit, is_linebreak, in_range in *. zbool.
          repeat (apply orb_false_iff; split); apply andb_false_iff || apply Z.eqb_neq; lia. }
      * apply Forall_fmap. eapply Forall_impl; [exact Hvars|]. by intros kv (_ & _ & ? & _).
    + eapply Forall_impl; [exact Ha|]. by intros l (? & _).
Qed.

Lemma behaviour_reads_trace_witness :
  behaviour (concat (map (fun l => l ++ nl)
    ([$"TLC2 Version 2.18"] ++ trace_lines 1 [($"<Initial predicate>", [($"l", $"1"); ($"act", quo ++ $"init" ++ quo)]);
                            ($"<Next>", [($"l", $"2"); ($"act", quo ++ $"Reserve" ++ quo)])]
     ++ [$"2 states generated"])))
  = [[($"l", $"1"); ($"act", quo ++ $"init" ++ quo)]; [($"l", $"2"); ($"act", quo ++ $"Reserve" ++ quo)]].
Proof.
  apply (behaviour_reads_trace [$"TLC2 Version 2.18"] [$"2 states generated"]
    [($"<Initial predicate>", [($"l", $"1"); ($"act", quo ++ $"init" ++ quo)]);
     ($"<Next>", [($"l", $"2"); ($"act", quo ++ $"Reserve" ++ quo)])]).
  - constructor; [|constructor]. split_and!; [by repeat constructor|done..].
  - constructor; [|constructor]. split_and!; [by repeat constructor|done..].
  - repeat apply Forall_cons_2; [| |constructor]; (split_and!; [by repeat constructor| |]); cbn [fst snd map].
    + repeat apply Forall_cons_2; [| |constructor]; (split_and!; [done|by repeat constructor..|done]).
    + by_compute.
    + repeat apply Forall_cons_2; [| |constructor]; (split_and!; [done|by repeat constructor..|done]).
    + by_compute.
Defined.

(** ** The count of the actions *)

Definition act_of (s : tlc_state) : str := unquote (default [] (dget ($"act") s)).

Lemma count_step_get counts s a :
  a ∈ map fst counts →
  dget a (count_step counts s) =
    (fun n => if decide (act_of s = a) then n + 1 else n) <$> dget a counts.
Proof.
  intros Ha. unfold count_step. fold (act_of s). destruct (dget (act_of s) counts) as [n|] eqn:E.
  - case_decide as Heq; [subst a; by rewrite dget_dset, E|].
    rewrite dget_dset_ne by done. by destruct (dget a counts).
  - apply dget_None in E. case_decide as Heq; [by subst a|]. by destruct (dget a counts).
Qed.

Lemma count_step_keys counts s : map fst (count_step counts s) = map fst counts.
Proof.
  unfold count_step. destruct (dget _ counts) as [n|] eqn:E; [|done].
  apply dset_keys_old, list_elem_of_fmap. exists (unquote (default [] (dget ($"act") s)), n). split; [done|].
  by apply dget_elem_of.
Qed.

Lemma count_actions_facts actions output :
  map fst (count_actions actions output) = actions ∧
  ∀ a, a ∈ actions →
    dget a (count_actions actions output)
      = Some (zlen (filter (fun s => act_of s = a) (behaviour output))).
Proof.
  unfold count_actions. generalize (behaviour output). intros states.
  assert (map fst (zero_counts actions) = actions) as Hkeys.
  { unfold zero_counts. rewrite map_map. apply map_id. }
  assert (∀ counts, map fst counts = actions →
    map fst (foldl count_step counts states) = actions ∧
    ∀ a, a ∈ actions → dget a (foldl count_step counts states)
      = (Z.add (zlen (filter (fun s => act_of s = a) states))) <$> dget a counts) as H.
  { induction states as [|s states IH]; intros counts Hc; cbn [foldl].
    - split; [done|]. intros a Ha. by destruct (dget a counts).
    - destruct (IH (count_step counts s)) as [IH1 IH2]; [by rewrite count_step_keys|].
      split; [done|]. intros a Ha. rewrite IH2, count_step_get by by rewrite ?Hc.
      rewrite filter_cons. destruct (dget a counts) as [n|]; [|done]. cbn [fmap option_fmap option_map].
      f_equal. repeat case_decide; rewrite ?zlen_cons; lia. }
  destruct (H (zero_counts actions) Hkeys) as [H1 H2]. split; [done|]. intros a Ha.
  rewrite H2 by done. assert (dget a (zero_counts actions) = Some 0) as ->.
  { destruct (dget_Some_in a (zero_counts actions)) as [v Hv]; [by rewrite Hkeys|].
    rewrite Hv. f_equal. apply dget_elem_of in Hv. unfold zero_counts in Hv.
    apply list_elem_of_fmap in Hv as (x & [= _ ->] & _). done. }
  cbn. f_equal. lia.
Qed.

Lemma count_actions_get actions output a :
  a ∈ actions →
  dget a (count_actions actions output) = Some (zlen (filter (fun s => act_of s = a) (behaviour output))).
Proof. apply count_actions_facts. Qed.

Lemma unseen_nil required without counts :
  unseen required without counts = [] ↔
  ∀ step, step ∈ required →
    (∃ a, without = Some a ∧ a ∈ step) ∨ ∃ a, a ∈ step ∧ count_of a counts ≠ 0.
Proof.
  unfold unseen. split.
  - intros Hnil step Hin. apply map_eq_nil in Hnil.
    assert (¬ In step (List.filter (fun step => negb (match without with Some a => bool_decide (a ∈ step) | None => false end)
        && negb (existsb (fun name => negb (count_of name counts =? 0)) step)) required)) as Hno
      by (rewrite Hnil; auto).
    rewrite filter_In in Hno.
    destruct (match without with Some a => bool_decide (a ∈ step) | None => false end) eqn:Ew.
    { left. destruct without as [a|]; [|done]. zbool. eauto. }
    destruct (existsb (fun name => negb (count_of name counts =? 0)) step) eqn:Ee.
    { right. apply existsb_exists in Ee as (a & Ha & Hc). zbool. exists a. by rewrite list_elem_of_In. }
    exfalso. apply Hno. split; [by apply list_elem_of_In|done].
  - intros H. destruct (List.filter _ required) as [|step l] eqn:E; [done|]. exfalso.
    assert (In step (step :: l)) as Hin by by left. rewrite <- E in Hin. apply filter_In in Hin as [Hin Hc].
    apply andb_true_iff in Hc as [Hw He]. apply negb_true_iff in Hw, He.
    destruct (H step) as [(a & -> & Ha)|(a & Ha & Hne)]; [by apply list_elem_of_In|by zbool|].
    assert (existsb (fun name => negb (count_of name counts =? 0)) step = true); [|congruence].
    apply existsb_exists. exists a. split; [by apply list_elem_of_In|]. apply negb_true_iff. lia.
Qed.

(** The counts of the actions are positive exactly for those that a state of
    the behaviour carries. *)
Lemma count_of_actions actions output a :
  a ∈ actions →
  count_of a (count_actions actions output) ≠ 0 ↔ ∃ s, s ∈ behaviour output ∧ act_of s = a.
Proof.
  intros Ha. unfold count_of. rewrite (count_actions_get actions output a Ha). cbn.
  split.
  - intros Hne. destruct (filter _ (behaviour output)) as [|s l] eqn:E; [done|].
    exists s. assert (s ∈ s :: l) as Hs by by left. rewrite <- E in Hs.
    by apply list_elem_of_filter in Hs as [? ?].
  - intros (s & Hs & Hact) H0. apply zlen_0_inv in H0.
    assert (s ∈ filter (fun s => act_of s = a) (behaviour output)) as Hin by by apply list_elem_of_filter.
    rewrite H0 in Hin. by apply not_elem_of_nil in Hin.
Qed.

Lemma required_seen actions required output without :
  Forall (fun step => Forall (fun a => a ∈ actions) step) required →
  unseen required without (count_actions actions output) = [] ↔
  ∀ step, step ∈ required →
    (∃ a, without = Some a ∧ a ∈ step) ∨
    (∃ a s, a ∈ step ∧ s ∈ behaviour output ∧ act_of s = a).
Proof.
  intros Hr. assert (∀ step a, step ∈ required → a ∈ step → a ∈ actions) as Hin.
  { intros step a Hs Ha. rewrite Forall_forall in Hr. specialize (Hr step Hs).
    rewrite Forall_forall in Hr. auto. }
  rewrite unseen_nil. split; intros H step Hs; destruct (H step Hs) as [?|Ha]; auto; right.
  - destruct Ha as (a & Ha & Hc). apply count_of_actions in Hc as (s & ? & ?); eauto.
  - destruct Ha as (a & s & Ha & ? & ?). exists a. split; [done|]. apply count_of_actions; eauto.
Qed.

(** The counts are the steps of the matched behaviour: every known action
    gets the number of the trace's states that carry its name, no other name
    gets a count, and the actions stay in their order. *)
Theorem count_actions_spec actions output :
  map fst (count_actions actions output) = actions ∧
  ∀ a, a ∈ actions →
    dget a (count_actions actions output)
      = Some (zlen (filter (fun s => act_of s = a) (behaviour output))).
Proof. apply count_actions_facts. Qed.

Lemma count_actions_spec_witness :
  dget ($"Claim") (count_actions [$"Reserve"; $"Claim"]
    ($"State 1: <Claim>" ++ nl ++ $"/\ act = Claim" ++ nl)) = Some 1.
Proof.
  rewrite (proj2 (count_actions_spec [$"Reserve"; $"Claim"]
    ($"State 1: <Claim>" ++ nl ++ $"/\ act = Claim" ++ nl)) ($"Claim")); by_compute.
Defined.
