(* ===== verification/ProtocolTrace.v ===== *)
(** * The protocol trace validator

    Model of scripts/validate_protocol_trace.py.  [parse] turns the report lines
    of a UART log into holds of the run lock, [observations] into the whole
    observed state after every hold, [trace_module] writes that as the TLA+
    module TLC reads, and [check] and [main] judge TLC's answer.  TLC, the
    temporary directory and the Java process are the parameter [tlc]. *)
From S2P Require Import Prelude Text Dict Sort Tlc.

Definition ACTIONS : list str :=
  [$"CloneBegin"; $"CloneFinish"; $"SwitchComplete"; $"Reserve"; $"Commit"; $"SwitchAway";
   $"CloneReschedule"; $"Wait4Block"; $"Nap"; $"Wake"; $"ChildExit"; $"ChildExitStart";
   $"IdleEnter"; $"Wait4Reap"; $"LeaveBegin"; $"LeaveComplete"; $"InterruptDepart";
   $"TickLeave"; $"PreemptEL1"].
Definition MODEL_CONSTANTS : list str :=
  [$"EXIT_IDLES"; $"LEAVE_CHECKS_STACK"; $"WAKE_START_CHECKS_STACK"; $"PREEMPT_EL1_KEEPS_STACK";
   $"TICK_IDLE_RESETS"; $"IRQ_ENTRY_RESETS"].
Definition REQUIRED : list (list str) :=
  [[$"CloneBegin"]; [$"CloneFinish"]; [$"SwitchComplete"]; [$"Reserve"]; [$"Commit"];
   [$"ChildExit"; $"ChildExitStart"]; [$"IdleEnter"]; [$"Wait4Reap"]; [$"LeaveBegin"];
   [$"LeaveComplete"]].

(** The names of process states: those the kernel reports ([STATES]), the
    model's [Napping], and [ABSENT] and [REAPED]. *)
Inductive pst : Type :=
| Ready | Running | Blocked | Exited | Constructing | Napping | Absent | Reaped.
#[global] Instance pst_eq_dec : EqDecision pst.
Proof. solve_decision. Defined.

Definition pst_name (s : pst) : str :=
  match s with
  | Ready => $"Ready" | Running => $"Running" | Blocked => $"Blocked" | Exited => $"Exited"
  | Constructing => $"Constructing" | Napping => $"Napping" | Absent => $"Absent"
  | Reaped => $"Reaped"
  end.

Definition STATES : list (Z * pst) :=
  [(1, Ready); (2, Running); (3, Blocked); (4, Exited); (5, Constructing)].
Definition WAIT_CHILD_EXIT : Z := 2.

Record hold := Hold {
  h_sequence : Z; h_cpu : Z; h_unlocked : bool;
  h_processes : list (Z * (pst * option Z));       (* pid -> (state, owner) *)
  h_parents : list (Z * option Z);                 (* pid -> parent *)
  h_reasons : list (Z * Z);                        (* pid -> wait reason *)
  h_gone : list Z;
  h_cores : list (Z * (option Z * option Z));      (* core -> (current, stands) *)
  h_lines : list str
}.
#[global] Instance hold_eq_dec : EqDecision hold.
Proof. solve_decision. Defined.

Definition model_state (code reason : Z) : res pst :=
  match dget code STATES with
  | None => Err (TraceError ($"unknown process state code " ++ dec code))
  | Some name =>
      if bool_decide (name = Blocked) && negb (reason =? WAIT_CHILD_EXIT) then Ok Napping
      else Ok name
  end.

Definition value (token : str) : res (option Z) :=
  if decide (token = $"-") then Ok None else Some <$> py_int 10 token.

Definition malformed (text : str) : exn := TraceError ($"malformed change: " ++ text).

(** [set.add] on the list that stands for a set. *)
Definition set_add (x : Z) (s : list Z) : list Z := if decide (x ∈ s) then s else s ++ [x].

(** The body of the [try] block: one change, by its kind. *)
Definition apply_change (h : hold) (text kind : str) (fields : list str) : res hold :=
  if bool_decide (kind = $"p") && (zlen fields =? 9) then
    pid ← (f ← item fields 4; py_int 10 f);
    code ← (f ← item fields 5; py_int 10 f);
    reason ← (f ← item fields 7; py_int 10 f);
    st ← model_state code reason;
    owner ← (f ← item fields 6; value f);
    parent ← (f ← item fields 8; value f);
    reason ← (f ← item fields 7; value f);
    Ok (Hold (h_sequence h) (h_cpu h) (h_unlocked h) (dset pid (st, owner) (h_processes h))
          (dset pid parent (h_parents h)) (dset pid (default 0 reason) (h_reasons h))
          (h_gone h) (h_cores h) (h_lines h))
  else if bool_decide (kind = $"g") && (zlen fields =? 7) then
    pid ← (f ← item fields 4; py_int 10 f);
    Ok (Hold (h_sequence h) (h_cpu h) (h_unlocked h) (h_processes h) (h_parents h) (h_reasons h)
          (set_add pid (h_gone h)) (h_cores h) (h_lines h))
  else if bool_decide (kind = $"c") && (zlen fields =? 7) then
    cur ← (f ← item fields 5; value f);
    stood ← (f ← item fields 6; value f);
    core ← (f ← item fields 4; py_int 10 f);
    Ok (Hold (h_sequence h) (h_cpu h) (h_unlocked h) (h_processes h) (h_parents h) (h_reasons h)
          (h_gone h) (dset core (cur, stood) (h_cores h)) (h_lines h))
  else Err (malformed text).

Definition except_value {A} (text : str) (m : res A) : res A :=
  match m with
  | Err ValueError => Err (malformed text)
  | _ => m
  end.

Definition hold_key : Type := Z * bool.

Definition new_hold (sequence cpu : Z) (unlocked : bool) : hold :=
  Hold sequence cpu unlocked [] [] [] [] [] [].

Definition append_line (text : str) (h : hold) : hold :=
  Hold (h_sequence h) (h_cpu h) (h_unlocked h) (h_processes h) (h_parents h) (h_reasons h)
    (h_gone h) (h_cores h) (h_lines h ++ [text]).

(** The head of a line: the key of its hold, the cpu, the kind of change and the
    fields. *)
Definition change_head (text : str) : res (hold_key * Z * str * list str) :=
  match words text with
  | (f0 :: f1 :: f2 :: kind :: _) as fields =>
      if negb (isdigit f0) || negb (isdigit f1) || negb (bool_decide (f2 ∈ [$"l"; $"u"]))
      then Err (malformed text)
      else Ok ((int_of_digits f0, bool_decide (f2 = $"u")), int_of_digits f1, kind, fields)
  | _ => Err (malformed text)
  end.

(** The line goes to its hold, made on first sight ([setdefault]). *)
Definition change_hold (h : option hold) (text : str) : res hold :=
  '(key, cpu, kind, fields) ← change_head text;
  let h := default (new_hold key.1 cpu key.2) h in
  except_value text (apply_change (append_line text h) text kind fields).

Definition parse_change (steps : list (hold_key * hold)) (text : str)
    : res (list (hold_key * hold)) :=
  '(key, _, _, _) ← change_head text;
  h ← change_hold (dget key steps) text;
  Ok (dset key h steps).

(** [key=lambda k: (k[0], not k[1])]: an unlocked hold before the locked one of
    its sequence number. *)
Definition key_le (a b : hold_key) : bool :=
  (a.1 <? b.1) || ((a.1 =? b.1) && implb (negb a.2) (negb b.2)).

Definition body_of (lines : list str) : list str := omap (strip_prefix ($"protocol-trace: ")) lines.

(** [max] of a non-empty sequence. *)
Definition py_max (l : list Z) : res Z :=
  match l with
  | [] => Err ValueError
  | a :: l => Ok (foldl Z.max a l)
  end.

(** The checks on the snapshot, and the number of core slots. *)
Definition snapshot_slots (cores : Z) (ordered : list hold) : res Z :=
  match ordered with
  | snapshot :: _ =>
      if negb (h_sequence snapshot =? 0) || h_unlocked snapshot
      then Err (TraceError ($"the window does not start with its snapshot")) else
      match List.find (fun core => negb (dmem core (h_cores snapshot))) (zrange cores) with
      | Some core => Err (TraceError ($"the snapshot has no line for core " ++ dec core))
      | None =>
          top ← py_max (map fst (h_cores snapshot));
          let slots := top + 1 in
          if decide (sorted_Z (map fst (h_cores snapshot)) = zrange slots) then Ok slots
          else Err (TraceError ($"the snapshot's core lines are not 0.." ++ dec (slots - 1)))
      end
  | [] => Err (TraceError ($"the window does not start with its snapshot"))
  end.

Definition sort_holds (steps : list (hold_key * hold)) : list hold :=
  map snd (py_sorted (fun a b => key_le a.1 b.1) steps).

Definition parse (lines : list str) : res (Z * Z * list hold) :=
  let body := body_of lines in
  match begins_of body with
  | [at_] =>
      let head_line := default [] (body !! at_) in
      match fullmatch_numbers [$"begin cores="; $" stored="; $" lost="; $" holds="] head_line with
      | Some [cores; stored; lost; holds] =>
          let events := drop (S at_) body in
          if negb (bool_decide (last events = Some ($"end")))
          then Err (TraceError ($"the window has no end line: the report was cut")) else
          let events := take (length events - 1)%nat events in
          if negb (lost =? 0)
          then Err (TraceError ($"the window lost " ++ dec lost
                     ++ $" change(s); a check with a gap in it proves nothing")) else
          if negb (zlen events =? stored)
          then Err (TraceError ($"the header says " ++ dec stored ++ $" change(s) and "
                     ++ dec (zlen events) ++ $" arrived")) else
          steps ← foldM parse_change [] events;
          let ordered := sort_holds steps in
          slots ← snapshot_slots cores ordered;
          Ok (slots, holds, ordered)
      | _ => Err (TraceError ($"malformed header: " ++ head_line))
      end
  | begins =>
      Err (TraceError ($"expected one protocol-trace window, found " ++ dec (zlen begins)))
  end.

(** ** The observed state after every hold *)

Definition NONE : str := $"none".
Definition IDLE : str := $"idle".
Definition pid_name (pid : option Z) : str := match pid with None => NONE | Some p => $"p" ++ dec p end.
Definition core_name (core : option Z) : str := match core with None => NONE | Some c => $"c" ++ dec c end.

(** The state, owner, parent and wait reason known of every process and the
    process and stack of every core. *)
Record known := Known {
  k_state : list (Z * pst); k_owner : list (Z * option Z); k_parent : list (Z * option Z);
  k_reason : list (Z * Z); k_current : list (Z * option Z); k_stands : list (Z * option Z)
}.
#[global] Instance known_eq_dec : EqDecision known.
Proof. solve_decision. Defined.

Record observation := Observation {
  o_sequence : Z; o_cpu : Z; o_locked : bool; o_known : known; o_lines : list str
}.
#[global] Instance observation_eq_dec : EqDecision observation.
Proof. solve_decision. Defined.

(** The processes a hold names. *)
Definition hold_pids (h : hold) : list Z :=
  map fst (h_processes h) ++ h_gone h ++ omap snd (h_parents h)
  ++ concat (map (fun c => omap id [c.2.1; c.2.2]) (h_cores h)).

Definition window_pids (holds : list hold) : list Z :=
  remove_dups (concat (map hold_pids holds)).

(** The first report of a process after the snapshot. *)
Fixpoint first_report (pid : Z) (holds : list hold) : option (pst * option Z) :=
  match holds with
  | [] => None
  | h :: holds =>
      match dget pid (h_processes h) with
      | Some r => Some r
      | None => first_report pid holds
      end
  end.

(** The opening state of the processes: [ABSENT], but [Constructing] for a
    process outside the snapshot first seen as a fresh record. *)
Definition opening_states (snapshot : hold) (rest : list hold) (pids : list Z) : list (Z * pst) :=
  foldl (fun state pid =>
      if decide (first_report pid rest = Some (Constructing, None))
      then dset pid Constructing state else state)
    (map (fun pid => (pid, Absent)) pids)
    (sorted_Z (filter (fun pid => dmem pid (h_processes snapshot) = false) pids)).

(** The parent links of one hold, each fixed for the window. *)
Definition link_parent (sequence : Z) (parent : list (Z * option Z)) (pl : Z * option Z)
    : res (list (Z * option Z)) :=
  match pl.2 with
  | None => Ok parent
  | Some link =>
      old ← dget_or_raise pl.1 parent;
      match old with
      | Some p =>
          if p =? link then Ok (dset pl.1 (Some link) parent)
          else Err (TraceError ($"sequence " ++ dec sequence ++ $": " ++ dec pl.1
                 ++ $"'s parent changes from " ++ dec p ++ $" to " ++ dec link
                 ++ $" inside the window; StackOwnership.tla's ParentOf is fixed, so a reparented process cannot be checked"))
      | None => Ok (dset pl.1 (Some link) parent)
      end
  end.

Definition link_parents (parent : list (Z * option Z)) (h : hold) : res (list (Z * option Z)) :=
  foldM (link_parent (h_sequence h)) parent (h_parents h).

(** One hold applied to what is known: its process lines, removals and core
    lines, in that order. *)
Definition see_process (h : hold) (k : known) (pr : Z * (pst * option Z)) : res known :=
  let state := dset pr.1 pr.2.1 (k_state k) in
  let owner := dset pr.1 pr.2.2 (k_owner k) in
  if h_unlocked h
  then Ok (Known state owner (k_parent k) (k_reason k) (k_current k) (k_stands k))
  else r ← dget_or_raise pr.1 (h_reasons h);
       Ok (Known state owner (k_parent k) (dset pr.1 r (k_reason k)) (k_current k) (k_stands k)).

Definition see_gone (k : known) (pid : Z) : known :=
  Known (dset pid Reaped (k_state k)) (dset pid None (k_owner k)) (k_parent k) (k_reason k)
    (k_current k) (k_stands k).

Definition see_core (cores : Z) (k : known) (c : Z * (option Z * option Z)) : res known :=
  if dmem c.1 (k_current k)
  then Ok (Known (k_state k) (k_owner k) (k_parent k) (k_reason k)
             (dset c.1 c.2.1 (k_current k)) (dset c.1 c.2.2 (k_stands k)))
  else Err (TraceError ($"a line for core " ++ dec c.1 ++ $" of a window with " ++ dec cores
              ++ $" core(s)")).

Definition see_hold (cores : Z) (k : known) (h : hold) : res known :=
  k ← foldM (see_process h) k (h_processes h);
  let k := foldl see_gone k (h_gone h) in
  foldM (see_core cores) k (h_cores h).

Definition observe (cores : Z) (kr : known * list observation) (h : hold)
    : res (known * list observation) :=
  k ← see_hold cores kr.1 h;
  Ok (k, kr.2 ++ [Observation (h_sequence h) (h_cpu h) (negb (h_unlocked h)) k (h_lines h)]).

Definition observations (cores : Z) (holds : list hold) : res (list observation) :=
  snapshot ← item holds 0;
  let pids := window_pids holds in
  let state := opening_states snapshot (tail holds) pids in
  let owner := map (fun pid => (pid, None)) pids in
  parent ← foldM link_parents (map (fun pid => (pid, None)) pids) holds;
  let idle := map (fun core => (core, None)) (zrange cores) in
  snd <$> foldM (observe cores)
    (Known state owner parent (map (fun pid => (pid, 0)) pids) idle idle, []) holds.

(** ** The module TLC reads *)

Definition tla_record (fields : list (str * str)) : str :=
  $"[" ++ join ($", ") (map (fun kv => kv.1 ++ $" |-> " ++ kv.2) fields) ++ $"]".
Definition tla_string (text : str) : str := quo ++ text ++ quo.

(** A record with a field for every key of a dict, which has to have them. *)
Definition tla_fields {V} (name : Z → str) (show : V → str) (d : list (Z * V)) (keys : list Z)
    : res str :=
  fields ← mapM_res (fun k => v ← dget_or_raise k d; Ok (name k, show v)) keys;
  Ok (tla_record fields).

Definition tla_row (cores : Z) (pids : list Z) (o : observation) : res str :=
  let k := o_known o in
  let pid p := pid_name (Some p) in
  let core c := core_name (Some c) in
  state ← tla_fields pid (fun s => tla_string (pst_name s)) (k_state k) pids;
  owner ← tla_fields pid (fun w => tla_string (core_name w)) (k_owner k) pids;
  reason ← tla_fields pid dec (k_reason k) pids;
  current ← tla_fields core (fun p => tla_string (pid_name p)) (k_current k) (zrange cores);
  stands ← tla_fields core
    (fun p => tla_string (match p with None => IDLE | Some _ => pid_name p end))
    (k_stands k) (zrange cores);
  Ok (tla_record
    [($"seq", dec (o_sequence o)); ($"cpu", tla_string (core_name (Some (o_cpu o))));
     ($"locked", bool_name (o_locked o)); ($"state", state); ($"owner", owner);
     ($"reason", reason); ($"current", current); ($"stands", stands)]).

Definition trace_module (cores : Z) (obs : list observation) : res str :=
  first ← item obs 0;
  let pids := sorted_Z (map fst (k_state (o_known first))) in
  rows ← mapM_res (tla_row cores pids) obs;
  parent ← tla_fields (fun p => pid_name (Some p)) (fun p => tla_string (pid_name p))
    (k_parent (o_known first)) pids;
  Ok ($"---- MODULE ProtocolTraceData ----" ++ nl
      ++ $"\* Generated by scripts/validate_protocol_trace.py." ++ nl
      ++ $"EXTENDS Sequences" ++ nl
      ++ $"TraceCores == {"
      ++ join ($", ") (map (fun c => tla_string (core_name (Some c))) (zrange cores)) ++ $"}" ++ nl
      ++ $"TraceProcs == {"
      ++ join ($", ") (map (fun p => tla_string (pid_name (Some p))) pids) ++ $"}" ++ nl
      ++ $"TraceParent == " ++ parent ++ nl
      ++ $"Trace == <<" ++ nl ++ $"  " ++ join ($"," ++ nl ++ $"  ") rows ++ nl ++ $">>" ++ nl
      ++ $"====" ++ nl).

Definition FIXED : list (str * bool) := map (fun name => (name, true)) MODEL_CONSTANTS.
Definition INVARIANTS : list str :=
  [$"StackSafety"; $"RunningMatchesCores"; $"StartsOnFreeStack"; $"NoLostWakeup";
   $"WaitMatchesState"; $"NotStopped"; $"TraceUnfinished"].

(** ** The verdict *)

Definition describe_hold (o : observation) : str := join nl (map (fun line => $"    " ++ line) (o_lines o)).

Section check.
Context (tlc : str → str → res str).

Definition run_tlc (cores : Z) (obs : list observation) (without : option str)
    (model : list (str * bool)) (stop_at : Z) : res str :=
  m ← trace_module cores obs;
  tlc m (trace_config FIXED INVARIANTS without model stop_at).

Definition stuck_report (cores : Z) (obs : list observation) (without : option str)
    (model : list (str * bool)) (depth : Z) : res str :=
  if zlen obs <=? depth then Ok ($"TLC reached the end of the trace without a verdict") else
  stuck ← item obs depth;
  detail ← run_tlc cores obs without model depth;
  let before :=
    match last (behaviour detail) with
    | Some last =>
        if contains ($"Invariant NotStopped is violated") detail
        then nl ++ $"  the model's state before it (hidden variables chosen by TLC):" ++ nl
             ++ state_lines (filter (fun kv => kv.1 ≠ $"l") last)
        else []
    | None => []
    end in
  Ok ($"sequence " ++ dec (o_sequence stuck) ++ $" (cpu " ++ dec (o_cpu stuck)
      ++ $"): no behaviour of StackOwnership.tla"
      ++ match without with Some a => $" without " ++ a | None => [] end
      ++ $" takes this " ++ (if o_locked stuck then $"locked" else $"unlocked")
      ++ $" hold, from any state matching the trace so far:" ++ nl
      ++ describe_hold stuck ++ before).

Definition check (cores : Z) (holds : list hold) (without : option str)
    (model : list (str * bool)) : res (list str * list (str * Z)) :=
  obs ← observations cores holds;
  output ← run_tlc cores obs without model 0;
  let counts := zero_counts ACTIONS in
  match violated_invariant output with
  | Some name =>
      if decide (name = $"TraceUnfinished") then Ok ([], count_actions ACTIONS output) else
      let last := last (behaviour output) in
      index ← match last with
              | Some s => l ← py_int 10 (default ($"1") (dget ($"l") s)); Ok (l - 1)
              | None => Ok 0
              end;
      where_ ← py_item obs index;
      let act := match last with
                 | Some s => unquote (default ($"?") (dget ($"act") s))
                 | None => $"?"
                 end in
      Ok ([$"sequence " ++ dec (o_sequence where_) ++ $" (cpu " ++ dec (o_cpu where_)
           ++ $"): after " ++ act ++ $", " ++ name ++ $" is violated:" ++ nl
           ++ describe_hold where_ ++ nl ++ $"  the state TLC reached:" ++ nl
           ++ state_lines (default [] last)], counts)
  | None =>
      if completed output then
        report ← stuck_report cores obs without model (default 0 (search_depth output));
        Ok ([report], counts)
      else Err (TraceError ($"TLC gave no verdict:" ++ nl ++ from output (Z.max 0 (zlen output - 4000))))
  end.

(** [main] after the command line: the exit status and the lines printed. *)
Definition main (lines : list str) (without : option str) (model : list (str * bool))
    : res (Z * list str) :=
  match ('(cores, total, holds) ← parse (map chomp lines);
         ec ← check cores holds without model; Ok (cores, total, holds, ec)) with
  | Err (Custom cls msg) =>
      if decide (cls = "TraceError"%string)
      then Ok (1, [$"FAIL protocol-trace: " ++ msg]) else Err (Custom cls msg)
  | Err e => Err e
  | Ok (cores, total, holds, (errors, counts)) =>
      let out := map (fun e => $"ERROR protocol-trace: " ++ e) errors in
      match errors with
      | _ :: _ =>
          Ok (1, out ++ [$"FAIL protocol-trace: the kernel made a step kernel/models/StackOwnership.tla does not allow (checked by TLC through StackOwnershipTrace.tla)"])
      | [] =>
          match unseen REQUIRED without counts with
          | (_ :: _) as missing =>
              Ok (1, [$"FAIL protocol-trace: the window never exercised " ++ join ($", ") missing
                      ++ $", so a PASS would say nothing about it"])
          | [] =>
              let steps := foldr Z.add 0 (map snd counts) in
              let seen := join ($", ") (map (fun nc => nc.1 ++ $"=" ++ dec nc.2) counts) in
              Ok (0, [$"PASS protocol-trace: TLC matched " ++ dec steps ++ $" step(s) over "
                      ++ dec (zlen holds) ++ $" changed hold(s) of " ++ dec total ++ $", on "
                      ++ dec cores ++ $" core(s), to a behaviour of StackOwnership.tla with its invariants and WaitMatchesState intact ("
                      ++ seen ++ $")"])
          end
      end
  end.
End check.
