(* ===== verification/ProtocolTraceFacts.v ===== *)
(** * Facts about the protocol trace validator

    The holds [parse] returns are the groups of report lines of one key, each
    read from its own lines alone and in the order of the window; the
    observations are the latest reports; the module is always written; and
    [main] passes exactly on TLC's match. *)
From S2P Require Import Prelude Text Dict Sort Tlc ProtocolTrace.

(** ** Grouping *)

Definition key_of (h : hold) : hold_key := (h_sequence h, h_unlocked h).
Definition line_key (text : str) : option hold_key :=
  match change_head text with Ok (key, _, _, _) => Some key | Err _ => None end.

(** A hold read from its own lines. *)
Definition read_hold (lines : list str) : res (option hold) :=
  foldM (fun h text => Some <$> change_hold h text) None lines.

(** What a hold's dicts promise: one entry per key, the same processes in all
    three process dicts. *)
Record hold_ok (h : hold) : Prop := {
  ho_processes : NoDup (map fst (h_processes h));
  ho_parents : map fst (h_parents h) = map fst (h_processes h);
  ho_reasons : map fst (h_reasons h) = map fst (h_processes h);
  ho_gone : NoDup (h_gone h);
  ho_cores : NoDup (map fst (h_cores h))
}.

Lemma apply_change_facts h text kind fields h' :
  apply_change h text kind fields = Ok h' →
  key_of h' = key_of h ∧ h_lines h' = h_lines h ∧ h_cpu h' = h_cpu h ∧ (hold_ok h → hold_ok h').
Proof.
  unfold apply_change. intros H.
  repeat match type of H with (if ?b then _ else _) = _ => destruct b end; [| | |done].
  all: repeat (apply bind_Ok_inv in H as (? & _ & H)); injection H as <-; split_and!; try done.
  all: intros [H1 H2 H3 H4 H5]; split; cbn; try done; try (by apply dset_NoDup).
  - by rewrite !dset_keys, H2.
  - by rewrite !dset_keys, H3.
  - unfold set_add. case_decide; [done|]. apply NoDup_app. split_and!; [done| |apply NoDup_singleton].
    by intros y Hy ->%list_elem_of_singleton.
Qed.

Lemma change_hold_facts h text key h' :
  change_hold h text = Ok h' → line_key text = Some key →
  (∀ h0, h = Some h0 → key_of h0 = key ∧ hold_ok h0) →
  key_of h' = key ∧ h_lines h' = default [] (h_lines <$> h) ++ [text] ∧ hold_ok h'.
Proof.
  unfold change_hold, line_key. intros H Hk Hh.
  destruct (change_head text) as [[[[key' cpu] kind] fields]|e]; [|done]. injection Hk as ->.
  cbn [mbind res_bind] in H. unfold except_value in H.
  destruct (apply_change _ _ _ _) as [h1|e] eqn:Ha; [|by destruct e]. injection H as ->.
  apply apply_change_facts in Ha as (H1 & H2 & _ & H3). rewrite H1, H2.
  destruct h as [h0|]; cbn in *.
  - destruct (Hh h0 eq_refl) as [Hk0 Ho]. split_and!; [done..|]. apply H3. by destruct Ho.
  - split_and!; [by destruct key|done|]. apply H3. split; cbn; constructor.
Qed.

Record steps_ok (events : list str) (steps : list (hold_key * hold)) : Prop := {
  so_NoDup : NoDup (map fst steps);
  so_hold : ∀ key h, dget key steps = Some h →
    key_of h = key ∧ hold_ok h ∧ read_hold (h_lines h) = Ok (Some h) ∧
    h_lines h = filter (fun text => line_key text = Some key) events;
  so_none : ∀ key, dget key steps = None → filter (fun text => line_key text = Some key) events = [];
  so_all : ∀ text, text ∈ events → ∃ key h, line_key text = Some key ∧ dget key steps = Some h
}.

Lemma filter_snoc_key key events text :
  filter (fun t => line_key t = Some key) (events ++ [text]) =
  filter (fun t => line_key t = Some key) events ++ (if decide (line_key text = Some key) then [text] else []).
Proof. by rewrite filter_app, filter_cons, filter_nil. Qed.

Lemma parse_change_ok events steps text steps' :
  steps_ok events steps → parse_change steps text = Ok steps' → steps_ok (events ++ [text]) steps'.
Proof.
  intros [Hnd Hh Hn Hall] H. unfold parse_change in H.
  apply bind_Ok_inv in H as ([[[key cpu] kind] fields] & Hc & H).
  apply bind_Ok_inv in H as (h & Hch & [= <-]).
  assert (line_key text = Some key) as Hk by (unfold line_key; by rewrite Hc).
  pose proof (change_hold_facts _ _ key _ Hch Hk) as Hf.
  destruct Hf as (Hkey & Hlines & Hok).
  { intros h0 H0. by destruct (Hh key h0 H0) as (? & ? & _). }
  split.
  - by apply dset_NoDup.
  - intros key' h'. rewrite filter_snoc_key. destruct (decide (key' = key)) as [->|Hne].
    + rewrite dget_dset. intros [= <-]. rewrite decide_True by done. split_and!; [done|done| |].
      * rewrite Hlines. unfold read_hold. rewrite foldM_app.
        destruct (dget key steps) as [h0|] eqn:E0; cbn [fmap option_fmap option_map from_option id].
        -- destruct (Hh key h0 E0) as (_ & _ & Hr & _). unfold read_hold in Hr. rewrite Hr. cbn.
           by rewrite Hch.
        -- cbn. by rewrite Hch.
      * rewrite Hlines. f_equal. destruct (dget key steps) as [h0|] eqn:E0; cbn.
        -- by destruct (Hh key h0 E0) as (_ & _ & _ & ?).
        -- by rewrite Hn.
    + rewrite dget_dset_ne by done. rewrite decide_False by congruence. rewrite app_nil_r. apply Hh.
  - intros key'. rewrite filter_snoc_key. destruct (decide (key' = key)) as [->|Hne].
    + by rewrite dget_dset.
    + rewrite dget_dset_ne by done. rewrite decide_False by congruence. rewrite app_nil_r. apply Hn.
  - intros t [Ht| ->%list_elem_of_singleton]%elem_of_app.
    + destruct (Hall t Ht) as (key' & h' & ? & ?). exists key'.
      destruct (decide (key' = key)) as [->|]; [by rewrite dget_dset; eauto|].
      rewrite dget_dset_ne by done. eauto.
    + exists key, h. by rewrite dget_dset.
Qed.

Lemma parse_changes_ok seen steps events steps' :
  steps_ok seen steps → foldM parse_change steps events = Ok steps' → steps_ok (seen ++ events) steps'.
Proof.
  revert seen steps. induction events as [|t events IH]; intros seen steps Hok H; cbn in H.
  - injection H as <-. by rewrite app_nil_r.
  - apply bind_Ok_inv in H as (steps1 & H1 & H2). rewrite cons_middle, app_assoc.
    eapply IH; [|exact H2]. by eapply parse_change_ok.
Qed.

(** ** The order of the window *)

Definition before (a b : hold) : Prop :=
  h_sequence a < h_sequence b ∨
  (h_sequence a = h_sequence b ∧ h_unlocked a = true ∧ h_unlocked b = false).

Lemma key_le_total a b : key_le a b = false → key_le b a = true.
Proof. unfold key_le. destruct a as [s []], b as [t []]; cbn; lia. Qed.

Lemma key_le_trans a b c : key_le a b = true → key_le b c = true → key_le a c = true.
Proof. unfold key_le. destruct a as [s []], b as [t []], c as [u []]; cbn; lia. Qed.

Lemma key_le_before a b : key_le (key_of a) (key_of b) = true → key_of a ≠ key_of b → before a b.
Proof.
  unfold key_le, key_of, before. intros Hle Hne. cbn in *.
  destruct (decide (h_sequence a = h_sequence b)) as [Heq|]; [|left; lia]. right. split; [done|].
  rewrite Heq in *. destruct (h_unlocked a), (h_unlocked b); try done; lia.
Qed.

Lemma sort_holds_before events steps :
  steps_ok events steps → StronglySorted before (sort_holds steps).
Proof.
  intros [Hnd Hh _ _]. unfold sort_holds.
  assert (Forall (fun kh => key_of kh.2 = kh.1) (py_sorted (fun a b => key_le a.1 b.1) steps)) as Hkey.
  { rewrite py_sorted_perm. apply Forall_forall. intros [key h] Hin.
    apply (dget_NoDup key h) in Hin; [|done]. by destruct (Hh key h Hin). }
  assert (NoDup (map fst (py_sorted (fun a b => key_le a.1 b.1) steps))) as Hnd'.
  { rewrite (fmap_Permutation fst _ steps); [done|apply py_sorted_perm]. }
  pose proof (py_sorted_sorted (fun a b : hold_key * hold => key_le a.1 b.1)
    (fun a b => key_le_total a.1 b.1) (fun a b c => key_le_trans a.1 b.1 c.1) steps) as Hs.
  induction Hs as [|[key h] l Hs IH Hle]; cbn in *; [constructor|].
  apply Forall_cons in Hkey as [Hk Hkey]. apply NoDup_cons in Hnd' as [Hni Hnd'].
  constructor; [by apply IH|]. apply Forall_forall. intros h' ([key' h''] & -> & Hin)%list_elem_of_fmap.
  rewrite Forall_forall in Hle, Hkey. specialize (Hle _ Hin). specialize (Hkey _ Hin). cbn in *.
  apply key_le_before; [by rewrite Hk, Hkey|]. rewrite Hk, Hkey. intros ->. apply Hni.
  apply list_elem_of_fmap. by exists (key', h'').
Qed.

Lemma elem_of_sort_holds events steps h :
  steps_ok events steps → h ∈ sort_holds steps ↔ dget (key_of h) steps = Some h.
Proof.
  intros [Hnd Hh _ _]. unfold sort_holds. split.
  - intros ([key h'] & -> & Hin)%list_elem_of_fmap. rewrite elem_of_py_sorted in Hin.
    apply dget_NoDup in Hin; [|done]. cbn. by destruct (Hh _ _ Hin) as [-> _].
  - intros Hd. apply list_elem_of_fmap. exists (key_of h, h). split; [done|].
    apply elem_of_py_sorted. by apply dget_elem_of.
Qed.

(** ** The report *)

Lemma begins_of_at body at_ : begins_of body = [at_] → ∃ header, body !! at_ = Some header.
Proof.
  intros H. assert (at_ ∈ begins_of body) as Hin by (rewrite H; by left).
  unfold begins_of in Hin. apply list_elem_of_fmap in Hin as ([i header] & -> & Hin).
  apply list_elem_of_In, filter_In in Hin as [Hin _]. apply list_elem_of_In in Hin.
  apply list_elem_of_lookup in Hin as [j Hj]. apply lookup_zip_with_Some in Hj as (x & y & [= <- <-] & Hx & Hy).
  apply lookup_seq in Hx as [-> _]. cbn. eauto.
Qed.

Lemma last_split {A} (l : list A) a : last l = Some a → l = take (length l - 1)%nat l ++ [a].
Proof.
  intros Hl. apply last_Some in Hl as [l' ->]. rewrite length_app, Nat.add_sub. by rewrite take_app_length.
Qed.

Lemma py_max_spec l m : py_max l = Ok m → m ∈ l ∧ ∀ x, x ∈ l → x ≤ m.
Proof.
  destruct l as [|a l]; [done|]. cbn. intros [= <-]. revert a.
  induction l as [|b l IH]; intros a; cbn.
  - split; [by left|]. intros x ->%list_elem_of_singleton. lia.
  - destruct (IH (Z.max a b)) as [Hin Hle]. split.
    + apply elem_of_cons in Hin as [Hm|Hm]; [|by right; right].
      rewrite Hm. destruct (Z.max_spec a b) as [[_ ->]|[_ ->]]; [right|]; by left.
    + intros x Hx. pose proof (Hle (Z.max a b) ltac:(by left)).
      apply elem_of_cons in Hx as [->|[->|Hx]%elem_of_cons]; [lia|lia|].
      apply Hle. by right.
Qed.

Lemma snapshot_slots_ok cores ordered slots :
  snapshot_slots cores ordered = Ok slots →
  ∃ snapshot rest, ordered = snapshot :: rest ∧ h_sequence snapshot = 0 ∧ h_unlocked snapshot = false ∧
    (∀ c, c ∈ map fst (h_cores snapshot) ↔ 0 ≤ c < slots) ∧ cores ≤ slots ∧ 1 ≤ slots.
Proof.
  unfold snapshot_slots. destruct ordered as [|s rest]; [done|]. intros H.
  destruct (h_sequence s =? 0) eqn:Es, (h_unlocked s) eqn:Eu; cbn in H; try done.
  destruct (List.find _ _) eqn:Ef; [done|]. apply bind_Ok_inv in H as (top & Ht & H).
  case_decide as Hs; [|done]. injection H as <-. apply py_max_spec in Ht as [Hin _].
  exists s, rest. assert (∀ c, c ∈ map fst (h_cores s) ↔ 0 ≤ c < top + 1) as Hc.
  { intros c. rewrite <- elem_of_zrange, <- Hs. by rewrite sorted_Z_perm. }
  apply Hc in Hin. split_and!; try done; try lia. destruct (decide (cores ≤ top + 1)) as [|Hgt]; [done|].
  exfalso. pose proof (find_none _ _ Ef (top + 1)) as Hf. cbn in Hf.
  rewrite negb_false_iff, dmem_true in Hf.
  assert (In (top + 1) (zrange cores)) as Hi by (apply list_elem_of_In, elem_of_zrange; lia).
  apply Hf in Hi. apply Hc in Hi. lia.
Qed.

Lemma parse_inv lines slots total holds :
  parse lines = Ok (slots, total, holds) →
  ∃ pre header events cores stored steps,
    body_of lines = pre ++ header :: events ++ [$"end"] ∧
    fullmatch_numbers [$"begin cores="; $" stored="; $" lost="; $" holds="] header
      = Some [cores; stored; 0; total] ∧
    zlen events = stored ∧ foldM parse_change [] events = Ok steps ∧ steps_ok events steps ∧
    holds = sort_holds steps ∧ snapshot_slots cores holds = Ok slots.
Proof.
  unfold parse. destruct (begins_of (body_of lines)) as [|at_ [|]] eqn:Eb; [done| |done].
  destruct (begins_of_at _ _ Eb) as [header Hh]. rewrite Hh. cbn [from_option id].
  destruct (fullmatch_numbers _ header) as [ns|] eqn:Em; [|done].
  destruct ns as [|cores [|stored [|lost [|n [|]]]]]; try done.
  destruct (bool_decide (last _ = _)) eqn:El; [|done]. apply bool_decide_eq_true in El. cbn [negb].
  destruct (lost =? 0) eqn:E0; [|done]. cbn [negb]. destruct (_ =? stored) eqn:Est; [|done]. cbn [negb].
  intros H. apply bind_Ok_inv in H as (steps & Hf & H). apply bind_Ok_inv in H as (sl & Hs & [= <- <- <-]).
  apply Z.eqb_eq in E0, Est. subst lost.
  exists (take at_ (body_of lines)), header, (take (length (drop (S at_) (body_of lines)) - 1) (drop (S at_) (body_of lines))),
    cores, stored, steps.
  split_and!; try done.
  - rewrite <- last_split by done. symmetry. by apply take_drop_middle.
  - apply (parse_changes_ok [] [] _ steps); [|done]. split; [constructor|done|done|].
    intros t Ht. by apply not_elem_of_nil in Ht.
Qed.

(** The holds of a parsed window.  The report between its header and its end
    line is split into holds: each hold has exactly the lines of its sequence
    number and lock mark, in their order, and is what those lines alone say,
    whatever lines of other holds stand between them; no line is lost; the
    holds are in strict window order; and the first is the locked snapshot,
    whose core lines are 0 to [slots - 1]. *)
Theorem parse_groups lines slots total holds :
  parse lines = Ok (slots, total, holds) →
  ∃ pre header events, body_of lines = pre ++ header :: events ++ [$"end"] ∧
    StronglySorted before holds ∧
    (∀ h, h ∈ holds →
      h_lines h = filter (fun text => line_key text = Some (key_of h)) events ∧
      read_hold (h_lines h) = Ok (Some h)) ∧
    (∀ text, text ∈ events → ∃ h, h ∈ holds ∧ text ∈ h_lines h) ∧
    ∃ snapshot rest, holds = snapshot :: rest ∧ key_of snapshot = (0, false) ∧
      ∀ c, c ∈ map fst (h_cores snapshot) ↔ 0 ≤ c < slots.
Proof.
  intros (pre & header & events & cores & stored & steps & Hb & _ & _ & _ & Hok & -> & Hs)%parse_inv.
  exists pre, header, events. apply snapshot_slots_ok in Hs as (s & rest & Hr & H0 & Hu & Hc & _).
  split_and!; [done|by eapply sort_holds_before| | |].
  - intros h Hh. apply (elem_of_sort_holds events) in Hh; [|done].
    by destruct (so_hold _ _ Hok _ _ Hh) as (_ & _ & ? & ?).
  - intros t Ht. destruct (so_all _ _ Hok t Ht) as (key & h & Hk & Hd).
    destruct (so_hold _ _ Hok _ _ Hd) as (Hkey & _ & _ & Hl). exists h. split.
    + apply (elem_of_sort_holds events); [done|]. by rewrite Hkey.
    + rewrite Hl. by apply list_elem_of_filter.
  - exists s, rest. split_and!; [done|unfold key_of; by rewrite H0, Hu|done].
Qed.

Definition sample_report : list str :=
  [$"[    1.0] boot"; $"protocol-trace: begin cores=2 stored=8 lost=0 holds=9";
   $"protocol-trace: 0 0 l c 0 1 1"; $"protocol-trace: 0 0 l p 1 2 0 0 -";
   $"protocol-trace: 4 1 l p 2 1 - 0 1"; $"protocol-trace: 3 0 u p 2 5 - 0 1";
   $"protocol-trace: 0 0 l c 1 - -"; $"protocol-trace: 4 1 l c 1 2 2";
   $"protocol-trace: 6 1 l g 2 0 0"; $"noise"; $"protocol-trace: 6 1 l c 1 - -";
   $"protocol-trace: end"].
Definition sample_holds : list hold :=
  match parse sample_report with Ok (_, _, holds) => holds | Err _ => [] end.

Lemma parse_sample : parse sample_report = Ok (2, 9, sample_holds).
Proof. by_compute. Qed.

Lemma parse_groups_witness :
  ∃ pre header events, body_of sample_report = pre ++ header :: events ++ [$"end"] ∧
    StronglySorted before sample_holds ∧ map h_sequence sample_holds = [0; 3; 4; 6].
Proof.
  destruct (parse_groups _ _ _ _ parse_sample) as (pre & header & events & Hb & Hs & _).
  exists pre, header, events. apply conj; [exact Hb|]. apply conj; [exact Hs|]. by_compute.
Defined.

(** ** Observations *)

Lemma parse_holds_ok lines slots total holds :
  parse lines = Ok (slots, total, holds) → Forall hold_ok holds ∧ holds ≠ [] ∧ 1 ≤ slots.
Proof.
  intros (pre & header & events & cores & stored & steps & _ & _ & _ & _ & Hok & -> & Hs)%parse_inv.
  apply snapshot_slots_ok in Hs as (s & rest & Hr & _ & _ & _ & _ & ?). split_and!; [|by rewrite Hr|done].
  apply Forall_forall. intros h Hh. apply (elem_of_sort_holds events) in Hh; [|done].
  by destruct (so_hold _ _ Hok _ _ Hh) as (_ & ? & _).
Qed.

(** The reports of one hold about a process and a core. *)
Definition process_report (pid : Z) (h : hold) : option (pst * option Z) :=
  if decide (pid ∈ h_gone h) then Some (Reaped, None) else dget pid (h_processes h).
Definition reason_report (pid : Z) (h : hold) : option Z :=
  if h_unlocked h then None else dget pid (h_reasons h).
Definition core_report (core : Z) (h : hold) : option (option Z * option Z) := dget core (h_cores h).

(** The process lines of a hold are dict updates. *)
Definition reason_updates (h : hold) (ps : list (Z * (pst * option Z))) : list (Z * Z) :=
  if h_unlocked h then [] else map (fun p => (p.1, default 0 (dget p.1 (h_reasons h)))) ps.

Lemma see_processes_spec h ps k :
  (∀ pid, pid ∈ map fst ps → pid ∈ map fst (h_reasons h)) →
  foldM (see_process h) k ps = Ok (Known
    (dupdate (k_state k) (map (fun p => (p.1, p.2.1)) ps))
    (dupdate (k_owner k) (map (fun p => (p.1, p.2.2)) ps))
    (k_parent k) (dupdate (k_reason k) (reason_updates h ps)) (k_current k) (k_stands k)).
Proof.
  unfold reason_updates, dupdate. revert k. induction ps as [|[pid [st own]] ps IH]; intros k Hin; cbn.
  - destruct k, (h_unlocked h); done.
  - assert (∀ p, p ∈ map fst ps → p ∈ map fst (h_reasons h)) as Hin' by (intros; apply Hin; by right).
    destruct (dget_Some_in pid (h_reasons h)) as [r Hr]; [apply Hin; by left|].
    assert (see_process h k (pid, (st, own)) = Ok (Known (dset pid st (k_state k))
      (dset pid own (k_owner k)) (k_parent k)
      (if h_unlocked h then k_reason k else dset pid r (k_reason k)) (k_current k) (k_stands k))) as ->.
    { unfold see_process, dget_or_raise. cbn. rewrite Hr. by destruct (h_unlocked h). }
    cbn [mbind res_bind]. rewrite IH by done. rewrite Hr. by destruct (h_unlocked h).
Qed.

Lemma see_gone_spec gone k :
  foldl see_gone k gone = Known
    (dupdate (k_state k) (map (fun pid => (pid, Reaped)) gone))
    (dupdate (k_owner k) (map (fun pid => (pid, None)) gone))
    (k_parent k) (k_reason k) (k_current k) (k_stands k).
Proof.
  unfold dupdate. revert k. induction gone as [|pid gone IH]; intros k; cbn; [by destruct k|].
  by rewrite IH.
Qed.

Lemma see_cores_spec cores cs k k' :
  foldM (see_core cores) k cs = Ok k' →
  k' = Known (k_state k) (k_owner k) (k_parent k) (k_reason k)
    (dupdate (k_current k) (map (fun c => (c.1, c.2.1)) cs))
    (dupdate (k_stands k) (map (fun c => (c.1, c.2.2)) cs)) ∧
  ∀ c, c ∈ map fst cs → c ∈ map fst (k_current k).
Proof.
  unfold dupdate. revert k. induction cs as [|[c [cur st]] cs IH]; intros k; cbn.
  - intros [= <-]. split; [by destruct k|]. by intros c ?%not_elem_of_nil.
  - intros H. apply bind_Ok_inv in H as (k1 & H1 & H). unfold see_core in H1. cbn in H1.
    destruct (dmem c (k_current k)) eqn:Em; [|done]. injection H1 as <-. apply dmem_true in Em.
    destruct (IH _ H) as [-> Hin]. cbn in Hin. split; [done|].
    intros c' [->|Hc]%elem_of_cons; [done|]. apply Hin in Hc. by rewrite dset_keys_old in Hc.
Qed.

Lemma dget_gone {V} (v : V) (pid : Z) gone :
  dget pid (map (fun p => (p, v)) gone) = if decide (pid ∈ gone) then Some v else None.
Proof.
  case_decide; [by apply (dget_keys (fun _ => v))|]. apply dget_None. by rewrite (keys_map (fun _ => v)).
Qed.

Lemma map_fst_snd {K V W} (f : V → W) (d : list (K * V)) : map fst (map (fun p => (p.1, f p.2)) d) = map fst d.
Proof. by rewrite map_map. Qed.

(** A lookup after an update, in the shape of a report. *)
Lemma dget_updated {V W} (f : V → W) (d : list (Z * V)) (d0 : list (Z * W)) k :
  NoDup (map fst d) →
  dget k (dupdate d0 (map (fun p => (p.1, f p.2)) d)) =
    match dget k d with Some v => Some (f v) | None => dget k d0 end.
Proof.
  intros Hd. rewrite dget_dupdate by by rewrite map_fst_snd. rewrite dget_map. by destruct (dget k d).
Qed.

Lemma see_hold_spec cores h k k' :
  hold_ok h → see_hold cores k h = Ok k' →
  k_parent k' = k_parent k ∧
  (∀ pid, dget pid (k_state k') = match process_report pid h with Some r => Some r.1 | None => dget pid (k_state k) end) ∧
  (∀ pid, dget pid (k_owner k') = match process_report pid h with Some r => Some r.2 | None => dget pid (k_owner k) end) ∧
  (∀ pid, dget pid (k_reason k') = match reason_report pid h with Some r => Some r | None => dget pid (k_reason k) end) ∧
  (∀ c, dget c (k_current k') = match core_report c h with Some r => Some r.1 | None => dget c (k_current k) end) ∧
  (∀ c, dget c (k_stands k') = match core_report c h with Some r => Some r.2 | None => dget c (k_stands k) end).
Proof.
  intros [Hp Hpa Hr Hg Hc] H. unfold see_hold in H. rewrite see_processes_spec in H by (intros; by rewrite Hr).
  cbn [mbind res_bind] in H. rewrite see_gone_spec in H. cbn in H.
  apply see_cores_spec in H as [-> _]. cbn. unfold process_report, reason_report, core_report.
  split_and!; [done| | | | |].
  - intros pid. rewrite dget_dupdate by by rewrite (keys_map (fun _ => Reaped)).
    rewrite dget_gone. case_decide; [done|]. by apply (dget_updated fst).
  - intros pid. rewrite dget_dupdate by by rewrite (keys_map (fun _ => None)).
    rewrite dget_gone. case_decide; [done|]. by apply (dget_updated snd).
  - intros pid. unfold reason_updates. destruct (h_unlocked h); [done|].
    rewrite dget_dupdate by by rewrite map_map.
    destruct (dget pid (h_reasons h)) as [r|] eqn:Er.
    + assert (pid ∈ map fst (h_processes h)) as Hin.
      { rewrite <- Hr. apply list_elem_of_fmap. exists (pid, r). split; [done|by apply dget_elem_of]. }
      replace (map _ (h_processes h)) with
        (map (fun p => (p, default 0 (dget p (h_reasons h)))) (map fst (h_processes h))) by by rewrite map_map.
      rewrite (dget_keys (fun p => default 0 (dget p (h_reasons h)))) by done. by rewrite Er.
    + rewrite (proj2 (dget_None _ _)); [done|]. rewrite map_map. change (pid ∉ map fst (h_processes h)). rewrite <- Hr. by apply dget_None.
  - intros c. by apply (dget_updated fst).
  - intros c. by apply (dget_updated snd).
Qed.

(** The latest report of a run of holds. *)
Definition latest {A} (report : hold → option A) (holds : list hold) : option A := last (omap report holds).

Lemma latest_snoc {A} (report : hold → option A) holds h :
  latest report (holds ++ [h]) = match report h with Some r => Some r | None => latest report holds end.
Proof.
  unfold latest. rewrite omap_app. cbn. destruct (report h); [by rewrite last_snoc|].
  by rewrite app_nil_r.
Qed.

(** What is known after a run of holds, against what was known before it. *)
Record knows (holds : list hold) (k0 k : known) : Prop := {
  kn_parent : k_parent k = k_parent k0;
  kn_state pid : dget pid (k_state k) =
    match latest (process_report pid) holds with Some r => Some r.1 | None => dget pid (k_state k0) end;
  kn_owner pid : dget pid (k_owner k) =
    match latest (process_report pid) holds with Some r => Some r.2 | None => dget pid (k_owner k0) end;
  kn_reason pid : dget pid (k_reason k) =
    match latest (reason_report pid) holds with Some r => Some r | None => dget pid (k_reason k0) end;
  kn_current c : dget c (k_current k) =
    match latest (core_report c) holds with Some r => Some r.1 | None => dget c (k_current k0) end;
  kn_stands c : dget c (k_stands k) =
    match latest (core_report c) holds with Some r => Some r.2 | None => dget c (k_stands k0) end
}.

Lemma see_holds_knows cores holds k0 k :
  Forall hold_ok holds → foldM (see_hold cores) k0 holds = Ok k → knows holds k0 k.
Proof.
  revert k. induction holds as [|h holds IH] using rev_ind; intros k Hok H.
  - injection H as <-. by split.
  - apply Forall_app in Hok as [Hok Hh]. apply Forall_cons in Hh as [Hh _].
    rewrite foldM_app in H. apply bind_Ok_inv in H as (k1 & H1 & H2). cbn in H2.
    apply bind_Ok_inv in H2 as (k2 & H2 & [= <-]).
    destruct (IH k1 Hok H1) as [I1 I2 I3 I4 I5 I6].
    destruct (see_hold_spec _ _ _ _ Hh H2) as (J1 & J2 & J3 & J4 & J5 & J6).
    split; [congruence|..]; intros x; rewrite latest_snoc.
    + rewrite J2. by destruct (process_report x h).
    + rewrite J3. by destruct (process_report x h).
    + rewrite J4. by destruct (reason_report x h).
    + rewrite J5. by destruct (core_report x h).
    + rewrite J6. by destruct (core_report x h).
Qed.

Definition observes (h : hold) (k : known) (o : observation) : Prop :=
  o = Observation (h_sequence h) (h_cpu h) (negb (h_unlocked h)) k (h_lines h).

Lemma observe_prefixes cores k0 holds k obs :
  foldM (observe cores) (k0, []) holds = Ok (k, obs) →
  foldM (see_hold cores) k0 holds = Ok k ∧ length obs = length holds ∧
  ∀ i o, obs !! i = Some o → ∃ h ki, holds !! i = Some h ∧ observes h ki o ∧
    foldM (see_hold cores) k0 (take (S i) holds) = Ok ki.
Proof.
  revert k obs. induction holds as [|h holds IH] using rev_ind; intros k obs H.
  - injection H as <- <-. split_and!; [done..|]. intros i o Hi. by rewrite lookup_nil in Hi.
  - rewrite foldM_app in H. apply bind_Ok_inv in H as ([k1 obs1] & H1 & H). cbn in H.
    apply bind_Ok_inv in H as ([k2 obs2] & H2 & [= -> ->]). unfold observe in H2.
    apply bind_Ok_inv in H2 as (k3 & H3 & [= -> <-]). cbn in H3.
    destruct (IH _ _ H1) as (Hk & Hlen & Hpre).
    assert (foldM (see_hold cores) k0 (holds ++ [h]) = Ok k) as Hall.
    { rewrite foldM_app, Hk. cbn. by rewrite H3. }
    split_and!; [done|cbn; rewrite !length_app; cbn; lia|]. intros i o Hi. cbn in Hi.
    apply lookup_snoc_Some in Hi as [[Hlt Hi]|[-> <-]].
    + destruct (Hpre i o Hi) as (h' & ki & ? & ? & ?). exists h', ki.
      rewrite lookup_app_l by lia. rewrite take_app_le by lia. done.
    + exists h, k. rewrite Hlen. rewrite lookup_app_r, Nat.sub_diag by lia.
      rewrite take_ge by (rewrite length_app; cbn; lia). done.
Qed.

(** ** Parents and the opening state *)

(** The links of [pairs] recorded into [d], each process with one. *)
Record linked (pairs : list (Z * option Z)) (d d' : list (Z * option Z)) : Prop := {
  ln_keep pid l : dget pid d = Some (Some l) → dget pid d' = Some (Some l);
  ln_link pid l : (pid, Some l) ∈ pairs → dget pid d' = Some (Some l);
  ln_other pid : (∀ l, (pid, Some l) ∉ pairs) → dget pid d' = dget pid d;
  ln_keys : map fst d' = map fst d
}.

Lemma linked_nil d : linked [] d d.
Proof. split; [done| |done|done]. by intros pid l ?%not_elem_of_nil. Qed.

Lemma linked_app p1 p2 d d1 d2 : linked p1 d d1 → linked p2 d1 d2 → linked (p1 ++ p2) d d2.
Proof.
  intros [K1 L1 O1 E1] [K2 L2 O2 E2]. split; [auto| | |congruence].
  - intros pid l [H|H]%elem_of_app; auto.
  - intros pid H. rewrite O2, O1; [done|..]; intros l Hin; apply (H l), elem_of_app; auto.
Qed.

Lemma link_parent_linked seq d pl d' : link_parent seq d pl = Ok d' → linked [pl] d d'.
Proof.
  destruct pl as [p [l|]]; unfold link_parent; cbn [snd fst].
  - intros H. apply bind_Ok_inv in H as (old & Hd & H). apply of_option_Ok_inv in Hd.
    assert (d' = dset p (Some l) d ∧ (∀ q, old = Some q → q = l)) as [-> Hold].
    { destruct old as [q|]; [|by injection H as <-]. destruct (q =? l) eqn:E; [|done].
      injection H as <-. split; [done|]. intros q' [= <-]. lia. }
    split.
    + intros pid l' Hl. destruct (decide (pid = p)) as [->|]; [|by rewrite dget_dset_ne].
      rewrite dget_dset. rewrite Hd in Hl. injection Hl as ->. by rewrite (Hold l').
    + intros pid l' [= -> ->]%list_elem_of_singleton. apply dget_dset.
    + intros pid Hn. apply dget_dset_ne. intros ->. apply (Hn l). by left.
    + apply dset_keys_old. apply dget_elem_of in Hd. apply list_elem_of_fmap. by exists (p, old).
  - intros [= <-]. split; [done| |done|done]. by intros pid l ?%list_elem_of_singleton.
Qed.

Lemma foldM_linked {A} (f : list (Z * option Z) → A → res (list (Z * option Z))) (g : A → list (Z * option Z)) l d d' :
  (∀ a d d', f d a = Ok d' → linked (g a) d d') → foldM f d l = Ok d' → linked (concat (map g l)) d d'.
Proof.
  intros Hf. revert d. induction l as [|a l IH]; intros d H; cbn in *.
  - injection H as <-. apply linked_nil.
  - apply bind_Ok_inv in H as (d1 & H1 & H2). eapply linked_app; eauto.
Qed.

Lemma link_parents_linked holds d d' :
  foldM link_parents d holds = Ok d' → linked (concat (map h_parents holds)) d d'.
Proof.
  apply foldM_linked. intros h d0 d1 H. unfold link_parents in H.
  apply (foldM_linked _ (fun pl => [pl])) in H; [|intros; by eapply link_parent_linked].
  replace (h_parents h) with (concat (map (fun pl => [pl]) (h_parents h))); [done|].
  clear. induction (h_parents h) as [|pl l IH]; [done|]. cbn. by rewrite IH.
Qed.

Definition opening_state (holds : list hold) (pid : Z) : pst :=
  match holds with
  | snapshot :: rest =>
      if decide ((pid ∉ map fst (h_processes snapshot)) ∧ first_report pid rest = Some (Constructing, None))
      then Constructing else Absent
  | [] => Absent
  end.

Lemma dget_marked {V} (Q : Z → Prop) `{∀ p, Decision (Q p)} (v : V) pids d (pid : Z) :
  dget pid (foldl (fun st p => if decide (Q p) then dset p v st else st) d pids) =
  if decide (pid ∈ pids ∧ Q pid) then Some v else dget pid d.
Proof.
  revert d. induction pids as [|p pids IH]; intros d; cbn.
  - rewrite decide_False; [done|]. by intros [?%not_elem_of_nil _].
  - rewrite IH. repeat case_decide; try done; destruct (decide (pid = p)) as [->|Hne].
    all: rewrite ?dget_dset, ?dget_dset_ne by done; try done.
    all: try (exfalso; set_solver). all: set_solver.
Qed.

Lemma elem_of_fresh snapshot pids p :
  p ∈ sorted_Z (filter (fun pid => dmem pid (h_processes snapshot) = false) pids) ↔
  p ∈ pids ∧ p ∉ map fst (h_processes snapshot).
Proof. rewrite sorted_Z_perm, list_elem_of_filter, <- dmem_true, not_true_iff_false. tauto. Qed.

Lemma opening_states_get snapshot rest pids pid :
  pid ∈ pids →
  dget pid (opening_states snapshot rest pids) = Some (opening_state (snapshot :: rest) pid).
Proof.
  intros Hin. unfold opening_states, opening_state.
  rewrite (dget_marked (fun p => first_report p rest = Some (Constructing, None))).
  rewrite (dget_keys (fun _ => Absent)) by done.
  pose proof (elem_of_fresh snapshot pids pid). repeat case_decide; try done; exfalso; tauto.
Qed.

Lemma opening_states_keys snapshot rest pids : map fst (opening_states snapshot rest pids) = pids.
Proof.
  unfold opening_states.
  assert (∀ p, p ∈ sorted_Z (filter (fun pid => dmem pid (h_processes snapshot) = false) pids) → p ∈ pids) as Hs
    by (intros p; rewrite elem_of_fresh; by intros []).
  revert Hs. generalize (sorted_Z (filter (fun pid => dmem pid (h_processes snapshot) = false) pids)).
  intros l Hl. assert (map fst (map (fun pid : Z => (pid, Absent)) pids) = pids) as Hk
    by apply (keys_map (fun _ => Absent)). revert Hk.
  generalize (map (fun pid : Z => (pid, Absent)) pids).
  induction l as [|p l IH]; intros d Hk; cbn; [done|]. apply IH; [intros; apply Hl; by right|].
  case_decide; [|done]. rewrite dset_keys_old; [done|]. rewrite Hk. apply Hl. by left.
Qed.

(** The parts of a successful [observations]. *)
Lemma observations_inv cores holds obs :
  observations cores holds = Ok obs →
  ∃ snapshot rest parent k0 k, holds = snapshot :: rest ∧
    linked (concat (map h_parents holds)) (map (fun pid => (pid, None)) (window_pids holds)) parent ∧
    k0 = Known (opening_states snapshot rest (window_pids holds))
      (map (fun pid => (pid, None)) (window_pids holds)) parent
      (map (fun pid => (pid, 0)) (window_pids holds))
      (map (fun c => (c, None)) (zrange cores)) (map (fun c => (c, None)) (zrange cores)) ∧
    foldM (observe cores) (k0, []) holds = Ok (k, obs).
Proof.
  unfold observations. destruct holds as [|snapshot rest]; [done|]. intros H.
  apply bind_Ok_inv in H as (s & [= <-] & H). apply bind_Ok_inv in H as (parent & Hp & H).
  apply fmap_Ok_inv in H as ([k obs'] & Hf & ->). apply link_parents_linked in Hp.
  eexists snapshot, rest, parent, _, k. split_and!; [done|done|reflexivity|exact Hf].
Qed.

Lemma dget_parents (h : hold) pid l :
  hold_ok h → (pid, l) ∈ h_parents h ↔ dget pid (h_parents h) = Some l.
Proof.
  intros [Hp Hpa _ _ _]. split; [|apply dget_elem_of]. apply dget_NoDup. by rewrite Hpa.
Qed.

Lemma parent_fixed holds parent pid link :
  Forall hold_ok holds →
  linked (concat (map h_parents holds)) (map (fun pid => (pid, None)) (window_pids holds)) parent →
  pid ∈ window_pids holds →
  dget pid parent = Some (Some link) ↔ ∃ h, h ∈ holds ∧ dget pid (h_parents h) = Some (Some link).
Proof.
  intros Hok [_ L O _] Hpid. rewrite Forall_forall in Hok.
  assert (∀ l, (pid, Some l) ∈ concat (map h_parents holds) ↔ ∃ h, h ∈ holds ∧ dget pid (h_parents h) = Some (Some l)) as Hin.
  { intros l. rewrite list_elem_of_In, in_concat. setoid_rewrite <- list_elem_of_In. split.
    - intros (x & (h & -> & Hh)%list_elem_of_fmap & Hx). exists h. split; [done|]. by apply dget_parents; auto.
    - intros (h & Hh & Hd). exists (h_parents h). split; [apply list_elem_of_fmap; eauto|by apply dget_elem_of]. }
  split; [|intros H; apply L; by apply Hin]. intros Hd.
  destruct (decide (Exists (fun pl => pl.1 = pid ∧ pl.2 ≠ None) (concat (map h_parents holds)))) as [He|Hne].
  - apply Exists_exists in He as ([p [l|]] & Hp & Heq & Hl); [|done]. cbn in Heq. subst p.
    rewrite (L _ _ Hp) in Hd. injection Hd as <-. by apply Hin.
  - rewrite O in Hd; [by rewrite (dget_keys (fun _ => None)) in Hd|].
    intros l Hl. apply Hne, Exists_exists. by exists (pid, Some l).
Qed.

(** C26: an observation is the latest reports.  The observation of a hold has
    its sequence number, cpu, lock mark and lines, and for every process and
    core of the window what the latest hold so far said of it: removed, or its
    last reported state and owner, else the opening state; the last wait
    reason a locked hold reported; the last process and stack of a core.  A
    process's parent is the link any hold of the window reports, before or
    after. *)
Theorem observations_latest lines slots total holds obs :
  parse lines = Ok (slots, total, holds) → observations slots holds = Ok obs →
  length obs = length holds ∧
  ∀ i o h, obs !! i = Some o → holds !! i = Some h →
    let seen := take (S i) holds in
    let k := o_known o in
    o = Observation (h_sequence h) (h_cpu h) (negb (h_unlocked h)) k (h_lines h) ∧
    (∀ pid, pid ∈ window_pids holds →
      dget pid (k_state k)
        = Some (default (opening_state holds pid) (fst <$> latest (process_report pid) seen)) ∧
      dget pid (k_owner k) = Some (default None (snd <$> latest (process_report pid) seen)) ∧
      dget pid (k_reason k) = Some (default 0 (latest (reason_report pid) seen)) ∧
      ∀ link, dget pid (k_parent k) = Some (Some link) ↔
        ∃ h', h' ∈ holds ∧ dget pid (h_parents h') = Some (Some link)) ∧
    (∀ c, 0 ≤ c < slots →
      dget c (k_current k) = Some (default None (fst <$> latest (core_report c) seen)) ∧
      dget c (k_stands k) = Some (default None (snd <$> latest (core_report c) seen))).
Proof.
  intros (Hok & _ & _)%parse_holds_ok (s & rest & parent & k0 & kl & Hh & Hln & Hk0 & Hf)%observations_inv.
  destruct (observe_prefixes _ _ _ _ _ Hf) as (_ & Hlen & Hpre). split; [done|].
  intros i o h Ho Hi seen k. destruct (Hpre i o Ho) as (h' & ki & Hi' & Hobs & Hseen).
  rewrite Hi in Hi'. injection Hi' as <-.
  assert (k = ki) as -> by (subst k; by rewrite Hobs).
  apply see_holds_knows in Hseen as [K1 K2 K3 K4 K5 K6]; [|by apply Forall_take].
  fold seen in K2, K3, K4, K5, K6. rewrite Hk0 in *. cbn in *. split_and!; [done| |].
  - intros pid Hpid. rewrite K1, K2, K3, K4. rewrite Hh in *.
    rewrite (opening_states_get s rest (window_pids (s :: rest)) pid Hpid).
    rewrite (dget_keys (fun _ => None)), (dget_keys (fun _ => 0)) by done.
    split_and!; [by destruct (latest _ _)..|]. intros link. by apply parent_fixed.
  - intros c Hc. rewrite K5, K6. rewrite (dget_keys (fun _ => None)) by by apply elem_of_zrange.
    split; by destruct (latest _ _).
Qed.

Definition sample_obs : list observation :=
  match observations 2 sample_holds with Ok obs => obs | Err _ => [] end.

Lemma observations_latest_witness :
  length sample_obs = 4%nat ∧
  ∀ o, sample_obs !! 1%nat = Some o → dget 2 (k_state (o_known o)) = Some Constructing ∧
    dget 2 (k_parent (o_known o)) = Some (Some 1).
Proof.
  destruct (observations_latest _ _ _ _ sample_obs parse_sample) as [Hlen H]; [by_compute|].
  apply conj; [rewrite Hlen; by_compute|]. intros o Ho.
  destruct (H 1%nat o (default (new_hold 0 0 false) (sample_holds !! 1%nat)) Ho) as (_ & Hp & _); [by_compute|].
  destruct (Hp 2) as (Hst & _ & _ & Hpar); [by_compute|]. apply conj.
  - rewrite Hst. by_compute.
  - apply Hpar. exists (default (new_hold 0 0 false) (sample_holds !! 1%nat)). apply conj; by_compute.
Defined.

(** ** Safety *)

(** A result or a [TraceError], which [main] reports. *)
Definition traced {A} (m : res A) : Prop := (∃ a, m = Ok a) ∨ (∃ msg, m = Err (TraceError msg)).

Lemma traced_bind {A B} (m : res A) (f : A → res B) :
  traced m → (∀ a, m = Ok a → traced (f a)) → traced (m ≫= f).
Proof. intros [[a ->]|[msg ->]] Hf; [by apply Hf|]. right. by exists msg. Qed.

Lemma traced_Ok {A} (a : A) : traced (Ok a).
Proof. left. by exists a. Qed.

Lemma traced_foldM {S A} (I : S → Prop) (f : S → A → res S) s l :
  I s → (∀ s a, I s → a ∈ l → traced (f s a) ∧ ∀ s', f s a = Ok s' → I s') →
  traced (foldM f s l).
Proof.
  revert s. induction l as [|a l IH]; intros s Hs Hf; cbn; [apply traced_Ok|].
  destruct (Hf s a Hs ltac:(by left)) as [Ht Hi]. apply traced_bind; [done|].
  intros s' Hs'. apply IH; [by apply Hi|]. intros s0 b Hs0 Hb. apply Hf; [done|by right].
Qed.

Lemma hold_pids_in holds h pid : h ∈ holds → pid ∈ hold_pids h → pid ∈ window_pids holds.
Proof.
  intros Hh Hp. unfold window_pids. rewrite elem_of_remove_dups, list_elem_of_In, in_concat.
  exists (hold_pids h). rewrite <- !list_elem_of_In. split; [|done]. apply list_elem_of_fmap. eauto.
Qed.

Lemma process_pids holds h pid : h ∈ holds → pid ∈ map fst (h_processes h) → pid ∈ window_pids holds.
Proof. intros Hh Hp. apply (hold_pids_in _ h); [done|]. apply elem_of_app. by left. Qed.

Lemma gone_pids holds h pid : h ∈ holds → pid ∈ h_gone h → pid ∈ window_pids holds.
Proof.
  intros Hh Hp. apply (hold_pids_in _ h); [done|]. unfold hold_pids. rewrite !elem_of_app. tauto.
Qed.

Lemma link_parents_traced holds :
  Forall hold_ok holds → traced (foldM link_parents (map (fun pid => (pid, None)) (window_pids holds)) holds).
Proof.
  intros Hok. rewrite Forall_forall in Hok.
  apply (traced_foldM (fun d => map fst d = window_pids holds)); [apply (keys_map (fun _ => None))|].
  intros d h Hd Hh. split.
  2:{ intros d' H. unfold link_parents in H. apply (foldM_linked _ (fun pl => [pl])) in H.
      - by rewrite (ln_keys _ _ _ H).
      - intros. by eapply link_parent_linked. }
  unfold link_parents. apply (traced_foldM (fun d => map fst d = window_pids holds)); [done|].
  intros d1 [p [l|]] Hd1 Hin.
  2:{ split; [apply traced_Ok|]. by intros d2 [= <-]. }
  split; [|intros d2 H2; by rewrite (ln_keys _ _ _ (link_parent_linked _ _ _ _ H2))].
  assert (p ∈ map fst d1) as Hp.
  { rewrite Hd1. apply (process_pids _ h); [done|]. rewrite <- (ho_parents _ (Hok h Hh)).
    apply list_elem_of_fmap. by exists (p, Some l). }
  destruct (dget_Some_in _ _ Hp) as [old Hold]. unfold link_parent, dget_or_raise. cbn [fst snd].
  rewrite Hold. cbn. destruct old as [q|]; [|apply traced_Ok].
  destruct (q =? l); [apply traced_Ok|]. right. by eexists.
Qed.

Lemma see_hold_traced cores k h : hold_ok h → traced (see_hold cores k h).
Proof.
  intros Hh. unfold see_hold. rewrite see_processes_spec by (intros; by rewrite ho_reasons).
  cbn [mbind res_bind]. apply (traced_foldM (fun _ => True)); [done|]. intros k1 c _ _. split; [|done].
  unfold see_core. destruct (dmem _ _); [apply traced_Ok|]. right. by eexists.
Qed.

Lemma see_hold_keys cores holds k h k' :
  hold_ok h → h ∈ holds → (∀ pid, pid ∈ window_pids holds → pid ∈ map fst (k_state k)) →
  see_hold cores k h = Ok k' → map fst (k_state k') = map fst (k_state k).
Proof.
  intros Hok Hh Hk H. unfold see_hold in H.
  rewrite see_processes_spec in H by (intros; by rewrite ho_reasons).
  cbn [mbind res_bind] in H. rewrite see_gone_spec in H. cbn in H.
  apply see_cores_spec in H as [-> _]. cbn.
  assert (map fst (dupdate (k_state k) (map (fun p => (p.1, p.2.1)) (h_processes h))) = map fst (k_state k)) as H1.
  { apply dupdate_keys. intros p. rewrite (map_fst_snd fst). eauto using process_pids. }
  rewrite dupdate_keys; [done|]. intros p. rewrite (keys_map (fun _ => Reaped)), H1. eauto using gone_pids.
Qed.

Lemma tla_fields_ok {V} name (show : V → str) d keys :
  (∀ k, k ∈ keys → ∃ v, dget k d = Some v) → ∃ s, tla_fields name show d keys = Ok s.
Proof.
  intros H. unfold tla_fields.
  destruct (mapM_res_total (fun k => v ← dget_or_raise k d; Ok (name k, show v)) keys) as [fs ->]; [|by eexists].
  apply Forall_forall. intros k Hk. destruct (H k Hk) as [v Hv]. unfold dget_or_raise. rewrite Hv. by eexists.
Qed.

Lemma observations_traced lines slots total holds :
  parse lines = Ok (slots, total, holds) → traced (observations slots holds).
Proof.
  intros (Hok & Hne & _)%parse_holds_ok. unfold observations. destruct holds as [|s rest] eqn:E; [done|].
  rewrite <- E in *. apply traced_bind; [rewrite E; apply traced_Ok|]. intros s' _.
  apply traced_bind; [by apply link_parents_traced|]. intros parent _.
  match goal with |- traced (snd <$> ?m) => assert (traced m) as [[a ->]|[msg ->]] end;
    [|by left; eexists|by right; eexists].
  apply (traced_foldM (fun _ => True)); [done|]. intros [k obs] h _ Hin. split; [|done].
  rewrite Forall_forall in Hok. unfold observe. apply traced_bind; [by apply see_hold_traced; auto|].
  intros. apply traced_Ok.
Qed.

(** What an observation has an entry for. *)
Definition covers (pids : list Z) (cores : Z) (k : known) : Prop :=
  (∀ p, p ∈ pids → is_Some (dget p (k_state k)) ∧ is_Some (dget p (k_owner k)) ∧
    is_Some (dget p (k_reason k)) ∧ is_Some (dget p (k_parent k))) ∧
  ∀ c, c ∈ zrange cores → is_Some (dget c (k_current k)) ∧ is_Some (dget c (k_stands k)).

Lemma knows_covers holds pids cores k0 k : knows holds k0 k → covers pids cores k0 → covers pids cores k.
Proof.
  intros [K1 K2 K3 K4 K5 K6] [Hp Hc]. split.
  - intros p Hin. destruct (Hp p Hin) as (? & ? & ? & ?). rewrite K1, K2, K3, K4.
    split_and!; [destruct (latest _ _)..|]; eauto.
  - intros c Hin. destruct (Hc c Hin) as (? & ?). rewrite K5, K6. split; destruct (latest _ _); eauto.
Qed.

Lemma opening_covers holds snapshot rest parent cores :
  linked (concat (map h_parents holds)) (map (fun pid => (pid, None)) (window_pids holds)) parent →
  covers (window_pids holds) cores
    (Known (opening_states snapshot rest (window_pids holds))
      (map (fun pid => (pid, None)) (window_pids holds)) parent
      (map (fun pid => (pid, 0)) (window_pids holds))
      (map (fun c => (c, None)) (zrange cores)) (map (fun c => (c, None)) (zrange cores))).
Proof.
  intros Hl. split; cbn.
  - intros p Hp. rewrite (opening_states_get snapshot rest _ p Hp).
    rewrite (dget_keys (fun _ => None)), (dget_keys (fun _ => 0)) by done. split_and!; try by eexists.
    apply dget_Some_in. rewrite (ln_keys _ _ _ Hl). by rewrite (keys_map (fun _ => None)).
  - intros c Hc. by rewrite (dget_keys (fun _ => None)) by done.
Qed.

Lemma tla_row_ok pids cores o : covers pids cores (o_known o) → ∃ row, tla_row cores pids o = Ok row.
Proof.
  intros [Hp Hc]. unfold tla_row.
  destruct (tla_fields_ok (fun p => pid_name (Some p)) (fun s => tla_string (pst_name s)) (k_state (o_known o)) pids) as [s1 ->];
    [intros k Hk; by destruct (Hp k Hk) as (? & _)|].
  destruct (tla_fields_ok (fun p => pid_name (Some p)) (fun w => tla_string (core_name w)) (k_owner (o_known o)) pids) as [s2 ->];
    [intros k Hk; by destruct (Hp k Hk) as (_ & ? & _)|].
  destruct (tla_fields_ok (fun p => pid_name (Some p)) dec (k_reason (o_known o)) pids) as [s3 ->];
    [intros k Hk; by destruct (Hp k Hk) as (_ & _ & ? & _)|].
  destruct (tla_fields_ok (fun c => core_name (Some c)) (fun p => tla_string (pid_name p)) (k_current (o_known o)) (zrange cores)) as [s4 ->];
    [intros k Hk; by destruct (Hc k Hk) as (? & _)|].
  destruct (tla_fields_ok (fun c => core_name (Some c))
    (fun p => tla_string (match p with None => IDLE | Some _ => pid_name p end)) (k_stands (o_known o)) (zrange cores)) as [s5 ->];
    [intros k Hk; by destruct (Hc k Hk) as (_ & ?)|].
  by eexists.
Qed.

Lemma trace_module_ok lines slots total holds obs :
  parse lines = Ok (slots, total, holds) → observations slots holds = Ok obs →
  ∃ m, trace_module slots obs = Ok m.
Proof.
  intros (Hok & _ & _)%parse_holds_ok (s & rest & parent & k0 & kl & Hh & Hln & Hk0 & Hf)%observations_inv.
  destruct (observe_prefixes _ _ _ _ _ Hf) as (_ & Hlen & Hpre).
  assert (covers (window_pids holds) slots k0) as Hc0 by (rewrite Hk0; by apply opening_covers).
  assert (∀ o, o ∈ obs → covers (window_pids holds) slots (o_known o)) as Hcov.
  { intros o [i Hi]%list_elem_of_lookup. destruct (Hpre i o Hi) as (h & ki & _ & -> & Hs). cbn.
    apply see_holds_knows in Hs; [|by apply Forall_take]. by eapply knows_covers. }
  destruct obs as [|first obs']; [by rewrite Hh in Hlen|]. unfold trace_module. cbn [item].
  change (item (first :: obs') 0) with (Ok first). cbn [mbind res_bind].
  destruct (Hpre 0%nat first eq_refl) as (h & k1 & Hh0 & Ho & Hs). rewrite Hh in Hh0. injection Hh0 as <-.
  assert (∀ p, p ∈ sorted_Z (map fst (k_state (o_known first))) → p ∈ window_pids holds) as Hpids.
  { intros p. rewrite sorted_Z_perm, Ho. cbn. rewrite Hh in Hs. cbn in Hs. rewrite take_0 in Hs. cbn in Hs.
    apply bind_Ok_inv in Hs as (k2 & Hs & [= <-]). rewrite Forall_forall in Hok.
    assert (map fst (k_state k0) = window_pids holds) as Hk by (rewrite Hk0; apply opening_states_keys).
    rewrite (see_hold_keys slots holds k0 s); [by rewrite Hk|apply Hok|..|done].
    - rewrite Hh. by left.
    - rewrite Hh. by left.
    - by rewrite Hk. }
  destruct (mapM_res_total (tla_row slots (sorted_Z (map fst (k_state (o_known first))))) (first :: obs')) as [rows Hrows].
  { apply Forall_forall. intros o Ho'. apply tla_row_ok. destruct (Hcov o Ho') as [Hp Hc]. split; auto. }
  rewrite Hrows. cbn [mbind res_bind].
  destruct (tla_fields_ok (fun p => pid_name (Some p)) (fun p => tla_string (pid_name p)) (k_parent (o_known first))
    (sorted_Z (map fst (k_state (o_known first))))) as [par ->]; [|by eexists].
  intros p Hp. destruct (Hcov first ltac:(by left)) as [Hc _].
  by destruct (Hc p (Hpids p Hp)) as (_ & _ & _ & ?).
Qed.

(** A parsed window reaches TLC.  For every log that parses, the observations
    are made and the TLA+ module of them is written, or the window is refused
    with a [TraceError] ([main] prints it): no dict lookup of the two fails. *)
Theorem window_reaches_tlc lines slots total holds :
  parse lines = Ok (slots, total, holds) →
  (∃ obs m, observations slots holds = Ok obs ∧ trace_module slots obs = Ok m) ∨
  ∃ msg, observations slots holds = Err (TraceError msg).
Proof.
  intros H. destruct (observations_traced _ _ _ _ H) as [[obs Ho]|[msg ->]]; [left|right; by exists msg].
  destruct (trace_module_ok _ _ _ _ _ H Ho) as [m Hm]. by exists obs, m.
Qed.

Lemma window_reaches_tlc_witness :
  (∃ obs m, observations 2 sample_holds = Ok obs ∧ trace_module 2 obs = Ok m) ∨
  ∃ msg, observations 2 sample_holds = Err (TraceError msg).
Proof. apply (window_reaches_tlc _ _ _ _ parse_sample). Defined.

(** ** The verdict *)

Lemma holds_matched (tlc : str → str → res str) cores holds without model counts :
  check tlc cores holds without model = Ok ([], counts) ↔
  ∃ obs m output, observations cores holds = Ok obs ∧ trace_module cores obs = Ok m ∧
    tlc m (trace_config FIXED INVARIANTS without model 0) = Ok output ∧
    violated_invariant output = Some ($"TraceUnfinished") ∧ counts = count_actions ACTIONS output.
Proof.
  unfold check, run_tlc. split.
  - intros H. apply bind_Ok_inv in H as (obs & Ho & H).
    apply bind_Ok_inv in H as (output & Ht & H). apply bind_Ok_inv in Ht as (m & Hm & Ht).
    exists obs, m, output. split_and!; try done.
    all: destruct (violated_invariant output) as [name|];
      [case_decide as Ec|destruct (completed output); [|done]].
    all: try (by subst; simplify_eq).
    all: repeat (apply bind_Ok_inv in H as (? & _ & H)); by simplify_eq.
  - intros (obs & m & output & Ho & Hm & Ht & Hviol & ->). rewrite Ho. cbn [mbind res_bind].
    rewrite Hm. cbn [mbind res_bind]. rewrite Ht. cbn [mbind res_bind]. rewrite Hviol.
    by rewrite decide_True.
Qed.

Lemma protocol_passes (tlc : str → str → res str) lines without model :
  (∃ out, main tlc lines without model = Ok (0, out)) ↔
  ∃ slots total holds counts, parse (map chomp lines) = Ok (slots, total, holds) ∧
    check tlc slots holds without model = Ok ([], counts) ∧ unseen REQUIRED without counts = [].
Proof.
  unfold main. split.
  - intros [out Hm]. destruct (parse (map chomp lines)) as [[[slots total] holds]|e]; cbn [mbind res_bind] in Hm.
    2:{ destruct e; try case_decide; simplify_eq. }
    destruct (check tlc slots holds without model) as [[errors counts]|e] eqn:Ec; cbn [mbind res_bind] in Hm.
    2:{ destruct e; try case_decide; simplify_eq. }
    destruct errors; [|done]. exists slots, total, holds, counts. split_and!; [done|done|].
    destruct (unseen REQUIRED without counts); [done|simplify_eq].
  - intros (slots & total & holds & counts & -> & Hc & Hu). cbn [mbind res_bind]. rewrite Hc.
    cbn [mbind res_bind]. rewrite Hu. by eexists.
Qed.

Lemma protocol_actions : Forall (fun step => Forall (fun a => a ∈ ACTIONS) step) REQUIRED.
Proof. by_compute. Qed.

(** When the protocol check passes.  For any TLC, [main] exits with 0 exactly
    when the log parses, its observations are written for TLC, TLC's answer is
    that the trace was matched to its end, and every required step but one left
    out on request was taken by some state of the behaviour TLC printed. *)
Theorem protocol_pass_iff (tlc : str → str → res str) lines without model :
  (∃ out, main tlc lines without model = Ok (0, out)) ↔
  ∃ slots total holds obs m output,
    parse (map chomp lines) = Ok (slots, total, holds) ∧ observations slots holds = Ok obs ∧
    trace_module slots obs = Ok m ∧
    tlc m (trace_config FIXED INVARIANTS without model 0) = Ok output ∧
    violated_invariant output = Some ($"TraceUnfinished") ∧
    ∀ step, step ∈ REQUIRED →
      (∃ a, without = Some a ∧ a ∈ step) ∨
      (∃ a s, a ∈ step ∧ s ∈ behaviour output ∧ act_of s = a).
Proof.
  rewrite protocol_passes. split.
  - intros (slots & total & holds & counts & Hp & Hc & Hu).
    apply holds_matched in Hc as (obs & m & output & Ho & Hm & Ht & Hv & ->).
    exists slots, total, holds, obs, m, output. split_and!; try done.
    by apply (required_seen ACTIONS); [apply protocol_actions|].
  - intros (slots & total & holds & obs & m & output & Hp & Ho & Hm & Ht & Hv & Hs).
    exists slots, total, holds, (count_actions ACTIONS output). split_and!; [done|apply holds_matched; eauto 10|].
    by apply required_seen; [apply protocol_actions|].
Qed.
