(* ===== verification/LogRing.v ===== *)
(** * The log-ring trace validator, scripts/validate_log_ring_trace.py

    [parse] reads the one window of a kernel log into streams of events,
    [opening] recovers the state the window opens in, [trace_module] writes the
    TLA+ module that TLC reads and [check] turns TLC's answer into a verdict. *)
From S2P Require Import Prelude Text Dict Tlc.

Definition WRITER_ACTIONS : list str :=
  [$"Reserve"; $"Claim"; $"Refuse"; $"Write"; $"Commit"; $"CommitLost"].
Definition READER_ACTIONS : list str :=
  [$"ReadHead"; $"HeadCopy"; $"HeadCheck"; $"ContCopy"; $"ContCheck"].
Definition ACTIONS : list str := WRITER_ACTIONS ++ READER_ACTIONS.
Definition MODEL_CONSTANTS : list str :=
  [$"TRUST_RESERVED"; $"CHECK_PREV"; $"CONT_SEQ"; $"REPORT_REFUSAL"].
Definition FIXED : list (str * bool) :=
  [($"TRUST_RESERVED", false); ($"CHECK_PREV", true); ($"CONT_SEQ", true);
   ($"REPORT_REFUSAL", true)].
Definition MODEL_K : Z := 2.
Definition COUNTER_MARGIN : Z := 2.
Definition UNSTAMPED : Z := Z.shiftl 1 30.
Definition REQUIRED : list (list str) :=
  [[$"Reserve"]; [$"Claim"]; [$"Write"]; [$"Commit"]; [$"ReadHead"]; [$"HeadCopy"];
   [$"HeadCheck"]].

(** ** Slot words *)

Inductive wstate : Type := Free | Reserved | Committed | Discarded.
#[global] Instance wstate_eq_dec : EqDecision wstate.
Proof. solve_decision. Defined.

(** [STATES]: the two low bits of a raw word. *)
Definition STATES (code : Z) : wstate :=
  if code =? 0 then Free else if code =? 1 then Reserved
  else if code =? 2 then Committed else Discarded.
Definition state_name (st : wstate) : str :=
  match st with
  | Free => $"Free" | Reserved => $"Reserved" | Committed => $"Committed"
  | Discarded => $"Discarded"
  end.
Definition STATE_RANK (st : wstate) : Z :=
  match st with Free => 0 | Reserved => 1 | Committed => 2 | Discarded => 2 end.

Record word := Word { w_seq : Z; w_state : wstate; w_span : Z }.
#[global] Instance word_eq_dec : EqDecision word.
Proof. solve_decision. Defined.

(** [w.key() < v.key()]: the lexicographic order on (sequence, rank). *)
Definition key_lt (w v : word) : bool :=
  (w_seq w <? w_seq v)
  || ((w_seq w =? w_seq v) && (STATE_RANK (w_state w) <? STATE_RANK (w_state v))).

Definition decode (token : str) : res word :=
  match py_int 0 token with
  | Err _ => Err (TraceError ($"malformed slot word " ++ py_repr token))
  | Ok raw =>
      let st := STATES (Z.land raw 3) in
      if decide (st = Free) then
        if negb (raw =? 0)
        then Err (TraceError ($"a Free slot word that is not 0: " ++ token))
        else Ok (Word (-1) Free 0)
      else Ok (Word (Z.shiftr raw 16) st (Z.land (Z.shiftr raw 4) 15))
  end.

(** ** Events and windows *)

Inductive ekind : Type :=
| KReserve | KClaim | KRefuse | KCommitlost | KWrite | KCommit
| KHead | KCopy | KCheck | KCcopy | KCcheck.
#[global] Instance ekind_eq_dec : EqDecision ekind.
Proof. solve_decision. Defined.

Definition kind_name (k : ekind) : str :=
  match k with
  | KReserve => $"reserve" | KClaim => $"claim" | KRefuse => $"refuse"
  | KCommitlost => $"commitlost" | KWrite => $"write" | KCommit => $"commit"
  | KHead => $"head" | KCopy => $"copy" | KCheck => $"check" | KCcopy => $"ccopy"
  | KCcheck => $"ccheck"
  end.

(** [WRITER_KINDS]: the kinds of a writer's event and their argument counts. *)
Definition WRITER_KINDS : list (str * (ekind * Z)) :=
  [($"reserve", (KReserve, 2)); ($"claim", (KClaim, 4)); ($"refuse", (KRefuse, 4));
   ($"commitlost", (KCommitlost, 4)); ($"write", (KWrite, 3)); ($"commit", (KCommit, 3))].

(** [READER_KINDS]: the kinds of a reader's event and their outcomes. *)
Definition READER_KINDS : list (str * (ekind * option (list str))) :=
  [($"head", (KHead, Some [$"copy"; $"lost"; $"skip"])); ($"copy", (KCopy, None));
   ($"check", (KCheck, Some [$"kept"; $"lost"; $"cont"]));
   ($"ccopy", (KCcopy, Some [$"copy"; $"lost"]));
   ($"ccheck", (KCcheck, Some [$"kept"; $"lost"]))].

Record event := Event {
  e_stream : Z;
  e_kind : ekind;
  e_first : Z;
  e_k : Z;
  e_i : Z;
  e_seq : Z;
  e_word : option word;
  e_out : str;
  e_line : str;
  e_stamp : option (Z * Z);
}.
#[global] Instance event_eq_dec : EqDecision event.
Proof. solve_decision. Defined.

Record window := Window {
  v_cpus : Z;
  v_slots : Z;
  v_head : Z;
  v_streams : list (Z * list event);
  v_reader : option (Z * Z);
}.

#[global] Instance window_eq_dec : EqDecision window.
Proof. solve_decision. Defined.

Definition stream_of (v : window) (s : Z) : list event := default [] (dget s (v_streams v)).
Definition append_event (v : window) (e : event) : window :=
  Window (v_cpus v) (v_slots v) (v_head v)
    (dset (e_stream e) (stream_of v (e_stream e) ++ [e]) (v_streams v)) (v_reader v).

Definition number (token text : str) : res Z :=
  if isdigit token then Ok (int_of_digits token)
  else Err (TraceError ($"malformed event: " ++ text)).

Definition malformed (text : str) : exn := TraceError ($"malformed event: " ++ text).

(** A stamp [@T0+D] at the end of the fields: the interval and the fields
    without it. *)
Definition take_stamp (text : str) (fields : list str) : res (option (Z * Z) * list str) :=
  let last := default [] (last fields) in
  if startswith last ($"@") then
    match fullmatch_numbers [$"@"; $"+"] last with
    | Some [t0; d] => Ok (Some (t0, t0 + d), take (length fields - 1)%nat fields)
    | _ => Err (TraceError ($"malformed stamp: " ++ text))
    end
  else Ok (None, fields).

(** A line [r begin FIRST END]. *)
Definition reader_begin (v : window) (text : str) (args : list str) : res window :=
  if (match v_reader v with Some _ => true | None => false end)
     || negb (bool_decide (stream_of v 0 = []))
  then Err (TraceError ($"the reader's begin is not its first and only one: " ++ text)) else
  match args with
  | [a; b] =>
      first ← number a text;
      end_ ← number b text;
      Ok (Window (v_cpus v) (v_slots v) (v_head v) (v_streams v) (Some (first, end_)))
  | _ => Err (malformed text)
  end.

Definition too_wide (n : Z) (text : str) : exn :=
  TraceError ($"a record of " ++ dec n ++ $" slot(s) is outside LogRing.tla's bound K = "
    ++ dec MODEL_K ++ $": " ++ text).

Definition reader_event (v : window) (text kind : str) (args : list str)
    (stamp : option (Z * Z)) : res window :=
  if (match v_reader v with None => true | Some _ => false end)
  then Err (TraceError ($"a reader event before its begin: " ++ text)) else
  match dget kind READER_KINDS with
  | None => Err (malformed text)
  | Some (k, None) =>
      match args with
      | [a] => seq ← number a text; Ok (append_event v (Event 0 k 0 0 0 seq None [] text stamp))
      | _ => Err (malformed text)
      end
  | Some (k, Some outs) =>
      match args with
      | [a; w; out] =>
          seq ← number a text;
          w ← decode w;
          if w_span w >? MODEL_K then Err (too_wide (w_span w) text) else
          if negb (bool_decide (out ∈ outs)) then Err (malformed text) else
          Ok (append_event v (Event 0 k 0 0 0 seq (Some w) out text stamp))
      | _ => Err (malformed text)
      end
  end.

Definition writer_event (v : window) (text who kind : str) (args : list str)
    (stamp : option (Z * Z)) : res window :=
  match fullmatch_numbers [$"w"] who, dget kind WRITER_KINDS with
  | Some [cpu], Some (k_, want) =>
      if cpu >=? v_cpus v
      then Err (TraceError ($"an event of cpu " ++ dec cpu ++ $" in a window of "
                 ++ dec (v_cpus v) ++ $" cpu(s): " ++ text)) else
      if negb (zlen args =? want) then Err (malformed text) else
      a0 ← item args 0; a1 ← item args 1;
      first ← number a0 text;
      k ← number a1 text;
      if negb ((1 <=? k) && (k <=? MODEL_K)) then Err (too_wide k text) else
      i ← (if want >=? 3 then
             a2 ← item args 2;
             i ← number a2 text;
             if i >=? k then Err (TraceError ($"slot index past its record: " ++ text)) else Ok i
           else Ok 0);
      w ← (if want =? 4 then a3 ← item args 3; w ← decode a3; Ok (Some w) else Ok None);
      Ok (append_event v (Event (cpu + 1) k_ first k i (first + i) w [] text stamp))
  | _, _ => Err (malformed text)
  end.

(** One turn of the loop over the window's lines. *)
Definition parse_event (v : window) (text : str) : res window :=
  let fields := words text in
  if zlen fields <? 2 then Err (malformed text) else
  '(stamp, fields) ← take_stamp text fields;
  who ← item fields 0;
  kind ← item fields 1;
  let args := drop 2 fields in
  if bool_decide (stamp ≠ None) && bool_decide (who = $"r") && bool_decide (kind = $"begin")
  then Err (TraceError ($"the reader's begin carries no stamp: " ++ text)) else
  if decide (who = $"r") then
    if decide (kind = $"begin") then reader_begin v text args
    else reader_event v text kind args stamp
  else writer_event v text who kind args stamp.

(** The stamps of a stream do not go backwards. *)
Fixpoint check_stamps (before : option (str * Z)) (es : list event) : res unit :=
  match es with
  | [] => Ok ()
  | e :: es =>
      match e_stamp e with
      | None => check_stamps before es
      | Some (t0, t1) =>
          _ ← (match before with
               | Some (line, b1) =>
                   if t0 <? b1
                   then Err (TraceError ($"a stream's stamps go backwards: " ++ line ++ $" then "
                              ++ e_line e)) else Ok ()
               | None => Ok ()
               end);
          check_stamps (Some (e_line e, t1)) es
      end
  end.

(** [LINE_RE]: the lines of the report, without their prefix. *)
Definition body_of (lines : list str) : list str := omap (strip_prefix ($"log-ring-trace: ")) lines.

Definition empty_window (cpus slots head : Z) : window :=
  Window cpus slots head ((0, []) :: map (fun c => (c + 1, [])) (zrange cpus)) None.

Definition parse (lines : list str) : res window :=
  let body := body_of lines in
  match begins_of body with
  | [at_] =>
      let head_line := default [] (body !! at_) in
      match fullmatch_numbers [$"begin cpus="; $" slots="; $" head="; $" stored="; $" lost="]
              head_line with
      | Some [cpus; slots; head; stored; lost] =>
          let events := drop (S at_) body in
          if negb (bool_decide (last events = Some ($"end")))
          then Err (TraceError ($"the window has no end line: the report was cut")) else
          let events := take (length events - 1)%nat events in
          if negb (lost =? 0)
          then Err (TraceError ($"the window lost " ++ dec lost
                     ++ $" event(s); a check with a gap in it proves nothing")) else
          if negb (zlen events =? stored)
          then Err (TraceError ($"the header says " ++ dec stored ++ $" event(s) and "
                     ++ dec (zlen events) ++ $" arrived")) else
          v ← foldM parse_event (empty_window cpus slots head) events;
          _ ← foldM (fun _ s => check_stamps None (snd s)) () (v_streams v);
          Ok v
      | _ => Err (TraceError ($"malformed header: " ++ head_line))
      end
  | begins =>
      Err (TraceError ($"expected one log-ring-trace window, found " ++ dec (zlen begins)))
  end.

(** [stamps]: the interval of every event, stream by stream, rebased.  The
    script keys them by the identity of the event; here they stand in its
    place. *)
Definition every_event (v : window) : list event := concat (map snd (v_streams v)).

Definition list_min (l : list Z) (default : Z) : Z :=
  match l with [] => default | x :: l => foldl Z.min x l end.

Definition stamp_low (v : window) : Z :=
  list_min (omap (fun e => fst <$> e_stamp e) (every_event v)) 0 - 1.

Definition stamp_event (low : Z) (e : event) : res (Z * Z) :=
  match e_stamp e with
  | None => Ok (0, UNSTAMPED)
  | Some (t0, t1) =>
      let '(t0, t1) := (t0 - low, t1 - low) in
      if t1 >=? UNSTAMPED
      then Err (TraceError ($"the window spans more than " ++ dec UNSTAMPED
                 ++ $" counter ticks: " ++ e_line e))
      else Ok (t0, t1)
  end.

Definition stamps (v : window) : res (list (list (Z * Z))) :=
  mapM_res (fun s => mapM_res (stamp_event (stamp_low v)) (snd s)) (v_streams v).

(** ** The opening state *)

Definition mark (k i : Z) : Z := if i =? 0 then k else 0.

(** The words an event observed or implies. *)
Definition event_words (e : event) : list (Z * word) :=
  match e_word e with Some w => [(e_seq e, w)] | None => [] end
  ++ (if bool_decide (e_kind e ∈ [KClaim; KWrite; KCommit])
      then [(e_seq e, Word (e_seq e) Reserved (mark (e_k e) (e_i e)))] else []).

(** The words of the slots a writer held before the window, from its first
    event, when that is not a reservation. *)
Definition held_words (first : event) : list (Z * word) :=
  concat (map (fun j =>
      let seq := e_first first + j in
      let held := Word seq Reserved (mark (e_k first) j) in
      if bool_decide (e_kind first ∈ [KClaim; KRefuse]) && (j <? e_i first) then [(seq, held)]
      else if bool_decide (e_kind first = KWrite) then [(seq, held)]
      else if bool_decide (e_kind first ∈ [KCommit; KCommitlost]) then
        [(seq, if j <=? e_i first then held else Word seq Committed (mark (e_k first) j))]
      else []) (zrange (e_k first))).

Definition stream_words (s : Z * list event) : list (Z * word) :=
  concat (map event_words (snd s))
  ++ match snd s with
     | e :: _ => if negb (fst s =? 0) && bool_decide (e_kind e ≠ KReserve) then held_words e else []
     | [] => []
     end.

Definition implied_words (v : window) : list (Z * word) :=
  concat (map stream_words (v_streams v)).

Inductive wpc : Type := PcIdle | PcClaim | PcWrite | PcCommit.
#[global] Instance wpc_eq_dec : EqDecision wpc.
Proof. solve_decision. Defined.
Definition pc_name (p : wpc) : str :=
  match p with
  | PcIdle => $"idle" | PcClaim => $"claim" | PcWrite => $"write" | PcCommit => $"commit"
  end.

Record init_state := InitState {
  i_head : Z;
  i_word : list (Z * word);
  i_text : list (Z * Z);
  i_writers : list (Z * (wpc * Z * Z * Z));
  i_rnext : Z;
}.

Definition rel (base seq : Z) : Z := if seq >=? 0 then seq - base else -1.

(** Every sequence the window names. *)
Definition window_seqs (v : window) : list Z :=
  map fst (implied_words v)
  ++ omap (fun sw : Z * word => if w_seq sw.2 >=? 0 then Some (w_seq sw.2) else None) (implied_words v)
  ++ concat (map (fun s : Z * list event => if negb (s.1 =? 0) then map e_first s.2 else [])
       (v_streams v))
  ++ [v_head v]
  ++ match v_reader v with Some (first, end_) => [first; end_] | None => [] end.

(** [a // n] and [a % n]: [ZeroDivisionError] for zero. *)
Definition floordiv (a n : Z) : res Z := if n =? 0 then Err ZeroDivisionError else Ok (a / n).
Definition pymod (a n : Z) : res Z := if n =? 0 then Err ZeroDivisionError else Ok (a mod n).

Definition opening_base (v : window) : res Z :=
  q ← floordiv (list_min (window_seqs v) 0) (v_slots v); Ok (q * v_slots v).

Definition reserves (v : window) : list Z :=
  map e_first (List.filter (fun e => bool_decide (e_kind e = KReserve)) (every_event v)).

(** The earliest word of each slot. *)
Definition add_word (n : Z) (word_ : list (Z * word)) (sw : Z * word) : res (list (Z * word)) :=
  slot ← pymod sw.1 n;
  Ok (match dget slot word_ with
      | None => dset slot sw.2 word_
      | Some w => if key_lt sw.2 w then dset slot sw.2 word_ else word_
      end).

(** A writer's opening state and the slots it has already written. *)
Definition open_writer (n base : Z) (v : window)
    (st : list (Z * (wpc * Z * Z * Z)) * list (Z * Z)) (stream : Z)
    : res (list (Z * (wpc * Z * Z * Z)) * list (Z * Z)) :=
  let '(writers, text) := st in
  events ← dget_or_raise stream (v_streams v);
  match events with
  | [] => Ok (dset stream (PcIdle, 0, 0, 0) writers, text)
  | first :: _ =>
      if decide (e_kind first = KReserve) then Ok (dset stream (PcIdle, 0, 0, 0) writers, text) else
      pc ← (match e_kind first with
            | KClaim | KRefuse => Ok PcClaim
            | KWrite => Ok PcWrite
            | KCommit | KCommitlost => Ok PcCommit
            | _ => Err KeyError
            end);
      let writers := dset stream (pc, rel base (e_first first), e_k first, e_i first) writers in
      let done := match pc with PcWrite => e_i first | PcCommit => e_k first | _ => 0 end in
      text ← foldM (fun text j =>
                 slot ← pymod (e_first first + j) n;
                 Ok (dset slot (rel base (e_first first + j)) text)) text (zrange done);
      Ok (writers, text)
  end.

Definition opening (v : window) : res (Z * init_state) :=
  let n := v_slots v in
  base ← opening_base v;
  let head := rel base (list_min (v_head v :: reserves v) 0) in
  word_ ← foldM (add_word n) [] (implied_words v);
  let text := foldl (fun text sw =>
                  if bool_decide (w_state sw.2 = Committed)
                  then dset sw.1 (rel base (w_seq sw.2)) text else text) [] word_ in
  '(writers, text) ← foldM (open_writer n base v) ([], text) (py_range 1 (v_cpus v + 1) 1);
  let reader := match v_reader v with Some (first, _) => rel base first | None => 0 end in
  Ok (base, InitState head word_ text writers reader).

(** ** The module TLC reads *)

Definition tla_word (w : word) (base : Z) : str :=
  $"[seq |-> " ++ dec (rel base (w_seq w)) ++ $", st |-> " ++ quo ++ state_name (w_state w) ++ quo
  ++ $", span |-> " ++ dec (w_span w) ++ $"]".

Definition FREE : word := Word (-1) Free 0.

Definition tla_event (base : Z) (e : event) (when_ : Z * Z) : str :=
  $"[kind |-> " ++ quo ++ kind_name (e_kind e) ++ quo ++ $", first |-> " ++ dec (e_first e - base)
  ++ $", k |-> " ++ dec (e_k e) ++ $", i |-> " ++ dec (e_i e) ++ $", seq |-> "
  ++ dec (e_seq e - base) ++ $", w |-> " ++ tla_word (default FREE (e_word e)) base
  ++ $", out |-> " ++ quo ++ e_out e ++ quo ++ $", t0 |-> " ++ dec when_.1 ++ $", t1 |-> "
  ++ dec when_.2 ++ $"]".

Definition list_max (l : list Z) (default : Z) : Z :=
  match l with [] => default | x :: l => foldl Z.max x l end.

Definition top_seq (v : window) (base : Z) (init : init_state) : Z :=
  let every := every_event v in
  list_max ([i_head init; i_rnext init]
    ++ map (fun e => e_seq e - base) every
    ++ omap (fun e => if negb (e_stream e =? 0) then Some (e_first e - base + e_k e) else None) every
    ++ omap (fun e => w ← e_word e; if w_seq w >=? 0 then Some (w_seq w - base) else None) every
    ++ [0]) 0.

Definition column (f : wpc * Z * Z * Z → str) (writers : list (wpc * Z * Z * Z)) : str :=
  $"<<" ++ join ($", ") (map f writers) ++ $">>".

Definition tla_stream (base : Z) (s : Z * list event) (when_ : list (Z * Z)) : str :=
  match zip_with (tla_event base) s.2 when_ with
  | [] => $"<<>>"
  | body => $"<<" ++ join ($"," ++ nl ++ $"    ") body ++ $">>"
  end.

(** A line [name == value]. *)
Definition define (name : String.string) (value : str) : str := str_of name ++ $" == " ++ value ++ nl.

Definition trace_module (v : window) : res str :=
  '(base, init) ← opening v;
  let n := v_slots v in
  let max_seq := top_seq v base init + 2 * MODEL_K + 2 in
  when_ ← stamps v;
  let streams := zip_with (tla_stream base) (v_streams v) when_ in
  let words_ := join ($", ")
    (map (fun slot => tla_word (default FREE (dget slot (i_word init))) base) (zrange n)) in
  let texts := join ($", ") (map (fun slot => dec (default (-1) (dget slot (i_text init)))) (zrange n)) in
  writers ← mapM_res (fun s => dget_or_raise s (i_writers init)) (py_range 1 (v_cpus v + 1) 1);
  Ok ($"---- MODULE LogRingTraceData ----" ++ nl
      ++ $"\* Generated by scripts/validate_log_ring_trace.py; sequences shifted down by "
      ++ dec base ++ $"." ++ nl
      ++ $"EXTENDS Integers, Sequences" ++ nl
      ++ define "TraceN" (dec n)
      ++ define "TraceNW" (dec (v_cpus v))
      ++ define "TraceMaxSeq" (dec max_seq)
      ++ define "TraceMargin" (dec COUNTER_MARGIN)
      ++ define "InitHead" (dec (i_head init))
      ++ define "InitRnext" (dec (i_rnext init))
      ++ define "InitWords" ($"<<" ++ words_ ++ $">>")
      ++ define "InitWord" ($"[s \in 0 .. TraceN - 1 |-> InitWords[s + 1]]")
      ++ define "InitTexts" ($"<<" ++ texts ++ $">>")
      ++ define "InitText" ($"[s \in 0 .. TraceN - 1 |-> InitTexts[s + 1]]")
      ++ define "InitWpc" (column (fun w => quo ++ pc_name w.1.1.1 ++ quo) writers)
      ++ define "InitWseq" (column (fun w => dec w.1.1.2) writers)
      ++ define "InitWk" (column (fun w => dec w.1.2) writers)
      ++ define "InitWi" (column (fun w => dec w.2) writers)
      ++ $"TraceStreams == <<" ++ nl ++ $"  " ++ join ($"," ++ nl ++ $"  ") streams ++ nl ++ $">>" ++ nl
      ++ $"Trace == [s \in 0 .. TraceNW |-> TraceStreams[s + 1]]" ++ nl
      ++ $"====" ++ nl).

Definition INVARIANTS : list str :=
  [$"NoTornRead"; $"NoSilentLoss"; $"NoDoubleOwner"; $"NoNeedlessRefusal"; $"NotStopped";
   $"TraceUnfinished"].

(** ** The verdict *)

(** The next event of each stream after the positions TLC reached. *)
Definition next_event (consumed : list (Z * Z)) (s : Z * list event) : res (option str) :=
  let '(stream, events) := s in
  let at_ := default 0 (dget stream consumed) in
  let name := if stream =? 0 then $"reader" else $"cpu " ++ dec (stream - 1) in
  if at_ <? zlen events then
    e ← py_item events at_;
    Ok (Some ($"    " ++ name ++ $", event " ++ dec (at_ + 1) ++ $": " ++ e_line e))
  else Ok None.

Definition describe (v : window) (consumed : list (Z * Z)) : res str :=
  lines ← mapM_res (next_event consumed) (v_streams v);
  Ok (match omap id lines with
      | [] => $"    (every stream consumed)"
      | lines => join nl lines
      end).

(** [POS_RE.findall(text)]: the pairs [s :> c] of a printed function. *)
Fixpoint find_pairs (fuel : nat) (s : str) : list (Z * Z) :=
  match fuel with
  | O => []
  | S fuel =>
      match match_numbers [[]; $" :> "] s with
      | Some ([a; b], rest) => (a, b) :: find_pairs fuel rest
      | _ => match s with [] => [] | _ :: s => find_pairs fuel s end
      end
  end.

Definition consumed_of (state : tlc_state) : res (list (Z * Z)) :=
  let text := default [] (dget ($"pos") state) in
  match find_pairs (S (length text)) text with
  | (_ :: _) as pairs => Ok (foldl (fun d p => dset p.1 p.2 d) [] pairs)
  | [] =>
      match strip_by (fun c => bool_decide (c ∈ $"<>[] ")) text with
      | [] => Ok []
      | inner => vs ← mapM_res (py_int 10) (split_on 44 inner);
                 Ok (zip (map Z.of_nat (seq 0 (length vs))) vs)
      end
  end.

Section check.
(** TLC: what it prints for a module and a configuration, or the exception the
    script raises when its tools are missing. *)
Context (tlc : str → str → res str).

Definition run_tlc (v : window) (without : option str) (model : list (str * bool)) (stop_at : Z)
    : res str :=
  m ← trace_module v;
  tlc m (trace_config FIXED INVARIANTS without model stop_at).

Definition last_state (output : str) : tlc_state := default [] (last (behaviour output)).

Definition check (v : window) (without : option str) (model : list (str * bool))
    : res (list str * list (str * Z)) :=
  '(base, _) ← opening v;
  let shifted := $" (the model's sequences are the kernel's minus " ++ dec base ++ $")" in
  output ← run_tlc v without model 0;
  let counts := zero_counts ACTIONS in
  match violated_invariant output with
  | Some name =>
      if decide (name = $"TraceUnfinished") then Ok ([], count_actions ACTIONS output) else
      let last := last_state output in
      let act := unquote (default ($"?") (dget ($"act") last)) in
      consumed ← consumed_of last;
      next ← describe v consumed;
      Ok ([$"after " ++ act ++ $", " ++ name ++ $" is violated; the next events:" ++ nl
           ++ next ++ nl ++ $"  the state TLC reached" ++ shifted ++ $":" ++ nl
           ++ state_lines last], counts)
  | None =>
      if completed output then
        let reached := match search_depth output with Some d => d - 1 | None => 0 end in
        detail ← run_tlc v without model reached;
        let last := last_state detail in
        consumed ← consumed_of last;
        next ← describe v consumed;
        Ok ([$"no interleaving of the streams is a behaviour of LogRing.tla"
             ++ match without with Some a => $" without " ++ a | None => [] end ++ $" past "
             ++ dec reached ++ $" event(s); one that reached that far stopped before:" ++ nl
             ++ next ++ nl ++ $"  the model's state there" ++ shifted ++ $":" ++ nl
             ++ state_lines last], counts)
      else Err (TraceError ($"TLC gave no verdict:" ++ nl ++ from output (Z.max 0 (zlen output - 4000))))
  end.

(** [main] after the command line: the exit status and the lines printed. *)
Definition main (lines : list str) (without : option str) (model : list (str * bool))
    : res (Z * list str) :=
  match (v ← parse (map chomp lines); ec ← check v without model; Ok (v, ec)) with
  | Err (Custom cls msg) =>
      if decide (cls = "TraceError"%string)
      then Ok (1, [$"FAIL log-ring-trace: " ++ msg]) else Err (Custom cls msg)
  | Err e => Err e
  | Ok (v, (errors, counts)) =>
      let out := map (fun e => $"ERROR log-ring-trace: " ++ e) errors in
      match errors with
      | _ :: _ =>
          Ok (1, out ++ [$"FAIL log-ring-trace: the kernel made a ring transition kernel/models/LogRing.tla does not allow (checked by TLC through LogRingTrace.tla)"])
      | [] =>
          match unseen REQUIRED without counts with
          | (_ :: _) as missing =>
              Ok (1, [$"FAIL log-ring-trace: the window never exercised " ++ join ($", ") missing
                      ++ $", so a PASS would say nothing about it"])
          | [] =>
              let events := zlen (every_event v) in
              let seen := join ($", ") (map (fun nc => nc.1 ++ $"=" ++ dec nc.2) counts) in
              Ok (0, [$"PASS log-ring-trace: TLC matched " ++ dec events ++ $" event(s) on "
                      ++ dec (v_cpus v) ++ $" cpu(s) and the reader to a behaviour of LogRing.tla with its invariants intact ("
                      ++ seen ++ $")"])
          end
      end
  end.
End check.
