(* ===== verification/LogRingFacts.v ===== *)
(** * Theorems about the log-ring trace validator

    The slot-word format, what a parsed window satisfies, that parsing does not
    depend on how the streams were interleaved, the rebased stamps, the opening
    state, and the exit status of the command. *)
From S2P Require Import Prelude Bytes Text Dict Tlc LogRing.

(** ** Slot words *)

Definition state_code (st : wstate) : Z :=
  match st with Free => 0 | Reserved => 1 | Committed => 2 | Discarded => 3 end.

(** The raw word of the header comment: seq << 16 | cpu << 8 | span << 4 | state. *)
Definition raw_word (seq cpu span : Z) (st : wstate) : Z :=
  Z.lor (Z.lor (Z.lor (Z.shiftl seq 16) (Z.shiftl cpu 8)) (Z.shiftl span 4)) (state_code st).

Lemma raw_word_sum seq cpu span st :
  0 ≤ seq → 0 ≤ cpu < 256 → 0 ≤ span < 16 →
  raw_word seq cpu span st = seq * 65536 + cpu * 256 + span * 16 + state_code st.
Proof.
  intros Hs Hc Hp. unfold raw_word.
  assert (0 ≤ state_code st < 4) by (destruct st; cbn; lia).
  rewrite <- !Z.lor_assoc, (lor_shiftl_add span), (lor_shiftl_add cpu), (lor_shiftl_add seq); lia.
Qed.

Lemma decode_raw seq cpu span st :
  0 ≤ seq → 0 ≤ cpu < 256 → 0 ≤ span < 16 → st ≠ Free →
  let raw := raw_word seq cpu span st in
  0 ≤ raw ∧ STATES (Z.land raw 3) = st ∧ Z.shiftr raw 16 = seq ∧
  Z.land (Z.shiftr raw 4) 15 = span.
Proof.
  intros Hs Hc Hp Hst raw. assert (1 ≤ state_code st < 4) by (destruct st; cbn; done || lia).
  unfold raw. rewrite raw_word_sum by done. split_and!; [lia|..].
  - change 3 with (Z.ones 2). rewrite Z.land_ones by lia.
    replace (_ mod _) with (state_code st) by (change (2 ^ 2) with 4; Z.to_euclidean_division_equations; lia).
    by destruct st.
  - rewrite Z.shiftr_div_pow2 by lia. change (2 ^ 16) with 65536. Z.to_euclidean_division_equations; lia.
  - change 15 with (Z.ones 4). rewrite Z.land_ones, Z.shiftr_div_pow2 by lia. change (2 ^ 4) with 16.
    Z.to_euclidean_division_equations; lia.
Qed.

Lemma decode_int token raw seq cpu span st :
  py_int 0 token = Ok raw → raw = raw_word seq cpu span st →
  0 ≤ seq → 0 ≤ cpu < 256 → 0 ≤ span < 16 → st ≠ Free →
  decode token = Ok (Word seq st span).
Proof.
  intros Ht -> Hs Hc Hp Hst. unfold decode. rewrite Ht.
  destruct (decode_raw seq cpu span st Hs Hc Hp Hst) as (_ & -> & -> & ->).
  by rewrite decide_False.
Qed.

(** The slot-word format.  A word that packs a sequence, a CPU, a span and
    a state the way the report documents it, printed in decimal or in 0x
    hexadecimal, decodes to that sequence, state and span. *)
Theorem decode_encode seq cpu span st :
  0 ≤ seq → 0 ≤ cpu < 256 → 0 ≤ span < 16 → st ≠ Free →
  decode (dec (raw_word seq cpu span st)) = Ok (Word seq st span) ∧
  decode (hex_alt (raw_word seq cpu span st)) = Ok (Word seq st span) ∧
  decode (dec 0) = Ok FREE.
Proof.
  intros Hs Hc Hp Hst. split_and!; [..|done].
  - by eapply decode_int; [apply py_int_dec; auto|..].
  - eapply decode_int; [apply py_int_hex_alt; [auto|]|..]; try done.
    by apply decode_raw.
Qed.

Lemma decode_encode_witness : decode (hex_alt (raw_word 70000 3 2 Committed)) = Ok (Word 70000 Committed 2).
Proof. apply (decode_encode 70000 3 2 Committed); [lia|lia|lia|done]. Defined.

(** ** What a parsed window satisfies *)

Definition stamp_ok (e : event) : Prop :=
  match e_stamp e with Some (t0, t1) => 0 ≤ t0 ≤ t1 | None => True end.

Definition writer_kind (k : ekind) : bool :=
  match k with
  | KReserve | KClaim | KRefuse | KCommitlost | KWrite | KCommit => true
  | _ => false
  end.

(** Which kinds carry a slot index and a word. *)
Definition indexed (k : ekind) : bool := negb (bool_decide (k = KReserve)).
Definition worded (k : ekind) : bool :=
  bool_decide (k ∈ [KClaim; KRefuse; KCommitlost; KHead; KCheck; KCcopy; KCcheck]).

Definition writer_ok (e : event) : Prop :=
  writer_kind (e_kind e) = true ∧ 1 ≤ e_k e ≤ MODEL_K ∧ 0 ≤ e_i e < e_k e ∧ 0 ≤ e_first e ∧
  e_seq e = e_first e + e_i e ∧ (indexed (e_kind e) = false → e_i e = 0).

Definition reader_ok (e : event) : Prop :=
  writer_kind (e_kind e) = false ∧ e_first e = 0 ∧ e_k e = 0 ∧ e_i e = 0 ∧ 0 ≤ e_seq e ∧
  match e_word e with Some w => w_span w ≤ MODEL_K | None => True end.

Definition event_ok (s : Z) (e : event) : Prop :=
  e_stream e = s ∧ stamp_ok e ∧ (is_Some (e_word e) ↔ worded (e_kind e) = true) ∧
  if s =? 0 then reader_ok e else writer_ok e.

Record window_ok (v : window) : Prop := {
  ok_keys : map fst (v_streams v) = 0 :: map (fun c => c + 1) (zrange (v_cpus v));
  ok_events : ∀ s es, (s, es) ∈ v_streams v → Forall (event_ok s) es;
  ok_reader : stream_of v 0 ≠ [] → is_Some (v_reader v);
  ok_begin : ∀ first end_, v_reader v = Some (first, end_) → 0 ≤ first ∧ 0 ≤ end_;
}.

Lemma keys_NoDup v : window_ok v → NoDup (map fst (v_streams v)).
Proof.
  intros Hv. rewrite (ok_keys v Hv). constructor.
  - rewrite list_elem_of_fmap. intros (c & Hc & Hin%elem_of_zrange). lia.
  - apply NoDup_fmap_2; [intros x y; lia|]. rewrite zrange_seq.
    apply NoDup_fmap_2, NoDup_seq. apply _.
Qed.

Lemma stream_in v s : window_ok v → 0 ≤ s ≤ v_cpus v → (s, stream_of v s) ∈ v_streams v.
Proof.
  intros Hv Hs. unfold stream_of. destruct (dget s (v_streams v)) as [es|] eqn:E.
  { by apply dget_elem_of. }
  apply dget_None in E. rewrite (ok_keys v Hv) in E. exfalso. apply E.
  destruct (decide (s = 0)) as [->|]; [by left|]. right. apply list_elem_of_fmap.
  exists (s - 1). split; [lia|]. apply elem_of_zrange. lia.
Qed.

Lemma elem_of_dset {K V} `{EqDecision K} (k k' : K) (v v' : V) d :
  NoDup (map fst d) → (k', v') ∈ dset k v d → (k' = k ∧ v' = v) ∨ (k' ≠ k ∧ (k', v') ∈ d).
Proof.
  induction d as [|[k0 v0] d IH]; cbn; intros Hnd Hin.
  { apply list_elem_of_singleton in Hin as [= -> ->]. by left. }
  apply NoDup_cons in Hnd as [Hk0 Hnd]. case_decide as Heq.
  - subst k0. apply elem_of_cons in Hin as [[= -> ->]|Hin]; [by left|]. right. split; [|by right].
    intros ->. apply Hk0. apply list_elem_of_fmap. by exists (k, v').
  - apply elem_of_cons in Hin as [[= -> ->]|Hin]; [right; split; [done|by left]|].
    destruct (IH Hnd Hin) as [?|[? ?]]; [by left|right; split; [done|by right]].
Qed.

Definition same_header (v v' : window) : Prop :=
  v_cpus v' = v_cpus v ∧ v_slots v' = v_slots v ∧ v_head v' = v_head v.

Lemma append_event_ok v e :
  window_ok v → 0 ≤ e_stream e ≤ v_cpus v → event_ok (e_stream e) e →
  (e_stream e = 0 → is_Some (v_reader v)) →
  window_ok (append_event v e) ∧ same_header v (append_event v e).
Proof.
  intros Hv Hs He Hr. split; [|done]. pose proof (stream_in v (e_stream e) Hv Hs) as Hin.
  split; cbn [append_event v_streams v_cpus v_reader].
  - rewrite dset_keys_old; [apply Hv|]. apply list_elem_of_fmap. by eexists (_, _).
  - intros s es Hes. apply elem_of_dset in Hes as [[-> ->]|[_ Hes]]; [| |by apply keys_NoDup].
    + apply Forall_app_2; [|by constructor]. by eapply ok_events.
    + by eapply ok_events.
  - intros Hne. destruct (decide (e_stream e = 0)) as [Heq|Hneq]; [by apply Hr|].
    apply (ok_reader v Hv). unfold stream_of in *. cbn [append_event v_streams] in Hne.
    by rewrite dget_dset_ne in Hne by done.
  - apply Hv.
Qed.

Lemma number_inv token text n : number token text = Ok n → 0 ≤ n ∧ isdigit token = true.
Proof. unfold number. zcase; intros [= <-]. split; [by apply isdigit_nonneg|done]. Qed.

Lemma match_numbers_nonneg ls s ns rest :
  match_numbers ls s = Some (ns, rest) → Forall (fun n => 0 ≤ n) ns.
Proof.
  revert s ns. induction ls as [|l ls IH]; intros s ns H; cbn in H; simplify_eq; [constructor|].
  destruct (strip_prefix l s) as [r|]; [|done]. cbn in H.
  destruct (span is_digit r) as [ds r'] eqn:E. case_decide; [done|].
  destruct (match_numbers ls r') as [[ns' r'']|] eqn:E'; [|done]. cbn in H. simplify_eq.
  constructor; [|by eapply IH]. apply isdigit_nonneg. unfold isdigit.
  rewrite bool_decide_eq_true_2 by done. cbn. apply forallb_forall. intros c Hc%list_elem_of_In.
  assert (∀ x y, span is_digit x = (ds, y) → c ∈ ds → is_digit c = true) as Hsp; [|by eapply Hsp].
  clear. intros x. revert ds. induction x as [|a x IH]; intros ds y H Hc; cbn in H; simplify_eq.
  { by apply not_elem_of_nil in Hc. }
  destruct (is_digit a) eqn:Ea; [|simplify_eq; by apply not_elem_of_nil in Hc].
  destruct (span is_digit x) as [p q] eqn:Es. simplify_eq.
  apply elem_of_cons in Hc as [->|Hc]; [done|]. by eapply IH.
Qed.

Lemma fullmatch_nonneg ls s ns : fullmatch_numbers ls s = Some ns → Forall (fun n => 0 ≤ n) ns.
Proof.
  unfold fullmatch_numbers. destruct (match_numbers ls s) as [[ns' []]|] eqn:E; intros [= <-].
  by eapply match_numbers_nonneg.
Qed.

Lemma take_stamp_inv text fields stamp fields' :
  take_stamp text fields = Ok (stamp, fields') →
  match stamp with Some (t0, t1) => 0 ≤ t0 ≤ t1 | None => True end.
Proof.
  unfold take_stamp. zcase; [|by intros [= <- <-]].
  destruct (fullmatch_numbers _ _) as [[|t0 [|d [|]]]|] eqn:Em; try done. intros [= <- <-].
  apply fullmatch_nonneg in Em. rewrite !Forall_cons in Em. lia.
Qed.

Lemma reader_begin_ok v text args v' :
  window_ok v → reader_begin v text args = Ok v' → window_ok v' ∧ same_header v v'.
Proof.
  intros Hv. unfold reader_begin. zcase; [done|]. destruct args as [|a [|b [|]]]; try done.
  intros HP. apply bind_Ok_inv in HP as (first & Hf & HP). apply bind_Ok_inv in HP as (end_ & He & [= <-]).
  apply number_inv in Hf as [? _], He as [? _]. split; [|done].
  split; cbn [v_streams v_cpus v_reader]; [apply Hv|apply Hv|by eexists|].
  by intros ? ? [= <- <-].
Qed.

Lemma reader_kinds_inv kind k outs :
  dget kind READER_KINDS = Some (k, outs) →
  writer_kind k = false ∧ worded k = match outs with Some _ => true | None => false end.
Proof.
  intros HP%dget_elem_of. unfold READER_KINDS in HP. rewrite !elem_of_cons in HP.
  repeat destruct HP as [[= -> -> ->]|HP]; try done. by apply not_elem_of_nil in HP.
Qed.

Lemma writer_kinds_inv kind k want :
  dget kind WRITER_KINDS = Some (k, want) →
  writer_kind k = true ∧ worded k = (want =? 4) ∧ indexed k = (want >=? 3).
Proof.
  intros HP%dget_elem_of. unfold WRITER_KINDS in HP. rewrite !elem_of_cons in HP.
  repeat destruct HP as [[= -> -> ->]|HP]; try done. by apply not_elem_of_nil in HP.
Qed.

Lemma reader_event_ok v text kind args stamp v' :
  window_ok v → 0 ≤ v_cpus v →
  match stamp with Some (t0, t1) => 0 ≤ t0 ≤ t1 | None => True end →
  reader_event v text kind args stamp = Ok v' → window_ok v' ∧ same_header v v'.
Proof.
  intros Hv Hc Hst. unfold reader_event. destruct (v_reader v) as [r|] eqn:Er; [|done]. cbv iota.
  destruct (dget kind READER_KINDS) as [[k [outs|]]|] eqn:Ek; [| |done];
    apply reader_kinds_inv in Ek as [Hk Hw].
  - destruct args as [|a [|w [|out [|]]]]; try done. intros HP.
    apply bind_Ok_inv in HP as (seq & Hs & HP). apply bind_Ok_inv in HP as (wd & Hwd & HP).
    apply number_inv in Hs as [Hseq _]. revert HP. zcase; [done|]. zcase; [done|]. intros [= <-].
    apply append_event_ok; cbn [e_stream]; [done|lia| |by rewrite Er; eexists].
    rewrite Z.gtb_ltb in *. zbool. repeat split; cbn; done.
  - destruct args as [|a [|]]; try done. intros HP. apply bind_Ok_inv in HP as (seq & Hs & [= <-]).
    apply number_inv in Hs as [Hseq _].
    apply append_event_ok; cbn [e_stream]; [done|lia| |by rewrite Er; eexists].
    repeat split; cbn; try done; rewrite ?Hw; done.
Qed.

Lemma writer_event_ok v text who kind args stamp v' :
  window_ok v →
  match stamp with Some (t0, t1) => 0 ≤ t0 ≤ t1 | None => True end →
  writer_event v text who kind args stamp = Ok v' → window_ok v' ∧ same_header v v'.
Proof.
  intros Hv Hst. unfold writer_event.
  destruct (fullmatch_numbers [$"w"] who) as [[|cpu [|]]|] eqn:Ew; try done.
  apply fullmatch_nonneg in Ew. rewrite Forall_cons in Ew. destruct Ew as [Hcpu _].
  destruct (dget kind WRITER_KINDS) as [[k_ want]|] eqn:Ek; [|done].
  apply writer_kinds_inv in Ek as (Hk & Hw & Hi). zcase; [done|]. zcase; [done|].
  intros HP. apply bind_Ok_inv in HP as (a0 & _ & HP). apply bind_Ok_inv in HP as (a1 & _ & HP).
  apply bind_Ok_inv in HP as (first & Hf & HP). apply bind_Ok_inv in HP as (k & Hk1 & HP).
  apply number_inv in Hf as [Hfirst _], Hk1 as [Hk0 _]. revert HP. zcase; [done|]. intros HP.
  apply bind_Ok_inv in HP as (i & Hii & HP). apply bind_Ok_inv in HP as (w & Hww & [= <-]). zbool.
  assert (0 ≤ i < k ∧ (indexed k_ = false → i = 0)) as [Hx3 Hidx].
  { rewrite Hi. destruct (want >=? 3).
    - apply bind_Ok_inv in Hii as (a2 & _ & Hii). apply bind_Ok_inv in Hii as (i' & Hn & Hii).
      apply number_inv in Hn as [? _]. revert Hii. zcase; [done|]. intros [= <-].
      rewrite Z.geb_leb in *. zbool. split; [lia|done].
    - injection Hii as <-. split; [lia|done]. }
  assert (is_Some w ↔ worded k_ = true) as Hx4.
  { rewrite Hw. destruct (want =? 4); [|injection Hww as <-; split; [by intros []|done]].
    apply bind_Ok_inv in Hww as (a3 & _ & Hww). apply bind_Ok_inv in Hww as (w' & _ & [= <-]).
    split; [done|by eexists]. }
  rewrite Z.geb_leb in *. zbool.
  apply append_event_ok; cbn [e_stream]; [done|lia| |lia].
  split_and!; cbn; [done|done|done|].
  rewrite (proj2 (Z.eqb_neq (cpu + 1) 0)) by lia. repeat split; cbn; try done; lia.
Qed.

Lemma parse_event_ok v text v' : window_ok v → 0 ≤ v_cpus v → parse_event v text = Ok v' → window_ok v' ∧ same_header v v'.
Proof.
  intros Hv Hc. unfold parse_event. zcase; [done|]. intros HP.
  apply bind_Ok_inv in HP as ([stamp fields] & Hst & HP). apply take_stamp_inv in Hst.
  apply bind_Ok_inv in HP as (who & _ & HP). apply bind_Ok_inv in HP as (kind & _ & HP). revert HP.
  zcase; [done|]. case_decide; [case_decide|].
  - by apply reader_begin_ok.
  - by apply reader_event_ok.
  - by apply writer_event_ok.
Qed.

Lemma empty_window_ok cpus slots head : window_ok (empty_window cpus slots head).
Proof.
  split; cbn [empty_window v_streams v_cpus v_reader]; try done.
  - cbn [map fst]. f_equal. rewrite map_map. done.
  - intros s es. rewrite elem_of_cons, list_elem_of_fmap. intros [[= -> ->]|(c & [= -> ->] & _)]; constructor.
Qed.

Lemma parse_events_ok v lines v' :
  window_ok v → 0 ≤ v_cpus v → foldM parse_event v lines = Ok v' → window_ok v' ∧ same_header v v'.
Proof.
  intros Hv Hc Hf. eapply (foldM_inv _ (fun u => window_ok u ∧ same_header v u)) in Hf; [done| |done].
  intros u text u' _ [Hu (H1 & H2 & H3)] Hp. apply parse_event_ok in Hp as [Hu' (H1' & H2' & H3')]; [|done|lia].
  split; [done|]. repeat split; congruence.
Qed.

(** Successive stamps of a stream do not overlap backwards. *)
Fixpoint ordered_stamps (before : Z) (es : list event) : Prop :=
  match es with
  | [] => True
  | e :: es =>
      match e_stamp e with
      | None => ordered_stamps before es
      | Some (t0, t1) => before ≤ t0 ∧ ordered_stamps t1 es
      end
  end.

Lemma check_stamps_ordered es before :
  Forall stamp_ok es →
  check_stamps before es = Ok () ↔ ordered_stamps (match before with Some (_, b) => b | None => 0 end) es.
Proof.
  intros Hes. revert before. induction Hes as [|e es He _ IH]; intros before; [done|].
  cbn [check_stamps ordered_stamps]. unfold stamp_ok in He. destruct (e_stamp e) as [[t0 t1]|]; [|apply IH].
  destruct before as [[line b]|].
  - zcase; cbn [mbind res_bind]; [split; [done|lia]|]. rewrite IH. split; [done|by intros []].
  - cbn [mbind res_bind]. rewrite IH. split; [|by intros []]. intros ?. split; [lia|done].
Qed.

Lemma parse_facts lines v :
  parse lines = Ok v →
  (window_ok v ∧ ∀ s es, (s, es) ∈ v_streams v → ordered_stamps 0 es) ∧
  0 ≤ v_cpus v ∧ 0 ≤ v_slots v ∧ 0 ≤ v_head v.
Proof.
  unfold parse. destruct (begins_of _) as [|at_ [|]]; try done. set (hl := default [] _).
  destruct (fullmatch_numbers _ hl) as [[|cpus [|slots [|head [|stored [|lost [|]]]]]]|] eqn:Eh; try done.
  apply fullmatch_nonneg in Eh. rewrite !Forall_cons in Eh.
  destruct Eh as (Hcpus & Hslots & Hhead & _).
  zcase; [done|]. zcase; [done|]. zcase; [done|]. intros HP.
  apply bind_Ok_inv in HP as (v' & Hf & HP). apply bind_Ok_inv in HP as (u & Hst & [= <-]).
  apply parse_events_ok in Hf as [Hv (Ec & Es & Eh)]; [|apply empty_window_ok|done].
  cbn in Ec, Es, Eh. split; [|by rewrite Ec, Es, Eh]. split; [done|].
  intros s es Hin. assert (check_stamps None es = Ok ()) as Hes.
  { clear -Hst Hin. revert Hst. generalize (). induction (v_streams v') as [|[s' es'] l IH]; intros u0 H.
    { by apply not_elem_of_nil in Hin. }
    cbn in H. apply bind_Ok_inv in H as ([] & Hx & H). apply elem_of_cons in Hin as [[= -> ->]|Hin]; [by destruct u0|].
    destruct u0. by apply (IH Hin ()). }
  apply check_stamps_ordered in Hes; [done|].
  eapply Forall_impl; [by eapply ok_events|]. by intros e (_ & ? & _).
Qed.

(** C20: what a parsed window satisfies.  When [parse] accepts a log, the
    window has one stream for the reader and one per CPU; every event stands in
    its own stream; a writer's record has one or two slots, its index lies in
    the record and its sequence is the record's first plus the index; a
    reader's words are within the model's bound; a reader that has events has
    begun; and the stamps of each stream never go backwards. *)
Theorem parse_sound lines v :
  parse lines = Ok v →
  window_ok v ∧ ∀ s es, (s, es) ∈ v_streams v → ordered_stamps 0 es.
Proof. intros H. by apply parse_facts in H as [H _]. Qed.

(** ** Printing an event *)

Definition show_word (w : word) : str :=
  if decide (w_state w = Free) then dec 0 else dec (raw_word (w_seq w) 0 (w_span w) (w_state w)).

Definition word_ok (w : word) : Prop :=
  match w_state w with
  | Free => w = FREE
  | _ => 0 ≤ w_seq w ∧ 0 ≤ w_span w < 16
  end.

Definition word_tokens (e : event) : list str :=
  match e_word e with Some w => [show_word w] | None => [] end.

Definition base_tokens (e : event) : list str :=
  if e_stream e =? 0 then
    [$"r"; kind_name (e_kind e); dec (e_seq e)] ++ word_tokens e
    ++ (if worded (e_kind e) then [e_out e] else [])
  else
    [$"w" ++ dec (e_stream e - 1); kind_name (e_kind e); dec (e_first e); dec (e_k e)]
    ++ (if indexed (e_kind e) then [dec (e_i e)] else []) ++ word_tokens e.

Definition stamp_tokens (e : event) : list str :=
  match e_stamp e with
  | Some (t0, t1) => [$"@" ++ dec t0 ++ $"+" ++ dec (t1 - t0)]
  | None => []
  end.

Definition show (e : event) : str := join ($" ") (base_tokens e ++ stamp_tokens e).

Definition relined (e : event) : event :=
  Event (e_stream e) (e_kind e) (e_first e) (e_k e) (e_i e) (e_seq e) (e_word e) (e_out e)
    (show e) (e_stamp e).

(** An event the report can print: its word fits the raw format and its outcome
    is one of its kind's. *)
Definition out_ok (e : event) : Prop :=
  if e_stream e =? 0 then
    match dget (kind_name (e_kind e)) READER_KINDS with
    | Some (_, Some outs) => e_out e ∈ outs
    | _ => e_out e = []
    end
  else e_out e = [].

Definition printable (e : event) : Prop :=
  0 ≤ e_stream e ∧ event_ok (e_stream e) e ∧ out_ok e ∧
  match e_word e with Some w => word_ok w | None => True end.

Lemma decode_show_word w : word_ok w → decode (show_word w) = Ok w ∧ token (show_word w).
Proof.
  intros Hw. unfold show_word, word_ok in *. destruct w as [seq st span]. cbn [w_state w_seq w_span] in *.
  destruct (decide (st = Free)) as [->|Hst].
  - injection Hw as -> ->. split; [done|]. by apply dec_token.
  - assert (0 ≤ seq ∧ 0 ≤ span < 16) as [Hs Hp] by by destruct st.
    split; [|apply dec_token, decode_raw; done || lia].
    eapply decode_int; [by apply py_int_dec; auto|done|lia..|done].
Qed.

Lemma kind_token k : token (kind_name k) ∧ startswith (kind_name k) ($"@") = false.
Proof. destruct k; (split; [split; [done|by repeat constructor]|done]). Qed.

Lemma dec_no_at n : 0 ≤ n → startswith (dec n) ($"@") = false.
Proof.
  intros Hn. destruct (dec_digits n Hn) as [Hd Hne]. destruct Hd as [|c s Hc _]; [done|].
  unfold is_digit, in_range in Hc. zbool.
  change (startswith (c :: s) ($"@")) with ((64 =? c) && true).
  by rewrite (proj2 (Z.eqb_neq 64 c)) by lia.
Qed.

(** The reader's outcomes are tokens. *)
Lemma outs_token kind k outs out :
  dget kind READER_KINDS = Some (k, Some outs) → out ∈ outs →
  token out ∧ startswith out ($"@") = false.
Proof.
  intros HP%dget_elem_of. unfold READER_KINDS in HP. rewrite !elem_of_cons in HP.
  assert (∀ o : str, bool_decide (o ∈ [$"copy"; $"lost"; $"skip"; $"kept"; $"cont"]) = true →
    token o ∧ startswith o ($"@") = false) as Hall.
  { intros o Ho%bool_decide_eq_true. rewrite !elem_of_cons in Ho.
    repeat destruct Ho as [->|Ho]; try (split; [split; [done|by repeat constructor]|done]).
    by apply not_elem_of_nil in Ho. }
  intros Ho. apply Hall, bool_decide_eq_true. rewrite !elem_of_cons.
  repeat destruct HP as [[= -> -> ->]|HP]; rewrite ?elem_of_cons in Ho; try tauto.
  by apply not_elem_of_nil in HP.
Qed.

Lemma reader_kind_get k :
  writer_kind k = false →
  ∃ outs, dget (kind_name k) READER_KINDS = Some (k, outs) ∧
    worded k = match outs with Some _ => true | None => false end.
Proof. destruct k; try done; intros _; eexists; split; done. Qed.

Definition want_of (k : ekind) : Z :=
  2 + (if indexed k then 1 else 0) + (if worded k then 1 else 0).

Lemma writer_kind_get k :
  writer_kind k = true → dget (kind_name k) WRITER_KINDS = Some (k, want_of k).
Proof. by destruct k. Qed.

(** A token that is a literal, a number, or known to be one. *)
Ltac tok := first [assumption | apply dec_token; lia | split; [done | by repeat constructor]].

Lemma base_tokens_ok e :
  printable e →
  Forall token (base_tokens e) ∧ (2 < length (base_tokens e))%nat ∧
  startswith (default [] (last (base_tokens e))) ($"@") = false.
Proof.
  intros (Hs & (_ & _ & Hw & He) & Ho & Hwo). unfold base_tokens, word_tokens, out_ok in *.
  destruct (kind_token (e_kind e)) as [Hkt _].
  assert (∀ w, e_word e = Some w → token (show_word w) ∧ startswith (show_word w) ($"@") = false) as Hwt.
  { intros w Hew. rewrite Hew in Hwo. pose proof (decode_show_word w Hwo) as [_ Ht]. split; [done|].
    unfold show_word, word_ok in *. case_decide; [done|]. apply dec_no_at.
    apply decode_raw; destruct (w_state w); done || lia. }
  destruct (e_stream e =? 0) eqn:E0.
  - destruct He as (Hk & _ & _ & _ & Hseq & _).
    destruct (reader_kind_get (e_kind e) Hk) as (outs & Hg & Hwd). rewrite Hg, Hwd in *.
    destruct outs as [outs|].
    + apply outs_token with (out := e_out e) in Hg as [Hot Hoa]; [|done].
      destruct (e_word e) as [w|]; [|by destruct (proj2 Hw eq_refl)].
      destruct (Hwt w eq_refl) as [Ht _]. split_and!; [|cbn; lia|done].
      repeat apply Forall_cons_2; try tok. constructor.
    + destruct (e_word e) as [w|]; [discriminate (proj1 Hw (ex_intro _ w eq_refl))|].
      split_and!; [|cbn; lia|by apply dec_no_at].
      repeat apply Forall_cons_2; try tok. constructor.
  - destruct He as (Hk & Hkk & Hi & Hf & Hseq & _). zbool.
    split_and!.
    + repeat apply Forall_app_2.
      * repeat apply Forall_cons_2; try tok; [|constructor].
        apply token_app; [tok|]. apply dec_token. lia.
      * destruct (indexed _); [|done]. constructor; [apply dec_token; lia|done].
      * destruct (e_word e) as [w|]; [|done]. constructor; [by apply Hwt|done].
    + cbn. lia.
    + destruct (e_word e) as [w|].
      * rewrite !last_app. cbn. by apply Hwt.
      * rewrite app_nil_r. destruct (indexed _); cbn [app last default]; apply dec_no_at; lia.
Qed.

Lemma take_stamp_show e :
  printable e →
  take_stamp (show e) (words (show e)) = Ok (e_stamp e, base_tokens e) ∧
  2 ≤ zlen (words (show e)).
Proof.
  intros He. pose proof He as (_ & (_ & Hst & _) & _). unfold stamp_ok in Hst.
  destruct (base_tokens_ok e He) as (Ht & Hlen & Hlast).
  assert (words (show e) = base_tokens e ++ stamp_tokens e) as ->.
  { unfold show. apply words_join, Forall_app_2; [done|]. unfold stamp_tokens.
    destruct (e_stamp e) as [[t0 t1]|]; [|done].
    constructor; [|done]. apply token_app; [tok|].
    repeat apply Forall_app_2; [apply dec_token; lia|by repeat constructor|apply dec_token; lia]. }
  split; [|unfold zlen; rewrite length_app; lia]. unfold stamp_tokens, take_stamp.
  destruct (e_stamp e) as [[t0 t1]|].
  - rewrite last_snoc. cbn [from_option id].
    change (startswith ($"@" ++ ?s) ($"@")) with true. cbv iota.
    pose proof (fullmatch_numbers_dec [$"@"; $"+"] [t0; t1 - t0]) as Hm.
    cbn [zip_with concat] in Hm. rewrite app_nil_r, <- app_assoc in Hm. rewrite Hm.
    + replace (t0 + (t1 - t0)) with t1 by lia. do 2 f_equal.
      rewrite length_app, Nat.add_sub. apply take_app_length.
    + repeat constructor; lia.
    + done.
    + repeat constructor; try done; by intros c [= <-].
  - rewrite app_nil_r. by rewrite Hlast.
Qed.

Lemma number_dec n text : 0 ≤ n → number (dec n) text = Ok n.
Proof.
  intros Hn. unfold number. rewrite isdigit_dec by done. by rewrite int_of_digits_dec.
Qed.

Lemma item_0 {A} (a : A) l : item (a :: l) 0 = Ok a.
Proof. done. Qed.
Lemma item_1 {A} (a b : A) l : item (a :: b :: l) 1 = Ok b.
Proof. done. Qed.
Lemma item_2 {A} (a b c : A) l : item (a :: b :: c :: l) 2 = Ok c.
Proof. done. Qed.
Lemma item_3 {A} (a b c d : A) l : item (a :: b :: c :: d :: l) 3 = Ok d.
Proof. done. Qed.

Lemma reader_event_show v e args :
  e_stream e = 0 → event_ok 0 e → out_ok e → is_Some (v_reader v) →
  match e_word e with Some w => word_ok w | None => True end →
  args = dec (e_seq e) :: word_tokens e ++ (if worded (e_kind e) then [e_out e] else []) →
  reader_event v (show e) (kind_name (e_kind e)) args (e_stamp e) = Ok (append_event v (relined e)).
Proof.
  intros E0 (_ & _ & Hw & Heo) Ho [r Hr] Hwo ->. unfold out_ok, word_tokens, relined in *.
  rewrite E0 in *. destruct Heo as (Hk & Hf & Hkk & Hi & Hseq & Hspan).
  destruct (reader_kind_get (e_kind e) Hk) as (outs & Hg & Hwd).
  cbn [Z.eqb] in Ho. rewrite Hg, Hwd in *.
  unfold reader_event. rewrite Hr. cbv iota. rewrite Hg.
  destruct outs as [outs|], (e_word e) as [w|].
  - cbn [app]. rewrite number_dec by done. cbn [mbind res_bind].
    rewrite (proj1 (decode_show_word w Hwo)). cbn [mbind res_bind].
    rewrite Z.gtb_ltb, (proj2 (Z.ltb_ge _ _)) by done.
    rewrite bool_decide_eq_true_2 by done. cbn [negb]. by rewrite Hf, Hkk, Hi.
  - by destruct (proj2 Hw eq_refl).
  - discriminate (proj1 Hw (ex_intro _ w eq_refl)).
  - cbn [app]. rewrite number_dec by done. cbn [mbind res_bind]. by rewrite Hf, Hkk, Hi, Ho.
Qed.

Lemma fullmatch_w n : 0 ≤ n → fullmatch_numbers [$"w"] ($"w" ++ dec n) = Some [n].
Proof.
  intros Hn. pose proof (fullmatch_numbers_dec [$"w"] [n]) as Hm. cbn [zip_with concat] in Hm.
  rewrite app_nil_r in Hm. apply Hm; [by repeat constructor|done|].
  constructor; [|constructor]. split; [done|]. by intros c [= <-].
Qed.

Lemma writer_event_show v e args :
  0 < e_stream e ≤ v_cpus v → event_ok (e_stream e) e → out_ok e →
  match e_word e with Some w => word_ok w | None => True end →
  args = [dec (e_first e); dec (e_k e)] ++ (if indexed (e_kind e) then [dec (e_i e)] else [])
         ++ word_tokens e →
  writer_event v (show e) ($"w" ++ dec (e_stream e - 1)) (kind_name (e_kind e)) args (e_stamp e)
    = Ok (append_event v (relined e)).
Proof.
  intros Hs (_ & _ & Hw & Heo) Ho Hwo ->. unfold out_ok, word_tokens, relined, writer_event in *.
  rewrite (proj2 (Z.eqb_neq (e_stream e) 0)) in * by lia.
  destruct Heo as (Hk & Hkk & Hi & Hf & Hseq & Hidx). unfold MODEL_K in *.
  rewrite fullmatch_w, (writer_kind_get _ Hk) by lia.
  rewrite Z.geb_leb, (proj2 (Z.leb_gt _ _)) by lia. unfold want_of.
  assert ((1 <=? e_k e) && (e_k e <=? 2) = true) as Hkb by (apply andb_true_iff; lia).
  assert ((e_i e >=? e_k e) = false) as Hib by (rewrite Z.geb_leb; apply Z.leb_gt; lia).
  destruct (worded (e_kind e)) eqn:Ew, (e_word e) as [w|];
    try discriminate (proj1 Hw (ex_intro _ w eq_refl)); try (by destruct (proj2 Hw eq_refl));
    destruct (indexed (e_kind e)) eqn:Ei; cbn [app].
  - replace (zlen _ =? _) with true by done. cbn [negb].
    rewrite item_0, item_1, item_2, item_3. cbn [mbind res_bind].
    rewrite !number_dec by lia. cbn [mbind res_bind]. rewrite Hkb. cbn [negb].
    rewrite ?number_dec by lia. cbn [mbind res_bind]. rewrite Hib.
    change (2 + 1 + 1 >=? 3) with true. change (2 + 1 + 1 =? 4) with true. cbn [mbind res_bind].
    rewrite (proj1 (decode_show_word w Hwo)). cbn [mbind res_bind]. rewrite Hseq, Ho.
    by replace (e_stream e - 1 + 1) with (e_stream e) by lia.
  - destruct (e_kind e); discriminate.
  - replace (zlen _ =? _) with true by done. cbn [negb].
    rewrite item_0, item_1, item_2. cbn [mbind res_bind].
    rewrite !number_dec by lia. cbn [mbind res_bind]. rewrite Hkb. cbn [negb].
    rewrite ?number_dec by lia. cbn [mbind res_bind]. rewrite Hib.
    change (2 + 1 + 0 >=? 3) with true. change (2 + 1 + 0 =? 4) with false. cbn [mbind res_bind].
    rewrite Hseq, Ho. by replace (e_stream e - 1 + 1) with (e_stream e) by lia.
  - replace (zlen _ =? _) with true by done. cbn [negb].
    rewrite item_0, item_1. cbn [mbind res_bind].
    rewrite !number_dec by lia. cbn [mbind res_bind]. rewrite Hkb. cbn [negb].
    change (2 + 0 + 0 >=? 3) with false. change (2 + 0 + 0 =? 4) with false. cbn [mbind res_bind].
    rewrite Hseq, Ho, Hidx by done. by replace (e_stream e - 1 + 1) with (e_stream e) by lia.
Qed.

(** What one printed event does to the window. *)
Lemma parse_event_show v e :
  printable e → e_stream e ≤ v_cpus v → (e_stream e = 0 → is_Some (v_reader v)) →
  parse_event v (show e) = Ok (append_event v (relined e)).
Proof.
  intros He Hs Hr. destruct (take_stamp_show e He) as [Hts Hlen]. unfold parse_event.
  rewrite (proj2 (Z.ltb_ge _ _)) by done. rewrite Hts. cbn [mbind res_bind].
  destruct He as (Hpos & Heo & Ho & Hwo). unfold base_tokens. destruct (e_stream e =? 0) eqn:E0; zbool.
  - cbn [app]. rewrite item_0, item_1. cbn [mbind res_bind drop].
    assert (kind_name (e_kind e) ≠ $"begin") as Hnb by by destruct (e_kind e).
    rewrite (bool_decide_eq_false_2 (kind_name (e_kind e) = $"begin")) by done.
    rewrite !andb_false_r. rewrite (decide_True _ _ (eq_refl ($"r"))), (decide_False _ _ Hnb).
    rewrite E0 in *. by apply reader_event_show; auto.
  - cbn [app]. rewrite item_0, item_1. cbn [mbind res_bind drop].
    assert ($"w" ++ dec (e_stream e - 1) ≠ $"r") as Hnr by done.
    rewrite (bool_decide_eq_false_2 _ Hnr), andb_false_r. cbn [andb]. rewrite (decide_False _ _ Hnr).
    apply writer_event_show; try done. lia.
Qed.

(** ** The window of a report *)

Definition stream_keys (cpus : Z) : list Z := 0 :: map (fun c => c + 1) (zrange cpus).

(** The streams of a sequence of events: what each stream did, in its order. *)
Definition project (cpus : Z) (es : list event) : list (Z * list event) :=
  map (fun s => (s, filter (fun e => e_stream e = s) es)) (stream_keys cpus).

Lemma dset_map {V} (f : Z → V) keys k v :
  NoDup keys → k ∈ keys →
  dset k v (map (fun s => (s, f s)) keys) = map (fun s => (s, if decide (s = k) then v else f s)) keys.
Proof.
  induction keys as [|s keys IH]; cbn; intros Hnd Hk; [by apply not_elem_of_nil in Hk|].
  apply NoDup_cons in Hnd as [Hs Hnd]. case_decide as Heq.
  - subst s. f_equal. apply map_ext_in. intros s Hin%list_elem_of_In.
    rewrite decide_False; [done|]. by intros ->.
  - f_equal. apply IH; [done|]. by apply elem_of_cons in Hk as [->|].
Qed.

Lemma stream_keys_NoDup cpus : NoDup (stream_keys cpus).
Proof.
  pose proof (empty_window_ok cpus 0 0) as Hv. pose proof (keys_NoDup _ Hv) as Hnd.
  by rewrite (ok_keys _ Hv) in Hnd.
Qed.

Lemma elem_of_stream_keys cpus s : 0 ≤ s ≤ cpus → s ∈ stream_keys cpus.
Proof.
  intros Hs. unfold stream_keys. destruct (decide (s = 0)) as [->|]; [by left|]. right.
  apply list_elem_of_fmap. exists (s - 1). split; [lia|]. apply elem_of_zrange. lia.
Qed.

Lemma append_project cpus slots head es reader e :
  0 ≤ e_stream e ≤ cpus →
  append_event (Window cpus slots head (project cpus es) reader) e
    = Window cpus slots head (project cpus (es ++ [e])) reader.
Proof.
  intros Hs. pose proof (elem_of_stream_keys cpus _ Hs) as Hin. unfold append_event, stream_of.
  cbn [v_cpus v_slots v_head v_streams v_reader]. f_equal. unfold project.
  rewrite dget_keys, dset_map by (done || apply stream_keys_NoDup). cbn [from_option id].
  apply map_ext. intros s. rewrite filter_app, filter_cons, filter_nil.
  destruct (decide (s = e_stream e)) as [->|Hne].
  - by rewrite decide_True.
  - rewrite decide_False by congruence. by rewrite app_nil_r.
Qed.

Lemma parse_events_show cpus slots head reader done_ es :
  Forall printable es → Forall (fun e => e_stream e ≤ cpus) es →
  (is_Some reader ∨ Forall (fun e => e_stream e ≠ 0) es) →
  foldM parse_event (Window cpus slots head (project cpus done_) reader) (map show es)
    = Ok (Window cpus slots head (project cpus (done_ ++ map relined es)) reader).
Proof.
  intros Hp. revert done_. induction Hp as [|e es He _ IH]; intros done_ Hc Hr.
  { cbn. by rewrite app_nil_r. }
  apply Forall_cons in Hc as [Hec Hc]. cbn [map foldM].
  rewrite parse_event_show; [|done|done|].
  - cbn [mbind res_bind]. rewrite append_project by (split; [apply He|done]).
    rewrite IH; [by rewrite <- app_assoc|done|].
    destruct Hr as [?|Hr]; [by left|right]. by apply Forall_cons in Hr as [_ ?].
  - cbn. intros H0. destruct Hr as [?|Hr]; [done|]. by apply Forall_cons in Hr as [? _].
Qed.

(** The lines of a report: a header, the writers' events that precede the
    reader's begin, the begin with every event after it, and the end line. *)
Definition header_line (cpus slots head stored : Z) : str :=
  $"begin cpus=" ++ dec cpus ++ $" slots=" ++ dec slots ++ $" head=" ++ dec head
  ++ $" stored=" ++ dec stored ++ $" lost=" ++ dec 0.

Definition begin_line (r : Z * Z) : str := join ($" ") [$"r"; $"begin"; dec r.1; dec r.2].

Definition event_lines (early : list event) (reader : option (Z * Z * list event)) : list str :=
  map show early
  ++ match reader with Some (r, late) => begin_line r :: map show late | None => [] end.

Definition report_body (cpus slots head : Z) (early : list event)
    (reader : option (Z * Z * list event)) : list str :=
  header_line cpus slots head (zlen (event_lines early reader))
  :: event_lines early reader ++ [$"end"].

Definition all_events (early : list event) (reader : option (Z * Z * list event)) : list event :=
  early ++ match reader with Some (_, late) => late | None => [] end.

Lemma parse_begin_line cpus slots head done_ r :
  0 ≤ r.1 → 0 ≤ r.2 → Forall (fun e => e_stream e ≠ 0) done_ →
  parse_event (Window cpus slots head (project cpus done_) None) (begin_line r)
    = Ok (Window cpus slots head (project cpus done_) (Some r)).
Proof.
  intros H1 H2 Hd. unfold parse_event, begin_line.
  rewrite words_join by (repeat apply Forall_cons_2; tok || constructor).
  change (zlen _ <? 2) with false. cbv iota. unfold take_stamp.
  change (default [] (last _)) with (dec r.2). rewrite dec_no_at by done. cbn [mbind res_bind].
  rewrite item_0, item_1. cbn [mbind res_bind drop]. rewrite bool_decide_eq_false_2 by (intros H; by apply H).
  cbn [andb]. rewrite !decide_True by done. unfold reader_begin, stream_of. cbn [v_reader v_streams].
  assert (dget 0 (project cpus done_) = Some []) as ->.
  { unfold project. rewrite (dget_keys (fun s => filter (fun e => e_stream e = s) done_)) by by left.
    f_equal. induction Hd as [|e es He _ IH]; [done|]. by rewrite filter_cons_False. }
  rewrite bool_decide_eq_true_2 by done.
  cbn [orb negb]. rewrite !number_dec by done. by destruct r.
Qed.

Lemma show_not_begin e : startswith (show e) ($"begin ") = false.
Proof.
  unfold show, base_tokens. destruct (e_stream e =? 0); cbn [app join];
    destruct (stamp_tokens e), (word_tokens e), (worded (e_kind e)), (indexed (e_kind e)); done.
Qed.

Lemma begins_of_single h lines :
  startswith h ($"begin ") = true → Forall (fun l => startswith l ($"begin ") = false) lines →
  begins_of (h :: lines) = [0%nat].
Proof.
  intros Hh Hl. unfold begins_of. cbn [length seq zip_with List.filter snd]. rewrite Hh. cbn [map fst].
  f_equal. generalize (seq 1 (length lines)). clear Hh.
  induction Hl as [|l lines Hl _ IH]; intros [|n ns]; try done. cbn [zip_with List.filter snd]. rewrite Hl. apply IH.
Qed.

Lemma parse_event_lines cpus slots head early reader :
  Forall printable (all_events early reader) →
  Forall (fun e => e_stream e ≤ cpus) (all_events early reader) →
  Forall (fun e => e_stream e ≠ 0) early →
  match reader with Some (r, _) => 0 ≤ r.1 ∧ 0 ≤ r.2 | None => True end →
  foldM parse_event (empty_window cpus slots head) (event_lines early reader)
    = Ok (Window cpus slots head (project cpus (map relined (all_events early reader)))
            (fst <$> reader)).
Proof.
  unfold all_events, event_lines. rewrite !Forall_app. intros [Hp1 Hp2] [Hc1 Hc2] He Hr.
  assert (empty_window cpus slots head = Window cpus slots head (project cpus []) None) as ->.
  { unfold empty_window, project, stream_keys. f_equal. cbn [map filter list_filter]. f_equal.
    by rewrite map_map. }
  rewrite foldM_app, parse_events_show by auto. cbn [mbind res_bind app].
  destruct reader as [[r late]|]; [|by rewrite app_nil_r].
  cbn [foldM]. rewrite parse_begin_line; [|apply Hr|apply Hr|].
  - cbn [mbind res_bind]. rewrite parse_events_show by (try done; left; done). by rewrite map_app.
  - apply Forall_fmap. eapply Forall_impl; [exact He|]. done.
Qed.

Lemma filter_relined s es :
  filter (fun e => e_stream e = s) (map relined es) = map relined (filter (fun e => e_stream e = s) es).
Proof.
  induction es as [|e es IH]; [done|]. cbn [map]. rewrite !filter_cons, IH.
  change (e_stream (relined e)) with (e_stream e). by case_decide.
Qed.

Lemma ordered_relined b es : ordered_stamps b es → ordered_stamps b (map relined es).
Proof.
  revert b. induction es as [|e es IH]; intros b; [done|]. cbn.
  destruct (e_stamp e) as [[t0 t1]|]; [|apply IH]. intros [? ?]. split; [done|]. by apply IH.
Qed.

(** C13: a report is parsed as the streams it shows, whatever the interleaving.
    Take any log whose log-ring-trace lines are a header, printed events and an
    end line, the reader's begin before its events and the stamps of each
    stream in order.  Then [parse] accepts it, and the stream of the reader and
    of each CPU is exactly what that stream did, in its own order: how the
    streams were interleaved does not matter. *)
Theorem parse_complete lines cpus slots head early reader :
  body_of lines = report_body cpus slots head early reader →
  0 ≤ cpus → 0 ≤ slots → 0 ≤ head →
  Forall printable (all_events early reader) →
  Forall (fun e => e_stream e ≤ cpus) (all_events early reader) →
  Forall (fun e => e_stream e ≠ 0) early →
  match reader with Some (r, _) => 0 ≤ r.1 ∧ 0 ≤ r.2 | None => True end →
  (∀ s, ordered_stamps 0 (filter (fun e => e_stream e = s) (all_events early reader))) →
  parse lines = Ok (Window cpus slots head
    (project cpus (map relined (all_events early reader))) (fst <$> reader)).
Proof.
  intros Hbody Hcpus Hslots Hhead Hp Hc He Hr Hst. unfold parse. rewrite Hbody. unfold report_body.
  set (evs := event_lines early reader). pose proof (zlen_nonneg evs) as Hlen.
  rewrite begins_of_single; [|done|].
  2: { apply Forall_app_2; [|by repeat constructor]. unfold evs, event_lines. apply Forall_app_2.
       - apply Forall_fmap, Forall_forall. intros e _. apply show_not_begin.
       - destruct reader as [[r late]|]; [|done]. constructor; [done|].
         apply Forall_fmap, Forall_forall. intros e _. apply show_not_begin. }
  cbn [lookup list_lookup from_option id].
  pose proof (fullmatch_numbers_dec [$"begin cpus="; $" slots="; $" head="; $" stored="; $" lost="]
    [cpus; slots; head; zlen evs; 0]) as Hm.
  cbn [zip_with concat] in Hm. rewrite app_nil_r, <- !app_assoc in Hm. unfold header_line. rewrite Hm.
  2: by repeat constructor. 2: done. 2: by repeat constructor; try done; intros c [= <-].
  cbn [drop]. rewrite drop_0. rewrite last_snoc, bool_decide_eq_true_2 by done. cbn [negb].
  rewrite length_app, Nat.add_sub, take_app_length. change (negb (0 =? 0)) with false. cbv iota.
  rewrite Z.eqb_refl. cbn [negb]. unfold evs.
  rewrite parse_event_lines by done. cbn [mbind res_bind v_streams].
  assert (∀ ss : list (Z * list event), Forall (fun s => check_stamps None s.2 = Ok ()) ss →
    foldM (fun (_ : unit) (s : Z * list event) => check_stamps None s.2) () ss = Ok ()) as Hfold.
  { induction 1 as [|s ss Hs _ IH]; [done|]. cbn. by rewrite Hs. }
  rewrite Hfold; [done|]. unfold project. apply Forall_fmap, Forall_forall. intros s _. cbn.
  rewrite filter_relined. apply (check_stamps_ordered _ None).
  - apply Forall_fmap, Forall_forall. intros e [_ Hin]%list_elem_of_filter.
    rewrite Forall_forall in Hp. destruct (Hp e Hin) as (_ & (_ & ? & _) & _). done.
  - apply ordered_relined, Hst.
Qed.

Definition sample_early : list event :=
  [Event 1 KReserve 8 2 0 8 None [] [] (Some (100, 103));
   Event 2 KWrite 6 1 0 6 None [] [] None].
Definition sample_late : list event :=
  [Event 1 KClaim 8 2 1 9 (Some (Word 5 Committed 1)) [] [] (Some (103, 110));
   Event 0 KHead 0 0 0 6 (Some (Word 6 Reserved 1)) ($"skip") [] (Some (90, 95));
   Event 0 KCopy 0 0 0 6 None [] [] None].

Definition sample_log : list str :=
  [$"boot: hello"]
  ++ map (fun l => $"log-ring-trace: " ++ l) (report_body 2 4 8 sample_early (Some ((6, 9), sample_late)))
  ++ [$"boot: bye"].

Definition sample_window : window :=
  Window 2 4 8 (project 2 (map relined (sample_early ++ sample_late))) (Some (6, 9)).

Lemma sample_printable : Forall printable (sample_early ++ sample_late).
Proof.
  repeat apply Forall_cons_2; [..|constructor]; (split_and!; [done|split_and!|..]); cbn; try done;
    try (split; [by intros []|done]); try (split; [done|by eexists]); repeat split; cbn; try done; try lia.
  - by_compute.
Qed.

Lemma parse_complete_witness : parse sample_log = Ok sample_window.
Proof.
  apply (parse_complete sample_log 2 4 8 sample_early (Some ((6, 9), sample_late)));
    [by_compute|lia|lia|lia|exact sample_printable|by repeat constructor|by repeat constructor|by split|].
  intros s. unfold all_events, sample_early, sample_late. cbn [app]. rewrite !filter_cons, filter_nil. cbn [e_stream].
  repeat case_decide; cbn; lia.
Defined.

Lemma parse_sound_witness : window_ok sample_window ∧ ordered_stamps 0 (stream_of sample_window 1).
Proof.
  destruct (parse_sound sample_log sample_window) as [Hv Ho]; [by_compute|].
  split; [exact Hv|]. apply (Ho 1). by_compute.
Defined.

(** ** Stamps *)

Lemma list_min_spec l d : l ≠ [] → list_min l d ∈ l ∧ ∀ x, x ∈ l → list_min l d ≤ x.
Proof.
  destruct l as [|y l]; [done|]. intros _. cbn [list_min].
  assert (∀ a, (foldl Z.min a l = a ∨ foldl Z.min a l ∈ l) ∧ foldl Z.min a l ≤ a ∧
    ∀ x, x ∈ l → foldl Z.min a l ≤ x) as H.
  { induction l as [|z l IH]; intros a; cbn.
    - split_and!; [by left|lia|]. by intros x ?%not_elem_of_nil.
    - destruct (IH (a `min` z)) as (H1 & H2 & H3). split_and!.
      + destruct H1 as [H1|H1]; [|right; by right]. rewrite H1.
        destruct (Z.min_spec a z) as [[_ ->]|[_ ->]]; [by left|right; by left].
      + lia.
      + intros x [->|Hx]%elem_of_cons; [lia|by apply H3]. }
  destruct (H y) as (H1 & H2 & H3). split.
  - destruct H1 as [->|H1]; [by left|by right].
  - intros x [->|Hx]%elem_of_cons; [done|by apply H3].
Qed.

Lemma stamp_low_le v e t0 t1 : e ∈ every_event v → e_stamp e = Some (t0, t1) → stamp_low v + 1 ≤ t0.
Proof.
  intros He Hst. unfold stamp_low. set (ts := omap _ _).
  assert (t0 ∈ ts) as Hin.
  { apply list_elem_of_omap. exists e. by rewrite Hst. }
  destruct (list_min_spec ts 0) as [_ Hmin]; [intros Hnil; rewrite Hnil in Hin; by apply not_elem_of_nil in Hin|].
  specialize (Hmin t0 Hin). lia.
Qed.

(** The rebased interval of an event. *)
Definition rebased (low : Z) (e : event) (i : Z * Z) : Prop :=
  match e_stamp e with
  | None => i = (0, UNSTAMPED)
  | Some (t0, t1) => i = (t0 - low, t1 - low) ∧ 1 ≤ i.1 ≤ i.2 ∧ i.2 < UNSTAMPED
  end.

(** The stamps TLC gets.  When the stamps of a parsed window can be
    rebased, every stamped event keeps its interval up to one shift common to
    the window and stays between 1 and 2^30 - 1, and an event without a stamp
    gets the interval from 0 to 2^30, which overlaps all others. *)
Theorem stamps_rebased lines v when_ :
  parse lines = Ok v → stamps v = Ok when_ →
  Forall2 (fun s iv => Forall2 (rebased (stamp_low v)) s.2 iv) (v_streams v) when_.
Proof.
  intros Hp Hw. apply parse_facts in Hp as [[Hv _] _]. apply mapM_res_Forall2 in Hw.
  apply Forall2_same_length_lookup. split; [by eapply Forall2_length|].
  intros i [s es] iv Hs Hi. eapply Forall2_lookup_lr in Hw; [|done..]. cbn [snd] in *.
  apply mapM_res_Forall2 in Hw. apply Forall2_same_length_lookup. split; [by eapply Forall2_length|].
  intros j e r He Hr. eapply Forall2_lookup_lr in Hw; [|done..].
  apply list_elem_of_lookup_2 in Hs, He.
  assert (e ∈ every_event v) as Hin.
  { unfold every_event. apply list_elem_of_In, in_concat. exists es. split; [|by apply list_elem_of_In].
    apply list_elem_of_In, list_elem_of_fmap. by exists (s, es). }
  assert (stamp_ok e) as Hok.
  { pose proof (ok_events v Hv s es Hs) as Hall. rewrite Forall_forall in Hall. by apply Hall. }
  unfold stamp_event, rebased, stamp_ok in *. destruct (e_stamp e) as [[t0 t1]|] eqn:Est; [|by injection Hw].
  revert Hw. zcase; [done|]. intros [= <-]. pose proof (stamp_low_le v e t0 t1 Hin Est).
  rewrite Z.geb_leb in *. zbool. cbn. split_and!; done || lia.
Qed.

Lemma stamps_rebased_witness :
  stamps sample_window = Ok [[(1, 6); (0, UNSTAMPED)]; [(11, 14); (14, 21)]; [(0, UNSTAMPED)]] ∧
  Forall2 (rebased (stamp_low sample_window)) (stream_of sample_window 1) [(11, 14); (14, 21)].
Proof.
  split; [by_compute|].
  pose proof (stamps_rebased sample_log sample_window
    [[(1, 6); (0, UNSTAMPED)]; [(11, 14); (14, 21)]; [(0, UNSTAMPED)]] ltac:(by_compute) ltac:(by_compute)) as H.
  apply (Forall2_lookup_lr _ _ _ 1 (1, stream_of sample_window 1) [(11, 14); (14, 21)]) in H; [exact H|by_compute|done].
Defined.

(** ** The opening state *)

Lemma key_lt_trans a b c : key_lt a b = false → key_lt c b = true → key_lt a c = false.
Proof.
  unfold key_lt. intros H1 H2. apply orb_false_iff in H1 as [Ha Hb].
  apply orb_true_iff in H2. rewrite andb_true_iff, !Z.ltb_lt, Z.eqb_eq in H2. apply Z.ltb_ge in Ha.
  apply andb_false_iff in Hb. rewrite Z.eqb_neq, Z.ltb_ge in Hb.
  apply orb_false_iff. rewrite andb_false_iff, !Z.ltb_ge, Z.eqb_neq. lia.
Qed.

Lemma key_lt_irrefl a : key_lt a a = false.
Proof. unfold key_lt. rewrite !Z.ltb_irrefl. by rewrite andb_false_r. Qed.

(** The word a slot opens with: one that some event observed or implies for
    it, with no earlier one. *)
Definition earliest (n : Z) (l : list (Z * word)) (slot : Z) (ow : option word) : Prop :=
  match ow with
  | Some w => (∃ seq, (seq, w) ∈ l ∧ seq mod n = slot) ∧
      ∀ seq w', (seq, w') ∈ l → seq mod n = slot → key_lt w' w = false
  | None => ∀ seq w', (seq, w') ∈ l → seq mod n ≠ slot
  end.

Lemma earliest_snoc n l slot ow sw :
  earliest n l slot ow →
  earliest n (l ++ [sw]) slot
    (if decide (sw.1 mod n = slot) then
       match ow with None => Some sw.2 | Some w => if key_lt sw.2 w then Some sw.2 else Some w end
     else ow).
Proof.
  destruct sw as [seq0 w0]. cbn [fst snd]. intros He.
  assert (∀ seq w' (P : Prop), (seq, w') ∈ l ++ [(seq0, w0)] → ((seq, w') ∈ l → P) →
    (seq = seq0 → w' = w0 → P) → P) as Hcases.
  { intros seq w' P [Hin|Hin]%elem_of_app H1 H2; [by apply H1|].
    apply list_elem_of_singleton in Hin as [= -> ->]. by apply H2. }
  case_decide as Hslot; destruct ow as [w|]; cbn [earliest] in *.
  - destruct He as [(s & Hs & Hm) Hmin]. destruct (key_lt w0 w) eqn:Ek.
    + split; [exists seq0; split; [apply elem_of_app; right; by apply list_elem_of_singleton|done]|].
      intros seq w' Hin Hq. apply (Hcases _ _ _ Hin).
      * intros Hin'. eapply key_lt_trans; [by eapply Hmin|done].
      * intros _ ->. apply key_lt_irrefl.
    + split; [exists s; split; [apply elem_of_app; by left|done]|].
      intros seq w' Hin Hq. apply (Hcases _ _ _ Hin); [intros; by eapply Hmin|by intros _ ->].
  - split; [exists seq0; split; [apply elem_of_app; right; by apply list_elem_of_singleton|done]|].
    intros seq w' Hin Hq. apply (Hcases _ _ _ Hin); [|intros _ ->; apply key_lt_irrefl].
    intros Hin'. by destruct (He _ _ Hin').
  - destruct He as [(s & Hs & Hm) Hmin]. split; [exists s; split; [apply elem_of_app; by left|done]|].
    intros seq w' Hin Hq. apply (Hcases _ _ _ Hin); [intros; by eapply Hmin|by intros -> _].
  - intros seq w' Hin. apply (Hcases _ _ _ Hin); [apply He|by intros ->].
Qed.

Lemma pymod_ok a n : n ≠ 0 → pymod a n = Ok (a mod n).
Proof. intros Hn. unfold pymod. by rewrite (proj2 (Z.eqb_neq n 0)). Qed.

Lemma add_words_spec n l :
  n ≠ 0 → ∃ ws, foldM (add_word n) [] l = Ok ws ∧ ∀ slot, earliest n l slot (dget slot ws).
Proof.
  intros Hn. induction l as [|sw l (ws & Hf & He)] using rev_ind.
  { exists []. split; [done|]. intros slot seq w' Hin. by apply not_elem_of_nil in Hin. }
  rewrite foldM_app, Hf. cbn [mbind res_bind foldM]. unfold add_word.
  rewrite pymod_ok by done. cbn [mbind res_bind]. eexists. split; [done|].
  intros slot. specialize (He slot). apply earliest_snoc with (sw := sw) in He. revert He.
  destruct (decide (sw.1 mod n = slot)) as [<-|Hne].
  - destruct (dget (sw.1 mod n) ws) as [w|] eqn:Ew; [|by rewrite dget_dset].
    destruct (key_lt sw.2 w); [by rewrite dget_dset|by rewrite Ew].
  - assert (∀ v, dget slot (dset (sw.1 mod n) v ws) = dget slot ws) as Hne'.
    { intros v. by apply dget_dset_ne. }
    destruct (dget (sw.1 mod n) ws) as [w|]; [|by rewrite Hne']. by destruct (key_lt sw.2 w); rewrite ?Hne'.
Qed.

Section window_facts.
Context (v : window).
Hypothesis Hv : window_ok v.

Lemma stream_event s es e : (s, es) ∈ v_streams v → e ∈ es → event_ok s e.
Proof.
  intros Hs He. pose proof (ok_events v Hv s es Hs) as Hall. rewrite Forall_forall in Hall. by apply Hall.
Qed.

Lemma event_nonneg s e : event_ok s e → 0 ≤ e_seq e ∧ 0 ≤ e_first e.
Proof.
  intros (_ & _ & _ & He). destruct (s =? 0).
  - destruct He as (_ & -> & _ & _ & ? & _). lia.
  - destruct He as (_ & _ & Hi & Hf & -> & _). lia.
Qed.

Lemma implied_seq_nonneg seq w : (seq, w) ∈ implied_words v → 0 ≤ seq.
Proof.
  unfold implied_words. rewrite list_elem_of_In, in_concat. intros (l & Hl & Hin).
  apply in_map_iff in Hl as ([s es] & <- & Hs). apply list_elem_of_In in Hs.
  apply in_app_or in Hin as [Hin|Hin].
  - apply in_concat in Hin as (l & Hl & Hin). apply in_map_iff in Hl as (e & <- & He).
    apply list_elem_of_In in He. destruct (event_nonneg s e (stream_event s es e Hs He)) as [Hseq _].
    unfold event_words in Hin. apply in_app_or in Hin as [Hin|Hin].
    + destruct (e_word e); [|done]. by destruct Hin as [[= <- _]|[]].
    + destruct (bool_decide _); [|done]. by destruct Hin as [[= <- _]|[]].
  - cbn [snd] in Hin. destruct es as [|e es]; [done|]. destruct (_ && _); [|done].
    assert (0 ≤ e_first e) as Hf.
    { eapply event_nonneg, (stream_event s (e :: es)); [done|by left]. }
    unfold held_words in Hin. apply in_concat in Hin as (l & Hl & Hin).
    apply in_map_iff in Hl as (j & <- & Hj). apply list_elem_of_In, elem_of_zrange in Hj.
    destruct (_ && _); [|destruct (bool_decide _); [|destruct (bool_decide _); [|done]]];
      destruct Hin as [[= <- _]|[]]; lia.
Qed.

Lemma window_seqs_nonneg x : 0 ≤ v_head v → x ∈ window_seqs v → 0 ≤ x.
Proof.
  intros Hh. unfold window_seqs. rewrite !elem_of_app, list_elem_of_fmap, list_elem_of_omap.
  intros [([seq w] & -> & Hin)|[([seq w] & Hin & Hw)|[Hx|[Hx|Hx]]]].
  - by eapply implied_seq_nonneg.
  - revert Hw. cbn [snd]. zcase; [|done]. intros [= <-]. rewrite Z.geb_leb in *. by zbool.
  - rewrite list_elem_of_In, in_concat in Hx. destruct Hx as (l & Hl & Hx).
    apply in_map_iff in Hl as ([s es] & <- & Hs). cbn [fst snd] in Hx. destruct (negb _); [|done].
    apply in_map_iff in Hx as (e & <- & He). apply list_elem_of_In in Hs, He.
    by eapply event_nonneg, stream_event.
  - by apply list_elem_of_singleton in Hx as ->.
  - destruct (v_reader v) as [[a b]|] eqn:Er; [|by apply not_elem_of_nil in Hx].
    destruct (ok_begin v Hv a b Er). apply elem_of_cons in Hx as [->|Hx]; [done|].
    by apply list_elem_of_singleton in Hx as ->.
Qed.

Lemma first_kind s e es :
  s ≠ 0 → (s, e :: es) ∈ v_streams v → writer_kind (e_kind e) = true.
Proof.
  intros Hs Hin. destruct (stream_event s (e :: es) e Hin ltac:(by left)) as (_ & _ & _ & He).
  rewrite (proj2 (Z.eqb_neq s 0)) in He by done. apply He.
Qed.

Lemma open_writer_total n base st s :
  n ≠ 0 → 1 ≤ s ≤ v_cpus v →
  ∃ w text, open_writer n base v st s = Ok (dset s w st.1, text).
Proof.
  intros Hn Hs. destruct st as [writers text]. unfold open_writer.
  pose proof (stream_in v s Hv ltac:(lia)) as Hin. unfold stream_of in Hin.
  destruct (dget_Some_in s (v_streams v)) as [es Hes].
  { rewrite (ok_keys v Hv). apply (elem_of_stream_keys (v_cpus v)). lia. }
  unfold dget_or_raise. rewrite Hes in *. cbn [of_option mbind res_bind from_option id] in *.
  destruct es as [|e es]; [by eexists _, _|]. case_decide as Hk; [by eexists _, _|].
  pose proof (first_kind s e es ltac:(lia) Hin) as Hw.
  assert (∀ l t, ∃ t', foldM (fun text j =>
     slot ← pymod (e_first e + j) n; Ok (dset slot (rel base (e_first e + j)) text)) t l = Ok t') as Hf.
  { induction l as [|j l IH]; intros t; [by eexists|]. cbn [foldM].
    rewrite (pymod_ok (e_first e + j)) by done. cbn [mbind res_bind]. apply IH. }
  destruct (e_kind e); try done; cbn [mbind res_bind].
  all: match goal with |- context [foldM ?f ?t ?l] => destruct (Hf l t) as [t' ->] end;
       cbn [mbind res_bind]; by eexists _, _.
Qed.

Lemma open_writers_total n base l st :
  n ≠ 0 → Forall (fun s => 1 ≤ s ≤ v_cpus v) l →
  ∃ st', foldM (open_writer n base v) st l = Ok st' ∧
    ∀ s, s ∈ l ∨ is_Some (dget s st.1) → is_Some (dget s st'.1).
Proof.
  intros Hn Hl. revert st. induction Hl as [|s l Hs _ IH]; intros st.
  { exists st. split; [done|]. intros s [Hin|?]; [by apply not_elem_of_nil in Hin|done]. }
  destruct (open_writer_total n base st s Hn Hs) as (w & text & Hw). cbn [foldM]. rewrite Hw.
  cbn [mbind res_bind]. destruct (IH (dset s w st.1, text)) as (st' & Hf & Hst').
  exists st'. split; [done|]. intros s' Hs'. apply Hst'. cbn [fst].
  destruct (decide (s' = s)) as [->|Hne]; [right; by rewrite dget_dset|].
  rewrite dget_dset_ne by done. destruct Hs' as [[->|Hin]%elem_of_cons|?]; [done|by left|by right].
Qed.
End window_facts.

Lemma cpu_range cpus : Forall (fun s => 1 ≤ s ≤ cpus) (py_range 1 (cpus + 1) 1).
Proof. apply Forall_forall. intros s Hs%elem_of_py_range; lia. Qed.

(** The parts of the opening state that TLC starts from. *)
Record opening_ok (v : window) (base : Z) (init : init_state) : Prop := {
  op_multiple : base mod v_slots v = 0;
  op_base : 0 ≤ base;
  op_below : ∀ s, s ∈ window_seqs v → base ≤ s;
  op_close : ∃ s, s ∈ window_seqs v ∧ s < base + v_slots v;
  op_head : 0 ≤ i_head init;
  op_rnext : 0 ≤ i_rnext init;
  op_words : ∀ slot, earliest (v_slots v) (implied_words v) slot (dget slot (i_word init));
  op_writers : ∀ s, 1 ≤ s ≤ v_cpus v → is_Some (dget s (i_writers init));
}.

Lemma rel_nonneg base s : 0 ≤ base ≤ s → 0 ≤ rel base s.
Proof. intros ?. unfold rel. rewrite Z.geb_leb, (proj2 (Z.leb_le 0 s)) by lia. lia. Qed.

Lemma head_in_seqs v : v_head v ∈ window_seqs v.
Proof. unfold window_seqs. rewrite !elem_of_app. right; right; right; left. by left. Qed.

Lemma reserve_in_seqs v x :
  window_ok v → x ∈ v_head v :: reserves v → x ∈ window_seqs v.
Proof.
  intros Hv [->|Hx]%elem_of_cons; [apply head_in_seqs|]. unfold reserves in Hx.
  apply list_elem_of_fmap in Hx as (e & -> & He%list_elem_of_In).
  apply filter_In in He as [He Hk%bool_decide_eq_true]. unfold every_event in He.
  apply in_concat in He as (es & Hes & He). apply in_map_iff in Hes as ([s es'] & <- & Hs).
  cbn [snd] in He. unfold window_seqs. rewrite !elem_of_app. right; right; left.
  apply list_elem_of_In, in_concat. exists (map e_first es'). split; [|by apply in_map].
  apply in_map_iff. exists (s, es'). split; [|done]. cbn [fst snd].
  destruct (s =? 0) eqn:E; [|done]. exfalso.
  destruct (stream_event v Hv s es' e) as (_ & _ & _ & Hr); [by apply list_elem_of_In..|].
  rewrite E in Hr. destruct Hr as [Hr _]. by rewrite Hk in Hr.
Qed.

Lemma opening_total v :
  window_ok v → 0 ≤ v_slots v → 0 ≤ v_head v → v_slots v ≠ 0 →
  ∃ base init, opening v = Ok (base, init) ∧ opening_ok v base init.
Proof.
  intros Hv Hslots Hhead Hn. pose proof (head_in_seqs v) as Hin.
  destruct (list_min_spec (window_seqs v) 0) as [Hmin Hle].
  { intros Hnil. rewrite Hnil in Hin. by apply not_elem_of_nil in Hin. }
  pose proof (window_seqs_nonneg v Hv _ Hhead Hmin) as Hpos.
  set (lo := list_min (window_seqs v) 0) in *. set (n := v_slots v) in *.
  destruct (add_words_spec n (implied_words v) Hn) as (ws & Hws & Hear).
  unfold opening, opening_base, floordiv. fold n lo. rewrite (proj2 (Z.eqb_neq n 0)) by done.
  cbn [mbind res_bind]. rewrite Hws. cbn [mbind res_bind].
  set (base := lo / n * n).
  assert (0 ≤ base ≤ lo ∧ lo < base + n) as Hbase.
  { pose proof (Z.div_mod lo n Hn). pose proof (Z.mod_pos_bound lo n ltac:(lia)).
    pose proof (Z.div_pos lo n Hpos ltac:(lia)). unfold base. nia. }
  match goal with |- context [foldM (open_writer n base v) ?st ?l] =>
    destruct (open_writers_total v Hv n base l st Hn (cpu_range _)) as ([writers text] & -> & Hwr)
  end.
  cbn [mbind res_bind]. eexists base, _. split; [done|].
  split; cbn [i_head i_word i_rnext i_writers]; try done.
  - unfold base. apply Z_mod_mult.
  - lia.
  - intros s Hs. specialize (Hle s Hs). lia.
  - exists lo. split; [done|lia].
  - apply rel_nonneg. split; [lia|].
    destruct (list_min_spec (v_head v :: reserves v) 0) as [Hm _]; [done|].
    apply (reserve_in_seqs v _ Hv), Hle in Hm. lia.
  - destruct (v_reader v) as [[first end_]|] eqn:Er; [|done]. apply rel_nonneg. split; [lia|].
    assert (first ∈ window_seqs v) as Hf%Hle; [|lia].
    unfold window_seqs. rewrite Er, !elem_of_app. right; right; right; right. by left.
  - intros s Hs. apply (Hwr s). left. unfold py_range. apply list_elem_of_fmap.
    exists (Z.to_nat (s - 1)). split; [lia|]. apply elem_of_seq.
    rewrite Z.div_1_r. lia.
Qed.

(** The state the window opens in.  For every log that parses, the opening
    state exists when the ring has slots; otherwise the division by the slot
    count raises.  The base is the multiple of the slot count just below the
    lowest sequence of the window, so no sequence falls below it; the head and
    the reader's position are not negative; every CPU has an opening state; and
    the word of each slot is the earliest one any event observed or implies
    for it. *)
Theorem opening_spec lines v :
  parse lines = Ok v →
  if decide (v_slots v = 0) then opening v = Err ZeroDivisionError
  else ∃ base init, opening v = Ok (base, init) ∧ opening_ok v base init.
Proof.
  intros Hp. apply parse_facts in Hp as [[Hv _] (Hcpus & Hslots & Hhead)].
  case_decide as Hn.
  { unfold opening, opening_base, floordiv. by rewrite Hn. }
  destruct (opening_total v Hv Hslots Hhead Hn) as (base & init & ? & ?). eauto.
Qed.

Lemma opening_spec_witness :
  ∃ base init, opening sample_window = Ok (base, init) ∧ opening_ok sample_window base init.
Proof.
  pose proof (opening_spec sample_log sample_window ltac:(by_compute)) as H.
  rewrite decide_False in H by done. exact H.
Defined.

(** ** The module and the verdict *)

(** The module is written or the window refused.  For a log that parses,
    with a ring that has slots, writing the TLA+ module either succeeds or
    raises [TraceError], which [main] reports: no lookup of it fails. *)
Theorem trace_module_total lines v :
  parse lines = Ok v → v_slots v ≠ 0 →
  (∃ m, trace_module v = Ok m) ∨ (∃ msg, trace_module v = Err (TraceError msg)).
Proof.
  intros Hp Hn. apply parse_facts in Hp as [[Hv _] (Hcpus & Hslots & Hhead)].
  destruct (opening_total v Hv Hslots Hhead Hn) as (base & init & Hop & Hok).
  unfold trace_module. rewrite Hop. cbn [mbind res_bind].
  destruct (stamps v) as [when_|e] eqn:Est; cbn [mbind res_bind].
  - left. destruct (mapM_res_total (fun s => dget_or_raise s (i_writers init))
      (py_range 1 (v_cpus v + 1) 1)) as [ws ->]; [|by eexists].
    eapply Forall_impl; [apply cpu_range|]. intros s Hs.
    destruct (op_writers v base init Hok s Hs) as [w Hw]. exists w. unfold dget_or_raise. by rewrite Hw.
  - right. apply mapM_res_err in Est as ([s es] & _ & Es). apply mapM_res_err in Es as (ev & _ & Ee).
    unfold stamp_event in Ee. destruct (e_stamp ev) as [[t0 t1]|]; [|done]. revert Ee.
    zcase; [|done]. intros [= <-]. by eexists.
Qed.

Lemma trace_module_total_witness :
  (∃ m, trace_module sample_window = Ok m) ∨ (∃ msg, trace_module sample_window = Err (TraceError msg)).
Proof. apply (trace_module_total sample_log sample_window); [by_compute|done]. Defined.

Lemma check_matched (tlc : str → str → res str) v without model counts :
  check tlc v without model = Ok ([], counts) ↔
  ∃ base m output, fst <$> opening v = Ok base ∧ trace_module v = Ok m ∧
    tlc m (trace_config FIXED INVARIANTS without model 0) = Ok output ∧
    violated_invariant output = Some ($"TraceUnfinished") ∧ counts = count_actions ACTIONS output.
Proof.
  unfold check, run_tlc. split.
  - intros H. apply bind_Ok_inv in H as ([base init] & Ho & H).
    apply bind_Ok_inv in H as (output & Ht & H). apply bind_Ok_inv in Ht as (m & Hm & Ht).
    exists base, m, output. rewrite Ho. split_and!; try done.
    all: destruct (violated_invariant output) as [name|];
      [case_decide as Ec|destruct (completed output); [|done]].
    all: try (by subst; simplify_eq).
    all: repeat (apply bind_Ok_inv in H as (? & _ & H)); by simplify_eq.
  - intros (base & m & output & Ho & Hm & Ht & Hviol & ->).
    destruct (opening v) as [[base' init]|e]; [|done]. cbn [mbind res_bind].
    rewrite Hm. cbn [mbind res_bind]. rewrite Ht. cbn [mbind res_bind]. rewrite Hviol.
    by rewrite decide_True.
Qed.

Lemma main_passes (tlc : str → str → res str) lines without model :
  (∃ out, main tlc lines without model = Ok (0, out)) ↔
  ∃ v counts, parse (map chomp lines) = Ok v ∧ check tlc v without model = Ok ([], counts) ∧
    unseen REQUIRED without counts = [].
Proof.
  unfold main. split.
  - intros [out Hm]. destruct (parse (map chomp lines)) as [v|e]; cbn [mbind res_bind] in Hm.
    2:{ destruct e; try case_decide; simplify_eq. }
    destruct (check tlc v without model) as [[errors counts]|e] eqn:Ec; cbn [mbind res_bind] in Hm.
    2:{ destruct e; try case_decide; simplify_eq. }
    destruct errors; [|done]. exists v, counts. split_and!; [done|done|].
    destruct (unseen REQUIRED without counts); [done|simplify_eq].
  - intros (v & counts & -> & Hc & Hu). cbn [mbind res_bind]. rewrite Hc. cbn [mbind res_bind].
    rewrite Hu. by eexists.
Qed.

Lemma required_actions : Forall (fun step => Forall (fun a => a ∈ ACTIONS) step) REQUIRED.
Proof. by_compute. Qed.

(** C8: when the command passes.  For any TLC, [main] exits with 0 exactly when
    the log parses, TLC is asked about the module of its window and answers
    that the trace was matched to its end (the invariant TraceUnfinished is
    violated), and every required step but the one left out on request was
    taken by some state of the behaviour TLC printed. *)
Theorem main_pass_iff (tlc : str → str → res str) lines without model :
  (∃ out, main tlc lines without model = Ok (0, out)) ↔
  ∃ v base m output,
    parse (map chomp lines) = Ok v ∧ fst <$> opening v = Ok base ∧ trace_module v = Ok m ∧
    tlc m (trace_config FIXED INVARIANTS without model 0) = Ok output ∧
    violated_invariant output = Some ($"TraceUnfinished") ∧
    ∀ step, step ∈ REQUIRED →
      (∃ a, without = Some a ∧ a ∈ step) ∨
      (∃ a s, a ∈ step ∧ s ∈ behaviour output ∧ act_of s = a).
Proof.
  rewrite main_passes. split.
  - intros (v & counts & Hp & Hc & Hu). apply check_matched in Hc as (base & m & output & Ho & Hm & Ht & Hv & ->).
    exists v, base, m, output. split_and!; try done.
    by apply (required_seen ACTIONS); [apply required_actions|].
  - intros (v & base & m & output & Hp & Ho & Hm & Ht & Hv & Hs). exists v, (count_actions ACTIONS output).
    split_and!; [done|apply check_matched; eauto 10|].
    by apply required_seen; [apply required_actions|].
Qed.

(** A line that ends after its counter stamps is not refused but crashes:
    the event list read off the line is empty, and the script takes its first
    word outside the guarded block. *)
Theorem stamp_only_line_crashes (v : window) (who : str) (t0 d : Z) :
  token who → 0 ≤ t0 → 0 ≤ d →
  parse_event v (join ($" ") [who; $"@" ++ dec t0 ++ $"+" ++ dec d]) = Err IndexError.
Proof.
  intros Hw Ht Hd. unfold parse_event. rewrite words_join.
  2:{ constructor; [done|]. constructor; [|done]. apply token_app; [tok|].
      repeat apply Forall_app_2; [apply dec_token; lia|by repeat constructor|apply dec_token; lia]. }
  change (zlen [_; _] <? 2) with false. cbv iota.
  unfold take_stamp. cbn [last from_option id].
  change (startswith ($"@" ++ ?s) ($"@")) with true. cbv iota.
  pose proof (fullmatch_numbers_dec [$"@"; $"+"] [t0; d]) as Hm.
  cbn [zip_with concat] in Hm. rewrite app_nil_r, <- app_assoc in Hm. rewrite Hm.
  - done.
  - repeat constructor; lia.
  - done.
  - repeat constructor; try done; by intros c [= <-].
Qed.

Lemma stamp_only_line_crashes_witness :
  parse_event (empty_window 1 4 0) ($"w0 @10+2") = Err IndexError.
Proof. apply (stamp_only_line_crashes (empty_window 1 4 0) ($"w0") 10 2); [by split; [|repeat constructor]|lia|lia]. Defined.
