(* ===== verification/Ext2Eq.v ===== *)
(** * ext2 equivalence, tier B

    Model of scripts/ext2_eq.py: the operation script and its parser, the shell
    script generated from it, the replay of the host tree, the logical snapshot
    of an image and the verdict per row.  The tools the script runs are the
    parameter [Ext2Tools]: what [debugfs], its [dump] and [dumpe2fs] answer for
    an image. *)
From S2P Require Import Prelude Text Dict Sort PassLine.

Definition EqError (msg : str) : exn := Custom "EqError" msg.

(** A literal of the source in which [~] stands for a double quote. *)
Definition shq (s : String.string) : str := map (fun c => if c =? 126 then 34 else c) (str_of s).

Definition ROOT : str := $"eq".
Definition LOG : str := $"eq-log".
Definition FILL_MAX : Z := 1024.
Definition LONG : str := replicate 200 110.
Definition DIND_FIXTURE : str := $"lib/ext2-eq-dind".
Definition DIND_BLOCKS : list (Z * Z) := [(0, 65); (12, 66); (268, 67); (269, 68)].
Definition SINGLE_LIMIT_KIB : Z := 12 + 256.

(** [[A-Za-z0-9_.-]], and the two regular expressions over it. *)
Definition is_name_char (c : Z) : bool := is_word c || (c =? 46) || (c =? 45).
Definition text_re (s : str) : bool := bool_decide (s ≠ []) && forallb is_name_char s.
Definition name_re (s : str) : bool := forallb text_re (split_on 47 s).

(** ** The operations *)

Inductive kind : Type := Path | Text | Count.
#[global] Instance kind_eq_dec : EqDecision kind.
Proof. solve_decision. Defined.

(** A shell template: text and the numbered arguments of [str.format]. *)
Inductive piece : Type := Lit (s : str) | Arg (n : Z).

Definition OPS : list (str * (list kind * option (list piece))) :=
  [($"mkdir", ([Path], Some [Lit (shq "mkdir ~$R/"); Arg 0; Lit quo]));
   ($"rmdir", ([Path], Some [Lit (shq "rmdir ~$R/"); Arg 0; Lit quo]));
   ($"write", ([Path; Text], Some [Lit ($"$B echo -n "); Arg 1; Lit (shq " >~$R/"); Arg 0; Lit quo]));
   ($"fill", ([Path; Count], None));
   ($"overwrite", ([Path; Path], Some [Lit (shq "$B dd if=~$R/"); Arg 1; Lit (shq "~ of=~$R/"); Arg 0;
      Lit (shq "~ conv=notrunc 2>/dev/null")]));
   ($"truncate", ([Path], Some [Lit (shq "$B truncate -s 0 ~$R/"); Arg 0; Lit quo]));
   ($"unlink", ([Path], Some [Lit (shq "rm ~$R/"); Arg 0; Lit quo]));
   ($"rename", ([Path; Path], Some [Lit (shq "mv ~$R/"); Arg 0; Lit (shq "~ ~$R/"); Arg 1; Lit quo]));
   ($"files", ([Path; Count], None));
   ($"peer", ([Path], None));
   ($"adopt", ([Path], Some [Lit (shq "mv ~$F/" ++ DIND_FIXTURE ++ shq "~ ~$R/"); Arg 0; Lit quo]))].

Record op := Op { o_line : Z; o_name : str; o_args : list str }.
#[global] Instance op_eq_dec : EqDecision op.
Proof. solve_decision. Defined.

Record row := Row { r_name : str; r_expect : str; r_issue : str; r_ops : list op }.
#[global] Instance row_eq_dec : EqDecision row.
Proof. solve_decision. Defined.

Definition adopted (rows : list row) : bool :=
  existsb (fun r => existsb (fun o => bool_decide (o_name o = $"adopt")) (r_ops r)) rows.

(** ** The parser *)

Definition line_error (lineno : Z) (what : str) : exn :=
  EqError ($"line " ++ dec lineno ++ $": " ++ what).

(** [re.fullmatch(r"#[0-9]+|-", word)]. *)
Definition issue_re (s : str) : bool :=
  match s with
  | c :: digits => if c =? 35 then isdigit digits else bool_decide (s = $"-")
  | [] => false
  end.

(** [re.fullmatch(r"[0-9]{1,4}", word)]. *)
Definition count_re (s : str) : bool := isdigit s && (zlen s <=? 4).

Definition row_line (rows : list row) (lineno : Z) (ws : list str) : res (list row) :=
  match ws with
  | [_; name; expect; issue] =>
      if negb (bool_decide (expect ∈ [$"match"; $"differ"])) || negb (issue_re issue)
         || negb (text_re name)
      then Err (line_error lineno ($"want 'row NAME match|differ #ISSUE|-'"))
      else if existsb (fun r => bool_decide (r_name r = name)) rows
      then Err (line_error lineno ($"row " ++ name ++ $" named twice"))
      else Ok (rows ++ [Row name expect issue []])
  | _ => Err (line_error lineno ($"want 'row NAME match|differ #ISSUE|-'"))
  end.

Definition check_arg (row_ : str) (lineno : Z) (ka : kind * str) : res unit :=
  let '(k, arg) := ka in
  match k with
  | Path =>
      if name_re arg && (bool_decide (arg = row_) || startswith arg (row_ ++ $"/")) then Ok ()
      else Err (line_error lineno ($"path " ++ py_repr arg ++ $" is not under row " ++ row_ ++ $"/"))
  | Text =>
      if text_re arg then Ok ()
      else Err (line_error lineno ($"text " ++ py_repr arg ++ $" is not [A-Za-z0-9_.-]+"))
  | Count =>
      if count_re arg then Ok () else Err (line_error lineno ($"count " ++ py_repr arg))
  end.

(** [rows[-1][3].append(...)]: the list inside the last row. *)
Definition append_op (rows : list row) (o : op) : list row :=
  alter (fun r => Row (r_name r) (r_expect r) (r_issue r) (r_ops r ++ [o])) (length rows - 1)%nat rows.

Definition op_line (rows : list row) (lineno : Z) (name : str) (args : list str) : res (list row) :=
  match last rows with
  | None => Err (line_error lineno ($"an operation before the first row"))
  | Some current =>
      match dget name OPS with
      | None => Err (line_error lineno ($"unknown operation " ++ py_repr name))
      | Some (kinds, _) =>
          if negb (zlen args =? zlen kinds)
          then Err (line_error lineno (name ++ $" takes " ++ dec (zlen kinds) ++ $" arguments")) else
          _ ← foldM (fun _ ka => check_arg (r_name current) lineno ka) () (zip kinds args);
          _ ← (if decide (name = $"fill") then
                 n ← item args 1;
                 if FILL_MAX <? int_of_digits n
                 then Err (line_error lineno ($"fill takes at most " ++ dec FILL_MAX ++ $" KiB"))
                 else Ok ()
               else Ok ());
          if bool_decide (name = $"adopt") && adopted rows
          then Err (line_error lineno ($"adopt used twice; the fixture is one file"))
          else Ok (append_op rows (Op lineno name args))
      end
  end.

Definition parse_line (rows : list row) (nl : Z * str) : res (list row) :=
  let '(lineno, raw) := nl in
  let line := strip raw in
  if bool_decide (line = []) || startswith line ($"#") then Ok rows else
  match words line with
  | [] => Ok rows
  | w :: args => if decide (w = $"row") then row_line rows lineno (w :: args)
                 else op_line rows lineno w args
  end.

(** [enumerate(l, 1)]. *)
Definition enumerate1 {A} (l : list A) : list (Z * A) := zip (py_range 1 (zlen l + 1) 1) l.

Definition parse (text : str) : res (list row) :=
  rows ← foldM parse_line [] (enumerate1 (splitlines text));
  match rows with
  | [] => Err (EqError ($"no rows"))
  | _ => Ok rows
  end.

(** ** The shell script *)

(** [str.format] of a template with positional arguments. *)
Definition format (template : list piece) (args : list str) : res str :=
  parts ← mapM_res (fun p => match p with Lit s => Ok s | Arg n => item args n end) template;
  Ok (concat parts).

(** [t "$R/P" P]: log the type of a path. *)
Definition type_line (p : str) : str := shq "t ~$R/" ++ p ++ shq "~ " ++ p.

Definition preamble : list str :=
  [$"# Generated by scripts/ext2_eq.py gen-sh from kernel/tests/ext2_eq/ops.eq";
   $"# (GitHub issue #1034). Do not edit; edit ops.eq.";
   shq "R=~$1/" ++ ROOT ++ quo;
   shq "B=~${2-/bin/busybox}~";
   shq "S=~${3-/bin/busybox}~";
   shq "F=~$1~";
   shq "mkdir ~$R~";
   shq "t() { if [ -d ~$1~ ]; then echo ~  $2 dir~; elif [ -f ~$1~ ]; then $B stat -c ~  $2 file size=%s~ ~$1~; else echo ~  $2 absent~; fi; }"].

Definition op_script (step : Z) (o : op) : res (list str) :=
  let args := o_args o in
  let label := dec step ++ $" " ++ o_name o ++ $" " ++ join ($" ") args in
  let tail cmd kinds :=
    [cmd ++ $" 2>/dev/null"; shq "echo ~" ++ label ++ shq " -> $?~"]
    ++ omap (fun '(a, k) => if decide (k = Path) then Some (type_line a) else None)
         (zip args kinds) in
  if decide (o_name o = $"peer") then
    a0 ← item args 0;
    let p := shq "~$R/" ++ a0 ++ quo in
    Ok [$"$B echo -n 0123456789 >" ++ p ++ $"; exec 3<>" ++ p;
        shq "echo -n ~  held [~; $B dd bs=1 count=6 <&3 2>/dev/null; echo ~]~";
        $"$B echo -n ab >" ++ p;
        shq "echo -n ~  past [~; $B dd bs=1 count=4 <&3 2>/dev/null; echo ~]~";
        $"$B echo -n Z >&3; s=$?; exec 3>&-; [ $s -eq 0 ]";
        shq "echo ~" ++ label ++ shq " -> $?~";
        $"t " ++ p ++ $" " ++ a0]
  else if decide (o_name o = $"files") then
    a0 ← item args 0;
    a1 ← item args 1;
    Ok [$"i=0; ok=0; while [ $i -lt " ++ a1 ++ shq " ]; do $B true >~$R/" ++ a0 ++ $"/" ++ LONG
          ++ shq "$i~ 2>/dev/null && ok=$((ok+1)); i=$((i+1)); done; [ $ok -eq " ++ a1 ++ $" ]";
        shq "echo ~" ++ label ++ shq " -> $? created=$ok~";
        type_line a0]
  else
    '(kinds, template) ← of_option KeyError (dget (o_name o) OPS);
    cmd ← (if decide (o_name o = $"fill") then
             a0 ← item args 0;
             a1 ← item args 1;
             Ok (shq "$B dd if=~$S~ of=~$R/" ++ a0 ++ shq "~ bs=1024 count=" ++ a1)
           else template ← of_option TypeError template; format template args);
    Ok (tail cmd kinds).

Definition row_script (r : row) : res (list str) :=
  lines ← mapM_res (fun '(step, o) => op_script step o) (enumerate1 (r_ops r));
  Ok (($"echo 'row " ++ r_name r ++ $"'") :: concat lines).

Definition gen_sh (rows : list row) : res str :=
  body ← mapM_res row_script rows;
  Ok (join nl (preamble ++ concat body ++ [$"echo 'eq done'"]) ++ nl).

(** [write_fixture]: a file made by seeks and writes, zero where nothing was
    written. *)
Definition pwrite_bytes (data : bytes) (offset : Z) (block : bytes) : bytes :=
  if bool_decide (block = []) then data else
  let padded := data ++ zeros (offset - zlen data) in
  slice padded 0 offset ++ block ++ from padded (offset + zlen block).

Definition write_fixture : bytes :=
  foldl (fun data '(kib, byte) => pwrite_bytes data (kib * 1024) (replicate 1024 byte)) [] DIND_BLOCKS.

(** ** Multi-line regular expressions

    [re.M]: [^] matches at the start and after every newline.  A pattern is a
    function that gets whether it stands at such a place, and gives what it
    captured and the text after the match. *)

Fixpoint find_all {A} (fuel : nat) (pattern : bool → str → option (A * str)) (bol : bool) (s : str)
    : list A :=
  match fuel with
  | O => []
  | S fuel =>
      match pattern bol s with
      | Some (a, rest) => a :: find_all fuel pattern false rest
      | None => match s with
                | [] => []
                | c :: s => find_all fuel pattern (c =? 10) s
                end
      end
  end.
Definition findall {A} (pattern : bool → str → option (A * str)) (s : str) : list A :=
  find_all (S (length s)) pattern true s.
Definition re_search {A} (pattern : bool → str → option (A * str)) (s : str) : option A :=
  head (findall pattern s).

(** [(\d+)]. *)
Definition digits1 (s : str) : option (Z * str) :=
  let '(ds, rest) := span is_digit s in
  if decide (ds = []) then None else Some (int_of_digits ds, rest).

(** [\s+]. *)
Definition spaces1 (s : str) : option str :=
  let '(ws, rest) := span is_space s in
  if decide (ws = []) then None else Some rest.

(** [$] under [re.M]. *)
Definition at_eol (s : str) : bool := match s with [] => true | c :: _ => c =? 10 end.

(** [re.split] at the lines a pattern matches from their start; the pattern
    gives what it leaves of the line. *)
Fixpoint split_lines (header : str → option str) (lines : list str) (first : bool) (cur : str)
    : list str :=
  match lines with
  | [] => [cur]
  | line :: lines =>
      let cur := if first then cur else cur ++ nl in
      match header line with
      | Some rest => cur :: split_lines header lines false rest
      | None => split_lines header lines false (cur ++ line)
      end
  end.
Definition re_split (header : str → option str) (text : str) : list str :=
  split_lines header (split_on 10 text) true [].

(** ** The host side *)

Definition S_IFMT (mode : Z) : Z := Z.land mode 61440.
Definition S_ISDIR (mode : Z) : bool := S_IFMT mode =? 16384.
Definition S_ISREG (mode : Z) : bool := S_IFMT mode =? 32768.
Definition S_IMODE (mode : Z) : Z := Z.land mode 4095.

(** The tree host Linux leaves: directories, and files by inode. *)
Inductive hnode : Type :=
| HDir (mode : Z) (entries : list (str * hnode))
| HFile (mode ino nlink : Z).

(** What the external programs do. *)
Class Ext2Tools := {
  image : Type;
  image_name : image → str;
  (** debugfs with a command file, read-write or not: status, standard output,
      standard error and the image afterwards *)
  debugfs_run : image → list str → bool → Z * str * str * image;
  (** the file debugfs's dump command leaves, if it leaves one *)
  dump_file : image → str → option bytes;
  (** dumpe2fs: status and standard output *)
  dumpe2fs_run : image → Z * str;
  which : str → option str;
  (** BusyBox under qemu-user on the script, with or without the fixture:
      status, standard output, standard error and the tree left *)
  host_run : str → bool → Z * str * str * hnode
}.

Definition AttributeError : exn := Custom "AttributeError" [].
Definition FileNotFoundError : exn := Custom "FileNotFoundError" [].

(** [mode:03o]. *)
Definition oct3 (mode : Z) : str :=
  let s := show_nat 8 mode in replicate (3 - length s) 48 ++ s.

(** [os.walk] from the top, directories in the order of their names: the path,
    the mode and the files of each directory. *)
Fixpoint os_walk (rel : str) (n : hnode) : list (str * Z * list (str * (Z * Z * Z))) :=
  match n with
  | HFile _ _ _ => []
  | HDir mode entries =>
      let files := omap (fun e => match e.2 with
                                  | HFile m ino nlink => Some (e.1, (m, ino, nlink))
                                  | HDir _ _ => None end) entries in
      let dirs := (fix go (es : list (str * hnode)) :=
        match es with
        | [] => []
        | (name, n) :: es =>
            match n with
            | HDir _ _ => (name, os_walk (rel ++ $"/" ++ name) n) :: go es
            | HFile _ _ _ => go es
            end
        end) entries in
      (rel, mode, files)
        :: concat (map snd (py_sorted (fun a b => str_le a.1 b.1) dirs))
  end.

Record replay_state := ReplayState {
  rs_commands : list str; rs_seen : list (Z * str); rs_links : list (str * Z)
}.

Definition replay_file (host_tree rel : str) (st : replay_state) (f : str * (Z * Z * Z))
    : res replay_state :=
  let '(filename, (mode, ino, nlink)) := f in
  let path := host_tree ++ $"/" ++ rel ++ $"/" ++ filename in
  let target := $"/" ++ rel ++ $"/" ++ filename in
  if negb (S_ISREG mode)
  then Err (EqError ($"host tree holds a non-regular file " ++ path)) else
  match dget ino (rs_seen st) with
  | Some first =>
      Ok (ReplayState (rs_commands st ++ [$"link " ++ first ++ $" " ++ target]) (rs_seen st)
            (dset first nlink (rs_links st)))
  | None =>
      Ok (ReplayState
            (rs_commands st ++
              [$"write " ++ path ++ $" " ++ target;
               $"set_inode_field " ++ target ++ $" mode 0100" ++ oct3 (S_IMODE mode)])
            (dset ino target (rs_seen st)) (rs_links st))
  end.

Definition replay_dir (host_tree : str) (st : replay_state)
    (d : str * Z * list (str * (Z * Z * Z))) : res replay_state :=
  let '(rel, mode, files) := d in
  let st := ReplayState
    (rs_commands st ++ [$"mkdir /" ++ rel;
                        $"set_inode_field /" ++ rel ++ $" mode 040" ++ oct3 (S_IMODE mode)])
    (rs_seen st) (rs_links st) in
  foldM (replay_file host_tree rel) st (py_sorted (fun a b => str_le a.1 b.1) files).

Definition replay_commands (host_tree : str) (tree : hnode) : res (list str) :=
  st ← foldM (replay_dir host_tree) (ReplayState [] [] []) (os_walk ROOT tree);
  Ok (rs_commands st
      ++ map (fun tc => $"set_inode_field " ++ tc.1 ++ $" links_count " ++ dec tc.2) (rs_links st)).

Section tools.
Context {T : Ext2Tools}.

Definition qemu_user : res str :=
  match which ($"qemu-aarch64"), which ($"qemu-aarch64-static") with
  | Some p, _ => Ok p
  | None, Some p => Ok p
  | None, None => Err (EqError ($"qemu-aarch64 (qemu-user) is required for the host oracle"))
  end.

Definition run_host (rows : list row) : res (str * hnode) :=
  script ← gen_sh rows;
  _ ← qemu_user;
  let '(status, out, err, tree) := host_run script (adopted rows) in
  if negb (status =? 0) || negb (endswith out ($"eq done" ++ nl))
  then Err (EqError ($"host run failed (status " ++ dec status ++ $"): " ++ err))
  else Ok (out, tree).

Definition debugfs (img : image) (commands : list str) (write : bool) : res (str * str * image) :=
  let '(status, out, err, img') := debugfs_run img commands write in
  if negb (status =? 0)
  then Err (EqError ($"debugfs failed on " ++ image_name img ++ $": " ++ err))
  else Ok (out, err, img').

Definition replay (host_tree : str) (tree : hnode) (pristine : image) : res image :=
  commands ← replay_commands host_tree tree;
  '(_, err, out) ← debugfs pristine commands true;
  match List.filter (fun line => bool_decide (strip line ≠ []) && negb (startswith line ($"debugfs ")))
          (splitlines err) with
  | (_ :: _) as bad => Err (EqError ($"debugfs replay reported: " ++ join ($"; ") bad))
  | [] => Ok out
  end.

(** ** The logical snapshot *)

(** [LS_RE]: inode, mode and name of an [ls -p] line, and its size. *)
Definition ls_re (line : str) : option (str * str * str * str) :=
  let field s :=
    s ← strip_prefix ($"/") s;
    let '(ds, rest) := span is_digit s in
    if decide (ds = []) then None else Some (ds, rest) in
  '(inode, rest) ← field line;
  '(mode, rest) ← field rest;
  '(_, rest) ← field rest;
  '(_, rest) ← field rest;
  rest ← strip_prefix ($"/") rest;
  back ← strip_prefix ($"/") (reverse rest);
  let '(size, back) := span is_digit back in
  name ← strip_prefix ($"/") back;
  Some (inode, mode, reverse name, reverse size).

Definition dentry : Type := Z * Z * Z.            (* inode, mode, size *)
Definition dirmap : Type := list (str * list (str * dentry)).

Definition ls_line (entries : list (str * dentry)) (line : str) : res (list (str * dentry)) :=
  match ls_re (strip line) with
  | None => Ok entries
  | Some (inode, mode, name, size) =>
      if bool_decide (name ∈ [$"."; $".."]) || (int_of_digits inode =? 0) then Ok entries else
      m ← py_int 8 mode;
      Ok (dset name (int_of_digits inode, m, int_of_digits size) entries)
  end.

Definition ls_header (line : str) : option str :=
  if startswith line ($"debugfs: ls -p ") then Some [] else None.

Definition listing (img : image) (directories : list str) : res dirmap :=
  '(out, _, _) ← debugfs img (map (fun d => shq "ls -p ~" ++ d ++ quo) directories) false;
  foldM (fun result '(directory, section) =>
      entries ← foldM ls_line [] (splitlines section);
      Ok (dset directory entries result))
    [] (zip directories (tail (re_split ls_header out))).

(** The directories a listing names, to be listed next. *)
Definition subdirs (found : dirmap) : list str :=
  concat (map (fun '(directory, entries) =>
    omap (fun '(name, (_, mode, _)) =>
      if S_ISDIR mode then Some (rstrip_by (Z.eqb 47) directory ++ $"/" ++ name) else None)
      entries) found).

Definition walk_body (img : image) (st : dirmap * list str) : flow (dirmap * list str) (res dirmap) :=
  let '(tree, pending) := st in
  match pending with
  | [] => Stop (Ok tree)
  | _ => match listing img pending with
         | Err e => Stop (Err e)
         | Ok found => Next (dupdate tree found, subdirs found)
         end
  end.
Definition walk (fuel : nat) (img : image) (top : str) : res dirmap :=
  while fuel (walk_body img) ([], [top]).

(** [re.search] for a literal and a number anywhere. *)
Definition number_after (literal : str) (bol : bool) (s : str) : option (Z * str) :=
  rest ← strip_prefix literal s; digits1 rest.
Definition line_number_after (literal : str) (bol : bool) (s : str) : option (Z * str) :=
  if bol then number_after literal bol s else None.

(** [f"{[...]}"] of a list. *)
Definition list_repr {A} (show : A → str) (l : list A) : str := $"[" ++ join ($", ") (map show l) ++ $"]".

Definition stat_section (facts : list (Z * (Z * Z))) (section : str) : list (Z * (Z * Z)) :=
  match re_search (line_number_after ($"Inode: ")) section, re_search (number_after ($"Links: ")) section,
        re_search (number_after ($"Blockcount: ")) section with
  | Some number, Some links, Some blocks => dset number (links, blocks) facts
  | _, _, _ => facts
  end.

Definition inode_facts (img : image) (inodes : list Z) : res (list (Z * (Z * Z))) :=
  let inodes := sorted_Z (remove_dups inodes) in
  '(out, _, _) ← debugfs img (map (fun i => $"stat <" ++ dec i ++ $">") inodes) false;
  let facts := foldl stat_section [] (tail (re_split (strip_prefix ($"debugfs: stat ")) out)) in
  match filter (fun i => dmem i facts = false) inodes with
  | (_ :: _) as missing =>
      Err (EqError (image_name img ++ $": no stat for inodes " ++ list_repr dec missing))
  | [] => Ok facts
  end.

Definition contents (scratch : str) (img : image) (paths : list str) : res (list (str * bytes)) :=
  _ ← debugfs img
        (map (fun ip => shq "dump ~" ++ ip.2 ++ shq "~ " ++ scratch ++ $"/" ++ dec ip.1)
          (zip (zrange (zlen paths)) paths)) false;
  mapM_res (fun p => data ← of_option FileNotFoundError (dump_file img p); Ok (p, data)) paths.

(** The facts of a path: kind, mode, size, links, blocks, names, data. *)
Record fact := Fact {
  f_kind : str; f_mode : option Z; f_size : option Z; f_links : option Z; f_blocks : option Z;
  f_names : option (list str); f_data : option bytes
}.
#[global] Instance fact_eq_dec : EqDecision fact.
Proof. solve_decision. Defined.

(** [parent, name = directory.rsplit("/", 1)]. *)
Definition rsplit_slash (s : str) : option (str * str) :=
  let '(name, rest) := span (fun c => negb (c =? 47)) (reverse s) in
  match rest with
  | _ :: parent => Some (reverse parent, reverse name)
  | [] => None
  end.

Definition under_root (d : str) : bool :=
  bool_decide (d = $"/" ++ ROOT) || startswith d ($"/" ++ ROOT ++ $"/").

Definition entry_fact (directory : str) (facts : list (Z * (Z * Z)))
    (st : list (str * fact) * list str) (e : str * dentry) : res (list (str * fact) * list str) :=
  let '(name, (inode, mode, size)) := e in
  let '(files, regular) := st in
  let path := directory ++ $"/" ++ name in
  '(links, blocks) ← dget_or_raise inode facts;
  if S_ISDIR mode then Ok st else
  let kind_ := if S_ISREG mode then $"reg" else $"mode" ++ show_nat 8 mode in
  let files := dset path (Fact kind_ (Some (S_IMODE mode)) (Some size) (Some links) (Some blocks) None None)
                 files in
  Ok (files, if S_ISREG mode then regular ++ [path] else regular).

Definition dir_facts (facts : list (Z * (Z * Z))) (st : list (str * fact) * list str)
    (de : str * list (str * dentry)) : res (list (str * fact) * list str) :=
  let '(directory, entries) := de in
  let names := py_sorted str_le (map fst entries) in
  foldM (entry_fact directory facts)
    (dset directory (Fact ($"dir") None None None None (Some names) None) st.1, st.2) entries.

(** A directory's mode and links, from its entry in its parent. *)
Definition dir_mode (full : dirmap) (facts : list (Z * (Z * Z))) (files : list (str * fact))
    (directory : str) : res (list (str * fact)) :=
  if decide (directory = $"/" ++ ROOT) then Ok files else
  '(parent, name) ← of_option ValueError (rsplit_slash directory);
  entries ← dget_or_raise parent full;
  '(inode, mode, _) ← dget_or_raise name entries;
  '(links, _) ← dget_or_raise inode facts;
  k ← dget_or_raise directory files;
  Ok (dset directory (Fact (f_kind k) (Some (S_IMODE mode)) None (Some links) None (f_names k) None) files).

Record counters := Counters {
  sb_blocks : Z; sb_inodes : Z; gd_blocks : Z; gd_inodes : Z; bitmap_blocks : Z; bitmap_inodes : Z
}.
#[global] Instance counters_eq_dec : EqDecision counters.
Proof. solve_decision. Defined.

(** [^label:\s+(\d+)$] *)
Definition sb_count (label : str) (bol : bool) (s : str) : option (Z * str) :=
  if bol then
    rest ← strip_prefix (label ++ $":") s;
    rest ← spaces1 rest;
    '(n, rest) ← digits1 rest;
    if at_eol rest then Some (n, rest) else None
  else None.

(** [^\s+(\d+) free blocks, ] *)
Definition gd_block_count (bol : bool) (s : str) : option (Z * str) :=
  if bol then
    rest ← spaces1 s;
    '(n, rest) ← digits1 rest;
    rest ← strip_prefix ($" free blocks, ") rest;
    Some (n, rest)
  else None.

(** [ free blocks, (\d+) free inodes] *)
Definition gd_inode_count (bol : bool) (s : str) : option (Z * str) :=
  rest ← strip_prefix ($" free blocks, ") s;
  '(n, rest) ← digits1 rest;
  rest ← strip_prefix ($" free inodes") rest;
  Some (n, rest).

(** A line of spaces, the label and the ranges after it. *)
Definition range_line (label : str) (bol : bool) (s : str) : option (str * str) :=
  if bol then
    rest ← spaces1 s;
    rest ← strip_prefix (label ++ $": ") rest;
    Some (span (fun c => negb (c =? 10)) rest)
  else None.

(** The blocks of a range list such as [9-20, 30]. *)
Definition range_size (part : str) : res Z :=
  let '(low, rest) := span (fun c => negb (c =? 45)) part in
  let high := tail rest in
  hi ← py_int 10 (if decide (high = []) then low else high);
  lo ← py_int 10 low;
  Ok (hi - lo + 1).
Definition ranges (label text : str) : res Z :=
  foldM (fun total part => n ← range_size part; Ok (total + n)) 0
    (List.filter (fun p => bool_decide (p ≠ []))
      (concat (map (fun line => map strip (split_on 44 line)) (findall (range_line label) text)))).

Definition list_sum (l : list Z) : Z := foldr Z.add 0 l.

Definition counts (img : image) : res counters :=
  let '(status, text) := dumpe2fs_run img in
  if negb (status =? 0) then Err (EqError ($"dumpe2fs failed on " ++ image_name img)) else
  sbb ← of_option AttributeError (re_search (sb_count ($"Free blocks")) text);
  sbi ← of_option AttributeError (re_search (sb_count ($"Free inodes")) text);
  let gdb := list_sum (findall gd_block_count text) in
  let gdi := list_sum (findall gd_inode_count text) in
  bb ← ranges ($"Free blocks") text;
  bi ← ranges ($"Free inodes") text;
  Ok (Counters sbb sbi gdb gdi bb bi).

Record snap := Snap {
  s_files : list (str * fact); s_counts : counters; s_reachable : Z; s_inodes : Z
}.

Definition snapshot (fuel : nat) (scratch : str) (img : image) : res snap :=
  full ← walk fuel img ($"/");
  let eq := List.filter (fun de => under_root de.1) full in
  let inodes := 2 :: concat (map (fun de => map (fun e => e.2.1.1) de.2) full) in
  facts ← inode_facts img inodes;
  '(files, regular) ← foldM (dir_facts facts) ([], []) eq;
  files ← foldM (dir_mode full facts) files (map fst eq);
  data ← contents scratch img regular;
  let files := map (fun pf => (pf.1, Fact (f_kind pf.2) (f_mode pf.2) (f_size pf.2) (f_links pf.2)
                       (f_blocks pf.2) (f_names pf.2) (dget pf.1 data))) files in
  c ← counts img;
  Ok (Snap files c (list_sum (map (fun lf => (lf.2.2 + 1) / 2) facts)) (zlen facts)).
End tools.

(** ** Verdicts *)

Definition log_line (st : option str * list (str * list str)) (line : str)
    : option str * list (str * list str) :=
  let '(current, rows) := st in
  if startswith line ($"row ") then let name := drop 4 line in (Some name, dset name [] rows)
  else if decide (line = $"eq done") then (None, rows)
  else match current with
       | Some name => (current, dset name (default [] (dget name rows) ++ [line]) rows)
       | None => st
       end.
Definition split_log (log : str) : list (str * list str) :=
  (foldl log_line (None, []) (splitlines log)).2.

Definition oct (mode : Z) : str := $"0o" ++ show_nat 8 mode.
Definition opt_repr {A} (show : A → str) (o : option A) : str :=
  match o with Some a => show a | None => $"None" end.

Definition describe (f : fact) : str :=
  if decide (f_kind f = $"dir") then
    $"dir mode=" ++ opt_repr (fun m => if m =? 0 then $"0" else oct m) (f_mode f)
    ++ $" links=" ++ opt_repr dec (f_links f)
    ++ $" entries=" ++ dec (zlen (default [] (f_names f)))
  else
    f_kind f ++ $" mode=" ++ opt_repr oct (f_mode f) ++ $" size=" ++ opt_repr dec (f_size f)
    ++ $" links=" ++ opt_repr dec (f_links f) ++ $" i_blocks=" ++ opt_repr dec (f_blocks f)
    ++ $" data=" ++ opt_repr bytes_repr (take 24 <$> f_data f)
    ++ (if 24 <? zlen (default [] (f_data f)) then $"..." else []).

(** The paths of two snapshots below a prefix, in order. *)
Definition paths_under (prefix : str) (kernel_files host_files : list (str * fact)) : list str :=
  py_sorted str_le
    (List.filter (fun p => bool_decide (p = prefix) || startswith p (prefix ++ $"/"))
      (remove_dups (map fst kernel_files ++ map fst host_files))).

Definition path_difference (other : str) (kernel_files host_files : list (str * fact)) (path : str)
    : option str :=
  let k := dget path kernel_files in
  let h := dget path host_files in
  if decide (k = h) then None
  else Some (path ++ $": kernel " ++ match k with Some f => describe f | None => $"absent" end
             ++ $"; " ++ other ++ $" " ++ match h with Some f => describe f | None => $"absent" end).

Definition row_differences (name : str) (kernel_files host_files : list (str * fact))
    (kernel_log host_log : list (str * list str)) : list str :=
  let prefix := $"/" ++ ROOT ++ $"/" ++ name in
  let lines := dget name kernel_log in
  let host_lines := dget name host_log in
  (if decide (lines = host_lines) then []
   else [$"log: kernel " ++ opt_repr (list_repr py_repr) lines ++ $" host "
         ++ opt_repr (list_repr py_repr) host_lines])
  ++ omap (path_difference ($"host") kernel_files host_files)
       (paths_under prefix kernel_files host_files).

Definition counters_agree (c : counters) : bool :=
  (sb_blocks c =? gd_blocks c) && (gd_blocks c =? bitmap_blocks c)
  && (sb_inodes c =? gd_inodes c) && (gd_inodes c =? bitmap_inodes c).

Definition counters_repr (c : counters) : str :=
  $"{'sb_blocks': " ++ dec (sb_blocks c) ++ $", 'sb_inodes': " ++ dec (sb_inodes c)
  ++ $", 'gd_blocks': " ++ dec (gd_blocks c) ++ $", 'gd_inodes': " ++ dec (gd_inodes c)
  ++ $", 'bitmap_blocks': " ++ dec (bitmap_blocks c) ++ $", 'bitmap_inodes': "
  ++ dec (bitmap_inodes c) ++ $"}".

Definition pair_repr (p : Z * Z) : str := $"(" ++ dec p.1 ++ $", " ++ dec p.2 ++ $")".

(** A line of the table: name, issue, expected and actual outcome, and what
    differs. *)
Record verdict := Verdict {
  v_name : str; v_issue : str; v_expect : str; v_outcome : str; v_diffs : list str
}.

Definition MATCH : str := $"match".
Definition DIFFER : str := $"differ".

Definition row_verdict (kernel_files host_files : list (str * fact))
    (kernel_log host_log : list (str * list str)) (r : row) : verdict :=
  let diffs := row_differences (r_name r) kernel_files host_files kernel_log host_log in
  Verdict (r_name r) (r_issue r) (r_expect r) (if decide (diffs = []) then MATCH else DIFFER) diffs.

Definition counter_verdicts (img : str) (c : counters) : list verdict :=
  if counters_agree c then []
  else [Verdict ($"counters(" ++ img ++ $")") ($"-") MATCH DIFFER [counters_repr c]].

Definition free_and_reachable (s : snap) : Z * Z :=
  (bitmap_blocks (s_counts s) + s_reachable s, bitmap_inodes (s_counts s) + s_inodes s).

(** The whole table of [compare]: the rows, then the whole-image rows. *)
Definition verdicts (rows : list row) (kernel host : snap)
    (kernel_log host_log : list (str * list str)) : list verdict :=
  let table := map (row_verdict (s_files kernel) (s_files host) kernel_log host_log) rows in
  let counted := counter_verdicts ($"kernel") (s_counts kernel)
                 ++ counter_verdicts ($"host") (s_counts host) in
  let named := map v_name (List.filter (fun v => bool_decide (v_outcome v ≠ v_expect v)) table)
               ++ map v_name counted in
  let any := existsb (fun f => startswith f ($"counters")) named in
  let ksum := free_and_reachable kernel in
  let hsum := free_and_reachable host in
  table ++ counted
  ++ [Verdict ($"counters") ($"-") MATCH (if any then DIFFER else MATCH) []]
  ++ [if decide (ksum = hsum) then Verdict ($"conservation") ($"-") MATCH MATCH []
      else Verdict ($"conservation") ($"-") MATCH DIFFER
             [$"free+reachable (blocks, inodes): kernel " ++ pair_repr ksum ++ $" host " ++ pair_repr hsum]].

(** The names [compare] reports: the rows, images and sums with an unexpected
    outcome, in that order. *)
Definition failures (rows : list row) (kernel host : snap)
    (kernel_log host_log : list (str * list str)) : list str :=
  map v_name (List.filter (fun v => bool_decide (v_outcome v ≠ v_expect v))
    (map (row_verdict (s_files kernel) (s_files host) kernel_log host_log) rows))
  ++ map v_name (counter_verdicts ($"kernel") (s_counts kernel))
  ++ map v_name (counter_verdicts ($"host") (s_counts host))
  ++ (if decide (free_and_reachable kernel = free_and_reachable host) then [] else [$"conservation"]).

(** [f"{s:<n}"]. *)
Definition ljust (n : nat) (s : str) : str := s ++ replicate (n - length s) 32.

Definition verdict_lines (v : verdict) : list str :=
  let word := if decide (v_expect v = v_outcome v) then $"ok" else $"UNEXPECTED" in
  ($"ext2-eq row " ++ ljust 18 (v_name v) ++ $" " ++ ljust 6 (v_issue v) ++ $" expect="
   ++ ljust 6 (v_expect v) ++ $" got=" ++ ljust 6 (v_outcome v) ++ $" " ++ word)
  :: map (fun diff => $"    " ++ diff) (take 6 (v_diffs v)).

(** ** The self-test *)

Definition AssertionError (msg : str) : exn := Custom "AssertionError" msg.
Definition assert_ (b : bool) (msg : str) : res unit := require b (AssertionError msg).

(** Split at semicolons, double ampersands and the word do. *)
Fixpoint shell_parts (fuel : nat) (prev : option Z) (cur s : str) : list str :=
  match fuel with
  | O => [cur]
  | S fuel =>
      match s with
      | [] => [cur]
      | c :: s' =>
          if c =? 59 then cur :: shell_parts fuel (Some c) [] s' else
          match strip_prefix ($"&&") s with
          | Some rest => cur :: shell_parts fuel (Some 38) [] rest
          | None =>
              match word_at ($"do") prev s with
              | Some rest => cur :: shell_parts fuel (Some 111) [] rest
              | None => shell_parts fuel (Some c) (cur ++ [c]) s'
              end
          end
      end
  end.

(** The scan of one generated line: a file under the root is written by an
    external applet, and nothing runs cat or printf. *)
Definition scan_line (line : str) : res unit :=
  foldM (fun _ part =>
      let p := strip part in
      if contains (shq ">~$R/") part && negb (startswith p ($"$B ") || startswith p ($"exec 3<>"))
      then Err (AssertionError ($"a file written by a non-external command: " ++ py_repr line))
      else if has_word [$"cat"; $"printf"] None part
      then Err (AssertionError ($"cat (sendfile, #1070) or printf (#1067): " ++ py_repr line))
      else Ok ())
    () (shell_parts (S (length line)) None [] line).

Definition unlines (ls : list String.string) : str := concat (map (fun l => str_of l ++ nl) ls).

Definition refused (complaint text : str) : res unit :=
  match parse text with
  | Err (Custom cls msg) =>
      if decide (cls = "EqError"%string) then Ok () else Err (Custom cls msg)
  | Err e => Err e
  | Ok _ => Err (AssertionError complaint)
  end.

Definition bad_scripts : list str :=
  [unlines ["mkdir a"]; unlines ["row a maybe -"]; unlines ["row a match -"; "mkdir b"];
   unlines ["row a match -"; "write a/f 'x y'"]; unlines ["row a match -"; "row a match -"];
   unlines ["row a match -"; "frob a"]; unlines ["row a match -"; "fill a/f 1025"]]%string.

Definition self_test : res str :=
  rows ← parse (unlines ["row a match -"; "mkdir a"; "write a/f x"; "row b differ #1"; "mkdir b"]%string);
  _ ← assert_ (bool_decide (map r_name rows = [$"a"; $"b"])) [];
  script ← gen_sh rows;
  _ ← assert_ (contains (shq "$B echo -n x >~$R/a/f~") script) script;
  _ ← foldM (fun _ bad => refused ($"accepted " ++ py_repr bad) bad) () bad_scripts;
  every ← parse (unlines ["row a match -"; "mkdir a"; "write a/f x"; "fill a/g 13";
                          "overwrite a/f a/g"; "truncate a/g"; "files a 2"; "peer a/p"]%string);
  script ← gen_sh every;
  _ ← foldM (fun _ line => scan_line line) () (splitlines script);
  _ ← refused ($"accepted a second adopt")
        (unlines ["row a match -"; "mkdir a"; "adopt a/f"; "adopt a/g"]%string);
  adopting ← parse (unlines ["row a match -"; "mkdir a"; "adopt a/f"]%string);
  _ ← assert_ (adopted adopting && negb (adopted rows)) [];
  script ← gen_sh adopting;
  _ ← assert_ (contains (shq "mv ~$F/" ++ DIND_FIXTURE ++ shq "~ ~$R/a/f~") script) [];
  _ ← assert_ (SINGLE_LIMIT_KIB <=? foldr Z.max 0 (map fst DIND_BLOCKS)) [];
  _ ← assert_ (bool_decide (split_log (unlines ["row a"; "1 mkdir a -> 0"; "  a dir"; "row b"; "eq done"]%string)
                 = [($"a", [$"1 mkdir a -> 0"; $"  a dir"]); ($"b", [])])) [];
  let dir := ($"/eq/a", Fact ($"dir") (Some 493) None (Some 2) None (Some [$"f"]) None) in
  let file size data := ($"/eq/a/f", Fact ($"reg") (Some 420) (Some size) (Some 1) (Some 2) None (Some data)) in
  let files := [dir; file 1 ($"x")] in
  let other := [dir; file 2 ($"xy")] in
  _ ← assert_ (bool_decide (row_differences ($"a") files files [] [] = [])) [];
  _ ← assert_ (zlen (row_differences ($"a") files other [] []) =? 1) [];
  _ ← assert_ (bool_decide (row_differences ($"b") files other [] [] = [])) [];
  report_pass ($"ext2-eq self-test") ($"parser, generator, log and row diff") [($"cases", 12)].

Section compare.
Context {T : Ext2Tools}.

(** [compare]: the lines printed, and the PASS line or the exception. *)
Definition compare (fuel : nat) (scratch : str) (rows : list row) (expected_log : str)
    (kernel_image host_image : image) : res (list str * res str) :=
  kernel ← snapshot fuel scratch kernel_image;
  host ← snapshot fuel scratch host_image;
  '(log_bytes, _, _) ← debugfs kernel_image [$"cat /" ++ LOG] false;
  let kernel_log := split_log log_bytes in
  let host_log := split_log expected_log in
  if negb (bool_decide ($"eq done" ∈ splitlines log_bytes))
  then Err (EqError ($"the kernel's /" ++ LOG ++ $" does not end with 'eq done': the guest did not run the whole script ("
              ++ py_repr (from log_bytes (Z.max 0 (zlen log_bytes - 200))) ++ $")")) else
  let out := concat (map verdict_lines (verdicts rows kernel host kernel_log host_log)) in
  match failures rows kernel host kernel_log host_log with
  | (_ :: _) as names =>
      Ok (out, Err (EqError ($"rows with an unexpected outcome: " ++ join ($", ") names
                 ++ $" (a fixed divergence flips its row in ops.eq to 'match')")))
  | [] =>
      Ok (out, report_pass ($"ext2-eq")
        (dec (zlen rows) ++ $" rows and 2 whole-image rows as recorded, "
         ++ dec (zlen (s_files kernel)) ++ $" kernel paths compared")
        [($"rows", zlen rows); ($"paths", zlen (s_files kernel))])
  end.

(** [main]: the exit status, the lines printed and the file written.  The files
    and images named on the command line are given by [text] and [img]. *)
Definition main (fuel : nat) (scratch work : str) (text : str → res str) (img : str → image)
    (argv : list str) : res (Z * list str * list (str * str) * list (str * image)) :=
  let body : res (Z * list str * list (str * str) * list (str * image)) :=
    if decide (drop 1 argv = [$"self-test"]) then line ← self_test; Ok (0, [line], [], []) else
    command ← item argv 1;
    let args := drop 2 argv in
    if bool_decide (command = $"fixture") && (zlen argv =? 3) then
      out ← item argv 2; Ok (0, [], [(out, write_fixture)], []) else
    ops ← item args 0;
    source ← text ops;
    rows ← parse source;
    if bool_decide (command = $"gen-sh") && (zlen args =? 2) then
      script ← gen_sh rows; out ← item args 1; Ok (0, [], [(out, script)], [])
    else if bool_decide (command = $"host") && (zlen args =? 2) then
      '(log, _) ← run_host rows; Ok (0, [log], [], [])
    else if bool_decide (command = $"check-expected") && (zlen args =? 3) then
      '(log, _) ← run_host rows;
      expected_path ← item args 2;
      expected ← text expected_path;
      if decide (expected = log) then
        line ← report_pass ($"ext2-eq host log") (expected_path ++ $" regenerated from host Linux")
                 [($"lines", zlen (splitlines log))];
        Ok (0, [line], [], [])
      else Err (EqError (expected_path ++ $" is not what host Linux prints for " ++ ops
                  ++ $"; regenerate it with 'ext2_eq.py host', never by hand"))
    else if bool_decide (command = $"replay") && (zlen args =? 4) then
      '(_, tree) ← run_host rows;
      pristine ← item args 2; out ← item args 3;
      replayed ← replay (work ++ $"/root") tree (img pristine);
      Ok (0, [], [], [(out, replayed)])
    else if bool_decide (command = $"compare") && (zlen args =? 4) then
      log_path ← item args 1; kernel ← item args 2; host ← item args 3;
      expected ← text log_path;
      '(out, verdict_) ← compare fuel scratch rows expected (img kernel) (img host);
      match verdict_ with
      | Ok line => Ok (0, out ++ [line], [], [])
      | Err (Custom cls msg) =>
          if decide (cls = "EqError"%string) then Ok (1, out ++ [$"FAIL ext2-eq: " ++ msg], [], [])
          else Err (Custom cls msg)
      | Err e => Err e
      end
    else Ok (2, [], [], []) in
  match body with
  | Err (Custom cls msg) =>
      if decide (cls = "EqError"%string) then Ok (1, [$"FAIL ext2-eq: " ++ msg], [], [])
      else Err (Custom cls msg)
  | r => r
  end.
End compare.
