(* ===== verification/Ext2EqFacts.v ===== *)
(** * Facts about ext2 equivalence, tier B

    What the parser admits and that the generator accepts it; what a row's
    verdict and a passing comparison mean; that the walk of an image ends. *)
From S2P Require Import Prelude Text Dict Sort PassLine Ext2Eq.

(** ** The parser *)

(** An argument of its kind, in a row. *)
Definition arg_ok (row_ : str) (k : kind) (arg : str) : Prop :=
  match k with
  | Path => name_re arg = true ∧ (arg = row_ ∨ startswith arg (row_ ++ $"/") = true)
  | Text => text_re arg = true
  | Count => count_re arg = true
  end.

Record op_ok (row_ : str) (o : op) : Prop := {
  oo_args : ∃ kinds template, dget (o_name o) OPS = Some (kinds, template) ∧
    Forall2 (arg_ok row_) kinds (o_args o);
  oo_fill : o_name o = $"fill" → ∃ p n, o_args o = [p; n] ∧ int_of_digits n ≤ FILL_MAX
}.

Record row_ok (r : row) : Prop := {
  ro_name : text_re (r_name r) = true;
  ro_expect : r_expect r = MATCH ∨ r_expect r = DIFFER;
  ro_issue : issue_re (r_issue r) = true;
  ro_ops : Forall (op_ok (r_name r)) (r_ops r)
}.

(** The adoptions of a script. *)
Definition adoptions (rows : list row) : list op :=
  filter (fun o => o_name o = $"adopt") (concat (map r_ops rows)).

Record rows_ok (rows : list row) : Prop := {
  rk_rows : Forall row_ok rows;
  rk_names : NoDup (map r_name rows);
  rk_adopt : (length (adoptions rows) ≤ 1)%nat
}.

Lemma check_arg_ok row_ lineno k arg u : check_arg row_ lineno (k, arg) = Ok u → arg_ok row_ k arg.
Proof.
  destruct k; cbn.
  - destruct (name_re arg) eqn:E1; cbn; [|done]. destruct (bool_decide (arg = row_)) eqn:E2; cbn.
    + zbool. auto.
    + destruct (startswith arg _) eqn:E3; [|done]. auto.
  - by destruct (text_re arg).
  - by destruct (count_re arg).
Qed.

Lemma check_args_ok row_ lineno kinds args u :
  length args = length kinds →
  foldM (fun _ ka => check_arg row_ lineno ka) u (zip kinds args) = Ok () →
  Forall2 (arg_ok row_) kinds args.
Proof.
  revert args u. induction kinds as [|k kinds IH]; intros [|a args] u Hlen H; try done.
  cbn in H. apply bind_Ok_inv in H as ([] & Hc & H). constructor; [by eapply check_arg_ok|].
  eapply IH; [|exact H]. by injection Hlen.
Qed.

Lemma append_op_last rows r o :
  append_op (rows ++ [r]) o = rows ++ [Row (r_name r) (r_expect r) (r_issue r) (r_ops r ++ [o])].
Proof.
  unfold append_op. rewrite length_app, Nat.add_sub. cbn. rewrite alter_app_r_alt by lia.
  by rewrite Nat.sub_diag.
Qed.

Lemma adoptions_snoc rows r o :
  adoptions (rows ++ [Row (r_name r) (r_expect r) (r_issue r) (r_ops r ++ [o])]) =
  adoptions (rows ++ [r]) ++ (if decide (o_name o = $"adopt") then [o] else []).
Proof.
  unfold adoptions. rewrite !map_app, !concat_app, !filter_app. cbn. rewrite !app_nil_r, filter_app.
  rewrite filter_cons, filter_nil. by rewrite app_assoc.
Qed.

Lemma adopted_adoptions rows : adopted rows = false ↔ adoptions rows = [].
Proof.
  unfold adopted, adoptions. rewrite <- not_true_iff_false, existsb_exists. split.
  - intros H. destruct (filter _ _) as [|o l] eqn:E; [done|]. exfalso.
    assert (o ∈ o :: l) as Ho by by left. rewrite <- E in Ho. apply list_elem_of_filter in Ho as [Hn Ho].
    apply list_elem_of_In, in_concat in Ho as (ops & Hops & Ho). apply in_map_iff in Hops as (r & <- & Hr).
    apply H. exists r. split; [done|]. apply existsb_exists. exists o. split; [done|]. by apply bool_decide_eq_true.
  - intros H (r & Hr & Ho). apply existsb_exists in Ho as (o & Ho & Hn). apply bool_decide_eq_true in Hn.
    assert (o ∈ filter (fun o => o_name o = $"adopt") (concat (map r_ops rows))) as Hin.
    { apply list_elem_of_filter. split; [done|]. apply list_elem_of_In, in_concat.
      exists (r_ops r). split; [|done]. by apply in_map. }
    rewrite H in Hin. by apply not_elem_of_nil in Hin.
Qed.

Lemma row_line_ok rows lineno ws rows' :
  rows_ok rows → row_line rows lineno ws = Ok rows' → rows_ok rows'.
Proof.
  intros [Hr Hn Ha] H. unfold row_line in H. destruct ws as [|w [|name [|expect [|issue []]]]]; try done.
  destruct (bool_decide (expect ∈ _)) eqn:E1; [|done]. destruct (issue_re issue) eqn:E2; [|done].
  destruct (text_re name) eqn:E3; [|done]. cbn [negb orb] in H.
  destruct (existsb _ rows) eqn:E4; [done|]. injection H as <-. split.
  - apply Forall_app_2; [done|]. constructor; [|done]. split; cbn; try done.
    apply bool_decide_eq_true in E1. apply elem_of_cons in E1 as [->|E1]; [by left|].
    apply list_elem_of_singleton in E1 as ->. by right.
  - rewrite map_app. apply NoDup_app. split_and!; [done| |apply NoDup_singleton].
    intros n (r & -> & Hin)%list_elem_of_fmap Hx%list_elem_of_singleton. cbn in Hx.
    apply not_true_iff_false in E4. apply E4, existsb_exists. exists r. rewrite <- list_elem_of_In.
    split; [done|]. by apply bool_decide_eq_true.
  - unfold adoptions in *. rewrite map_app, concat_app, filter_app. cbn. by rewrite app_nil_r.
Qed.

Lemma op_line_inv rows lineno name args rows' :
  op_line rows lineno name args = Ok rows' →
  ∃ rows0 r kinds template, rows = rows0 ++ [r] ∧ dget name OPS = Some (kinds, template) ∧
    Forall2 (arg_ok (r_name r)) kinds args ∧
    (name = $"fill" → ∃ n, item args 1 = Ok n ∧ int_of_digits n ≤ FILL_MAX) ∧
    (name = $"adopt" → adopted rows = false) ∧
    rows' = rows0 ++ [Row (r_name r) (r_expect r) (r_issue r) (r_ops r ++ [Op lineno name args])].
Proof.
  unfold op_line. destruct (last rows) as [r|] eqn:El; [|done]. apply last_Some in El as [rows0 ->].
  destruct (dget name OPS) as [[kinds template]|] eqn:Ed; [|done].
  destruct (zlen args =? zlen kinds) eqn:Elen; [|done]. cbn [negb]. intros H.
  apply bind_Ok_inv in H as ([] & Hc & H). apply bind_Ok_inv in H as ([] & Hfill & H).
  exists rows0, r, kinds, template. split_and!; [done|done| | | |].
  - eapply check_args_ok; [|exact Hc]. unfold zlen in Elen. lia.
  - intros ->. rewrite decide_True in Hfill by done. apply bind_Ok_inv in Hfill as (n & Hn & Hle).
    destruct (FILL_MAX <? int_of_digits n) eqn:E; [done|]. exists n. split; [done|lia].
  - intros ->. rewrite bool_decide_eq_true_2 in H by done. by destruct (adopted (rows0 ++ [r])).
  - destruct (bool_decide _ && _); [done|]. injection H as <-. by rewrite append_op_last.
Qed.

Lemma op_line_ok rows lineno name args rows' :
  rows_ok rows → op_line rows lineno name args = Ok rows' → rows_ok rows'.
Proof.
  intros [Hr Hn Ha] (rows0 & r & kinds & template & -> & Hd & Hargs & Hfill & Had & ->)%op_line_inv.
  apply Forall_app in Hr as [Hr0 Hr]. apply Forall_cons in Hr as [[H1 H2 H3 H4] _]. split.
  - apply Forall_app_2; [done|]. constructor; [|done]. split; cbn; try done.
    apply Forall_app_2; [done|]. constructor; [|done]. split; cbn; [eauto|].
    intros ->. destruct (Hfill eq_refl) as (n & Hi & Hle). vm_compute in Hd. injection Hd as <- _.
    destruct args as [|p [|m []]]; try by inversion Hargs as [|?????? Hq]; inversion Hq.
    + exists p, m. split; [done|]. by injection Hi as ->.
    + exfalso. repeat match goal with H : Forall2 _ _ (_ :: _) |- _ => inversion H; clear H; subst end.
  - rewrite map_app in *. done.
  - rewrite adoptions_snoc, length_app. case_decide as Hname; [|cbn; lia].
    rewrite (proj1 (adopted_adoptions _)) by auto. done.
Qed.

Lemma parse_line_ok rows nl_ rows' : rows_ok rows → parse_line rows nl_ = Ok rows' → rows_ok rows'.
Proof.
  destruct nl_ as [lineno raw]. intros Hok H. unfold parse_line in H.
  destruct (_ || _); [by injection H as <-|]. destruct (words (strip raw)) as [|w args]; [by injection H as <-|].
  case_decide; [by eapply row_line_ok|by eapply op_line_ok].
Qed.

Lemma parse_rows text rows : parse text = Ok rows → rows_ok rows ∧ rows ≠ [].
Proof.
  unfold parse. intros H. apply bind_Ok_inv in H as (rows0 & Hf & H).
  assert (rows_ok rows0) as Hok.
  { eapply (foldM_inv parse_line rows_ok); [..|exact Hf].
    - intros rs nl_ rs' _ H1 H2. by eapply parse_line_ok.
    - split; [constructor|constructor|cbn; lia]. }
  destruct rows0; [done|]. by injection H as <-.
Qed.

(** ** The generator *)

Lemma template_ok name kinds template args :
  dget name OPS = Some (kinds, Some template) → length args = length kinds →
  ∃ cmd, format template args = Ok cmd.
Proof.
  intros Hd Hlen. apply dget_elem_of in Hd.
  assert (Forall (fun e : str * (list kind * option (list piece)) =>
    match e.2.2 with
    | Some template => Forall (fun p => match p with Lit _ => True | Arg n => 0 ≤ n < zlen e.2.1 end) template
    | None => True
    end) OPS) as Hall by (vm_compute; repeat first [constructor | split | discriminate]).
  rewrite Forall_forall in Hall. specialize (Hall _ Hd). cbn in Hall. unfold format.
  destruct (mapM_res_total (fun p => match p with Lit s => Ok s | Arg n => item args n end) template) as [parts ->];
    [|by eexists].
  eapply Forall_impl; [exact Hall|]. intros [s|n] Hn; [by eexists|]. apply item_ok.
  unfold zlen in *. lia.
Qed.

Lemma op_script_total row_ step o : op_ok row_ o → ∃ lines, op_script step o = Ok lines.
Proof.
  intros [(kinds & template & Hd & Hargs) _]. pose proof (Forall2_length _ _ _ Hargs) as Hlen.
  unfold op_script.
  assert (∀ i, 0 ≤ i < zlen kinds → ∃ a, item (o_args o) i = Ok a) as Hitem.
  { intros i Hi. apply item_ok. unfold zlen in *. lia. }
  case_decide as E1.
  { rewrite E1 in Hd. vm_compute in Hd. injection Hd as <- _.
    destruct (Hitem 0) as [a ->]; [by_compute|]. by eexists. }
  case_decide as E2.
  { rewrite E2 in Hd. vm_compute in Hd. injection Hd as <- _.
    destruct (Hitem 0) as [a ->]; [by_compute|]. destruct (Hitem 1) as [b ->]; [by_compute|]. by eexists. }
  rewrite Hd. cbn [of_option mbind res_bind]. case_decide as E3.
  { rewrite E3 in Hd. vm_compute in Hd. injection Hd as <- _.
    destruct (Hitem 0) as [a ->]; [by_compute|]. destruct (Hitem 1) as [b ->]; [by_compute|]. by eexists. }
  destruct template as [template|].
  - cbn [of_option mbind res_bind]. destruct (template_ok _ _ _ (o_args o) Hd) as [cmd ->]; [done|]. by eexists.
  - exfalso. apply dget_elem_of in Hd.
    assert (Forall (fun e : str * (list kind * option (list piece)) =>
      e.2.2 = None → e.1 ∈ [$"fill"; $"files"; $"peer"]) OPS) as Hall by (vm_compute; repeat constructor; try done; by_compute).
    rewrite Forall_forall in Hall. specialize (Hall _ Hd eq_refl). cbn in Hall.
    repeat (apply elem_of_cons in Hall as [Hall|Hall]; [done|]). by apply not_elem_of_nil in Hall.
Qed.

(** What the parser admits, the generator accepts.  The rows of an operation
    script that parses are well formed: distinct row names, a match or differ
    outcome, operations with arguments of their kinds below their row, fills
    within the source's size and one adoption at most; and for such rows the
    shell script is generated, the rows in their order between the preamble and
    the closing mark. *)
Theorem parsed_rows_generate text rows :
  parse text = Ok rows →
  rows_ok rows ∧ rows ≠ [] ∧
  ∃ body, Forall2 (fun r lines => row_script r = Ok lines) rows body ∧
    gen_sh rows = Ok (join nl (preamble ++ concat body ++ [$"echo 'eq done'"]) ++ nl).
Proof.
  intros [Hok Hne]%parse_rows. split_and!; [done|done|]. unfold gen_sh.
  destruct (mapM_res_total row_script rows) as [body Hb].
  { destruct Hok as [Hr _ _]. eapply Forall_impl; [exact Hr|]. intros r [_ _ _ Hops]. unfold row_script.
    destruct (mapM_res_total (fun '(step, o) => op_script step o) (enumerate1 (r_ops r))) as [ls ->]; [|by eexists].
    apply Forall_forall. intros [step o] Hin. apply elem_of_zip_r in Hin.
    rewrite Forall_forall in Hops. eapply op_script_total. by apply Hops. }
  exists body. rewrite Hb. split; [by apply mapM_res_Forall2|done].
Qed.

Lemma parsed_rows_generate_witness :
  rows_ok [Row ($"a") MATCH ($"-") [Op 2 ($"mkdir") [$"a"]]] ∧
  ∃ script, gen_sh [Row ($"a") MATCH ($"-") [Op 2 ($"mkdir") [$"a"]]] = Ok script.
Proof.
  destruct (parsed_rows_generate ($"row a match -" ++ nl ++ $"mkdir a") [Row ($"a") MATCH ($"-") [Op 2 ($"mkdir") [$"a"]]])
    as (H1 & _ & body & _ & H2); [by_compute|]. apply conj; [exact H1|]. eexists. exact H2.
Defined.

(** ** Printing *)

Definition op_text (o : op) : str := join ($" ") (o_name o :: o_args o).
Definition row_text (r : row) : list str :=
  join ($" ") [$"row"; r_name r; r_expect r; r_issue r] :: map op_text (r_ops r).
Definition print_rows (rows : list row) : str := concat (map (fun l => l ++ nl) (concat (map row_text rows))).

(** The operations with the line numbers their printed form has. *)
Fixpoint number_ops (n : Z) (ops : list op) : list op :=
  match ops with
  | [] => []
  | o :: ops => Op n (o_name o) (o_args o) :: number_ops (n + 1) ops
  end.
Fixpoint number_rows (n : Z) (rows : list row) : list row :=
  match rows with
  | [] => []
  | r :: rows =>
      Row (r_name r) (r_expect r) (r_issue r) (number_ops (n + 1) (r_ops r))
      :: number_rows (n + 1 + zlen (r_ops r)) rows
  end.

Fixpoint enumerate_from {A} (n : Z) (l : list A) : list (Z * A) :=
  match l with [] => [] | a :: l => (n, a) :: enumerate_from (n + 1) l end.

Lemma enumerate1_from {A} (l : list A) : enumerate1 l = enumerate_from 1 l.
Proof.
  unfold enumerate1. replace (zlen l + 1) with (1 + zlen l) by lia.
  enough (∀ n, zip (py_range n (n + zlen l) 1) l = enumerate_from n l) as H by apply H.
  induction l as [|a l IH]; intros n; [by destruct (py_range n (n + @zlen A []) 1)|].
  rewrite zlen_cons. cbn [enumerate_from].
  assert (py_range n (n + (1 + zlen l)) 1 = n :: py_range (n + 1) (n + 1 + zlen l) 1) as ->.
  { unfold py_range. pose proof (zlen_nonneg l).
    replace (Z.to_nat _) with (S (Z.to_nat ((n + 1 + zlen l - (n + 1) + 1 - 1) / 1))).
    - cbn [seq map]. f_equal; [lia|]. rewrite <- seq_shift, map_map. apply map_ext. intros i. lia.
    - rewrite !Z.div_1_r. lia. }
  cbn [zip zip_with]. f_equal. apply IH.
Qed.

Lemma enumerate_from_app {A} n (l k : list A) :
  enumerate_from n (l ++ k) = enumerate_from n l ++ enumerate_from (n + zlen l) k.
Proof.
  revert n. induction l as [|a l IH]; intros n; cbn [app enumerate_from].
  - by rewrite zlen_nil, Z.add_0_r.
  - rewrite IH, zlen_cons. do 3 f_equal. lia.
Qed.

Lemma name_char_space c : is_name_char c = true → is_space c = false.
Proof.
  unfold is_name_char, is_word, is_alnum, is_alpha, is_upper, is_lower, is_digit, in_range, is_space, in_range. lia.
Qed.

Lemma text_token s : text_re s = true → token s.
Proof.
  unfold text_re. intros [Hne Hs]%andb_true_iff. apply bool_decide_eq_true in Hne. split; [done|].
  apply Forall_forall. intros c Hc. apply name_char_space. rewrite forallb_forall in Hs.
  by apply Hs, list_elem_of_In.
Qed.

Lemma split_chars s :
  Forall (fun p => forallb is_name_char p = true) (split_on 47 s) →
  Forall (fun c => c = 47 ∨ is_name_char c = true) s.
Proof.
  induction s as [|c s IH]; cbn; [done|]. destruct (c =? 47) eqn:E.
  - intros [_ H]%Forall_cons. constructor; [left; lia|auto].
  - destruct (split_on 47 s) as [|p ps]; intros [Hp Hps]%Forall_cons; cbn in Hp; apply andb_true_iff in Hp as [? ?].
    + constructor; [auto|]. by apply IH.
    + constructor; [auto|]. apply IH. by constructor.
Qed.

Lemma name_token s : name_re s = true → token s.
Proof.
  intros H. unfold name_re in H. rewrite forallb_forall in H. split.
  - intros ->. specialize (H [] ltac:(by left)). done.
  - assert (Forall (fun c => c = 47 ∨ is_name_char c = true) s) as Hs.
    { apply split_chars, Forall_forall. intros p Hp. apply list_elem_of_In, H in Hp.
      by apply andb_true_iff in Hp as [_ ?]. }
    eapply Forall_impl; [exact Hs|]. intros c [->|Hc]; [done|]. by apply name_char_space.
Qed.

Lemma digits_token s : isdigit s = true → token s.
Proof.
  unfold isdigit. intros [Hne Hs]%andb_true_iff. apply bool_decide_eq_true in Hne. split; [done|].
  apply Forall_forall. intros c Hc. rewrite forallb_forall in Hs. apply list_elem_of_In, Hs in Hc.
  revert Hc. unfold is_digit, in_range, is_space, in_range. lia.
Qed.

Lemma arg_token row_ k arg : arg_ok row_ k arg → token arg.
Proof.
  destruct k; cbn; [intros [H _]; by apply name_token|apply text_token|].
  unfold count_re. intros [H _]%andb_true_iff. by apply digits_token.
Qed.

Lemma issue_token s : issue_re s = true → token s.
Proof.
  unfold issue_re. destruct s as [|c s]; [done|]. destruct (c =? 35) eqn:E.
  - intros [_ H]%digits_token. split; [done|]. constructor; [|done]. apply Z.eqb_eq in E. by subst.
  - intros ->%bool_decide_eq_true. split; [done|by repeat constructor].
Qed.

Lemma ops_names name kinds template :
  dget name OPS = Some (kinds, template) → token name ∧ name ≠ $"row" ∧ startswith name ($"#") = false.
Proof.
  intros Hd%dget_elem_of.
  assert (Forall (fun e : str * (list kind * option (list piece)) =>
    e.1 ≠ [] ∧ forallb (fun c => negb (is_space c)) e.1 = true ∧ e.1 ≠ $"row" ∧ startswith e.1 ($"#") = false) OPS) as H
    by by_compute.
  rewrite Forall_forall in H. destruct (H _ Hd) as (H1 & H2 & H3 & H4). cbn in *. split_and!; try done.
  split; [done|]. apply Forall_forall. intros c Hc. rewrite forallb_forall in H2.
  apply list_elem_of_In, H2 in Hc. by apply negb_true_iff in Hc.
Qed.

Lemma op_tokens row_ o : op_ok row_ o → Forall token (o_name o :: o_args o).
Proof.
  intros [(kinds & template & Hd & Hargs) _]. constructor; [by eapply ops_names|].
  clear Hd. induction Hargs; constructor; [by eapply arg_token|done].
Qed.

Lemma row_tokens r : row_ok r → Forall token [$"row"; r_name r; r_expect r; r_issue r].
Proof.
  intros [H1 H2 H3 _]. repeat constructor; try done.
  all: try (by apply text_token in H1 as []). all: try (by apply issue_token in H3 as []).
  all: destruct H2 as [-> | ->]; try done; by repeat constructor.
Qed.

(** A printed line is read as its words. *)
Lemma parse_line_words rows n w args :
  Forall token (w :: args) → startswith w ($"#") = false →
  parse_line rows (n, join ($" ") (w :: args)) =
  if decide (w = $"row") then row_line rows n (w :: args) else op_line rows n w args.
Proof.
  intros Ht Hh. unfold parse_line. rewrite strip_join, words_join by done.
  apply Forall_cons in Ht as [[Hne _] _]. destruct w as [|c w]; [done|].
  assert (join ($" ") ((c :: w) :: args) = c :: tail (join ($" ") ((c :: w) :: args))) as Hj by by destruct args.
  rewrite Hj. cbn in Hh |- *. rewrite andb_true_r in *. by rewrite Hh.
Qed.

Lemma check_args_complete row_ lineno kinds args :
  Forall2 (arg_ok row_) kinds args →
  foldM (fun _ ka => check_arg row_ lineno ka) () (zip kinds args) = Ok ().
Proof.
  induction 1 as [|k a kinds args Ha _ IH]; [done|]. cbn [zip zip_with foldM].
  assert (check_arg row_ lineno (k, a) = Ok ()) as ->; [|exact IH].
  destruct k; cbn in *; [|by rewrite Ha..]. destruct Ha as [-> [-> | ->]]; [by rewrite bool_decide_eq_true_2|].
  by rewrite orb_true_r.
Qed.

Lemma op_line_complete rows0 r n o :
  op_ok (r_name r) o → (o_name o = $"adopt" → adopted (rows0 ++ [r]) = false) →
  op_line (rows0 ++ [r]) n (o_name o) (o_args o) =
  Ok (rows0 ++ [Row (r_name r) (r_expect r) (r_issue r) (r_ops r ++ [Op n (o_name o) (o_args o)])]).
Proof.
  intros [(kinds & template & Hd & Hargs) Hfill] Had. unfold op_line. rewrite last_snoc, Hd.
  unfold zlen. rewrite (Forall2_length _ _ _ Hargs), Z.eqb_refl. cbn [negb].
  rewrite check_args_complete by done. cbn [mbind res_bind].
  assert ((if decide (o_name o = $"fill") then
    n0 ← item (o_args o) 1;
    if FILL_MAX <? int_of_digits n0 then Err (line_error n ($"fill takes at most " ++ dec FILL_MAX ++ $" KiB"))
    else Ok () else Ok ()) = Ok ()) as ->.
  { case_decide as Hf; [|done]. destruct (Hfill Hf) as (p & m & -> & Hle). change (item [p; m] 1) with (Ok m).
    cbn [mbind res_bind]. by rewrite (proj2 (Z.ltb_ge _ _)). }
  cbn [mbind res_bind]. destruct (bool_decide (o_name o = $"adopt")) eqn:E; cbn [andb].
  - rewrite Had by (by apply bool_decide_eq_true in E). by rewrite append_op_last.
  - by rewrite append_op_last.
Qed.

Lemma parse_op_lines rows0 r n ops :
  Forall (op_ok (r_name r)) ops →
  (length (adoptions (rows0 ++ [r])) + length (filter (fun o => o_name o = $"adopt") ops) ≤ 1)%nat →
  foldM parse_line (rows0 ++ [r]) (enumerate_from n (map op_text ops)) =
  Ok (rows0 ++ [Row (r_name r) (r_expect r) (r_issue r) (r_ops r ++ number_ops n ops)]).
Proof.
  intros Hops. revert n r Hops. induction ops as [|o ops IH]; intros n r Hops Hle.
  - cbn. rewrite app_nil_r. by destruct r.
  - apply Forall_cons in Hops as [Ho Hops]. cbn [map enumerate_from foldM].
    change (op_text o) with (join ($" ") (o_name o :: o_args o)).
    pose proof Ho as [(kinds & template & Hd & _) _]. destruct (ops_names _ _ _ Hd) as (_ & Hnr & Hh).
    rewrite parse_line_words by (done || by eapply op_tokens). rewrite decide_False by done.
    rewrite filter_cons in Hle.
    rewrite op_line_complete; [|done|].
    2:{ intros Ha. apply adopted_adoptions. rewrite decide_True in Hle by done. cbn in Hle.
        destruct (adoptions (rows0 ++ [r])); [done|cbn in Hle; lia]. }
    cbn [mbind res_bind]. rewrite IH; [|done|].
    + cbn [r_name r_expect r_issue r_ops number_ops]. by rewrite <- app_assoc.
    + rewrite adoptions_snoc, length_app. cbn [o_name]. case_decide; cbn [length] in *; lia.
Qed.

Lemma number_ops_adopt n ops :
  length (filter (fun o => o_name o = $"adopt") (number_ops n ops)) =
  length (filter (fun o => o_name o = $"adopt") ops).
Proof.
  revert n. induction ops as [|o ops IH]; intros n; [done|]. cbn [number_ops]. rewrite !filter_cons. cbn [o_name].
  case_decide; cbn [length]; by rewrite IH.
Qed.

Lemma adoptions_cons r rows :
  adoptions (r :: rows) = filter (fun o => o_name o = $"adopt") (r_ops r) ++ adoptions rows.
Proof. unfold adoptions. cbn. by rewrite filter_app. Qed.

Lemma adoptions_app rows rows' : adoptions (rows ++ rows') = adoptions rows ++ adoptions rows'.
Proof. unfold adoptions. by rewrite map_app, concat_app, filter_app. Qed.

Lemma row_line_complete rows n r :
  row_ok r → r_name r ∉ map r_name rows →
  row_line rows n [$"row"; r_name r; r_expect r; r_issue r] = Ok (rows ++ [Row (r_name r) (r_expect r) (r_issue r) []]).
Proof.
  intros [H1 H2 H3 _] Hn. unfold row_line. rewrite H1, H3.
  rewrite bool_decide_eq_true_2; [|destruct H2 as [-> | ->]; [by left|by right; left]]. cbn [negb orb].
  destruct (existsb _ rows) eqn:E; [|done]. exfalso. apply existsb_exists in E as (r' & Hr & Heq).
  apply bool_decide_eq_true in Heq. apply Hn. rewrite <- Heq. apply list_elem_of_fmap. exists r'.
  by rewrite list_elem_of_In.
Qed.

Lemma parse_row_lines rows0 n rows :
  Forall row_ok rows → NoDup (map r_name (rows0 ++ rows)) →
  (length (adoptions rows0) + length (adoptions rows) ≤ 1)%nat →
  foldM parse_line rows0 (enumerate_from n (concat (map row_text rows))) = Ok (rows0 ++ number_rows n rows).
Proof.
  revert rows0 n. induction rows as [|r rows IH]; intros rows0 n Hok Hnd Hle.
  - by rewrite app_nil_r.
  - apply Forall_cons in Hok as [Hr Hok]. rewrite adoptions_cons, length_app in Hle.
    rewrite map_app in Hnd. cbn [map] in Hnd.
    cbn [map concat]. rewrite enumerate_from_app, foldM_app.
    replace (n + zlen (row_text r)) with (n + 1 + zlen (r_ops r))
      by (unfold row_text, zlen; cbn [length]; rewrite length_map; lia).
    change (row_text r) with (join ($" ") [$"row"; r_name r; r_expect r; r_issue r] :: map op_text (r_ops r)).
    cbn [enumerate_from foldM].
    rewrite parse_line_words by (done || by apply row_tokens). rewrite decide_True by done.
    rewrite row_line_complete; [|done|].
    2:{ intros Hin. apply NoDup_app in Hnd as (_ & Hd & _). apply (Hd _ Hin). by left. }
    cbn [mbind res_bind]. rewrite parse_op_lines; [|apply Hr|].
    2:{ rewrite adoptions_app, adoptions_cons, !length_app. change (adoptions []) with (@nil op). cbn [r_ops filter length list_filter]. lia. }
    cbn [mbind res_bind r_name r_expect r_issue r_ops app].
    rewrite IH; [|done|rewrite !map_app; cbn [map]; by rewrite <- app_assoc|].
    + cbn [number_rows]. by rewrite <- app_assoc.
    + rewrite adoptions_app, adoptions_cons, !length_app. cbn [r_ops]. rewrite number_ops_adopt.
      change (adoptions []) with (@nil op). cbn [length]. lia.
Qed.

(** The operation script round-trips.  Printing well-formed rows and parsing
    the text gives the rows back, each operation with the number of its line. *)
Theorem parse_print_rows rows :
  rows_ok rows → rows ≠ [] → parse (print_rows rows) = Ok (number_rows 1 rows).
Proof.
  intros [Hok Hnd Hle] Hne. unfold parse, print_rows. rewrite splitlines_lines.
  - rewrite enumerate1_from, (parse_row_lines []) by done. cbn [mbind res_bind app].
    by destruct rows.
  - apply Forall_concat, Forall_map, (Forall_impl row_ok); [done|]. intros r Hr. constructor.
    + by apply join_break, row_tokens.
    + apply Forall_map. destruct Hr as [_ _ _ Hops]. eapply Forall_impl; [exact Hops|].
      intros o Ho. by eapply join_break, op_tokens.
Qed.

Definition sample_rows : list row :=
  [Row ($"a") MATCH ($"#1034") [Op 2 ($"mkdir") [$"a"]; Op 3 ($"write") [$"a/f"; $"x"]; Op 4 ($"fill") [$"a/g"; $"13"]];
   Row ($"b") DIFFER ($"-") [Op 6 ($"adopt") [$"b/f"]]].

Lemma sample_rows_ok : rows_ok sample_rows.
Proof.
  assert (parse (print_rows sample_rows) = Ok sample_rows) as H by by_compute.
  exact (proj1 (parse_rows _ _ H)).
Qed.

Lemma parse_print_rows_witness : parse (print_rows sample_rows) = Ok sample_rows.
Proof. apply (parse_print_rows sample_rows sample_rows_ok). discriminate. Defined.

(** ** Verdicts *)

Definition under (prefix path : str) : Prop := path = prefix ∨ startswith path (prefix ++ $"/") = true.

(** The two sides agree on a row: the same log, and the same facts for every
    path of the row's directory. *)
Definition row_agrees (kernel_files host_files : list (str * fact))
    (kernel_log host_log : list (str * list str)) (name : str) : Prop :=
  dget name kernel_log = dget name host_log ∧
  ∀ path, under ($"/" ++ ROOT ++ $"/" ++ name) path → dget path kernel_files = dget path host_files.

Lemma elem_of_paths_under prefix kf hf path :
  path ∈ paths_under prefix kf hf ↔ under prefix path ∧ (path ∈ map fst kf ∨ path ∈ map fst hf).
Proof.
  unfold paths_under. rewrite elem_of_py_sorted, list_elem_of_In, filter_In, <- list_elem_of_In.
  rewrite elem_of_remove_dups, elem_of_app, orb_true_iff, bool_decide_eq_true. unfold under. tauto.
Qed.

Lemma omap_nil {A B} (f : A → option B) l : omap f l = [] ↔ Forall (fun a => f a = None) l.
Proof.
  induction l as [|a l IH]; cbn; [done|]. rewrite Forall_cons. destruct (f a); [by split; [|intros []]|].
  rewrite IH. tauto.
Qed.

Lemma row_differences_nil name kf hf kl hl :
  row_differences name kf hf kl hl = [] ↔ row_agrees kf hf kl hl name.
Proof.
  unfold row_differences, row_agrees. rewrite app_nil, omap_nil. case_decide as El; [|by split; [intros []|intros []]].
  split; [intros [_ H]|intros [_ H]]; (split; [done|]).
  - intros path Hu. rewrite Forall_forall in H.
    destruct (decide (path ∈ map fst kf ∨ path ∈ map fst hf)) as [Hin|Hn].
    + specialize (H path). unfold path_difference in H.
      destruct (decide (dget path kf = dget path hf)); [done|]. exfalso.
      rewrite elem_of_paths_under in H. by specialize (H ltac:(done)).
    + rewrite (proj2 (dget_None path kf)), (proj2 (dget_None path hf)); tauto.
  - apply Forall_forall. intros path [Hu _]%elem_of_paths_under. unfold path_difference.
    by rewrite decide_True by auto.
Qed.

Lemma row_differences_dec name kf hf kl hl :
  {row_agrees kf hf kl hl name} + {¬ row_agrees kf hf kl hl name}.
Proof.
  destruct (decide (row_differences name kf hf kl hl = [])) as [H|H]; [left|right]; by rewrite <- row_differences_nil.
Defined.

(** A row's outcome is the recorded one. *)
Definition as_recorded (kernel_files host_files : list (str * fact))
    (kernel_log host_log : list (str * list str)) (r : row) : Prop :=
  r_expect r = MATCH ∧ row_agrees kernel_files host_files kernel_log host_log (r_name r) ∨
  r_expect r = DIFFER ∧ ¬ row_agrees kernel_files host_files kernel_log host_log (r_name r).

Lemma row_verdict_expected kf hf kl hl r :
  v_outcome (row_verdict kf hf kl hl r) = v_expect (row_verdict kf hf kl hl r) ↔ as_recorded kf hf kl hl r.
Proof.
  unfold row_verdict, as_recorded. cbn. rewrite <- row_differences_nil. case_decide as Hd; split.
  - intros <-. by left.
  - by intros [[-> _]|[_ ?]].
  - intros <-. by right.
  - by intros [[_ ?]|[-> _]].
Qed.

Lemma Ok_snd {A B} (a c : A) (b d : B) : Ok (a, b) = Ok (c, d) → b = d.
Proof. congruence. Qed.

Lemma map_nil {A B} (f : A → B) l : map f l = [] ↔ l = [].
Proof. by destruct l. Qed.

Lemma counter_verdicts_nil img c : map v_name (counter_verdicts img c) = [] ↔ counters_agree c = true.
Proof. unfold counter_verdicts. by destruct (counters_agree c). Qed.

Lemma failures_nil rows kernel host kl hl :
  failures rows kernel host kl hl = [] ↔
  Forall (as_recorded (s_files kernel) (s_files host) kl hl) rows ∧
  counters_agree (s_counts kernel) = true ∧ counters_agree (s_counts host) = true ∧
  free_and_reachable kernel = free_and_reachable host.
Proof.
  unfold failures. rewrite !app_nil, map_nil, !counter_verdicts_nil.
  assert (List.filter (fun v => bool_decide (v_outcome v ≠ v_expect v))
    (map (row_verdict (s_files kernel) (s_files host) kl hl) rows) = [] ↔
    Forall (as_recorded (s_files kernel) (s_files host) kl hl) rows) as ->.
  { induction rows as [|r rows IH]; cbn [map List.filter]; [done|].
    rewrite Forall_cons, <- row_verdict_expected, <- IH. set (v := row_verdict _ _ _ _ r).
    destruct (decide (v_outcome v = v_expect v)) as [E|E].
    - rewrite bool_decide_eq_false_2 by tauto. tauto.
    - rewrite bool_decide_eq_true_2 by done. split; [done|by intros []]. }
  case_decide; split; intros (? & ? & ? & ?); done.
Qed.

(** When the comparison passes.  For any tools, [compare] ends in its PASS
    line exactly when both images can be read, the kernel's log holds the
    closing mark, every row's outcome is the recorded one -- a matching row has
    the same log lines on both sides and the same facts for every path under
    its directory, a differing row does not --, the free counts of both images
    agree with their bitmaps, free plus reachable blocks and inodes are the
    same, and there was something to compare. *)
Theorem compare_pass_iff {T : Ext2Tools} fuel scratch rows expected (kernel_image host_image : image) :
  (∃ out line, compare fuel scratch rows expected kernel_image host_image = Ok (out, Ok line)) ↔
  ∃ kernel host log err img,
    snapshot fuel scratch kernel_image = Ok kernel ∧ snapshot fuel scratch host_image = Ok host ∧
    debugfs kernel_image [$"cat /" ++ LOG] false = Ok (log, err, img) ∧
    $"eq done" ∈ splitlines log ∧
    Forall (as_recorded (s_files kernel) (s_files host) (split_log log) (split_log expected)) rows ∧
    counters_agree (s_counts kernel) = true ∧ counters_agree (s_counts host) = true ∧
    free_and_reachable kernel = free_and_reachable host ∧ rows ≠ [] ∧ s_files kernel ≠ [].
Proof.
  unfold compare. split.
  - intros (out & line & H). apply bind_Ok_inv in H as (kernel & Hk & H).
    apply bind_Ok_inv in H as (host & Hh & H). apply bind_Ok_inv in H as ([[log err] img] & Hd & H).
    destruct (bool_decide (_ ∈ _)) eqn:Ed; cbn [negb] in H; [|done]. apply bool_decide_eq_true in Ed.
    destruct (failures rows kernel host _ _) eqn:Ef; [|simplify_eq].
    apply Ok_snd in H. rename H into Hr. apply failures_nil in Ef as (? & ? & ? & ?).
    apply report_pass_ok in Hr as (_ & _ & Hc). repeat apply Forall_cons in Hc as [? Hc]. cbn in *.
    exists kernel, host, log, err, img. split_and!; try done; intros Hn; rewrite Hn in *; done.
  - intros (kernel & host & log & err & img & Hk & Hh & Hd & Hdone & Hrows & Hc1 & Hc2 & Hs & Hne & Hf).
    rewrite Hk. cbn [mbind res_bind]. rewrite Hh. cbn [mbind res_bind]. rewrite Hd. cbn [mbind res_bind].
    rewrite bool_decide_eq_true_2 by done. cbn [negb].
    rewrite (proj2 (failures_nil rows kernel host _ _)) by done. eexists _, _. f_equal. f_equal.
    apply report_pass_ok. split_and!; [done|done|].
    constructor; [by apply zlen_pos|]. constructor; [by apply zlen_pos|constructor].
Qed.

(** ** Reading an image *)

(** The line of [ls -p] for an entry of a directory. *)
Record raw_entry := RawEntry { e_name : str; e_inode : Z; e_mode : Z; e_uid : Z; e_gid : Z; e_size : option Z }.

Definition oct6 (mode : Z) : str := let s := show_nat 8 mode in replicate (6 - length s) 48 ++ s.
Definition entry_line (e : raw_entry) : str :=
  $"/" ++ dec (e_inode e) ++ $"/" ++ oct6 (e_mode e) ++ $"/" ++ dec (e_uid e) ++ $"/" ++ dec (e_gid e)
  ++ $"/" ++ e_name e ++ $"/" ++ (match e_size e with Some n => dec n | None => [] end) ++ $"/".

Definition raw_ok (e : raw_entry) : Prop :=
  0 ≤ e_inode e ∧ 0 ≤ e_mode e ∧ 0 ≤ e_uid e ∧ 0 ≤ e_gid e ∧ (∀ n, e_size e = Some n → 0 ≤ n) ∧
  no_break (e_name e) ∧ Forall (fun c => c ≠ 47) (e_name e).

(** What a listing keeps of the entries. *)
Definition kept (e : raw_entry) : Prop := (e_name e ∉ [$"."; $".."]) ∧ e_inode e ≠ 0.
Definition entry_of (e : raw_entry) : str * dentry := (e_name e, (e_inode e, e_mode e, default 0 (e_size e))).
#[global] Instance kept_dec e : Decision (kept e).
Proof. unfold kept. apply _. Defined.

Lemma oct6_digits m : 0 ≤ m → Forall (fun c => 48 ≤ c < 56) (oct6 m) ∧ oct6 m ≠ [].
Proof.
  intros Hm. unfold oct6. destruct (show_nat_sign 8 m) as [Hne _]; [lia..|]. split.
  - apply Forall_app_2; [apply Forall_replicate; lia|].
    eapply Forall_impl; [apply show_digits_chars; [lia|constructor]|]. intros c (d & ? & ->).
    unfold digit_char. zcase; lia.
  - intros [_ ?]%app_nil. done.
Qed.

Lemma digits_value_zeros b k s : 0 < b → digits_value b (replicate k 48 ++ s) 0 = digits_value b s 0.
Proof.
  intros Hb. induction k as [|k IH]; [done|]. cbn [replicate app digits_value].
  change (48 =? 95) with false. change (digit_val 48) with 0. cbn iota.
  rewrite (proj2 (Z.ltb_lt 0 b)) by done. exact IH.
Qed.

Lemma py_int_oct6 m : 0 ≤ m → py_int 8 (oct6 m) = Ok m.
Proof.
  intros Hm. destruct (oct6_digits m Hm) as [Hd Hne].
  assert (∀ c, c ∈ oct6 m → 48 ≤ c < 56) as Hin by (by apply Forall_forall).
  apply py_int_unsigned; [done| | |].
  - eapply Forall_impl; [exact Hd|]. intros c Hc. cbv beta in Hc. unfold is_space, in_range. lia.
  - intros c Hc. assert (c ∈ oct6 m) as H%Hin by (destruct (oct6 m); [done|injection Hc as ->; by left]). lia.
  - unfold read_unsigned. assert (prefix_base (oct6 m) = None) as ->.
    { destruct (oct6 m) as [|x [|c s]]; try done. cbn. pose proof (Hin c ltac:(by right; left)).
      zcase; [|done]. rewrite !(proj2 (Z.eqb_neq c _)) by lia. done. }
    change (8 =? 0) with false. cbv iota. unfold read_digits. destruct (oct6 m) as [|c s] eqn:E; [done|].
    pose proof (Hin c ltac:(by left)). rewrite (proj2 (Z.eqb_neq c 95)) by lia. rewrite <- E. unfold oct6.
    rewrite digits_value_zeros by lia. by apply show_nat_value.
Qed.

Lemma span_digits s rest : Forall (fun c => is_digit c = true) s → span is_digit (s ++ $"/" ++ rest) = (s, $"/" ++ rest).
Proof. intros Hs. apply span_app; [done|]. by intros c [= <-]. Qed.

Lemma ls_re_line e :
  raw_ok e →
  ls_re (entry_line e) = Some (dec (e_inode e), oct6 (e_mode e), e_name e,
    match e_size e with Some n => dec n | None => [] end).
Proof.
  intros (Hi & Hm & Hu & Hg & Hs & _ & Hn). unfold ls_re, entry_line. cbv zeta.
  destruct (oct6_digits _ Hm) as [Ho Hone].
  assert (Forall (fun c => is_digit c = true) (oct6 (e_mode e))) as Hod.
  { eapply Forall_impl; [exact Ho|]. intros c Hc. cbv beta in Hc. unfold is_digit, in_range. lia. }
  destruct (dec_digits _ Hi) as [Hid Hine], (dec_digits _ Hu) as [Hud Hune], (dec_digits _ Hg) as [Hgd Hgne].
  do 4 (rewrite strip_prefix_app; cbn [mbind option_bind]; rewrite span_digits by done;
    rewrite decide_False by done; cbn [mbind option_bind]).
  rewrite strip_prefix_app. cbn [mbind option_bind].
  set (size := match e_size e with Some n => dec n | None => [] end).
  assert (Forall (fun c => is_digit c = true) (reverse size)) as Hsd.
  { apply Forall_reverse. unfold size. destruct (e_size e) as [n|]; [|constructor]. by apply dec_digits, Hs. }
  assert (reverse (e_name e ++ $"/" ++ size ++ $"/") = $"/" ++ reverse size ++ $"/" ++ reverse (e_name e)) as ->.
  { rewrite !reverse_app. change (reverse ($"/")) with ($"/"). by rewrite <- !app_assoc. }
  rewrite strip_prefix_app. cbn [mbind option_bind]. rewrite span_digits by done.
  rewrite strip_prefix_app. cbn [mbind option_bind]. by rewrite !reverse_involutive.
Qed.

Lemma entry_line_strip e : raw_ok e → strip (entry_line e) = entry_line e.
Proof.
  intros _. unfold strip, strip_by, lstrip_by, rstrip_by, lstrip_by.
  assert (∃ s, entry_line e = $"/" ++ s ++ $"/") as [s ->].
  { unfold entry_line. exists (dec (e_inode e) ++ $"/" ++ oct6 (e_mode e) ++ $"/" ++ dec (e_uid e) ++ $"/"
      ++ dec (e_gid e) ++ $"/" ++ e_name e ++ $"/" ++ (match e_size e with Some n => dec n | None => [] end)).
    by rewrite <- !app_assoc. }
  change ($"/" ++ s ++ $"/") with (47 :: (s ++ [47])). rewrite span_head by done. cbn [snd].
  rewrite app_comm_cons, reverse_snoc, span_head by done. cbn [snd].
  by rewrite <- reverse_snoc, reverse_involutive.
Qed.

Lemma ls_line_entry entries e :
  raw_ok e →
  ls_line entries (entry_line e) =
  Ok (if decide (kept e) then dset (e_name e) (e_inode e, e_mode e, default 0 (e_size e)) entries else entries).
Proof.
  intros He. unfold ls_line. rewrite entry_line_strip, ls_re_line by done.
  pose proof He as (Hi & Hm & _ & _ & Hs & _). rewrite int_of_digits_dec by done.
  destruct (decide (kept e)) as [[Hk1 Hk2]|Hk].
  - rewrite bool_decide_eq_false_2, (proj2 (Z.eqb_neq _ _)) by done. cbn [orb].
    rewrite py_int_oct6 by done. cbn [mbind res_bind]. do 3 f_equal.
    destruct (e_size e) as [n|]; [|done]. by apply int_of_digits_dec, Hs.
  - destruct (bool_decide (e_name e ∈ [$"."; $".."]) || (e_inode e =? 0)) eqn:E; [done|]. exfalso.
    apply orb_false_iff in E as [E1 E2]. apply bool_decide_eq_false in E1. apply Z.eqb_neq in E2. by apply Hk.
Qed.

Lemma ls_lines es entries :
  Forall raw_ok es →
  foldM ls_line entries (map entry_line es) = Ok (dupdate entries (map entry_of (filter kept es))).
Proof.
  intros Hes. revert entries. induction Hes as [|e es He Hes IH]; intros entries; [done|].
  cbn [map foldM]. rewrite ls_line_entry by done. cbn [mbind res_bind]. rewrite IH, filter_cons.
  by destruct (decide (kept e)).
Qed.

(** ** The output of debugfs *)

Definition lines_text (lines : list str) : str := concat (map (fun l => l ++ nl) lines).

Lemma split_on_line l rest : Forall (fun c => c ≠ 10) l → split_on 10 (l ++ 10 :: rest) = l :: split_on 10 rest.
Proof.
  induction 1 as [|c l Hc _ IH]; [done|]. cbn [app split_on]. rewrite (proj2 (Z.eqb_neq _ _)) by done. by rewrite IH.
Qed.

Lemma split_on_lines lines :
  Forall (Forall (fun c => c ≠ 10)) lines → split_on 10 (lines_text lines) = lines ++ [[]].
Proof.
  induction 1 as [|l lines Hl _ IH]; [done|]. unfold lines_text in *. cbn [map concat app].
  rewrite <- app_assoc. change (nl ++ ?s) with (10 :: s). by rewrite split_on_line, IH.
Qed.

Lemma break_newline l : no_break l → Forall (fun c => c ≠ 10) l.
Proof. intros H. eapply Forall_impl; [exact H|]. intros c Hc ->. done. Qed.

Lemma split_lines_body header body rest cur :
  Forall (fun l => header l = None) body →
  split_lines header (body ++ rest) false cur =
  split_lines header rest false (cur ++ concat (map (fun l => nl ++ l) body)).
Proof.
  intros Hb. revert cur. induction Hb as [|l body Hl _ IH]; intros cur; cbn [app map concat].
  - by rewrite app_nil_r.
  - cbn [split_lines]. rewrite Hl, IH. by rewrite <- !app_assoc.
Qed.

Lemma section_text body : concat (map (fun l => nl ++ l) body) ++ nl = nl ++ lines_text body.
Proof.
  unfold lines_text. induction body as [|l body IH]; [done|]. cbn [map concat]. by rewrite <- !app_assoc, IH.
Qed.

(** The pieces between the header lines. *)
Lemma split_sections header (hs : list (str * list str)) cur :
  Forall (fun hb => header hb.1 = Some [] ∧ Forall (fun l => header l = None) hb.2) hs → header [] = None →
  split_lines header (concat (map (fun hb => hb.1 :: hb.2) hs) ++ [[]]) false cur =
  (cur ++ nl) :: map (fun hb => nl ++ lines_text hb.2) hs.
Proof.
  intros Hs H0. revert cur. induction Hs as [|[h body] hs [Hh Hb] _ IH]; intros cur.
  - cbn. rewrite H0. by rewrite app_nil_r.
  - cbn [map concat fst snd]. rewrite <- app_assoc. cbn [app split_lines]. cbn [fst] in Hh. rewrite Hh.
    rewrite split_lines_body by done. rewrite IH. cbn [map fst snd app]. by rewrite section_text.
Qed.

Lemma re_split_sections header (hs : list (str * list str)) :
  Forall (fun hb => header hb.1 = Some [] ∧ Forall (fun l => header l = None) hb.2 ∧
    Forall (Forall (fun c => c ≠ 10)) (hb.1 :: hb.2)) hs → header [] = None →
  tail (re_split header (lines_text (concat (map (fun hb => hb.1 :: hb.2) hs)))) =
  map (fun hb => nl ++ lines_text hb.2) hs.
Proof.
  intros Hs H0. unfold re_split. rewrite split_on_lines.
  2:{ apply Forall_concat, Forall_map. eapply Forall_impl; [exact Hs|]. by intros hb (_ & _ & ?). }
  destruct Hs as [|[h body] hs (Hh & Hb & _) Hs]; [cbn; by rewrite H0|].
  cbn [map concat fst snd app]. rewrite <- app_assoc. cbn [app split_lines]. cbn [fst] in Hh. rewrite Hh. cbn [tail].
  rewrite split_lines_body by done. rewrite split_sections; [|eapply Forall_impl; [exact Hs|]|done].
  - cbn [app]. by rewrite section_text.
  - intros hb (? & ? & _). done.
Qed.

(** What [debugfs] prints for [ls -p] of some directories: the echo of each
    command and the lines of the directory's entries. *)
Definition ls_echo (d : str) : str := shq "debugfs: ls -p ~" ++ d ++ quo.
Definition ls_output (entries : str → list raw_entry) (dirs : list str) : str :=
  lines_text (concat (map (fun hb => hb.1 :: hb.2) (map (fun d => (ls_echo d, map entry_line (entries d))) dirs))).

Definition dir_entries (entries : str → list raw_entry) (d : str) : list (str * dentry) :=
  dupdate [] (map entry_of (filter kept (entries d))).

Lemma entry_line_break e : raw_ok e → no_break (entry_line e).
Proof.
  intros (Hi & Hm & Hu & Hg & Hs & Hn & _). unfold entry_line.
  assert (∀ n, 0 ≤ n → no_break (dec n)) as Hdec by (intros n ?; by apply token_break, dec_token).
  assert (no_break (oct6 (e_mode e))) as Ho.
  { eapply Forall_impl; [apply oct6_digits, Hm|]. intros c Hc. cbv beta in Hc. apply space_break.
    unfold is_space, in_range. lia. }
  revert Ho. generalize (oct6 (e_mode e)). intros m Ho.
  repeat apply Forall_app_2; try (by apply Hdec); try exact Hn; try exact Ho; try by repeat constructor.
  destruct (e_size e) as [n|]; [|constructor]. by apply Hdec, Hs.
Qed.

Section reading.
Context {T : Ext2Tools} (img : image) (entries : str → list raw_entry).
Context (entries_ok : ∀ d, Forall raw_ok (entries d)).
Context (ls_prints : ∀ dirs, ∃ err img',
  debugfs_run img (map (fun d => shq "ls -p ~" ++ d ++ quo) dirs) false
    = (0, ls_output entries dirs, err, img')).

Lemma listing_reads dirs :
  Forall no_break dirs →
  listing img dirs = Ok (foldl (fun r d => dset d (dir_entries entries d) r) [] dirs).
Proof.
  intros Hd. unfold listing, debugfs. destruct (ls_prints dirs) as (err & img' & ->).
  cbn [Z.eqb negb mbind res_bind]. unfold ls_output. rewrite re_split_sections; [|apply Forall_map|done].
  2:{ eapply Forall_impl; [exact Hd|]. intros d Hnb. cbn [fst snd]. split_and!; [done| |].
      - apply Forall_map, Forall_forall. intros e He. done.
      - constructor; [|apply Forall_map; eapply Forall_impl; [apply entries_ok|]; intros e He; by apply break_newline, entry_line_break].
        unfold ls_echo. repeat apply Forall_app_2; [by_compute|by apply break_newline|by repeat constructor]. }
  rewrite map_map. cbn [snd]. clear ls_prints Hd. generalize (@nil (str * list (str * dentry))).
  induction dirs as [|d dirs IH]; intros r; [done|]. cbn [map zip zip_with foldM foldl].
  assert (splitlines (nl ++ lines_text (map entry_line (entries d))) = [] :: map entry_line (entries d)) as ->.
  { change (nl ++ ?s) with (lines_text [[]] ++ s). unfold lines_text. rewrite <- concat_app, <- map_app.
    apply splitlines_lines. constructor; [constructor|]. apply Forall_map.
    eapply Forall_impl; [apply entries_ok|]. intros e. apply entry_line_break. }
  cbn [foldM]. change (ls_line [] []) with (Ok (@nil (str * dentry))). cbn [mbind res_bind].
  rewrite ls_lines by done. cbn [mbind res_bind]. apply IH.
Qed.

(** A directory named in another one, and the directories below one. *)
Definition child (d c : str) : Prop :=
  ∃ name inode mode size, (name, (inode, mode, size)) ∈ dir_entries entries d ∧ S_ISDIR mode = true ∧
    c = rstrip_by (Z.eqb 47) d ++ $"/" ++ name.

Inductive reach (top : str) : str → Prop :=
| reach_refl : reach top top
| reach_step d c : reach top d → child d c → reach top c.

Lemma reach_child p c d : child p c → reach c d → reach p d.
Proof.
  intros Hc. induction 1 as [|d' e _ IH He]; [|by eapply reach_step].
  eapply reach_step; [apply reach_refl|done].
Qed.

Lemma reach_inv p d : reach p d → d = p ∨ ∃ c, child p c ∧ reach c d.
Proof.
  induction 1 as [|d e _ [->|(c & Hc & Hr)] He]; [by left| |].
  - right. exists e. split; [done|apply reach_refl].
  - right. exists c. split; [done|]. by eapply reach_step.
Qed.

Lemma found_get dirs r d :
  dget d (foldl (fun r d => dset d (dir_entries entries d) r) r dirs) =
  if decide (d ∈ dirs) then Some (dir_entries entries d) else dget d r.
Proof.
  revert r. induction dirs as [|x dirs IH]; intros r; cbn [foldl].
  - rewrite decide_False; [done|apply not_elem_of_nil].
  - rewrite IH. destruct (decide (d ∈ dirs)) as [Hin|Hn].
    + rewrite decide_True; [done|by right].
    + destruct (decide (d = x)) as [->|Hne].
      * rewrite decide_True by by left. apply dget_dset.
      * rewrite decide_False by (rewrite elem_of_cons; tauto). by apply dget_dset_ne.
Qed.

Lemma found_NoDup dirs r :
  NoDup (map fst r) → NoDup (map fst (foldl (fun r d => dset d (dir_entries entries d) r) r dirs)).
Proof. revert r. induction dirs as [|d dirs IH]; intros r Hr; cbn [foldl]; [done|]. by apply IH, dset_NoDup. Qed.

Lemma elem_of_subdirs dirs c :
  c ∈ subdirs (foldl (fun r d => dset d (dir_entries entries d) r) [] dirs) ↔ ∃ d, d ∈ dirs ∧ child d c.
Proof.
  assert (∀ d es, (d, es) ∈ foldl (fun r d => dset d (dir_entries entries d) r) [] dirs ↔
    d ∈ dirs ∧ es = dir_entries entries d) as Hin.
  { intros d es. split.
    - intros H. apply dget_NoDup in H; [|apply found_NoDup; constructor]. rewrite found_get in H.
      case_decide; [|done]. by injection H as <-.
    - intros [Hd ->]. apply dget_elem_of. rewrite found_get. by rewrite decide_True. }
  unfold subdirs. rewrite list_elem_of_In, in_concat. split.
  - intros (l & Hl & Hc). apply in_map_iff in Hl as ([d es] & <- & Hd). apply list_elem_of_In, Hin in Hd as [Hd ->].
    exists d. split; [done|]. apply list_elem_of_In, list_elem_of_omap in Hc as ([name [[inode mode] size]] & Hx & Hc).
    destruct (S_ISDIR mode) eqn:E; [|done]. injection Hc as <-. by exists name, inode, mode, size.
  - intros (d & Hd & name & inode & mode & size & Hx & Hm & ->). eexists. split.
    + apply in_map_iff. exists (d, dir_entries entries d). split; [done|]. by apply list_elem_of_In, Hin.
    + apply list_elem_of_In, list_elem_of_omap. exists (name, (inode, mode, size)). split; [done|]. by rewrite Hm.
Qed.

Lemma child_break d c : no_break d → child d c → no_break c.
Proof.
  intros Hd (name & inode & mode & size & Hx & _ & ->).
  assert (no_break name) as Hn.
  { apply dupdate_elem_of in Hx as [Hx|Hx]; [by apply not_elem_of_nil in Hx|].
    apply list_elem_of_fmap in Hx as (e & [= -> _ _ _] & [_ He]%list_elem_of_filter).
    pose proof (entries_ok d) as Ho. rewrite Forall_forall in Ho. by destruct (Ho e He) as (_ & _ & _ & _ & _ & ? & _). }
  repeat apply Forall_app_2; [|by repeat constructor|done].
  unfold rstrip_by, lstrip_by. apply Forall_reverse.
  assert (∀ l, Forall (fun c => is_linebreak c = false) l → Forall (fun c => is_linebreak c = false) (span (Z.eqb 47) l).2) as Hs.
  { induction 1 as [|c l Hc Hl IH]; cbn [span]; [constructor|].
    destruct (47 =? c); [|by constructor]. revert IH. by destruct (span _ l). }
  by apply Hs, Forall_reverse.
Qed.

Section rank.
Context (top : str) (top_break : no_break top) (rank : str → nat).
Context (rank_child : ∀ d c, reach top d → child d c → (rank c < rank d)%nat).

Record walk_inv (tree : dirmap) (pending : list str) : Prop := {
  wi_pending d : d ∈ pending → reach top d ∧ no_break d;
  wi_tree d es : dget d tree = Some es → reach top d ∧ es = dir_entries entries d;
  wi_all d : reach top d → dget d tree ≠ None ∨ ∃ p, p ∈ pending ∧ reach p d
}.

Lemma walk_step tree pending :
  walk_inv tree pending →
  walk_inv (dupdate tree (foldl (fun r d => dset d (dir_entries entries d) r) [] pending))
    (subdirs (foldl (fun r d => dset d (dir_entries entries d) r) [] pending)).
Proof.
  intros [Hp Ht Ha].
  assert (∀ d, dget d (dupdate tree (foldl (fun r d => dset d (dir_entries entries d) r) [] pending)) =
    if decide (d ∈ pending) then Some (dir_entries entries d) else dget d tree) as Hget.
  { intros d. rewrite dget_dupdate by (apply found_NoDup; constructor). rewrite found_get. by case_decide. }
  split.
  - intros d (p & Hin & Hc)%elem_of_subdirs. destruct (Hp p Hin). split; [by eapply reach_step|by eapply child_break].
  - intros d es. rewrite Hget. case_decide as Hd; [|apply Ht]. intros [= <-]. split; [by apply Hp|done].
  - intros d Hr. rewrite Hget. destruct (Ha d Hr) as [Hn|(p & Hin & Hpd)]; [left; by case_decide|].
    apply reach_inv in Hpd as [->|(c & Hc & Hcd)]; [left; by rewrite decide_True|].
    right. exists c. split; [|done]. apply elem_of_subdirs. by exists p.
Qed.

Lemma walk_iterates n fuel tree pending :
  (n < fuel)%nat → walk_inv tree pending → (∀ d, d ∈ pending → (rank d < n)%nat) →
  ∃ tree', iterate fuel (walk_body img) (tree, pending) = Some (Ok tree') ∧ walk_inv tree' [].
Proof.
  revert fuel tree pending. induction n as [|n IH]; intros [|fuel] tree pending Hf Hi Hr; try lia.
  - destruct pending as [|d pending]; [|by specialize (Hr d ltac:(by left)); lia].
    exists tree. by split.
  - destruct pending as [|d0 pending'] eqn:Ep; [exists tree; by split|]. rewrite <- Ep in *.
    cbn [iterate]. unfold walk_body at 1. rewrite Ep. rewrite <- Ep.
    rewrite listing_reads by (apply Forall_forall; intros d Hd; by apply (wi_pending _ _ Hi)).
    apply IH; [lia|by apply walk_step|]. intros c (d & Hd & Hc)%elem_of_subdirs.
    pose proof (rank_child d c (proj1 (wi_pending _ _ Hi d Hd)) Hc). specialize (Hr d Hd). lia.
Qed.
End rank.
End reading.

(** The walk of an image ends with its whole tree.  Let debugfs print, for
    the listing commands, the documented line per entry of a directory, and let
    the directories below [top] be well founded (each subdirectory has a
    smaller rank).  Then the walk, run for more rounds than the rank of [top],
    returns; the directories it holds are exactly those reachable from [top];
    and each has its entries but for dot, dot-dot and deleted ones. *)
Theorem walk_reads_tree {T : Ext2Tools} (img : image) (entries : str → list raw_entry)
    (top : str) (rank : str → nat) fuel :
  (∀ d, Forall raw_ok (entries d)) →
  (∀ dirs, ∃ err img',
    debugfs_run img (map (fun d => shq "ls -p ~" ++ d ++ quo) dirs) false
      = (0, ls_output entries dirs, err, img')) →
  no_break top →
  (∀ d c, reach entries top d → child entries d c → (rank c < rank d)%nat) →
  (S (rank top) < fuel)%nat →
  ∃ tree, walk fuel img top = Ok tree ∧
    (∀ d, reach entries top d ↔ d ∈ map fst tree) ∧
    ∀ d, reach entries top d → dget d tree = Some (dir_entries entries d).
Proof.
  intros Hok Hls Htop Hrank Hfuel.
  destruct (walk_iterates img entries Hok Hls top rank Hrank (S (rank top)) fuel [] [top])
    as (tree & Ht & [_ Htree Hall]); [done| |by intros d ->%list_elem_of_singleton; lia|].
  { split; [|done|].
    - intros d ->%list_elem_of_singleton. split; [constructor|done].
    - intros d Hd. right. exists top. split; [by left|done]. }
  assert (∀ d, reach entries top d → ∃ es, dget d tree = Some es) as Hin.
  { intros d Hd. destruct (Hall d Hd) as [Hn|(p & Hp & _)]; [|by apply not_elem_of_nil in Hp].
    destruct (dget d tree); [by eexists|done]. }
  exists tree. split_and!; [exact (f_equal (default (Err OutOfFuel)) Ht)| |].
  - intros d. rewrite <- dmem_true. unfold dmem. split.
    + intros Hd. by destruct (Hin d Hd) as [es ->].
    + destruct (dget d tree) as [es|] eqn:E; [|done]. intros _. by apply (Htree d es).
  - intros d Hd. destruct (Hin d Hd) as [es E]. rewrite E. f_equal. by apply (Htree d es).
Qed.

(** An image with a root, a directory in it and a file in that. *)
Definition toy_entries (d : str) : list raw_entry :=
  if decide (d = $"/") then
    [RawEntry ($".") 2 16877 0 0 None; RawEntry ($"..") 2 16877 0 0 None; RawEntry ($"eq") 12 16877 0 0 None]
  else if decide (d = $"/eq") then [RawEntry ($"f") 13 33188 0 0 (Some 5); RawEntry ($"old") 0 33188 0 0 (Some 1)]
  else [].
Definition toy_tools : Ext2Tools := {|
  image := unit;
  image_name _ := $"toy";
  debugfs_run _ commands _ :=
    (0, ls_output toy_entries (map (fun c => take (length c - 8) (drop 7 c)) commands), [], ());
  dump_file _ _ := None;
  dumpe2fs_run _ := (1, []);
  which _ := None;
  host_run _ _ := (1, [], [], HDir 0 [])
|}.

Lemma toy_ok d : Forall raw_ok (toy_entries d).
Proof.
  assert (∀ n, Forall (fun c => is_linebreak c = false ∧ c ≠ 47) n → no_break n ∧ Forall (fun c => c ≠ 47) n) as Hn
    by (intros n H; split; eapply Forall_impl; [exact H| |exact H|]; by intros c []).
  unfold toy_entries. repeat case_decide; repeat constructor; cbn; try lia; try (by intros ? [= <-]); try done.
  all: apply Hn; by_compute.
Qed.

Lemma toy_child d c : child toy_entries d c → d = $"/" ∧ c = $"/eq".
Proof.
  intros (name & inode & mode & size & Hin & Hm & ->). unfold dir_entries, toy_entries in Hin.
  destruct (decide (d = $"/")) as [->|Hd].
  - assert (dupdate [] (map entry_of (filter kept (toy_entries ($"/")))) = [($"eq", (12, 16877, 0))]) as Hv by by_compute.
    unfold toy_entries in Hv. rewrite decide_True in Hv by done. rewrite Hv in Hin.
    apply list_elem_of_singleton in Hin as [= -> -> -> ->]. done.
  - destruct (decide (d = $"/eq")) as [->|Hd'].
    + assert (dupdate [] (map entry_of (filter kept (toy_entries ($"/eq")))) = [($"f", (13, 33188, 5))]) as Hv by by_compute.
      unfold toy_entries in Hv. rewrite decide_False, decide_True in Hv by done. rewrite Hv in Hin.
      apply list_elem_of_singleton in Hin as [= -> -> -> ->]. done.
    + by apply not_elem_of_nil in Hin.
Qed.

Lemma toy_prints dirs : ∃ err img',
  @debugfs_run toy_tools () (map (fun d => shq "ls -p ~" ++ d ++ quo) dirs) false = (0, ls_output toy_entries dirs, err, img').
Proof.
  exists [], (). cbn [debugfs_run toy_tools]. rewrite map_map. do 4 f_equal. rewrite <- (map_id dirs) at 2.
  apply map_ext. intros d. change (drop 7 (shq "ls -p ~" ++ d ++ quo)) with (d ++ quo).
  rewrite !length_app. change (length (shq "ls -p ~")) with 7%nat. change (length quo) with 1%nat.
  replace (7 + (length d + 1) - 8)%nat with (length d) by lia. apply take_app_length.
Qed.

Lemma walk_reads_tree_witness :
  ∃ tree, @walk toy_tools 4 () ($"/") = Ok tree ∧ dget ($"/") tree = Some [($"eq", (12, 16877, 0))].
Proof.
  destruct (@walk_reads_tree toy_tools () toy_entries ($"/") (fun d => if decide (d = $"/") then 1 else 0)%nat 4
    toy_ok toy_prints) as (tree & Ht & _ & Hall).
  - by_compute.
  - intros d c _ [-> ->]%toy_child. by_compute.
  - by_compute.
  - exists tree. apply conj; [exact Ht|]. rewrite Hall by constructor. by_compute.
Defined.

(** The self-test of the script passes on the model. *)
Lemma self_test_passes : self_test = Ok ($"PASS ext2-eq self-test: parser, generator, log and row diff").
Proof. by_compute. Qed.
