(* ===== verification/Ext2Host.v ===== *)
(** * ext2 equivalence, tier C: the two sides

    Model of the first half of scripts/ext2_host.py: the results of the kernel's
    ext2 driver as a host process, the replay of an operation on host Linux, the
    comparison of the two images, and the rows of ops.eq.  The program under
    test, e2fsck and mke2fs are the parameter [HostTools]; host Linux's system
    calls are the interface [LinuxFs]. *)
From S2P Require Import Prelude Text Dict Sort PassLine Ext2Eq.

Definition HostError (msg : str) : exn := Custom "HostError" msg.

Definition FS_BLOCKS : Z := 512.
Definition FS_INODES : Z := 64.
Definition WRITE_CHUNK : Z := 1024.
Definition MAX_FILE : Z := (12 + 256) * 1024.
Definition ENOSPC_SLACK : Z := 4.
Definition FAULT_DENSE : Z := 12.
Definition FAULT_LARGEST : Z := 4000.
Definition STOP_STATUS : Z := 86.

Definition pattern_byte (offset seed : Z) : Z :=
  Z.land (offset * 31 + Z.shiftr offset 8 + seed * 101 + 7) 255.
Definition pattern (offset length_ seed : Z) : bytes :=
  map (fun i => pattern_byte (offset + i) seed) (zrange length_).

(** ** The program's results *)

Record result := Result {
  k_line : Z; k_op : str; k_errno : str; k_written : option Z; k_free : option (Z * Z)
}.
#[global] Instance result_eq_dec : EqDecision result.
Proof. solve_decision. Defined.

(** The part of [RESULT_RE] after the arrow: the errno, the bytes written and
    the free counts. *)
Definition result_tail (s : str) : option (str * option Z * option (Z * Z)) :=
  let '(err, rest) := span (fun c => negb (is_space c)) s in
  if decide (err = []) then None else
  let '(written, rest) :=
    match (r ← strip_prefix ($" written=") rest; digits1 r) with
    | Some (n, r) => (Some n, r)
    | None => (None, rest)
    end in
  rest ← strip_prefix ($" free=") rest;
  if decide (rest = $"invalid") then Some (err, written, None) else
  ns ← fullmatch_numbers [[]; $"/"] rest;
  match ns with
  | [blocks; inodes] => Some (err, written, Some (blocks, inodes))
  | _ => None
  end.

(** The greedy group before the arrow: the last place where the rest matches. *)
Fixpoint last_arrow (s : str) : option (str * (str * option Z * option (Z * Z))) :=
  match s with
  | [] => None
  | c :: s' =>
      match last_arrow s' with
      | Some (text, t) => Some (c :: text, t)
      | None => t ← (r ← strip_prefix ($" -> ") s; result_tail r); Some ([], t)
      end
  end.

Definition RESULT_RE (line : str) : option result :=
  '(n, rest) ← digits1 line;
  rest ← strip_prefix ($" ") rest;
  '(text, (err, written, free)) ← last_arrow rest;
  Some (Result n text err written free).

Definition MOUNT_RE (line : str) : option (Z * Z) :=
  ns ← fullmatch_numbers [$"mounted free="; $"/"] line;
  match ns with [b; i] => Some (b, i) | _ => None end.

Definition result_line (st : option (Z * Z) * list result) (line : str) : option (Z * Z) * list result :=
  match RESULT_RE line with
  | Some r => (st.1, st.2 ++ [r])
  | None => match MOUNT_RE line with Some f => (Some f, st.2) | None => st end
  end.

(** The first result is the one of the root's creation; the others are
    renumbered past it. *)
Definition read_results (out : str) : option (Z * Z) * list result :=
  let '(mount_free, results) := foldl result_line (None, []) (splitlines out) in
  match results with
  | r :: rest =>
      if bool_decide (k_op r = $"mkdir " ++ ROOT) && bool_decide (k_errno r = $"0")
      then (k_free r, map (fun r => Result (k_line r - 1) (k_op r) (k_errno r) (k_written r) (k_free r)) rest)
      else (mount_free, [])
  | [] => (mount_free, [])
  end.

Definition program_script (lines : list str) : str :=
  $"mkdir " ++ ROOT ++ nl ++ concat (map (fun l => l ++ nl) lines) ++ $"sync" ++ nl.

(** ** Host Linux *)

(** The system calls the oracle makes, on a tree; a failure is the name of its
    errno.  The oracle does not look at the count [os.pwrite] returns: [fs_pwrite] gives
    the tree after the call, which a short write leaves with fewer bytes than asked. *)
Class LinuxFs := {
  fs : Type;
  fd : Type;
  fs_size : fs → str → option Z;                   (* os.path.exists, getsize *)
  fs_lexists : fs → str → bool;
  fs_mkdir : fs → str → str + fs;
  fs_rmdir : fs → str → str + fs;
  fs_unlink : fs → str → str + fs;
  fs_rename : fs → str → str → str + fs;
  fs_open : fs → str → bool → str + (fs * fd);     (* O_WRONLY | O_CREAT, with O_TRUNC or not *)
  fs_pwrite : fs → fd → bytes → Z → str + fs;
  fs_read : fs → str → str + bytes
}.

Definition file_blocks (size : Z) : Z :=
  let count := (size + 1023) / 1024 in
  count + (if 12 <? count then 1 else 0).

Section linux.
Context {L : LinuxFs}.

Definition size_of (t : fs) (p : str) : Z := default 0 (fs_size t p).

(** The blocks the kernel claims for the failing write of a pwrite. *)
Definition write_need (t : fs) (p : str) (offset length_ written : Z) : Z :=
  let size := size_of t p in
  let size := if negb (written =? 0) then Z.max size (offset + written) else size in
  let start := offset + written in
  let end_ := start + Z.min WRITE_CHUNK (length_ - written) in
  let old_count := (size + 1023) / 1024 in
  let new_size := Z.max size end_ in
  let new_count := (new_size + 1023) / 1024 in
  let need := zlen (List.filter (fun index =>
    ((index * 1024 <? end_) && (start <? index * 1024 + 1024))
    || ((index + 1 =? old_count) && (size <? new_size) && negb (size mod 1024 =? 0))) (zrange new_count)) in
  need + (if 12 <? new_count then 1 else 0).

(** [(int(w) for w in words[a:b])] unpacked into as many names. *)
Definition int_words (ws : list str) (a b : Z) : res (list Z) :=
  ns ← mapM_res (py_int 10) (slice ws a b);
  if zlen ns =? b - a then Ok ns else Err ValueError.

(** The pieces of a pwrite, [WRITE_CHUNK] bytes at a time. *)
Definition pwrite_body (f : fd) (offset limit seed : Z) (st : fs * Z) : flow (fs * Z) (res (fs * option str)) :=
  let '(t, done_) := st in
  if done_ <? limit then
    let piece_ := Z.min WRITE_CHUNK (limit - done_) in
    match fs_pwrite t f (pattern (offset + done_) piece_ seed) (offset + done_) with
    | inl e => Stop (Ok (t, Some e))
    | inr t => Next (t, done_ + piece_)
    end
  else Stop (Ok (t, None)).
Definition pwrite_loop (t : fs) (f : fd) (offset limit seed : Z) : res (fs * option str) :=
  while (S (Z.to_nat limit)) (pwrite_body f offset limit seed) (t, 0).

Definition step_of (t : fs) (r : str + fs) : res (fs * option str) :=
  match r with inl e => Ok (t, Some e) | inr t => Ok (t, None) end.

(** The system calls of one operation: the tree after them and the errno, if
    one failed.  [limit] is the count of bytes to replay of a failed write. *)
Definition linux_calls (t : fs) (op_ : str) (ws : list str) (name : str) (limit : option Z)
    : res (fs * option str) :=
  if decide (name = $"mkdir") then p ← item ws 1; step_of t (fs_mkdir t p)
  else if decide (name = $"rmdir") then p ← item ws 1; step_of t (fs_rmdir t p)
  else if decide (name = $"unlink") then p ← item ws 1; step_of t (fs_unlink t p)
  else if decide (name = $"rename") then p ← item ws 1; q ← item ws 2; step_of t (fs_rename t p q)
  else if bool_decide (name ∈ [$"trunc"; $"write"]) then
    p ← item ws 1;
    match fs_open t p true with
    | inl e => Ok (t, Some e)
    | inr (t, f) =>
        if bool_decide (name = $"write") && (2 <? zlen ws) && bool_decide (limit = None)
        then data ← item ws 2; step_of t (fs_pwrite t f data 0)
        else Ok (t, None)
    end
  else if bool_decide (name ∈ [$"pwrite"; $"seekwrite"]) then
    ns ← int_words ws 2 5;
    match ns with
    | [offset; length_; seed] =>
        p ← item ws 1;
        let offset := if decide (name = $"seekwrite") then Z.min offset (size_of t p) else offset in
        match fs_open t p false with
        | inl e => Ok (t, Some e)
        | inr (t, f) => pwrite_loop t f offset (default length_ limit) seed
        end
    | _ => Err ValueError
    end
  else if decide (name = $"overwrite") then
    source ← item ws 2;
    match fs_read t source with
    | inl e => Ok (t, Some e)
    | inr data =>
        p ← item ws 1;
        match fs_open t p false with
        | inl e => Ok (t, Some e)
        | inr (t, f) => step_of t (fs_pwrite t f (slice data 0 (default (zlen data) limit)) 0)
        end
    end
  else Err (HostError ($"unknown operation " ++ py_repr op_)).

(** Whether the kernel's own free counts justify an ENOSPC. *)
Definition justified (t : fs) (ws : list str) (name : str) (k : result) : res (option str) :=
  '(blocks, inodes) ← of_option TypeError (k_free k);
  creates ← (if bool_decide (name ∈ [$"mkdir"; $"trunc"; $"write"; $"pwrite"; $"seekwrite"; $"overwrite"])
             then p ← item ws 1; Ok (negb (fs_lexists t p)) else Ok false);
  extra ← match k_written k with
          | Some written =>
              if bool_decide (name ∈ [$"pwrite"; $"seekwrite"]) then
                ns ← int_words ws 2 4;
                p ← item ws 1;
                match ns with
                | [offset; length_] =>
                    let offset := if decide (name = $"seekwrite") then Z.min offset (size_of t p) else offset in
                    Ok (write_need t p offset length_ written)
                | _ => Err ValueError
                end
              else Ok 0
          | None => Ok 0
          end;
  if (blocks <? ENOSPC_SLACK + extra) || (creates && (inodes =? 0)) then Ok None
  else Ok (Some ($"ENOSPC unjustified: free " ++ dec blocks ++ $" blocks, " ++ dec inodes ++ $" inodes")).

Definition linux_apply (t : fs) (op_ : str) (kernel : option result) (injected : bool) : res (fs * str) :=
  let ws := words op_ in
  name ← item ws 0;
  let failed_result := match kernel with
    | Some k => if bool_decide (k_errno k ≠ $"0") && (injected || bool_decide (k_errno k = $"ENOSPC"))
                then Some k else None
    | None => None
    end in
  match failed_result with
  | Some k =>
      complaint ← (if injected then Ok None else justified t ws name k);
      match complaint with
      | Some c => Ok (t, c)
      | None =>
          match k_written k with
          | None => Ok (t, k_errno k)
          | Some written =>
              '(t, failed) ← linux_calls t op_ ws name (Some written);
              Ok (t, default (k_errno k) failed)
          end
      end
  | None =>
      '(t, failed) ← linux_calls t op_ ws name None;
      Ok (t, default ($"0") failed)
  end.
End linux.

(** ** Images *)

Class HostTools {T : Ext2Tools} := {
  (** the program on an image: status, standard output and error, the image *)
  run_exe : image → str → Z * str * str * image;
  (** e2fsck -fn: status and standard output *)
  fsck : image → Z * str;
  (** mke2fs with a count of blocks and of inodes *)
  make_image : Z → Z → image
}.

(** What [compare_run] reads of a program run. *)
Record run := Run {
  p_status : Z; p_free : option (Z * Z); p_results : list result; p_out : str
}.

Section images.
Context {T : Ext2Tools} {H : HostTools} {L : LinuxFs}.
(** the empty tree with the root directory in it, and how a tree looks to
    [os.walk] *)
Context (fresh_tree : fs) (tree_node : fs → hnode) (tree_path scratch : str) (fuel : nat).

Definition run_program (img : image) (lines : list str) : run * image :=
  let '(status, out, err, img) := run_exe img (program_script lines) in
  let '(free, results) := read_results out in
  (Run status free results (out ++ err), img).

Definition oracle_image (t : fs) (pristine : image) : res image := replay tree_path (tree_node t) pristine.

Definition image_facts (img : image) : res (list (str * fact) * counters * (Z * Z)) :=
  s ← snapshot fuel scratch img;
  Ok (s_files s, s_counts s, free_and_reachable s).

Definition image_differences (kernel_image other_image : image) : res (list str) :=
  '(kfiles, kcounts, ksum) ← image_facts kernel_image;
  '(ofiles, ocounts, osum) ← image_facts other_image;
  Ok (omap (path_difference ($"other") kfiles ofiles) (paths_under ($"/" ++ ROOT) kfiles ofiles)
      ++ (if counters_agree kcounts then [] else [$"counters: kernel " ++ counters_repr kcounts])
      ++ (if decide (ksum = osum) then []
          else [$"conservation (free+reachable blocks, inodes): kernel " ++ pair_repr ksum ++ $" other "
                ++ pair_repr osum])).

(** The last [n] characters. *)
Definition tail_of (s : str) (n : Z) : str := from s (Z.max 0 (zlen s - n)).

Definition status_problem (status : Z) (out : str) : str :=
  $"program status " ++ dec status
  ++ (if status =? STOP_STATUS then $" (kernel_invariant_stop)" else [])
  ++ $"; tail: " ++ py_repr (tail_of out 300).

(** [^fault injected=1( fenced recover=(\w+))?$]: whether it fenced, and what the
    recovery answered. *)
Definition fault_line (line : str) : option (option str) :=
  rest ← strip_prefix ($"fault injected=1") line;
  if decide (rest = []) then Some None else
  word ← strip_prefix ($" fenced recover=") rest;
  if bool_decide (word ≠ []) && forallb is_word word then Some (Some word) else None.
Definition fault_injected (out : str) : option (option str) := head (omap fault_line (split_on 10 out)).

(** One operation on both sides: the problem if the errnos differ. *)
Definition replay_op (fault : option Z) (st : fs * list str) (ilr : Z * (str * result))
    : res (fs * list str) :=
  let '(index, (line, r)) := ilr in
  let injected := bool_decide (fault = Some (index - 1)) in
  '(t, expect) ← linux_apply st.1 line (Some r) injected;
  Ok (t, if decide (expect = k_errno r) then st.2
         else st.2 ++ [$"op " ++ dec index ++ $" `" ++ line ++ $"`: kernel " ++ k_errno r ++ $" linux " ++ expect]).

Definition fsck_problem (img : image) : list str :=
  let '(code, report) := fsck img in
  if code =? 0 then [] else
  [$"e2fsck -fn: " ++ take 600 (join ($" | ")
    (List.filter (fun l => bool_decide (l ≠ []) && negb (startswith l ($"Pass ")) && negb (startswith l ($"e2fsck ")))
      (splitlines report)))].

Definition insert_at (i : Z) (l : str) (lines : list str) : list str := slice lines 0 i ++ [l] ++ from lines i.

(** [compare_run]: the problems, or [None] when the armed fault was not met. *)
Definition compare_run (pristine : image) (lines : list str) (fault : option (Z * str))
    : res (option (list str) * list result) :=
  let program := match fault with Some (i, l) => insert_at i l lines | None => lines end in
  let '(r, kernel) := run_program pristine program in
  let injected := match fault with Some _ => fault_injected (p_out r) | None => None end in
  if bool_decide (fault ≠ None) && bool_decide (injected = None) then Ok (None, p_results r) else
  let problems := match injected with
    | Some (Some answer) => if decide (answer = $"ok") then []
                            else [$"fenced, and ext2_recover answered " ++ answer]
    | _ => []
    end in
  if negb (p_status r =? 0) then Ok (Some (problems ++ [status_problem (p_status r) (p_out r)]), p_results r) else
  if negb (zlen (p_results r) =? zlen lines)
  then Ok (Some (problems ++ [dec (zlen (p_results r)) ++ $" results for " ++ dec (zlen lines) ++ $" operations"]),
           p_results r) else
  '(t, problems) ← foldM (replay_op (fst <$> fault)) (fresh_tree, problems) (enumerate1 (zip lines (p_results r)));
  oracle ← oracle_image t pristine;
  diffs ← image_differences kernel oracle;
  Ok (Some (problems ++ fsck_problem kernel ++ diffs), p_results r).

(** ** The rows of ops.eq *)

Definition eq_op (o : op) : res (list str + unit) :=
  let args := o_args o in
  let p := map (fun a => ROOT ++ $"/" ++ a) args in
  let name := o_name o in
  if bool_decide (name ∈ [$"mkdir"; $"rmdir"; $"unlink"]) then a ← item p 0; Ok (inl [name ++ $" " ++ a])
  else if decide (name = $"rename") then
    a ← item p 0; b ← item p 1; Ok (inl [$"rename " ++ a ++ $" " ++ b])
  else if decide (name = $"write") then
    a ← item p 0; w ← item args 1; Ok (inl [$"write " ++ a ++ $" " ++ w])
  else if decide (name = $"fill") then
    a ← item p 0; w ← item args 1; n ← py_int 10 w;
    Ok (inl [$"trunc " ++ a; $"pwrite " ++ a ++ $" 0 " ++ dec (n * 1024) ++ $" 1"])
  else if decide (name = $"overwrite") then
    a ← item p 0; b ← item p 1; Ok (inl [$"overwrite " ++ a ++ $" " ++ b])
  else if decide (name = $"truncate") then a ← item p 0; Ok (inl [$"trunc " ++ a])
  else if decide (name = $"peer") then Ok (inr ())
  else if decide (name = $"adopt") then
    a ← item p 0; Ok (inl [$"rename " ++ DIND_FIXTURE ++ $" " ++ a])
  else if decide (name = $"files") then
    w ← item args 1; n ← py_int 10 w; a ← item p 0;
    Ok (inl (map (fun i => $"trunc " ++ a ++ $"/" ++ LONG ++ dec i) (zrange n)))
  else Err (HostError ($"ops.eq operation " ++ name ++ $" has no host form")).

Record eq_state := EqState { q_lines : list str; q_spans : list (Z * Z); q_skipped : list str }.

Definition eq_row (st : eq_state) (r : row) : res eq_state :=
  '(lines, skipped) ← foldM (fun st o =>
      out ← eq_op o;
      Ok (match out with
          | inl ls => (st.1 ++ ls, st.2)
          | inr () => (st.1, st.2 ++ [r_name r])
          end)) (q_lines st, q_skipped st) (r_ops r);
  Ok (EqState lines (q_spans st ++ [(zlen (q_lines st), zlen lines)]) skipped).

Definition eq_lines (rows : list row) : res eq_state := foldM eq_row (EqState [] [] []) rows.

(** The log of one row on both sides. *)
Definition row_logs (lines : list str) (results : list result) (t : fs) (span_ : Z * Z)
    : res (fs * list str * list str) :=
  foldM (fun st index =>
      let '(t, klog, hlog) := st in
      line ← item lines index; r ← item results index;
      '(t, expect) ← linux_apply t line (Some r) false;
      Ok (t, klog ++ [line ++ $" -> " ++ k_errno r], hlog ++ [line ++ $" -> " ++ expect]))
    (t, [], []) (py_range span_.1 span_.2 1).

Definition logs_step (lines : list str) (results : list result)
    (st : fs * list (str * list str) * list (str * list str)) (rs : row * (Z * Z))
    : res (fs * list (str * list str) * list (str * list str)) :=
  let '(t, klog, hlog) := st in
  '(t, k, h) ← row_logs lines results t rs.2;
  Ok (t, dset (r_name rs.1) k klog, dset (r_name rs.1) h hlog).

Definition row_problem (kfiles hfiles : list (str * fact)) (klog hlog : list (str * list str)) (r : row)
    : option str :=
  let outcome := v_outcome (row_verdict kfiles hfiles klog hlog r) in
  if decide (outcome = r_expect r) then None
  else Some ($"row " ++ r_name r ++ $" " ++ outcome ++ $", recorded " ++ r_expect r).

(** [compare_run_rows], on a tree that holds the fixture when a row adopts it. *)
Definition compare_run_rows (pristine : image) (tree0 : fs) (st : eq_state) (rows : list row)
    : res (list str * list result) :=
  let '(r, kernel) := run_program pristine (q_lines st) in
  if negb (p_status r =? 0) || negb (zlen (p_results r) =? zlen (q_lines st))
  then Ok ([$"program status " ++ dec (p_status r) ++ $", " ++ dec (zlen (p_results r)) ++ $" results: "
            ++ py_repr (tail_of (p_out r) 300)], p_results r) else
  '(t, klog, hlog) ← foldM (logs_step (q_lines st) (p_results r)) (tree0, [], []) (zip rows (q_spans st));
  oracle ← oracle_image t pristine;
  '(kfiles, kcounts, _) ← image_facts kernel;
  '(hfiles, _, _) ← image_facts oracle;
  Ok (omap (row_problem kfiles hfiles klog hlog) rows
      ++ (if counters_agree kcounts then [] else [$"counters " ++ counters_repr kcounts]), p_results r).

Definition dirname (p : str) : str := match rsplit_slash p with Some (d, _) => d | None => [] end.

Definition plant_fixture (work : str) (img : image) : res image :=
  let source := work ++ $"/ext2-eq-dind" in
  '(_, _, img) ← debugfs img [$"mkdir /" ++ dirname DIND_FIXTURE;
                              $"write " ++ source ++ $" /" ++ DIND_FIXTURE] true;
  Ok img.

(** [run_eq] on the text of ops.eq; [plant_tree] is the tree with the fixture. *)
Definition run_eq (work : str) (plant_tree : fs) (text : str) : res str :=
  rows ← parse text;
  st ← eq_lines rows;
  let pristine := make_image 6144 1024 in
  pristine ← (if adopted rows then plant_fixture work pristine else Ok pristine);
  '(problems, _) ← compare_run_rows pristine (if adopted rows then plant_tree else fresh_tree) st rows;
  match problems with
  | _ :: _ => Err (HostError ($"ops.eq rows: " ++ join ($"; ") problems))
  | [] =>
      report_pass ($"ext2-host eq")
        (dec (zlen rows) ++ $" ops.eq rows as the QEMU lane records them, " ++ dec (zlen (q_lines st))
         ++ $" operations through the kernel's ext2 on the host"
         ++ (if decide (q_skipped st = []) then []
             else $" (descriptor-only operations not run: rows " ++ join ($", ") (q_skipped st) ++ $")"))
        [($"rows", zlen rows); ($"operations", zlen (q_lines st))]
  end.
End images.
