(* ===== verification/Ext2Gen.v ===== *)
(** * ext2 equivalence, tier C: the campaign

    Model of the second half of scripts/ext2_host.py: the generator of random
    operation sequences with its model of the tree, the campaign, the fault run,
    the hostile images and the fixed scenarios.  Python's seeded generator is
    the interface [Rng]. *)
From S2P Require Import Prelude Text Dict Sort Random PassLine Ext2Eq Ext2Host.

(** The generator's belief about the tree. *)
Record model := Model { m_dirs : list str; m_files : list (str * Z) }.
#[global] Instance model_eq_dec : EqDecision model.
Proof. solve_decision. Defined.

Definition new_model : model := Model [ROOT] [].

Definition children (m : model) (d : str) : list str :=
  List.filter (fun p => match strip_prefix (d ++ $"/") p with
                        | Some rest => negb (existsb (Z.eqb 47) rest)
                        | None => false
                        end) (m_dirs m ++ map fst (m_files m)).

Definition add_dir (d : str) (m : model) : model :=
  Model (if decide (d ∈ m_dirs m) then m_dirs m else m_dirs m ++ [d]) (m_files m).
Definition discard_dir (d : str) (m : model) : model := Model (filter (fun x => x ≠ d) (m_dirs m)) (m_files m).
Definition set_file (p : str) (size : Z) (m : model) : model := Model (m_dirs m) (dset p size (m_files m)).
Definition ddel {V} (k : str) (d : list (str * V)) : list (str * V) := filter (fun kv => kv.1 ≠ k) d.
Definition del_file (p : str) (m : model) : model := Model (m_dirs m) (ddel p (m_files m)).

Definition KINDS : list str :=
  [$"mkdir"; $"write"; $"pwrite"; $"trunc"; $"unlink"; $"rmdir"; $"rename_file"; $"rename_dir"; $"error"].
Definition WEIGHTS : list Z := [8; 10; 30; 4; 10; 6; 8; 3; 3].

Section generate.
Context {R : Rng}.

Definition name_for (r : rng) : str * rng :=
  let '(c, r) := choice 97 ($"abcdefgh") r in
  let '(n, r) := randrange 0 20 r in
  ([c] ++ dec n, r).

(** [count] random characters of the alphabet. *)
Fixpoint random_text (n : nat) (r : rng) : str * rng :=
  match n with
  | O => ([], r)
  | S n => let '(c, r) := choice 120 ($"xyz0123456789") r in
           let '(s, r) := random_text n r in (c :: s, r)
  end.

(** What one round of the loop makes: a line and the model after it, or nothing
    ([continue], or an error kind without a candidate). *)
Definition made : Type := option (str * model) * rng.
Definition nothing (r : rng) : made := (None, r).
Definition make (line : str) (m : model) (r : rng) : made := (Some (line, m), r).

Definition sorted_dirs (m : model) : list str := py_sorted str_le (m_dirs m).
Definition sorted_files (m : model) : list str := py_sorted str_le (map fst (m_files m)).

Definition gen_mkdir (m : model) (fresh : str) (r : rng) : made :=
  if (5 <? zlen (filter (fun c => c = 47) fresh)) || dmem fresh (m_files m) then nothing r
  else make ($"mkdir " ++ fresh) (add_dir fresh m) r.

Definition gen_write (m : model) (fresh : str) (r : rng) : made :=
  let files := sorted_files m in
  let '(target, r) := if decide (files = []) then (fresh, r) else choice fresh (files ++ [fresh]) r in
  if decide (target ∈ m_dirs m) then nothing r else
  let '(n, r) := randrange 1 40 r in
  let '(text, r) := random_text (Z.to_nat n) r in
  make ($"write " ++ target ++ $" " ++ text) (set_file target (zlen text) m) r.

(** The length of a pwrite: one of four draws, capped. *)
Definition draw_length (largest : Z) (r : rng) : Z * rng :=
  let '(a, r) := randrange 1 64 r in
  let '(b, r) := randrange 1 3000 r in
  let '(c, r) := randrange 1 20000 r in
  let '(d, r) := randrange 20000 80000 r in
  let '(n, r) := choice a [a; b; c; d] r in
  (Z.min n largest, r).

Definition write_line (op_ target : str) (offset length_ seed : Z) : str :=
  op_ ++ $" " ++ target ++ $" " ++ dec offset ++ $" " ++ dec length_ ++ $" " ++ dec seed.

Definition gen_pwrite (largest : Z) (m : model) (fresh : str) (r : rng) : made :=
  let files := sorted_files m in
  let '(target, r) :=
    if decide (files = []) then (fresh, r) else
    let '(b, r) := below r 7 10 in if b then choice fresh (files ++ [fresh]) r else (fresh, r) in
  if decide (target ∈ m_dirs m) then nothing r else
  let size := default 0 (dget target (m_files m)) in
  let '(length_, r) := draw_length largest r in
  let '(hole, r) := below r 1 5 in
  if hole then
    let '(a, r) := randrange 1 1024 r in
    let '(b, r) := randrange 1024 40000 r in
    let '(gap, r) := choice a [a; b] r in
    let offset := size + gap in
    if MAX_FILE <? offset + length_ then nothing r else
    let '(seed, r) := randrange 0 256 r in
    make (write_line ($"pwrite") target offset length_ seed)
      (set_file target (Z.max size (offset + length_)) m) r
  else
    let '(x, r) := randrange 0 (size + 1) r in
    let '(offset, r) := choice 0 [0; size; x] r in
    if MAX_FILE <? offset + length_ then nothing r else
    let '(seed, r) := randrange 0 256 r in
    make (write_line ($"seekwrite") target offset length_ seed)
      (set_file target (Z.max size (offset + length_)) m) r.

Definition gen_trunc (m : model) (r : rng) : made :=
  let files := sorted_files m in
  if decide (files = []) then nothing r else
  let '(target, r) := choice [] files r in
  make ($"trunc " ++ target) (set_file target 0 m) r.

Definition gen_unlink (m : model) (r : rng) : made :=
  let files := sorted_files m in
  if decide (files = []) then nothing r else
  let '(target, r) := choice [] files r in
  make ($"unlink " ++ target) (del_file target m) r.

Definition gen_rmdir (m : model) (r : rng) : made :=
  let candidates := filter (fun d => d ≠ ROOT) (sorted_dirs m) in
  if decide (candidates = []) then nothing r else
  let '(target, r) := choice [] candidates r in
  make ($"rmdir " ++ target) (if decide (children m target = []) then discard_dir target m else m) r.

Definition gen_rename_file (m : model) (fresh : str) (r : rng) : made :=
  let files := sorted_files m in
  if decide (files = []) then nothing r else
  let '(source, r) := choice [] files r in
  let '(target, r) := choice [] (files ++ [fresh]) r in
  if bool_decide (target ∈ m_dirs m) || bool_decide (target = source) then nothing r else
  make ($"rename " ++ source ++ $" " ++ target)
    (set_file target (default 0 (dget source (m_files m))) (del_file source m)) r.

Definition gen_rename_dir (m : model) (r : rng) : made :=
  let candidates := filter (fun d => d ≠ ROOT ∧ children m d = []) (sorted_dirs m) in
  if decide (candidates = []) then nothing r else
  let '(source, r) := choice [] candidates r in
  let '(name, r) := name_for r in
  let target := dirname source ++ $"/" ++ name in
  if bool_decide (target ∈ m_dirs m) || dmem target (m_files m) then nothing r else
  make ($"rename " ++ source ++ $" " ++ target) (add_dir target (discard_dir source m)) r.

(** An operation that is to fail at its last component; the model stays. *)
Definition gen_error (m : model) (parent : str) (r : rng) : made :=
  let dirs := sorted_dirs m in
  let files := sorted_files m in
  let '(c, r) := randrange 0 5 r in
  if (c =? 0) && (1 <? zlen dirs) then
    let '(d, r) := choice [] (tail dirs) r in make ($"mkdir " ++ d) m r
  else if c =? 1 then let '(n, r) := randrange 0 9 r in make ($"unlink " ++ parent ++ $"/zz" ++ dec n) m r
  else if (c =? 2) && (1 <? zlen dirs) then
    let '(d, r) := choice [] (tail dirs) r in make ($"unlink " ++ d) m r
  else if (c =? 3) && bool_decide (files ≠ []) then
    let '(f, r) := choice [] files r in make ($"rmdir " ++ f) m r
  else if c =? 4 then let '(n, r) := randrange 0 9 r in make ($"rmdir " ++ parent ++ $"/zz" ++ dec n) m r
  else nothing r.

(** One round of the generator's loop. *)
Definition gen_round (largest : Z) (m : model) (r : rng) : made :=
  let '(parent, r) := choice ROOT (sorted_dirs m) r in
  let '(name, r) := name_for r in
  let fresh := parent ++ $"/" ++ name in
  let '(k, r) := weighted r WEIGHTS in
  let kind_ := default [] (KINDS !! Z.to_nat k) in
  if decide (kind_ = $"mkdir") then gen_mkdir m fresh r
  else if decide (kind_ = $"write") then gen_write m fresh r
  else if decide (kind_ = $"pwrite") then gen_pwrite largest m fresh r
  else if decide (kind_ = $"trunc") then gen_trunc m r
  else if decide (kind_ = $"unlink") then gen_unlink m r
  else if decide (kind_ = $"rmdir") then gen_rmdir m r
  else if decide (kind_ = $"rename_file") then gen_rename_file m fresh r
  else if decide (kind_ = $"rename_dir") then gen_rename_dir m r
  else if decide (kind_ = $"error") then gen_error m parent r
  else nothing r.

Record gen_state := GenState { g_model : model; g_rng : rng; g_lines : list str }.

Definition gen_body (count largest : Z) (st : gen_state) : flow gen_state (res (list str)) :=
  if zlen (g_lines st) <? count then
    match gen_round largest (g_model st) (g_rng st) with
    | (Some (line, m), r) => Next (GenState m r (g_lines st ++ [line]))
    | (None, r) => Next (GenState (g_model st) r (g_lines st))
    end
  else Stop (Ok (g_lines st)).

(** [generate(seed, count, largest)], within a bound on the rounds. *)
Definition generate (fuel : nat) (seed count largest : Z) : res (list str) :=
  while fuel (gen_body count largest) (GenState new_model (seeded seed) []).
End generate.

(** ** The campaign and the fault run *)

Section campaign.
Context {R : Rng} {T : Ext2Tools} {H : HostTools} {L : LinuxFs}.
Context (fresh_tree : fs) (tree_node : fs → hnode) (tree_path scratch : str) (fuel : nat).

Definition compare_lines (pristine : image) (lines : list str) (fault : option (Z * str))
    : res (option (list str) * list result) :=
  compare_run fresh_tree tree_node tree_path scratch fuel pristine lines fault.

(** The progress line of a seed that agrees is not part of the results below.

    The checkpoints of one seed: the first failing prefix, and the checks made. *)
Fixpoint check_prefixes (pristine : image) (lines : list str) (prefixes : list Z) (checks : Z)
    : res (option (Z * list str) * Z) :=
  match prefixes with
  | [] => Ok (None, checks)
  | prefix :: prefixes =>
      '(problems, _) ← compare_lines pristine (slice lines 0 prefix) None;
      match problems with
      | Some ((_ :: _) as problems) => Ok (Some (prefix, problems), checks + 1)
      | _ => check_prefixes pristine lines prefixes (checks + 1)
      end
  end.

(** [list(range(every, ops, every)) + [ops]], for a step other than 0. *)
Definition checkpoints (ops every : Z) : list Z :=
  (if every <? 0 then map Z.opp (py_range (- every) (- ops) (- every)) else py_range every ops every) ++ [ops].

Fixpoint campaign_seeds (pristine : image) (seeds : list Z) (ops every checks : Z)
    : res (option (Z * Z * list str) * Z) :=
  match seeds with
  | [] => Ok (None, checks)
  | seed :: seeds =>
      lines ← generate fuel seed ops 80000;
      if every =? 0 then Err ValueError else
      '(failure, checks) ← check_prefixes pristine lines (checkpoints ops every) checks;
      match failure with
      | Some (prefix, problems) => Ok (Some (seed, prefix, problems), checks)
      | None => campaign_seeds pristine seeds ops every checks
      end
  end.

Definition campaign (seeds ops every first : Z) : res (option (Z * Z * list str) * Z) :=
  campaign_seeds (make_image FS_BLOCKS FS_INODES) (py_range first (first + seeds) 1) ops every 0.

Definition report_failure (failure : Z * Z * list str) : list str :=
  let '(seed, prefix, problems) := failure in
  ($"FAIL ext2-host campaign: seed " ++ dec seed ++ $", prefix " ++ dec prefix
   ++ $" (rerun: scripts/ext2_host.py replay " ++ dec seed ++ $" " ++ dec prefix ++ $")")
  :: map (fun p => $"    " ++ p) (take 12 problems).

(** The next write to fail: each of the first ones, then at doubling distance. *)
Definition next_fault (k : Z) : Z := if k <? FAULT_DENSE then k + 1 else k * 2.

(** The faults of one operation: whether ten failures ended the run. *)
Definition fault_body (pristine : image) (seed : Z) (lines : list str) (index : Z) (mode : str)
    (st : Z * Z * list str) : flow (Z * Z * list str) (res (bool * Z * list str)) :=
  let '(k, checked, failures) := st in
  let armed := $"fault " ++ dec k ++ $" " ++ mode in
  match compare_lines pristine (slice lines 0 (index + 1)) (Some (index, armed)) with
  | Err e => Stop (Err e)
  | Ok (None, _) => Stop (Ok (false, checked, failures))
  | Ok (Some problems, _) =>
      let checked := checked + 1 in
      match problems with
      | [] => Next (next_fault k, checked, failures)
      | _ =>
          let line := default [] (lines !! Z.to_nat index) in
          let failures := failures ++ [$"seed " ++ dec seed ++ $" op " ++ dec (index + 1) ++ $" `" ++ line
                             ++ $"` " ++ armed ++ $": " ++ join ($"; ") (take 3 problems)] in
          if 10 <=? zlen failures then Stop (Ok (true, checked, failures))
          else Next (next_fault k, checked, failures)
      end
  end.
Definition fault_op (pristine : image) (seed : Z) (lines : list str) (index : Z) (mode : str)
    (checked : Z) (failures : list str) : res (bool * Z * list str) :=
  while fuel (fault_body pristine seed lines index mode) (0, checked, failures).

(** The operations the fault run leaves out: the source lists none. *)
Definition FAULT_KNOWN : list str := [].

(** The faults to try, an operation and a mode each. *)
Definition fault_plan (modes lines : list str) : res (list (Z * str)) :=
  plan ← mapM_res (fun '(index, line) =>
      name ← item (words line) 0;
      Ok (if decide (name ∈ FAULT_KNOWN) then [] else map (fun m => (index, m)) modes))
    (zip (zrange (zlen lines)) lines);
  Ok (concat plan).

(** Every operation in every mode, until ten failures. *)
Fixpoint fault_ops (pristine : image) (seed : Z) (lines : list str) (ims : list (Z * str))
    (checked : Z) (failures : list str) : res (bool * Z * list str) :=
  match ims with
  | [] => Ok (false, checked, failures)
  | (index, mode) :: ims =>
      '(over, checked, failures) ← fault_op pristine seed lines index mode checked failures;
      if (over : bool) then Ok (true, checked, failures) else fault_ops pristine seed lines ims checked failures
  end.

Fixpoint fault_seeds (pristine : image) (seeds : list Z) (ops : Z) (modes : list str)
    (checked : Z) (failures : list str) : res (Z * list str) :=
  match seeds with
  | [] => Ok (checked, failures)
  | seed :: seeds =>
      lines ← generate fuel seed ops FAULT_LARGEST;
      ims ← fault_plan modes lines;
      '(over, checked, failures) ← fault_ops pristine seed lines ims checked failures;
      if (over : bool) then Ok (checked, failures) else fault_seeds pristine seeds ops modes checked failures
  end.

Definition run_faults (seeds ops first : Z) (modes : list str) : res (Z * list str) :=
  fault_seeds (make_image FS_BLOCKS FS_INODES) (py_range first (first + seeds) 1) ops modes 0 [].

(** ** Hostile images *)

Definition HOSTILE_POPULATE : list str :=
  [$"mkdir eq/d"; $"mkdir eq/d/e"; $"write eq/a hello"; $"pwrite eq/b 0 20000 3"; $"pwrite eq/d/c 0 3000 4";
   $"write eq/d/e/f deep"; $"mkdir eq/g"].
Definition regions : list (Z * Z) :=
  [(1024, 1024); (2048, 1024); (3 * 1024, 2 * 1024); (5 * 1024, 24 * 1024); (29 * 1024, 64 * 1024)].

(** One corrupted byte: [mutated[at] = rng.choice([...])]. *)
Definition corrupt (data : bytes) (r : rng) : res (bytes * rng) :=
  let '((start, length_), r) := choice (0, 0) regions r in
  let '(off, r) := randrange 0 length_ r in
  let at_ := start + off in
  let '(x, r) := randrange 0 256 r in
  old ← item data at_;
  let '(bit, r) := randrange 0 8 r in
  let '(b, r) := choice 0 [0; 255; x; Z.lxor old (Z.shiftl 1 bit)] r in
  Ok (slice data 0 at_ ++ [b] ++ from data (at_ + 1), r).

Fixpoint corrupt_times (n : nat) (data : bytes) (r : rng) : res (bytes * rng) :=
  match n with
  | O => Ok (data, r)
  | S n => '(data, r) ← corrupt data r; corrupt_times n data r
  end.

Definition hostile_image (data : bytes) (index : Z) : res bytes :=
  let '(n, r) := choice 1 [1; 2; 4; 16] (seeded index) in
  '(data, _) ← corrupt_times (Z.to_nat n) data r;
  Ok data.

Inductive walk_result : Type := Walked | Refused | Broken (what : str).

(** [^walk dirs=\d+ ] under [re.M]. *)
Definition walk_finished (out : str) : bool :=
  existsb (fun line => match match_numbers [$"walk dirs="] line with
                       | Some (_, rest) => startswith rest ($" ")
                       | None => false
                       end) (split_on 10 out).

Definition judge_walk (index : Z) (r : run) : walk_result :=
  let tag := $"image " ++ dec index in
  if (p_status r =? 3) && contains ($"mount invalid") (p_out r) then Refused else
  if negb (p_status r =? 0) then
    Broken (tag ++ $": status " ++ dec (p_status r)
            ++ (if p_status r =? STOP_STATUS then $" (kernel_invariant_stop)" else [])
            ++ $" " ++ py_repr (tail_of (p_out r) 200)) else
  if negb (walk_finished (p_out r))
  then Broken (tag ++ $": the walk did not finish: " ++ py_repr (tail_of (p_out r) 200))
  else Walked.

(** [run_hostile]: images walked and refused, and the failures.  [bytes_of] and
    [of_bytes] are the file of an image. *)
Definition run_hostile (bytes_of : image → bytes) (of_bytes : bytes → image) (images first : Z)
    : res (Z * Z * list str) :=
  let '(r, base) := run_program (make_image FS_BLOCKS FS_INODES) HOSTILE_POPULATE in
  if negb (p_status r =? 0) || existsb (fun k => bool_decide (k_errno k ≠ $"0")) (p_results r)
  then Err (HostError ($"populating the hostile base failed: " ++ py_repr (tail_of (p_out r) 300))) else
  foldM (fun st index =>
      let '(walked, refused_, failures) := st in
      mutated ← hostile_image (bytes_of base) index;
      let '(r, _) := run_program (of_bytes mutated) [$"walk"] in
      Ok (match judge_walk index r with
          | Walked => (walked + 1, refused_, failures)
          | Refused => (walked, refused_ + 1, failures)
          | Broken what => (walked, refused_, failures ++ [what])
          end))
    (0, 0, []) (py_range first (first + images) 1).

(** ** Fixed scenarios *)

(** The files that fill [spare] blocks, by their count of data blocks. *)
Definition filler (spare : Z) : Z := if spare <=? 13 then Z.min spare 12 else Z.min (spare - 1) 256.
Definition filler_body (st : Z * list Z) : flow (Z * list Z) (res (list Z)) :=
  let '(spare, sizes) := st in
  if 0 <? spare then
    let blocks := filler spare in
    Next (spare - (blocks + (if 12 <? blocks then 1 else 0)), sizes ++ [blocks])
  else Stop (Ok sizes).
Definition fillers (spare : Z) : res (list Z) := while (S (Z.to_nat spare)) filler_body (spare, []).
Definition filler_lines (sizes : list Z) : list str :=
  map (fun ib => $"pwrite " ++ ROOT ++ $"/fill" ++ dec ib.1 ++ $" 0 " ++ dec (ib.2 * 1024) ++ $" 9")
    (zip (zrange (zlen sizes)) sizes).

(** The problems a scenario ends with: those of the comparison, and every
    operation from [skip] on that did not answer 0. *)
Definition scenario_problems (show_free : bool) (skip : Z) (lines : list str)
    (outcome : option (list str) * list result) : list str :=
  default [] outcome.1
  ++ omap (fun lr => if decide (k_errno lr.2 = $"0") then None
                     else Some ($"`" ++ lr.1 ++ $"` answered " ++ k_errno lr.2
                       ++ (if show_free then $" with free=" ++ opt_repr pair_repr (k_free lr.2) else [])))
       (from (zip lines outcome.2) skip).

Definition BIG : Z := 200 * 1024.
Definition run_nearfull : res str :=
  let pristine := make_image FS_BLOCKS FS_INODES in
  let '(r, _) := run_program pristine [] in
  '(free, _) ← of_option (HostError ($"no mount line: " ++ tail_of (p_out r) 300)) (p_free r);
  sizes ← fillers (free - 8 - 201);
  let before := filler_lines sizes in
  let big := $"pwrite " ++ ROOT ++ $"/big " in
  let lines := before ++ [big ++ $"0 " ++ dec BIG ++ $" 1"; big ++ $"5000 10 2";
                          big ++ dec (BIG - 3000) ++ $" 2000 3"; big ++ dec BIG ++ $" 1500 4"] in
  outcome ← compare_lines pristine lines None;
  match scenario_problems true (zlen before) lines outcome with
  | (_ :: _) as problems => Err (HostError ($"nearfull (#1086): " ++ join ($"; ") problems))
  | [] => report_pass ($"ext2-host nearfull")
            ($"a " ++ dec BIG ++ $"-byte file with 8 blocks free takes an overwrite, a straddling write and an append (#1086)")
            [($"cases", zlen lines - zlen before)]
  end.

Definition HOLES : list str :=
  [$"pwrite " ++ ROOT ++ $"/s 5000 10 1"; $"pwrite " ++ ROOT ++ $"/s 40000 100 2";
   $"pwrite " ++ ROOT ++ $"/s 1 3 3"; $"pwrite " ++ ROOT ++ $"/s 20000 1500 4";
   $"pwrite " ++ ROOT ++ $"/t 200000 10 5"; $"seekwrite " ++ ROOT ++ $"/t 0 10 6"].
Definition run_holes : res str :=
  outcome ← compare_lines (make_image FS_BLOCKS FS_INODES) HOLES None;
  match scenario_problems false 0 HOLES outcome with
  | (_ :: _) as problems => Err (HostError ($"holes (#1087): " ++ join ($"; ") problems))
  | [] => report_pass ($"ext2-host holes") ($"writes past end of file leave holes with Linux's bytes and i_blocks (#1087)")
            [($"cases", zlen HOLES)]
  end.

(** The control, with the tools of the planted program. *)
Definition run_control (seeds ops every : Z) : res str :=
  '(failure, checks) ← campaign seeds ops every 0;
  '(failure, checks) ← match failure with
    | Some (seed, prefix, problems) => Ok (Some (seed, dec prefix, problems), checks)
    | None =>
        '(faulted, failures) ← run_faults 1 40 0 [$"reject"];
        Ok (match failures with [] => None | _ => Some (0, $"fault run", failures) end, checks + faulted)
    end;
  match failure with
  | None => Err (HostError ($"the planted rollback bug passed " ++ dec checks
              ++ $" checks: neither the campaign nor the fault run reaches the rollback, or sees a leaked block"))
  | Some (seed, prefix, problems) =>
      first ← item problems 0;
      report_pass ($"ext2-host control") ($"a rollback that forgets one block fails seed " ++ dec seed ++ $" at "
        ++ prefix ++ $": " ++ take 120 first) [($"checks", checks)]
  end.

(** The name [fillers] is a local variable of [run_nearfull]; [main] has none. *)
Definition run_replay (seed length_ : Z) : res (Z * list str) :=
  lines ← generate fuel seed length_ 80000;
  _ ← compare_lines (make_image FS_BLOCKS FS_INODES) lines None;
  Err NameError.

Definition faults_mode (seeds ops first : Z) (torn : bool) : res (Z * list str) :=
  '(checked, failures) ← run_faults seeds ops first [$"reject"];
  match failures with
  | _ :: _ => Ok (1, $"FAIL ext2-host faults:" :: map (fun f => $"    " ++ f) (take 20 failures))
  | [] =>
      recorded ← (if torn then
          '(torn_checked, torn_) ← run_faults seeds ops first [$"torn"];
          Ok (($"RECORDED ext2-host torn writes: " ++ dec torn_checked ++ $" torn writes, " ++ dec (zlen torn_)
               ++ $" left the image unlike its all-or-nothing result (outside the recovery model, #1089)")
              :: map (fun f => $"    " ++ f) (take 20 torn_))
        else Ok []);
      line ← report_pass ($"ext2-host faults") (dec checked ++ $" failed writes (rejected) across " ++ dec seeds
        ++ $" x " ++ dec ops ++ $" operations: each failed its operation and left the image fsck-clean and as before (after ext2_recover where it fenced)")
        [($"failed_writes", checked)];
      Ok (0, recorded ++ [line])
  end.

Definition passed (m : res str) : res (Z * list str) := line ← m; Ok (0, [line]).

End campaign.

(** ** The self-test *)

Definition assert (b : bool) : res unit := assert_ b [].

Definition seek_bound (line : str) : res unit :=
  let ws := words line in
  name ← item ws 0;
  if decide (name = $"seekwrite") then
    a ← item ws 2; offset ← py_int 10 a; b ← item ws 3; length_ ← py_int 10 b;
    assert (offset + length_ <=? MAX_FILE)
  else Ok ().

(** The oracle's part, on the tree with the root directory in it. *)
Definition self_test_oracle {L : LinuxFs} (t : fs) : res unit :=
  let e name := ROOT ++ $"/" ++ name in
  '(t, a) ← linux_apply t ($"mkdir " ++ e ($"d")) None false;
  _ ← assert (bool_decide (a = $"0"));
  '(t, a) ← linux_apply t ($"mkdir " ++ e ($"d")) None false;
  _ ← assert (bool_decide (a = $"EEXIST"));
  '(t, a) ← linux_apply t ($"pwrite " ++ e ($"d/f 5 3 1")) None false;
  _ ← assert (bool_decide (a = $"0"));
  _ ← assert (bool_decide (fs_read t (e ($"d/f")) = inr (replicate 5 0 ++ pattern 5 3 1)));
  '(t, a) ← linux_apply t ($"rmdir " ++ e ($"d")) None false;
  _ ← assert (bool_decide (a = $"ENOTEMPTY"));
  let refused_ written free := Some (Result 0 [] ($"ENOSPC") written (Some free)) in
  '(t, a) ← linux_apply t ($"pwrite " ++ e ($"h 0 4000 2")) (refused_ None (0, 0)) false;
  _ ← assert (bool_decide (a = $"ENOSPC"));
  _ ← assert (bool_decide (fs_size t (e ($"h")) = None));
  '(t, a) ← linux_apply t ($"pwrite " ++ e ($"g 0 4000 2")) (refused_ (Some 1024) (900, 50)) false;
  _ ← assert (startswith a ($"ENOSPC unjustified"));
  '(t, a) ← linux_apply t ($"pwrite " ++ e ($"g 0 4000 2")) (refused_ (Some 1024) (1, 50)) false;
  _ ← assert (bool_decide (a = $"ENOSPC"));
  assert (bool_decide (fs_size t (e ($"g")) = Some 1024)).

Definition self_test {R : Rng} {L : LinuxFs} (fuel : nat) (t : fs) : res str :=
  _ ← assert match RESULT_RE ($"3 pwrite eq/a 0 10 1 -> ENOSPC written=4 free=2/9") with
             | Some r => bool_decide (k_errno r = $"ENOSPC") && bool_decide (k_written r = Some 4)
             | None => false
             end;
  _ ← assert (bool_decide (RESULT_RE ($"1 mkdir eq/a -> 0 free=700/90") ≠ None));
  _ ← assert (bool_decide (pattern 0 2 0 = [7; 38]));
  a ← generate fuel 5 60 80000; b ← generate fuel 5 60 80000;
  _ ← assert (bool_decide (a = b) && (zlen a =? 60));
  _ ← mapM_res seek_bound a;
  _ ← self_test_oracle t;
  rows ← parse ($"row r match -" ++ nl ++ $"mkdir r" ++ nl ++ $"fill r/f 2" ++ nl ++ $"files r 2" ++ nl);
  st ← eq_lines rows;
  let e name := ROOT ++ $"/r" ++ name in
  _ ← assert (bool_decide (q_lines st =
        [$"mkdir " ++ e []; $"trunc " ++ e ($"/f"); $"pwrite " ++ e ($"/f 0 2048 1");
         $"trunc " ++ e ($"/") ++ LONG ++ $"0"; $"trunc " ++ e ($"/") ++ LONG ++ $"1"]));
  _ ← assert (bool_decide (q_spans st = [(0, 5)]));
  report_pass ($"ext2-host self-test")
    ($"result parser, pattern, generator, Linux oracle, ENOSPC justification and ops.eq translation")
    [($"cases", 7)].

(** The modes of the command line, after argparse. *)
Inductive mode : Type :=
| ModeEq (text : str) | ModeCampaign (seeds ops every first : Z) | ModeReplay (seed length_ : Z)
| ModeFaults (seeds ops first : Z) (torn : bool) | ModeHostile (images first : Z)
| ModeControl (seeds ops every : Z) | ModeNearfull | ModeHoles | ModeSelfTest.

Section main.
Context {R : Rng} {T : Ext2Tools} {H : HostTools} {L : LinuxFs}.
Context (fresh_tree : fs) (tree_node : fs → hnode) (tree_path scratch : str) (fuel : nat).

(** [mutant] is what [build_mutant] gives: the tools with the planted program, or
    the error of the build. *)
Definition main (work : str) (plant_tree : fs) (bytes_of : image → bytes) (of_bytes : bytes → image)
    (mutant : res HostTools) (md : mode) : res (Z * list str) :=
  let body :=
    match md with
    | ModeSelfTest => passed (self_test fuel fresh_tree)
    | ModeNearfull => passed (run_nearfull fresh_tree tree_node tree_path scratch fuel)
    | ModeHoles => passed (run_holes fresh_tree tree_node tree_path scratch fuel)
    | ModeEq text => passed (run_eq fresh_tree tree_node tree_path scratch fuel work plant_tree text)
    | ModeCampaign seeds ops every first =>
        '(failure, checks) ← campaign fresh_tree tree_node tree_path scratch fuel seeds ops every first;
        match failure with
        | Some f => Ok (1, report_failure f)
        | None => passed (report_pass ($"ext2-host campaign") (dec seeds ++ $" seeds x " ++ dec ops
                    ++ $" operations, " ++ dec checks ++ $" checkpoints fsck-clean and equal to host Linux")
                    [($"checkpoints", checks)])
        end
    | ModeReplay seed length_ => run_replay fresh_tree tree_node tree_path scratch fuel seed length_
    | ModeFaults seeds ops first torn => faults_mode fresh_tree tree_node tree_path scratch fuel seeds ops first torn
    | ModeHostile images first =>
        '(walked, refused_, failures) ← run_hostile bytes_of of_bytes images first;
        match failures with
        | _ :: _ => Ok (1, $"FAIL ext2-host hostile:" :: map (fun f => $"    " ++ f) (take 20 failures))
        | [] => passed (report_pass ($"ext2-host hostile") (dec images ++ $" corrupted images: " ++ dec walked
                  ++ $" walked to the end, " ++ dec refused_ ++ $" refused at mount, none stopped")
                  [($"walked", walked)])
        end
    | ModeControl seeds ops every => tools ← mutant;
        passed (run_control (H := tools) fresh_tree tree_node tree_path scratch fuel seeds ops every)
    end in
  match body with
  | Err (Custom cls msg) =>
      if bool_decide (cls = "HostError"%string) || bool_decide (cls = "EqError"%string)
      then Ok (1, [$"FAIL ext2-host: " ++ msg]) else Err (Custom cls msg)
  | r => r
  end.
End main.
