(* ===== verification/Ext2GenFacts.v ===== *)
(** * Facts about the ext2 campaign

    The generator is deterministic in its prefixes, so a failure's replay reruns
    the campaign's prefix; its rounds refine a transition relation on the
    believed tree, whose invariant makes every operation well placed. *)
From S2P Require Import Prelude Text Dict Sort Random PassLine Ext2Eq Ext2Host Ext2Gen.

(** ** Prefixes *)

Section prefix.
Context {R : Rng} (largest : Z).

Lemma iterate_extends count fuel st b :
  iterate fuel (gen_body count largest) st = Some (Ok b) →
  zlen (g_lines st) ≤ count → zlen b = count ∧ ∃ k, b = g_lines st ++ k.
Proof.
  revert st. induction fuel as [|fuel IH]; intros st; [done|]. cbn [iterate]. unfold gen_body at 1.
  destruct (zlen (g_lines st) <? count) eqn:E.
  - destruct (gen_round largest (g_model st) (g_rng st)) as [[[line m]|] r]; intros H Hle.
    + destruct (IH _ H) as [Hlen [k Hk]]; [cbn; rewrite zlen_app, zlen_cons, zlen_nil; lia|].
      split; [done|]. cbn in Hk. exists (line :: k). by rewrite Hk, <- app_assoc.
    + by apply IH in H.
  - intros [= <-] Hle. split; [lia|]. exists []. by rewrite app_nil_r.
Qed.

Lemma iterate_prefix n m f1 f2 st a b :
  n ≤ m → zlen (g_lines st) ≤ n →
  iterate f1 (gen_body n largest) st = Some (Ok a) →
  iterate f2 (gen_body m largest) st = Some (Ok b) → a = slice b 0 n.
Proof.
  intros Hnm. revert f2 st. induction f1 as [|f1 IH]; intros [|f2] st Hle Ha Hb; try done.
  destruct (decide (zlen (g_lines st) < n)) as [Hlt|Hge].
  - cbn [iterate] in Ha, Hb. unfold gen_body at 1 in Ha. unfold gen_body at 1 in Hb.
    rewrite (proj2 (Z.ltb_lt _ _)) in Ha by lia. rewrite (proj2 (Z.ltb_lt _ _)) in Hb by lia.
    destruct (gen_round largest (g_model st) (g_rng st)) as [[[line md]|] r].
    + eapply IH; [|exact Ha|exact Hb]. cbn. rewrite zlen_app, zlen_cons, zlen_nil. lia.
    + eapply IH; [|exact Ha|exact Hb]. done.
  - apply iterate_extends in Hb as [_ [k ->]]; [|lia]. apply iterate_extends in Ha as [Hlen [k' ->]]; [|lia].
    rewrite zlen_app in Hlen. pose proof (zlen_nonneg k'). assert (k' = []) as -> by (apply zlen_0_inv; lia).
    rewrite app_nil_r. symmetry. apply slice_app. lia.
Qed.
End prefix.

Lemma while_Ok {S A} fuel (body : S → flow S (res A)) s a :
  while fuel body s = Ok a → iterate fuel body s = Some (Ok a).
Proof. unfold while. destruct (iterate fuel body s) as [[?|?]|]; cbn; congruence. Qed.

(** A replay reruns the campaign's prefix.  For any generator of random
    numbers, if both calls return then [generate(seed, n)] is the first [n]
    operations of [generate(seed, m)] for [n <= m]: replay SEED LEN runs the
    very operations of the campaign's failing prefix. *)
Theorem generate_prefix {R : Rng} f1 f2 seed n m largest a b :
  0 ≤ n ≤ m → generate f1 seed n largest = Ok a → generate f2 seed m largest = Ok b →
  a = slice b 0 n ∧ zlen a = n.
Proof.
  intros [H0 Hnm] Ha%while_Ok Hb%while_Ok. split.
  - eapply iterate_prefix; [exact Hnm| |exact Ha|exact Hb]. exact H0.
  - by apply iterate_extends in Ha as [? _].
Qed.

Definition some_lines (n : Z) : list str :=
  match generate 60 5 n 80000 with Ok l => l | Err _ => [] end.

Lemma generate_prefix_witness : some_lines 3 = slice (some_lines 6) 0 3 ∧ zlen (some_lines 3) = 3.
Proof. apply (generate_prefix 60 60 5 3 6 80000); [lia|by_compute|by_compute]. Defined.

(** ** The generator as a transition system *)

Definition leaf (n : str) : Prop := n ≠ [] ∧ Forall (fun c => c ≠ 47) n.

(** A path in a directory the model holds. *)
Definition placed (m : model) (p : str) : Prop := ∃ d n, d ∈ m_dirs m ∧ leaf n ∧ p = d ++ $"/" ++ n.

(** What the generator may do next, with the line it emits: the operations that
    are meant to succeed move the model, those that are meant to fail (the last
    five) leave it. *)
Inductive gen_step (largest : Z) (m : model) : str → model → Prop :=
| step_mkdir p : placed m p → p ∉ map fst (m_files m) → gen_step largest m ($"mkdir " ++ p) (add_dir p m)
| step_write p text : placed m p → p ∉ m_dirs m → 1 ≤ zlen text < 40 →
    gen_step largest m ($"write " ++ p ++ $" " ++ text) (set_file p (zlen text) m)
| step_pwrite p offset length_ seed : placed m p → p ∉ m_dirs m → 1 ≤ length_ ≤ largest →
    default 0 (dget p (m_files m)) < offset → offset + length_ ≤ MAX_FILE → 0 ≤ seed < 256 →
    gen_step largest m (write_line ($"pwrite") p offset length_ seed) (set_file p (offset + length_) m)
| step_seekwrite p offset length_ seed : placed m p → p ∉ m_dirs m → 1 ≤ length_ ≤ largest →
    0 ≤ offset ≤ default 0 (dget p (m_files m)) → offset + length_ ≤ MAX_FILE → 0 ≤ seed < 256 →
    gen_step largest m (write_line ($"seekwrite") p offset length_ seed)
      (set_file p (Z.max (default 0 (dget p (m_files m))) (offset + length_)) m)
| step_trunc p : p ∈ map fst (m_files m) → gen_step largest m ($"trunc " ++ p) (set_file p 0 m)
| step_unlink p : p ∈ map fst (m_files m) → gen_step largest m ($"unlink " ++ p) (del_file p m)
| step_rmdir d : d ∈ m_dirs m → d ≠ ROOT → children m d = [] → gen_step largest m ($"rmdir " ++ d) (discard_dir d m)
| step_rename_file p q size : dget p (m_files m) = Some size → placed m q → q ∉ m_dirs m → p ≠ q →
    gen_step largest m ($"rename " ++ p ++ $" " ++ q) (set_file q size (del_file p m))
| step_rename_dir d n : d ∈ m_dirs m → d ≠ ROOT → children m d = [] → leaf n →
    dirname d ++ $"/" ++ n ∉ m_dirs m → dirname d ++ $"/" ++ n ∉ map fst (m_files m) →
    gen_step largest m ($"rename " ++ d ++ $" " ++ dirname d ++ $"/" ++ n)
      (add_dir (dirname d ++ $"/" ++ n) (discard_dir d m))
| step_exists d : d ∈ m_dirs m → gen_step largest m ($"mkdir " ++ d) m
| step_not_empty d : d ∈ m_dirs m → children m d ≠ [] → gen_step largest m ($"rmdir " ++ d) m
| step_is_dir d : d ∈ m_dirs m → gen_step largest m ($"unlink " ++ d) m
| step_not_dir p : p ∈ map fst (m_files m) → gen_step largest m ($"rmdir " ++ p) m
| step_absent op_ d n : op_ = $"unlink " ∨ op_ = $"rmdir " → d ∈ m_dirs m →
    gen_step largest m (op_ ++ d ++ $"/zz" ++ dec n) m.

Record model_ok (m : model) : Prop := {
  mo_root : ROOT ∈ m_dirs m;
  mo_dirs d : d ∈ m_dirs m → d = ROOT ∨ placed m d;
  mo_files f : f ∈ map fst (m_files m) → placed m f;
  mo_disjoint f : f ∈ map fst (m_files m) → f ∉ m_dirs m;
  mo_nodup : NoDup (map fst (m_files m));
  mo_sizes f size : (f, size) ∈ m_files m → 0 ≤ size ≤ MAX_FILE
}.

Lemma elem_of_add_dir d x m : x ∈ m_dirs (add_dir d m) ↔ x = d ∨ x ∈ m_dirs m.
Proof.
  unfold add_dir. cbn. case_decide; [naive_solver|]. rewrite elem_of_app, list_elem_of_singleton. tauto.
Qed.

Lemma elem_of_discard_dir d x m : x ∈ m_dirs (discard_dir d m) ↔ x ∈ m_dirs m ∧ x ≠ d.
Proof. unfold discard_dir. cbn. rewrite list_elem_of_filter. tauto. Qed.

Lemma set_file_keys p size m x :
  x ∈ map fst (m_files (set_file p size m)) ↔ x = p ∨ x ∈ map fst (m_files m).
Proof.
  cbn. rewrite dset_keys, elem_of_app. case_decide; [|rewrite list_elem_of_singleton; tauto].
  split; [|intros [->|?]; auto]. by intros [?|?%not_elem_of_nil]; auto.
Qed.

Lemma del_file_keys p m x : x ∈ map fst (m_files (del_file p m)) ↔ x ∈ map fst (m_files m) ∧ x ≠ p.
Proof.
  cbn. unfold ddel. rewrite !list_elem_of_fmap. split.
  - intros ([k v] & -> & [Hne Hin]%list_elem_of_filter). split; [by exists (k, v)|done].
  - intros [([k v] & -> & Hin) Hne]. exists (k, v). split; [done|]. by apply list_elem_of_filter.
Qed.

Lemma placed_dirs m m' p : (∀ d, d ∈ m_dirs m → d ∈ m_dirs m') → placed m p → placed m' p.
Proof. intros H (d & n & Hd & Hn & ->). exists d, n. eauto. Qed.

Lemma model_ok_set_file m p size :
  model_ok m → placed m p → p ∉ m_dirs m → 0 ≤ size ≤ MAX_FILE → model_ok (set_file p size m).
Proof.
  intros [H1 H2 H3 H4 H5 H6] Hp Hn Hs. split; try done.
  - intros f [->|Hf]%set_file_keys; [done|by apply H3].
  - intros f [->|Hf]%set_file_keys; [done|by apply H4].
  - by apply dset_NoDup.
  - intros f s [[-> ->]|Hin]%dset_elem_of; [done|by eapply H6].
Qed.

Lemma model_ok_del_file m p : model_ok m → model_ok (del_file p m).
Proof.
  intros [H1 H2 H3 H4 H5 H6]. split; try done.
  - intros f [Hf _]%del_file_keys. by apply H3.
  - intros f [Hf _]%del_file_keys. by apply H4.
  - cbn. unfold ddel. clear -H5. induction (m_files m) as [|[k v] l IH]; [constructor|].
    apply NoDup_cons in H5 as [Hk H5]. rewrite filter_cons. case_decide; [|by apply IH].
    cbn. constructor; [|by apply IH]. rewrite list_elem_of_fmap. intros ([k' v'] & Heq & Hin). cbn in *. subst.
    apply list_elem_of_filter in Hin as [_ Hin]. apply Hk, list_elem_of_fmap. by exists (k', v').
  - intros f s Hin. cbn in Hin. unfold ddel in Hin. apply list_elem_of_filter in Hin as [_ Hin]. by eapply H6.
Qed.

Lemma model_ok_add_dir m p :
  model_ok m → placed m p → p ∉ map fst (m_files m) → model_ok (add_dir p m).
Proof.
  intros [H1 H2 H3 H4 H5 H6] Hp Hn.
  assert (∀ d, d ∈ m_dirs m → d ∈ m_dirs (add_dir p m)) as Hd by (intros; apply elem_of_add_dir; auto).
  split; try done.
  - apply elem_of_add_dir. by right.
  - intros d [->|Hin]%elem_of_add_dir; [right; by eapply placed_dirs|].
    destruct (H2 d Hin); [by left|right; by eapply placed_dirs].
  - intros f Hf. eapply placed_dirs; [exact Hd|by apply H3].
  - intros f Hf [->|Hin]%elem_of_add_dir; [done|by eapply H4].
Qed.

Lemma strip_prefix_refl p s : strip_prefix p (p ++ s) = Some s.
Proof. apply strip_prefix_app. Qed.

(** A directory without children is no path's parent. *)
Lemma no_children m d p n :
  children m d = [] → leaf n → p = d ++ $"/" ++ n → (p ∉ m_dirs m) ∧ (p ∉ map fst (m_files m)).
Proof.
  intros Hc [_ Hn] ->. assert (d ++ $"/" ++ n ∉ m_dirs m ++ map fst (m_files m)) as Hno.
  { intros Hin. assert (d ++ $"/" ++ n ∈ children m d) as Hx; [|rewrite Hc in Hx; by apply not_elem_of_nil in Hx].
    unfold children. apply list_elem_of_In, filter_In. rewrite <- list_elem_of_In. split; [done|].
    rewrite app_assoc, strip_prefix_refl. apply negb_true_iff, not_true_iff_false. rewrite existsb_exists.
    intros (c & Hin' & Heq). apply Z.eqb_eq in Heq. rewrite Forall_forall in Hn.
    apply (Hn c); [by apply list_elem_of_In|done]. }
  rewrite elem_of_app in Hno. tauto.
Qed.

Lemma model_ok_discard_dir m d :
  model_ok m → d ∈ m_dirs m → d ≠ ROOT → children m d = [] → model_ok (discard_dir d m).
Proof.
  intros [H1 H2 H3 H4 H5 H6] Hd Hr Hc.
  assert (∀ p, p ∈ m_dirs m ∨ p ∈ map fst (m_files m) → placed m p → placed (discard_dir d m) p) as Hp.
  { intros p Hin (e & n & He & Hn & ->). exists e, n. split; [|done]. apply elem_of_discard_dir. split; [done|].
    intros ->. destruct (no_children m d _ n Hc Hn eq_refl). tauto. }
  split; try done.
  - by apply elem_of_discard_dir.
  - intros x [Hx _]%elem_of_discard_dir. destruct (H2 x Hx); [by left|right; auto].
  - intros f Hf. by apply Hp; auto.
  - intros f Hf [Hx _]%elem_of_discard_dir. by eapply H4.
Qed.

Lemma dirname_leaf d n : leaf n → dirname (d ++ $"/" ++ n) = d.
Proof.
  intros [_ Hn]. unfold dirname, rsplit_slash. rewrite !reverse_app. change (reverse ($"/")) with [47].
  rewrite <- app_assoc. rewrite (span_app _ (reverse n)).
  - change ([47] ++ reverse d) with (47 :: reverse d). cbv iota beta. by rewrite reverse_involutive.
  - apply Forall_reverse. eapply Forall_impl; [exact Hn|]. intros c Hc. cbv beta in Hc. apply negb_true_iff. lia.
  - by intros c [= <-].
Qed.

(** The invariant, by cases on the step. *)
Lemma gen_step_ok largest m line m' : model_ok m → gen_step largest m line m' → model_ok m'.
Proof.
  intros Hok Hs. pose proof Hok as [H1 H2 H3 H4 H5 H6].
  assert (∀ p, 0 ≤ default 0 (dget p (m_files m)) ≤ MAX_FILE) as Hsize.
  { intros p. destruct (dget p (m_files m)) as [s|] eqn:E; cbn; [|unfold MAX_FILE; lia].
    apply dget_elem_of in E. by eapply H6. }
  destruct Hs; try done.
  - by apply model_ok_add_dir.
  - apply model_ok_set_file; try done. unfold MAX_FILE. lia.
  - apply model_ok_set_file; try done. pose proof (Hsize p). lia.
  - apply model_ok_set_file; try done. pose proof (Hsize p). lia.
  - apply model_ok_set_file; [done|by apply H3|by apply H4|unfold MAX_FILE; lia].
  - by apply model_ok_del_file.
  - by apply model_ok_discard_dir.
  - apply model_ok_set_file; [by apply model_ok_del_file|done|done|]. apply dget_elem_of in H. by eapply H6.
  - apply model_ok_add_dir; [by apply model_ok_discard_dir| |done].
    destruct (H2 d) as [->|(e & k & He & Hk & ->)]; [done|done|]. rewrite dirname_leaf in * by done.
    exists e, n. split; [|done]. apply elem_of_discard_dir. split; [done|]. intros Heq.
    apply (f_equal length) in Heq. rewrite !length_app in Heq. cbn in Heq. lia.
Qed.

(** ** The rounds follow the transitions *)

Section refinement.
Context {R : Rng} {HR : RngLaw R} (largest : Z) (largest_pos : 1 ≤ largest).

Lemma name_for_leaf r n r' : name_for r = (n, r') → leaf n.
Proof.
  unfold name_for. destruct (choice 97 _ r) as [c r1] eqn:E1. destruct (randrange 0 20 r1) as [k r2] eqn:E2.
  intros [= <- <-]. apply choice_in in E1; [|done]. apply randrange_in in E2; [|lia].
  split; [done|]. constructor.
  - assert (Forall (fun c => c ≠ 47) ($"abcdefgh")) as H by by_compute. rewrite Forall_forall in H. by apply H.
  - destruct (dec_digits k) as [Hd _]; [lia|]. eapply Forall_impl; [exact Hd|]. intros x Hx ->. done.
Qed.

Lemma random_text_length n r s r' : random_text n r = (s, r') → zlen s = Z.of_nat n.
Proof.
  revert r s r'. induction n as [|n IH]; intros r s r'; cbn [random_text]; [by intros [= <- <-]|].
  destruct (choice 120 _ r) as [c r1]. destruct (random_text n r1) as [s1 r2] eqn:E. intros [= <- <-].
  rewrite zlen_cons, (IH _ _ _ E). lia.
Qed.

Lemma draw_length_range r n r' : draw_length largest r = (n, r') → 1 ≤ n ≤ largest.
Proof.
  unfold draw_length. destruct (randrange 1 64 r) as [a r1] eqn:E1. destruct (randrange 1 3000 r1) as [b r2] eqn:E2.
  destruct (randrange 1 20000 r2) as [c r3] eqn:E3. destruct (randrange 20000 80000 r3) as [d r4] eqn:E4.
  destruct (choice a _ r4) as [n0 r5] eqn:E5. intros [= <- <-].
  apply randrange_in in E1, E2, E3, E4; [|lia..]. apply choice_in in E5; [|done].
  rewrite !elem_of_cons in E5. destruct E5 as [->|[->|[->|[->|?%not_elem_of_nil]]]]; lia || done.
Qed.

Context (m : model) (m_ok : model_ok m).

Lemma in_sorted_files p : p ∈ sorted_files m ↔ p ∈ map fst (m_files m).
Proof. apply elem_of_py_sorted. Qed.
Lemma in_sorted_dirs d : d ∈ sorted_dirs m ↔ d ∈ m_dirs m.
Proof. apply elem_of_py_sorted. Qed.

Lemma size_bound p : 0 ≤ default 0 (dget p (m_files m)) ≤ MAX_FILE.
Proof.
  destruct (dget p (m_files m)) as [s|] eqn:E; cbn; [|unfold MAX_FILE; lia].
  apply dget_elem_of in E. by eapply mo_sizes.
Qed.

(** A target among the files or the fresh name. *)
Lemma target_placed fresh p : placed m fresh → p ∈ sorted_files m ++ [fresh] → placed m p.
Proof.
  intros Hf [Hp|Hp]%elem_of_app; [apply mo_files, in_sorted_files|apply list_elem_of_singleton in Hp as ->]; done.
Qed.

Lemma gen_write_step fresh r line m' r' :
  placed m fresh → gen_write m fresh r = (Some (line, m'), r') → gen_step largest m line m'.
Proof.
  intros Hf. unfold gen_write, nothing, make.
  destruct (if decide (sorted_files m = []) then (fresh, r) else choice fresh (sorted_files m ++ [fresh]) r)
    as [target r1] eqn:Et.
  assert (placed m target) as Hp.
  { case_decide; [by injection Et as <- <-|]. apply choice_in in Et; [by eapply target_placed|by destruct (sorted_files m)]. }
  clear Et. case_decide as Hd; [done|]. destruct (randrange 1 40 r1) as [n r2] eqn:En.
  destruct (random_text (Z.to_nat n) r2) as [text r3] eqn:Ex. intros [= <- <- <-].
  apply randrange_in in En; [|lia]. apply random_text_length in Ex. constructor; [done|done|lia].
Qed.

Lemma gen_pwrite_step fresh r line m' r' :
  placed m fresh → gen_pwrite largest m fresh r = (Some (line, m'), r') → gen_step largest m line m'.
Proof.
  intros Hf. unfold gen_pwrite, nothing, make.
  destruct (if decide (sorted_files m = []) then (fresh, r) else _) as [target r1] eqn:Et.
  assert (placed m target) as Hp.
  { case_decide as Hn; [by injection Et as <- <-|]. destruct (below r 7 10) as [[|] r0]; [|by injection Et as <- <-].
    apply choice_in in Et; [by eapply target_placed|by destruct (sorted_files m)]. }
  clear Et. case_decide as Hd; [done|]. destruct (draw_length largest r1) as [n r2] eqn:En. apply draw_length_range in En.
  destruct (below r2 1 5) as [[|] r3].
  - destruct (randrange 1 1024 r3) as [a r4] eqn:Ea. destruct (randrange 1024 40000 r4) as [b r5] eqn:Eb.
    destruct (choice a [a; b] r5) as [gap r6] eqn:Eg. destruct (MAX_FILE <? _) eqn:Em; [done|].
    destruct (randrange 0 256 r6) as [seed r7] eqn:Es. intros [= <- <- <-].
    apply randrange_in in Ea, Eb, Es; [|lia..]. apply choice_in in Eg; [|done].
    assert (1 ≤ gap) as Hgap by (rewrite !elem_of_cons in Eg; destruct Eg as [->|[->|?%not_elem_of_nil]]; lia || done).
    rewrite Z.max_r by lia. constructor; try done; lia.
  - destruct (randrange 0 _ r3) as [x r4] eqn:Ex. destruct (choice 0 _ r4) as [offset r5] eqn:Eo.
    destruct (MAX_FILE <? _) eqn:Em; [done|]. destruct (randrange 0 256 r5) as [seed r6] eqn:Es. intros [= <- <- <-].
    pose proof (size_bound target) as Hsz. apply randrange_in in Ex, Es; [|lia..]. apply choice_in in Eo; [|done].
    constructor; try done; try lia.
    rewrite !elem_of_cons in Eo. destruct Eo as [->|[->|[->|?%not_elem_of_nil]]]; lia || done.
Qed.

Lemma gen_rename_file_step fresh r line m' r' :
  placed m fresh → gen_rename_file m fresh r = (Some (line, m'), r') → gen_step largest m line m'.
Proof.
  intros Hf. unfold gen_rename_file, nothing, make. case_decide as Hn; [done|].
  destruct (choice [] (sorted_files m) r) as [source r1] eqn:E1.
  destruct (choice [] (sorted_files m ++ [fresh]) r1) as [target r2] eqn:E2.
  destruct (bool_decide (target ∈ m_dirs m)) eqn:E3; [done|]. destruct (bool_decide (target = source)) eqn:E4; [done|].
  cbn [orb]. intros [= <- <- <-]. apply choice_in in E1; [|done].
  apply choice_in in E2; [|by destruct (sorted_files m)]. apply bool_decide_eq_false in E3, E4.
  apply in_sorted_files, dget_Some_in in E1 as [size Hs]. rewrite Hs. constructor; [done|by eapply target_placed|done|congruence].
Qed.

Lemma gen_dir_steps r line m' r' :
  gen_rmdir m r = (Some (line, m'), r') ∨ gen_rename_dir m r = (Some (line, m'), r') → gen_step largest m line m'.
Proof.
  intros [H|H]; revert H; [unfold gen_rmdir, nothing, make|unfold gen_rename_dir, nothing, make]; case_decide as Hn; try done.
  - destruct (choice [] _ r) as [d r1] eqn:E. intros [= <- <- <-]. apply choice_in in E; [|done].
    apply list_elem_of_filter in E as [Hr Hd]. apply in_sorted_dirs in Hd.
    case_decide as Hc; by constructor.
  - destruct (choice [] _ r) as [d r1] eqn:E. destruct (name_for r1) as [n r2] eqn:En. apply name_for_leaf in En.
    apply choice_in in E; [|done]. apply list_elem_of_filter in E as [[Hr Hc] Hd]. apply in_sorted_dirs in Hd.
    destruct (bool_decide (_ ∈ _)) eqn:E1; [done|]. destruct (dmem _ _) eqn:E2; [done|]. cbn [orb].
    intros [= <- <- <-]. apply bool_decide_eq_false in E1. apply not_true_iff_false in E2. rewrite dmem_true in E2.
    by constructor.
Qed.

Lemma tail_dirs d r r' : choice [] (tail (sorted_dirs m)) r = (d, r') → 1 < zlen (sorted_dirs m) → d ∈ m_dirs m.
Proof.
  intros H Hl. apply in_sorted_dirs. destruct (sorted_dirs m) as [|x l]; [done|]. cbn [tail] in H.
  apply choice_in in H; [by right|]. intros ->. done.
Qed.

Lemma gen_error_step parent r line m' r' :
  parent ∈ m_dirs m → gen_error m parent r = (Some (line, m'), r') → gen_step largest m line m'.
Proof.
  intros Hp. unfold gen_error, nothing, make. destruct (randrange 0 5 r) as [c r1].
  destruct ((c =? 0) && _) eqn:E0.
  { apply andb_true_iff in E0 as [_ E0]. destruct (choice [] _ r1) as [d r2] eqn:E. intros [= <- <- <-].
    constructor. eapply tail_dirs; [done|lia]. }
  destruct (c =? 1) eqn:E1.
  { destruct (randrange 0 9 r1) as [n r2]. intros [= <- <- <-]. apply (step_absent _ _ ($"unlink ") parent n); auto. }
  destruct ((c =? 2) && _) eqn:E2.
  { apply andb_true_iff in E2 as [_ E2]. destruct (choice [] _ r1) as [d r2] eqn:E. intros [= <- <- <-].
    constructor. eapply tail_dirs; [done|lia]. }
  destruct ((c =? 3) && _) eqn:E3.
  { apply andb_true_iff in E3 as [_ E3]. apply bool_decide_eq_true in E3.
    destruct (choice [] _ r1) as [f r2] eqn:E. intros [= <- <- <-]. apply step_not_dir, in_sorted_files.
    by eapply choice_in. }
  destruct (c =? 4) eqn:E4; [|done].
  destruct (randrange 0 9 r1) as [n r2]. intros [= <- <- <-]. apply (step_absent _ _ ($"rmdir ") parent n); auto.
Qed.

Lemma gen_round_step r line m' r' :
  gen_round largest m r = (Some (line, m'), r') → gen_step largest m line m'.
Proof.
  unfold gen_round. destruct (choice ROOT _ r) as [parent r1] eqn:E1. destruct (name_for r1) as [n r2] eqn:E2.
  destruct (weighted r2 WEIGHTS) as [k r3]. apply name_for_leaf in E2.
  apply choice_in in E1; [|intros Hnil; pose proof (mo_root _ m_ok) as Hr; rewrite <- in_sorted_dirs, Hnil in Hr; by apply not_elem_of_nil in Hr].
  apply in_sorted_dirs in E1.
  assert (placed m (parent ++ $"/" ++ n)) as Hf by by exists parent, n.
  repeat case_decide; [..|by unfold nothing].
  - unfold gen_mkdir, nothing, make. destruct (_ || _) eqn:E; [done|]. apply orb_false_iff in E as [_ E].
    intros [= <- <- <-]. apply (step_mkdir _ _ (parent ++ $"/" ++ n)); [done|]. by rewrite <- dmem_true, E.
  - by apply gen_write_step.
  - by apply gen_pwrite_step.
  - unfold gen_trunc, nothing, make. case_decide; [done|]. destruct (choice [] _ r3) as [p r4] eqn:E. intros [= <- <- <-].
    constructor. apply in_sorted_files. by eapply choice_in.
  - unfold gen_unlink, nothing, make. case_decide; [done|]. destruct (choice [] _ r3) as [p r4] eqn:E. intros [= <- <- <-].
    constructor. apply in_sorted_files. by eapply choice_in.
  - intros H'. eapply gen_dir_steps. by left.
  - by apply gen_rename_file_step.
  - intros H'. eapply gen_dir_steps. by right.
  - by apply gen_error_step.
Qed.
End refinement.

(** The runs of the transition system from the empty tree, by their lines. *)
Inductive gen_run (largest : Z) : list str → model → Prop :=
| run_start : gen_run largest [] new_model
| run_next lines m line m' :
    gen_run largest lines m → gen_step largest m line m' → gen_run largest (lines ++ [line]) m'.

Lemma new_model_ok : model_ok new_model.
Proof.
  split; cbn.
  - by left.
  - intros d [->|?%not_elem_of_nil]%elem_of_cons; [by left|done].
  - by intros f ?%not_elem_of_nil.
  - by intros f ?%not_elem_of_nil.
  - constructor.
  - by intros f s ?%not_elem_of_nil.
Qed.

Lemma gen_run_ok largest lines m : gen_run largest lines m → model_ok m.
Proof. induction 1 as [|lines m line m' _ IH Hs]; [apply new_model_ok|by eapply gen_step_ok]. Qed.

(** C27: what the generator emits is a run of the transition system above.  For
    any source of random numbers that stays in its ranges, the lines [generate]
    returns are, one by one, operations the transitions allow on the tree the
    earlier ones made: creations in a directory that exists, writes to no
    directory and within [MAX_FILE], removals of what is there, and failures
    that fail at the last component. *)
Theorem generate_refines {R : Rng} {HR : RngLaw R} fuel seed count largest lines :
  1 ≤ largest → generate fuel seed count largest = Ok lines →
  ∃ m, gen_run largest lines m.
Proof.
  intros Hl H. unfold generate in H.
  assert (match while fuel (gen_body count largest) (GenState new_model (seeded seed) []) with
          | Ok l => ∃ m, gen_run largest l m | Err _ => True end) as Hinv; [|by rewrite H in Hinv].
  apply (while_inv _ (fun st => gen_run largest (g_lines st) (g_model st))
           (fun r => match r with Ok l => ∃ m, gen_run largest l m | Err _ => True end)); [|constructor|done].
  intros st Hst. unfold gen_body. destruct (_ <? _); [|by exists (g_model st)].
  destruct (gen_round largest (g_model st) (g_rng st)) as [[[line m]|] r] eqn:E; [|done].
  cbn. econstructor; [exact Hst|]. eapply gen_round_step; [done|by eapply gen_run_ok|exact E].
Qed.

Lemma generate_refines_witness : ∃ m, gen_run 80000 (some_lines 6) m.
Proof. apply (generate_refines 60 5 6 80000); [lia|by_compute]. Defined.

(** The states the loop of [generate] goes through. *)
Inductive reached {R : Rng} (seed count largest : Z) : gen_state → Prop :=
| reached_start : reached seed count largest (GenState new_model (seeded seed) [])
| reached_round st st' : reached seed count largest st → gen_body count largest st = Next st' → reached seed count largest st'.

Lemma reached_run {R : Rng} {HR : RngLaw R} seed count largest st :
  1 ≤ largest → reached seed count largest st → gen_run largest (g_lines st) (g_model st).
Proof.
  intros Hl. induction 1 as [|st st' _ IH Hb]; [constructor|]. unfold gen_body in Hb. destruct (_ <? _); [|done].
  destruct (gen_round largest (g_model st) (g_rng st)) as [[[line m]|] r] eqn:E; injection Hb as <-; [|done].
  cbn. econstructor; [exact IH|]. eapply gen_round_step; [done|by eapply gen_run_ok|exact E].
Qed.

(** C32: after every round of the generator, whatever its random draws, the tree it believes
    in is a tree: the root is a directory, every other directory and every file lies in a
    directory, no path is both, no file is listed twice, and sizes stay within the ext2
    limit; and it has no more lines than were asked for. *)
Theorem generator_invariant {R : Rng} {HR : RngLaw R} seed count largest st :
  0 ≤ count → 1 ≤ largest → reached seed count largest st → model_ok (g_model st) ∧ zlen (g_lines st) ≤ count.
Proof.
  intros Hc Hl Hr. split; [by eapply gen_run_ok, reached_run|]. induction Hr as [|st st' _ IH Hb]; [done|]. unfold gen_body in Hb.
  destruct (Z.ltb_spec (zlen (g_lines st)) count); [|done].
  destruct (gen_round largest (g_model st) (g_rng st)) as [[[line m]|] r]; injection Hb as <-; [|done]. cbn [g_lines]. rewrite zlen_app, zlen_cons, zlen_nil. lia.
Qed.

(** The state after some rounds. *)
Fixpoint after_rounds {R : Rng} (n : nat) (count largest : Z) (st : gen_state) : gen_state :=
  match n with
  | O => st
  | S n => let st := after_rounds n count largest st in match gen_body count largest st with Next st' => st' | Stop _ => st end
  end.

Lemma after_rounds_reached {R : Rng} n seed count largest : reached seed count largest (after_rounds n count largest (GenState new_model (seeded seed) [])).
Proof.
  induction n as [|n IH]; [constructor|]. cbn [after_rounds]. cbn zeta. destruct (gen_body count largest _) as [st'|] eqn:E; [by eapply reached_round|done].
Qed.

Lemma generator_invariant_witness :
  let st := after_rounds 40 6 80000 (GenState new_model (seeded 5) []) in model_ok (g_model st) ∧ zlen (g_lines st) ≤ 6.
Proof. apply (generator_invariant 5 6 80000); [lia|lia|apply after_rounds_reached]. Defined.
