(* ===== verification/Ext2HostFacts.v ===== *)
(** * Facts about the ext2 oracle and its scenarios

    The oracle replays a failed write as one write of the bytes the kernel
    reports; the blocks it grants a write are at most [ENOSPC_SLACK]; the near-full
    scenario leaves the free blocks it says; the fault run ends; and the replay
    mode never answers. *)
From S2P Require Import Prelude Text Dict Sort Random PassLine Ext2Eq Ext2Host Ext2Gen.

(** What the oracle relies on of [pwrite(2)]: a write of no bytes changes nothing,
    and a write that succeeds is two writes of its parts. *)
Class LinuxLaw (L : LinuxFs) : Prop := {
  pwrite_nil t f o : fs_pwrite t f [] o = inr t;
  pwrite_app t f a b o t' : 0 ≤ o → fs_pwrite t f (a ++ b) o = inr t' →
    ∃ t1, fs_pwrite t f a o = inr t1 ∧ fs_pwrite t1 f b (o + zlen a) = inr t'
}.

(** ** A file system in memory *)

Module Memory.
Definition node : Type := option bytes.          (* [None] is a directory *)

Definition splice (old data : bytes) (o : Z) : bytes :=
  let old := old ++ replicate (Z.to_nat o - length old) 0 in
  take (Z.to_nat o) old ++ data ++ drop (Z.to_nat o + length data) old.

Definition write_at (t : list (str * node)) (p : str) (data : bytes) (o : Z) : list (str * node) :=
  if decide (data = []) then t
  else dset p (Some (splice (default [] (default None (dget p t))) data o)) t.

Definition inside (t : list (str * node)) (p : str) : bool :=
  existsb (fun kv => startswith kv.1 (p ++ $"/")) t.

Definition drop_key (t : list (str * node)) (p : str) : list (str * node) := ddel p t.

#[global] Instance memory_fs : LinuxFs := {|
  fs := list (str * node);
  fd := str;
  fs_size t p := match dget p t with Some (Some d) => Some (zlen d) | Some None => Some 4096 | None => None end;
  fs_lexists t p := dmem p t;
  fs_mkdir t p := if dmem p t then inl ($"EEXIST") else inr (dset p None t);
  fs_rmdir t p := if inside t p then inl ($"ENOTEMPTY") else inr (drop_key t p);
  fs_unlink t p := match dget p t with
    | Some (Some _) => inr (drop_key t p) | Some None => inl ($"EISDIR") | None => inl ($"ENOENT") end;
  fs_rename t p q := match dget p t with Some n => inr (dset q n (drop_key t p)) | None => inl ($"ENOENT") end;
  fs_open t p truncate := match dget p t with
    | Some None => inl ($"EISDIR")
    | Some (Some d) => inr (if truncate then dset p (Some []) t else t, p)
    | None => inr (dset p (Some []) t, p) end;
  fs_pwrite t p data o := inr (write_at t p data o);
  fs_read t p := match dget p t with
    | Some (Some d) => inr d | Some None => inl ($"EISDIR") | None => inl ($"ENOENT") end
|}.

Lemma splice_app old a b o :
  0 ≤ o → splice (splice old a o) b (o + zlen a) = splice old (a ++ b) o.
Proof.
  intros Ho. unfold splice, zlen. set (n := Z.to_nat o).
  replace (Z.to_nat (o + Z.of_nat (length a))) with (n + length a)%nat by lia.
  set (old' := old ++ replicate (n - length old) 0).
  assert (n ≤ length old')%nat as Hn by (unfold old'; rewrite length_app, length_replicate; lia).
  assert (length (take n old') = n) as Ht by (rewrite length_take; lia).
  set (new := take n old' ++ a ++ drop (n + length a) old').
  assert (n + length a ≤ length new)%nat as Hnew by (unfold new; rewrite !length_app; lia).
  replace (n + length a - length new)%nat with 0%nat by lia. cbn [replicate]. rewrite app_nil_r.
  assert (new = (take n old' ++ a) ++ drop (n + length a) old') as Hsplit by (unfold new; by rewrite <- app_assoc).
  assert (length (take n old' ++ a) = n + length a)%nat as Hl by (rewrite length_app; lia).
  rewrite Hsplit, take_app_length' by done. rewrite <- drop_drop, drop_app_length' by done.
  rewrite drop_drop, length_app, <- !app_assoc. do 3 f_equal. by rewrite Nat.add_assoc.
Qed.

#[global] Instance memory_law : LinuxLaw memory_fs.
Proof.
  split; cbn; [done|]. intros t f a b o t' Ho [= <-]. eexists. split; [done|]. f_equal. unfold write_at.
  destruct (decide (a = [])) as [->|Ha].
  { rewrite zlen_nil, Z.add_0_r. done. }
  destruct (decide (b = [])) as [->|Hb].
  { rewrite app_nil_r. by rewrite (decide_False _ _ Ha). }
  rewrite decide_False by (destruct a; done). rewrite dget_dset. cbn [default]. rewrite dset_twice.
  f_equal. f_equal. by apply splice_app.
Qed.
End Memory.

(** ** The failed write *)

Lemma pattern_app o a b seed :
  0 ≤ a → 0 ≤ b → pattern o (a + b) seed = pattern o a seed ++ pattern (o + a) b seed.
Proof.
  intros Ha Hb. unfold pattern. rewrite !zrange_seq, Z2Nat.inj_add, seq_app, !map_app by lia. f_equal.
  rewrite Nat.add_0_l, <- (Nat.add_0_r (Z.to_nat a)) at 1.
  rewrite <- fmap_add_seq, !map_map. apply map_ext. intros i. f_equal. lia.
Qed.

Lemma zlen_pattern o n seed : 0 ≤ n → zlen (pattern o n seed) = n.
Proof. intros. unfold pattern, zlen. rewrite length_map, zrange_seq, length_map, length_seq. lia. Qed.

Section oracle.
Context {L : LinuxFs} {HL : LinuxLaw L}.

(** The pieces of [WRITE_CHUNK] bytes write what one call writes. *)
Lemma pwrite_loop_whole t f offset limit seed t' :
  0 ≤ offset → 0 ≤ limit → fs_pwrite t f (pattern offset limit seed) offset = inr t' →
  pwrite_loop t f offset limit seed = Ok (t', None).
Proof.
  intros Ho Hl Hw. unfold pwrite_loop.
  apply (while_total _ (fun st => 0 ≤ st.2 ≤ limit ∧
           fs_pwrite st.1 f (pattern (offset + st.2) (limit - st.2) seed) (offset + st.2) = inr t')
           (fun r => r = Ok (t', None)) (fun st => Z.to_nat (limit - st.2))); cbn [fst snd].
  - intros [t1 d] [Hd Hp]. cbn [fst snd] in *. unfold pwrite_body. destruct (d <? limit) eqn:E.
    + set (n := Z.min WRITE_CHUNK (limit - d)). assert (0 < n ≤ limit - d) as Hn by (unfold n, WRITE_CHUNK; lia).
      replace (limit - d) with (n + (limit - d - n)) in Hp by lia. rewrite pattern_app in Hp by lia.
      apply pwrite_app in Hp as (t2 & -> & Hp); [|lia]. rewrite zlen_pattern in Hp by lia. cbn [fst snd].
      replace (offset + (d + n)) with (offset + d + n) by lia.
      replace (limit - (d + n)) with (limit - d - n) by lia. split; [split; [lia|done]|lia].
    + replace (limit - d) with 0 in Hp by lia. change (pattern (offset + d) 0 seed) with (@nil Z) in Hp.
      rewrite pwrite_nil in Hp. by injection Hp as ->.
  - rewrite Z.add_0_r, Z.sub_0_r. split; [lia|done].
  - lia.
Qed.
End oracle.

Lemma write_line_words op_ p offset length_ seed :
  token op_ → token p → 0 ≤ offset → 0 ≤ length_ → 0 ≤ seed →
  words (write_line op_ p offset length_ seed) = [op_; p; dec offset; dec length_; dec seed].
Proof.
  intros Hop Hp Ho Hl Hs. unfold write_line.
  change (words (op_ ++ 32 :: (p ++ 32 :: (dec offset ++ 32 :: (dec length_ ++ 32 :: dec seed))))
          = [op_; p; dec offset; dec length_; dec seed]).
  rewrite !words_cons by (by apply dec_token || done). by rewrite words_token by by apply dec_token.
Qed.

Lemma int_words_line op_ p offset length_ seed :
  int_words [op_; p; dec offset; dec length_; dec seed] 2 5 = Ok [offset; length_; seed].
Proof.
  unfold int_words. change (slice _ 2 5) with [dec offset; dec length_; dec seed].
  cbn [mapM_res mbind res_bind]. rewrite !py_int_dec by auto. done.
Qed.

(** The oracle accepts the kernel's failure [k] of the operation. *)
Definition accepted {L : LinuxFs} (t : fs) (ws : list str) (name : str) (k : result) (injected : bool) : Prop :=
  injected = true ∨ k_errno k = $"ENOSPC" ∧ injected = false ∧ justified t ws name k = Ok None.

(** C35: a failed write is all or nothing, call by call.  When the oracle accepts a
    failed pwrite of the kernel (an injected disk error, or an ENOSPC its free
    counts justify), the tree is untouched if the kernel's calls wrote nothing,
    and otherwise holds exactly the pattern's first [written] bytes at the
    offset, whatever the pieces; the answer is the kernel's own errno. *)
Theorem failed_write_replayed {L : LinuxFs} {HL : LinuxLaw L} t p offset length_ seed k injected :
  token p → 0 ≤ offset → 0 ≤ length_ → 0 ≤ seed → k_errno k ≠ $"0" →
  let line := write_line ($"pwrite") p offset length_ seed in
  accepted t (words line) ($"pwrite") k injected →
  (k_written k = None → linux_apply t line (Some k) injected = Ok (t, k_errno k))
  ∧ (∀ written t1 f t2, k_written k = Some written → 0 ≤ written → fs_open t p false = inr (t1, f) →
      fs_pwrite t1 f (pattern offset written seed) offset = inr t2 →
      linux_apply t line (Some k) injected = Ok (t2, k_errno k)).
Proof.
  intros Hp Ho Hl Hs Hk line Hacc. subst line. unfold linux_apply.
  rewrite write_line_words in * by (done || by_compute).
  change (item _ 0) with (Ok ($"pwrite")). cbn [mbind res_bind].
  rewrite (bool_decide_eq_true_2 _ Hk).
  assert (injected || bool_decide (k_errno k = $"ENOSPC") = true) as Hc.
  { destruct Hacc as [->|(-> & _)]; [done|]. by rewrite bool_decide_eq_true_2, orb_true_r. }
  rewrite Hc. cbn [andb].
  assert ((if injected then Ok None else justified t [$"pwrite"; p; dec offset; dec length_; dec seed] ($"pwrite") k)
          = Ok None) as -> by (by destruct Hacc as [->|(_ & -> & ?)]).
  cbn [mbind res_bind]. split; [by intros ->|].
  intros written t1 f t2 -> Hw Hopen Hwrite.
  enough (linux_calls t (write_line ($"pwrite") p offset length_ seed)
            [$"pwrite"; p; dec offset; dec length_; dec seed] ($"pwrite") (Some written) = Ok (t2, None)) as -> by done.
  unfold linux_calls. do 4 (rewrite decide_False by by_compute).
  rewrite (bool_decide_eq_false_2 (_ ∈ [$"trunc"; $"write"])) by by_compute.
  rewrite bool_decide_eq_true_2 by by_compute. rewrite int_words_line. cbn [mbind res_bind].
  change (item _ 1) with (Ok p). cbn [mbind res_bind]. rewrite decide_False by by_compute. rewrite Hopen.
  by apply pwrite_loop_whole.
Qed.

Lemma failed_write_replayed_witness :
  linux_apply (L := Memory.memory_fs) [($"eq", None)] (write_line ($"pwrite") ($"eq/g") 0 4000 2)
    (Some (Result 0 [] ($"EIO") (Some 1030) None)) true
  = Ok ([($"eq", None); ($"eq/g", Some (pattern 0 1030 2))], $"EIO").
Proof.
  eapply (failed_write_replayed (L := Memory.memory_fs) [($"eq", None)] ($"eq/g") 0 4000 2 (Result 0 [] ($"EIO") (Some 1030) None) true);
    [by_compute|lia|lia|lia|by_compute|by left|done|lia|done|]. vm_compute. done.
Defined.

(** ** The blocks of a write *)

Lemma filter_or_length {A} (f g : A → bool) l :
  (length (List.filter (fun a => f a || g a) l) ≤ length (List.filter f l) + length (List.filter g l))%nat.
Proof. induction l as [|a l IH]; cbn; [lia|]. destruct (f a), (g a); cbn; lia. Qed.

(** Distinct numbers with one property that bounds them to [a .. a+n) are [n] at most. *)
Lemma filter_window (f : Z → bool) n a k :
  (∀ i, f i = true → a ≤ i < a + k) → 0 ≤ k → zlen (List.filter f (zrange n)) ≤ k.
Proof.
  intros Hf Hk. assert (length (List.filter f (zrange n)) ≤ length (map (Z.add a) (zrange k)))%nat as Hlen.
  { apply submseteq_length, NoDup_submseteq.
    - rewrite zrange_seq. apply NoDup_ListNoDup, List.NoDup_filter, NoDup_ListNoDup, NoDup_fmap_2, NoDup_seq. intros ??; lia.
    - intros i Hi%list_elem_of_In%filter_In. destruct Hi as [_ Hi]. apply Hf in Hi.
      apply list_elem_of_fmap. exists (i - a). rewrite elem_of_zrange. lia. }
  rewrite length_fmap in Hlen. unfold zlen. rewrite (zrange_seq k), length_fmap, length_seq in Hlen. lia.
Qed.

(** One write(2) never needs more than [ENOSPC_SLACK] blocks.  For every file
    and every piece of a pwrite, the blocks the oracle grants the failing call (two
    at most of data, the old last block, the indirect block) are between 0 and
    [ENOSPC_SLACK]. *)
Theorem write_need_bound {L : LinuxFs} t p offset length_ written :
  0 ≤ write_need t p offset length_ written ≤ ENOSPC_SLACK.
Proof.
  unfold write_need, ENOSPC_SLACK, WRITE_CHUNK. set (size := if negb _ then _ else _). set (start := offset + written).
  set (end_ := start + _). set (new_size := Z.max size end_). set (count := (new_size + 1023) / 1024).
  set (old := (size + 1023) / 1024).
  assert (end_ ≤ start + 1024) as He by (unfold end_; lia).
  pose proof (filter_or_length (fun i => (i * 1024 <? end_) && (start <? i * 1024 + 1024))
    (fun i => (i + 1 =? old) && (size <? new_size) && negb (size mod 1024 =? 0)) (zrange count)) as Hor.
  pose proof (filter_window (fun i => (i * 1024 <? end_) && (start <? i * 1024 + 1024)) count (start / 1024) 2) as H2.
  pose proof (filter_window (fun i => (i + 1 =? old) && (size <? new_size) && negb (size mod 1024 =? 0)) count (old - 1) 1) as H1.
  assert (∀ i, (i * 1024 <? end_) && (start <? i * 1024 + 1024) = true → start / 1024 ≤ i < start / 1024 + 2) as Hw.
  { intros i [Ha%Z.ltb_lt Hb%Z.ltb_lt]%andb_true_iff. clear -Ha Hb He. Z.to_euclidean_division_equations. lia. }
  specialize (H2 Hw ltac:(lia)). clear Hw. 
  assert (∀ i, (i + 1 =? old) && (size <? new_size) && negb (size mod 1024 =? 0) = true → old - 1 ≤ i < old - 1 + 1) as Hw.
  { intros i [[Ha%Z.eqb_eq _]%andb_true_iff _]%andb_true_iff. clear -Ha. lia. }
  specialize (H1 Hw ltac:(lia)). clear Hw.
  unfold zlen in *. clearbody size start end_ new_size count old. clear He.
  destruct (12 <? count); lia.
Qed.

(** ** The near-full scenario *)

Definition used (sizes : list Z) : Z := foldr Z.add 0 (map (fun b => file_blocks (b * 1024)) sizes).

Lemma used_snoc sizes b : used (sizes ++ [b]) = used sizes + file_blocks (b * 1024).
Proof. unfold used. induction sizes as [|a l IH]; cbn in *; lia. Qed.

Lemma file_blocks_whole b : file_blocks (b * 1024) = b + (if 12 <? b then 1 else 0).
Proof. unfold file_blocks. replace ((b * 1024 + 1023) / 1024) with b by (apply Z.div_unique with 1023; lia). done. Qed.

Lemma fillers_exact spare :
  ∃ sizes, fillers spare = Ok sizes ∧ Forall (fun b => 1 ≤ b ≤ 256) sizes ∧ used sizes = Z.max 0 spare.
Proof.
  unfold fillers. set (done_ := fun st : Z * list Z => Forall (fun b => 1 ≤ b ≤ 256) st.2 ∧ used st.2 + Z.max 0 st.1 = Z.max 0 spare).
  apply (while_total _ done_
    (fun r => ∃ sizes, r = Ok sizes ∧ Forall (fun b => 1 ≤ b ≤ 256) sizes ∧ used sizes = Z.max 0 spare)
    (fun st => Z.to_nat st.1)).
  - intros [left_ sizes] [Hs Hu]. unfold filler_body. cbn [fst snd] in *. destruct (0 <? left_) eqn:E.
    + assert (1 ≤ filler left_ ≤ 256 ∧ file_blocks (filler left_ * 1024) ≤ left_) as [Hb Hle].
      { rewrite file_blocks_whole. unfold filler. destruct (left_ <=? 13) eqn:E1, (12 <? _) eqn:E2; lia. }
      rewrite file_blocks_whole in Hle. unfold done_. cbn [fst snd]. rewrite used_snoc, file_blocks_whole.
      split; [split; [apply Forall_app; auto|]|]; destruct (12 <? filler left_); lia.
    + exists sizes. split; [done|]. split; [done|lia].
  - split; [constructor|done].
  - cbn. lia.
Qed.

(** The near-full scenario is what it says.  On a disk with [free >= 209] free
    blocks the filler loop ends, every filler is within the ext2 limit, and the
    fillers with the 200 KiB file and its indirect block leave exactly 8 blocks
    free: fewer than the file, more than one write needs. *)
Theorem nearfull_leaves_eight free :
  209 ≤ free → ∃ sizes, fillers (free - 8 - 201) = Ok sizes
    ∧ Forall (fun b => 1 ≤ b ≤ 256) sizes ∧ free - used sizes - file_blocks BIG = 8.
Proof.
  intros Hf. destruct (fillers_exact (free - 8 - 201)) as (sizes & H1 & H2 & H3). exists sizes.
  split; [done|]. split; [done|]. rewrite H3. change (file_blocks BIG) with 201. lia.
Qed.

Lemma nearfull_leaves_eight_witness :
  ∃ sizes, fillers (470 - 8 - 201) = Ok sizes
    ∧ Forall (fun b => 1 ≤ b ≤ 256) sizes ∧ 470 - used sizes - file_blocks BIG = 8.
Proof. apply (nearfull_leaves_eight 470). lia. Defined.

(** ** The fault run ends *)

Section faults.
Context {R : Rng} {T : Ext2Tools} {H : HostTools} {L : LinuxFs}.
Context (fresh_tree : fs) (tree_node : fs → hnode) (tree_path scratch : str) (fuel : nat).

Definition armed (k : Z) (mode_ : str) : str := $"fault " ++ dec k ++ $" " ++ mode_.

Lemma next_fault_gt k : 0 ≤ k → k < next_fault k.
Proof. unfold next_fault, FAULT_DENSE. destruct (k <? 12) eqn:E; lia. Qed.

(** C37: the fault run of one operation ends.  If the operation makes fewer than
    [writes] disk writes (a fault armed at a later one is never met) and every
    comparison answers, then the loop over the failing writes returns, after at
    most [writes] checks; earlier findings stay, and it reports the run over
    only at ten findings. *)
Theorem fault_op_ends pristine seed lines index mode_ checked failures writes :
  let compare k := compare_lines fresh_tree tree_node tree_path scratch fuel pristine (slice lines 0 (index + 1))
                     (Some (index, armed k mode_)) in
  0 ≤ writes < Z.of_nat fuel → (∀ k, 0 ≤ k → ∃ r, compare k = Ok r) →
  (∀ k, writes ≤ k → ∃ results, compare k = Ok (None, results)) →
  ∃ over checked' more,
    fault_op fresh_tree tree_node tree_path scratch fuel pristine seed lines index mode_ checked failures
      = Ok (over, checked', failures ++ more)
    ∧ checked ≤ checked' ≤ checked + writes ∧ (over = true → 10 ≤ zlen (failures ++ more)).
Proof.
  intros compare Hw Hok Hlast. unfold fault_op.
  set (I := fun st : Z * Z * list str => let '(k, c, f) := st in
    0 ≤ k ∧ checked ≤ c ≤ checked + writes ∧ c - checked ≤ k ∧ ∃ more, f = failures ++ more).
  apply (while_total _ I
    (fun r => ∃ over checked' more, r = Ok (over, checked', failures ++ more)
       ∧ checked ≤ checked' ≤ checked + writes ∧ (over = true → 10 ≤ zlen (failures ++ more)))
    (fun st => Z.to_nat (writes - st.1.1))); [|split_and!; [lia..|by exists []; rewrite app_nil_r]|cbn; lia].
  intros [[k c] f] (Hk & Hc & Hck & more & ->). unfold fault_body. fold (armed k mode_).
  destruct (decide (writes ≤ k)) as [Hge|Hlt].
  { destruct (Hlast k Hge) as [rs Hrs]. subst compare. cbv beta in Hrs. rewrite Hrs.
    eexists _, _, more. split; [done|]. split; [done|by intros]. }
  destruct (Hok k Hk) as [[[problems|] rs] Hrs]; subst compare; cbv beta in Hrs; rewrite Hrs.
  2: { eexists _, _, more. split; [done|]. split; [done|by intros]. }
  pose proof (next_fault_gt k Hk) as Hn.
  destruct problems as [|problem problems].
  { split; [|cbn; lia]. split_and!; [lia..|by exists more]. }
  rewrite <- app_assoc. set (more' := more ++ _). destruct (10 <=? zlen (failures ++ more')) eqn:E.
  - eexists _, _, more'. split; [done|]. split; [lia|intros _; lia].
  - split; [|cbn; lia]. split_and!; [lia..|by exists more'].
Qed.

(** The replay mode never answers.  Whenever the comparison itself returns, the
    mode raises [NameError] (it slices the results by a variable of another
    function), so neither the operations nor the problems are printed. *)
Theorem replay_mode_crashes work plant_tree bytes_of of_bytes mutant seed length_ lines outcome :
  generate fuel seed length_ 80000 = Ok lines →
  compare_lines fresh_tree tree_node tree_path scratch fuel (make_image FS_BLOCKS FS_INODES) lines None = Ok outcome →
  main fresh_tree tree_node tree_path scratch fuel work plant_tree bytes_of of_bytes mutant (ModeReplay seed length_)
  = Err NameError.
Proof. intros Hg Hc. unfold main, run_replay. rewrite Hg. cbn [mbind res_bind]. by rewrite Hc. Qed.
End faults.

(** Tools whose program meets only a fault at its first write (the character after
    its "fault " is 0), and then fails. *)
Definition stub_tools : Ext2Tools := {|
  image := unit; image_name _ := []; debugfs_run _ _ _ := (0, [], [], ()); dump_file _ _ := None;
  dumpe2fs_run _ := (0, []); which _ := None; host_run _ _ := (0, [], [], HDir 0 [])
|}.
Definition stub_host : @HostTools stub_tools := {|
  run_exe (img : @image stub_tools) script :=
    (1, if decide (script !! 15%nat = Some 48) then $"fault injected=1" ++ nl else [], [], img);
  fsck _ := (0, []); make_image _ _ := (() : @image stub_tools)
|}.
#[global] Instance low_rng : Rng := {|
  rng := unit; seeded _ := (); randbelow r _ := (0, r); below r _ _ := (false, r); weighted r _ := (0, r)
|}.

Lemma stub_compare k :
  0 ≤ k → compare_lines (H := stub_host) (L := Memory.memory_fs) [] (fun _ => HDir 0 []) [] [] 5 tt
            (slice [$"mkdir eq/a"] 0 (0 + 1)) (Some (0, armed k ($"reject")))
  = if decide (k = 0) then Ok (Some [status_problem 1 ($"fault injected=1" ++ nl)], []) else Ok (None, []).
Proof.
  intros Hk. destruct (decide (k = 0)) as [->|Hne]; [by_compute|].
  destruct (show_nat_head 10 k) as (d & s & Hd & Hz & Hs); [lia|lia|].
  unfold armed. replace (dec k) with (digit_char d :: s) by (unfold dec; by rewrite (proj2 (Z.ltb_ge k 0)) by lia).
  assert (digit_char d ≠ 48) as Hc by (unfold digit_char; destruct (d <? 10) eqn:E; lia).
  unfold compare_lines, compare_run, run_program. cbn [run_exe stub_host].
  change (program_script _ !! 15%nat) with (Some (digit_char d)). by rewrite decide_False by congruence.
Qed.

Lemma fault_op_ends_witness :
  ∃ over checked' more,
    fault_op (H := stub_host) (L := Memory.memory_fs) [] (fun _ => HDir 0 []) [] [] 5 tt 0 [$"mkdir eq/a"] 0 ($"reject") 0 []
      = Ok (over, checked', [] ++ more)
    ∧ 0 ≤ checked' ≤ 0 + 1 ∧ (over = true → 10 ≤ zlen ([] ++ more)).
Proof.
  apply (fault_op_ends (H := stub_host) (L := Memory.memory_fs) [] (fun _ => HDir 0 []) [] [] 5 tt 0 [$"mkdir eq/a"] 0
           ($"reject") 0 [] 1); [lia| |].
  - intros k Hk. rewrite stub_compare by done. destruct (decide (k = 0)); eauto.
  - intros k Hk. rewrite stub_compare by lia. rewrite decide_False by lia. eauto.
Defined.

Lemma replay_mode_crashes_witness :
  main (H := stub_host) (L := Memory.memory_fs) [] (fun _ => HDir 0 []) [] [] 5 [] [] (fun _ => []) (fun _ => tt)
    (Err OutOfFuel) (ModeReplay 0 1) = Err NameError.
Proof.
  eapply (replay_mode_crashes (H := stub_host) (L := Memory.memory_fs) [] (fun _ => HDir 0 []) [] [] 5);
    [vm_compute; reflexivity|vm_compute; reflexivity].
Defined.
