(* ===== verification/Overflow.v ===== *)
(** * The integer-overflow survey

    Model of scripts/survey_integer_overflow.py: the intervals of the compiler's
    facts, the classification of an operation, the merge of the facts several
    builds give for one source location, and the table the survey writes.  The
    builds themselves are not modelled: their reports are the argument. *)
From S2P Require Import Prelude Text Dict Sort PassLine.

(** A line of the compiler's overflow.tsv, by column. *)
Record row := Row {
  r_file : str; r_line : str; r_column : str; r_operator : str;
  lhs_type : str; lhs_fact : str; lhs_excluded : str;
  rhs_type : str; rhs_fact : str; rhs_excluded : str
}.
#[global] Instance row_eq_dec : EqDecision row.
Proof. solve_decision. Defined.

Definition HEADER : list str :=
  [$"surface"; $"classification"; $"proof_reason"; $"file"; $"line"; $"column"; $"operator";
   $"lhs_type"; $"lhs_fact"; $"lhs_excluded"; $"rhs_type"; $"rhs_fact"; $"rhs_excluded"].

Definition signed (bits : Z) : Z * Z := (- Z.shiftl 1 (bits - 1), Z.shiftl 1 (bits - 1) - 1).
Definition unsigned (bits : Z) : Z * Z := (0, Z.shiftl 1 bits - 1).
Definition TYPE_RANGES : list (str * (Z * Z)) :=
  [($"i8", signed 8); ($"i16", signed 16); ($"i32", signed 32); ($"i64", signed 64);
   ($"u8", unsigned 8); ($"u16", unsigned 16); ($"u32", unsigned 32); ($"u64", unsigned 64);
   ($"isize", signed 32); ($"usize", unsigned 32)].

(** [s.split(sep, 1)] unpacked into two names. *)
Definition split_once (sep s : str) : res (str * str) :=
  match find sep s with
  | Some i => Ok (slice s 0 i, from s (i + zlen sep))
  | None => Err ValueError
  end.

Definition fact_interval (fact : str) : res (option (Z * Z)) :=
  match strip_prefix ($"constant:") fact with
  | Some s => value ← py_int 10 s; Ok (Some (value, value))
  | None =>
  match strip_prefix ($"range:") fact with
  | Some s => '(lo, hi) ← split_once ($"..<") s; lo ← py_int 10 lo; hi ← py_int 10 hi; Ok (Some (lo, hi - 1))
  | None =>
  match strip_prefix ($"interval-inclusive:") fact with
  | Some s => '(lo, hi) ← split_once ($"..") s; lo ← py_int 10 lo; hi ← py_int 10 hi; Ok (Some (lo, hi))
  | None =>
  match strip_prefix ($"singleton:") fact with
  | Some s => match py_int 10 s with
              | Ok value => Ok (Some (value, value))
              | Err ValueError => Ok None
              | Err e => Err e
              end
  | None => Ok None
  end end end end.

(** The set as a list of its values. *)
Definition excluded_values (field : str) : res (list Z) :=
  if bool_decide (field = []) || bool_decide (field = $"-") then Ok []
  else mapM_res (py_int 10) (split_on 44 field).

(** The two loops of [tighten_endpoints]; every round but the last meets another
    excluded value, so one round more than there are values is enough. *)
Definition raise_lo (excluded : list Z) (hi : Z) (lo : Z) : flow Z (res Z) :=
  if (lo <=? hi) && bool_decide (lo ∈ excluded) then Next (lo + 1) else Stop (Ok lo).
Definition lower_hi (excluded : list Z) (lo : Z) (hi : Z) : flow Z (res Z) :=
  if (lo <=? hi) && bool_decide (hi ∈ excluded) then Next (hi - 1) else Stop (Ok hi).

Definition tighten_endpoints (interval : option (Z * Z)) (excluded : list Z) : res (option (Z * Z)) :=
  match interval with
  | None => Ok None
  | Some (lo, hi) =>
      lo ← while (S (length excluded)) (raise_lo excluded hi) lo;
      hi ← while (S (length excluded)) (lower_hi excluded lo) hi;
      Ok (if hi <? lo then None else Some (lo, hi))
  end.

Definition proven (reason : str) : res (str * str) := Ok ($"proven", reason).
Definition review (reason : str) : res (str * str) := Ok ($"review", reason).
Definition AssertionError (msg : str) : exn := Custom "AssertionError" msg.

Definition bit_length (n : Z) : Z := if n =? 0 then 0 else Z.log2 (Z.abs n) + 1.

Definition list_min (l : list Z) : Z := match l with [] => 0 | a :: l => foldl Z.min a l end.
Definition list_max (l : list Z) : Z := match l with [] => 0 | a :: l => foldl Z.max a l end.

Definition inside (interval : Z * Z) (v : Z) : bool := (interval.1 <=? v) && (v <=? interval.2).

Definition classify_division (type_range : Z * Z) (lhs rhs : option (Z * Z)) : res (str * str) :=
  if type_range.1 =? 0 then proven ($"unsigned-division-has-no-signed-min-overflow") else
  if match lhs with Some i => negb (inside i type_range.1) | None => false end
  then proven ($"dividend-range-excludes-signed-min") else
  if match rhs with Some i => negb (inside i (-1)) | None => false end
  then proven ($"divisor-range-excludes-minus-one")
  else review ($"cannot-exclude-signed-min-divided-by-minus-one").

Definition fits_base (type_range result : Z * Z) : res (str * str) :=
  if (type_range.1 <=? result.1) && (result.2 <=? type_range.2)
  then proven ($"result-interval-fits-base-type") else review ($"result-interval-may-exceed-base-type").

(** [a << n]: a negative count raises. *)
Definition shift_left (a n : Z) : res Z := if n <? 0 then Err ValueError else Ok (Z.shiftl a n).

Definition classify_shift (type_range lhs rhs : Z * Z) : res (str * str) :=
  let width := bit_length type_range.2 + (if type_range.1 <? 0 then 1 else 0) in
  if (rhs.1 <? 0) || (width <=? rhs.2) then review ($"shift-count-not-proven-within-width") else
  if lhs.1 <? 0 then review ($"negative-left-shift-not-proven-safe") else
  lo ← shift_left lhs.1 rhs.1; hi ← shift_left lhs.2 rhs.2;
  fits_base type_range (lo, hi).

Definition products (lhs rhs : Z * Z) : list Z :=
  [lhs.1 * rhs.1; lhs.1 * rhs.2; lhs.2 * rhs.1; lhs.2 * rhs.2].

Definition missing_range (lhs rhs : option (Z * Z)) : str :=
  $"missing-" ++ (match lhs, rhs with None, None => $"both" | None, _ => $"lhs" | _, _ => $"rhs" end) ++ $"-range".

Definition classify (r : row) : res (str * str) :=
  lhs ← fact_interval (lhs_fact r);
  rhs ← fact_interval (rhs_fact r);
  match dget (lhs_type r) TYPE_RANGES with
  | None => review ($"unsupported-or-mismatched-base-type")
  | Some type_range =>
      let op := r_operator r in
      if bool_decide (op = $"div") || bool_decide (op = $"mod") then classify_division type_range lhs rhs else
      '(lhs, rhs) ←
        (if bool_decide (op = $"add") || bool_decide (op = $"sub") || bool_decide (op = $"mul") then
           lx ← excluded_values (lhs_excluded r); lhs ← tighten_endpoints lhs lx;
           rx ← excluded_values (rhs_excluded r); rhs ← tighten_endpoints rhs rx;
           Ok (lhs, rhs)
         else Ok (lhs, rhs));
      match lhs, rhs with
      | Some lhs, Some rhs =>
          if decide (op = $"add") then fits_base type_range (lhs.1 + rhs.1, lhs.2 + rhs.2)
          else if decide (op = $"sub") then fits_base type_range (lhs.1 - rhs.2, lhs.2 - rhs.1)
          else if decide (op = $"mul")
          then fits_base type_range (list_min (products lhs rhs), list_max (products lhs rhs))
          else if decide (op = $"shl") then classify_shift type_range lhs rhs
          else Err (AssertionError ($"unexpected audited operator: " ++ op))
      | _, _ => review (missing_range lhs rhs)
      end
  end.

(** ** Several builds of one location *)

(** One side of [merge_duplicate]: the type, the fact and the exclusions. *)
Definition merge_side (previous row_ : str * str * str) : res (str * str * str) :=
  let '(type1, fact1, excluded1) := previous in
  let '(type2, fact2, excluded2) := row_ in
  let type_ := if decide (type1 = type2) then type1 else $"unknown" in
  let fact := if decide (fact1 = fact2) then fact1 else $"unknown" in
  xs ← excluded_values excluded1;
  ys ← excluded_values excluded2;
  let common := filter (fun x => x ∈ ys) (remove_dups xs) in
  let excluded := if decide (common = []) then $"-" else join ($",") (map dec (sorted_Z common)) in
  Ok (type_, fact, if decide (type_ = $"unknown") then $"-" else excluded).

Definition merge_duplicate (previous r : row) : res row :=
  '(lt, lf, lx) ← merge_side (lhs_type previous, lhs_fact previous, lhs_excluded previous)
                             (lhs_type r, lhs_fact r, lhs_excluded r);
  '(rt, rf, rx) ← merge_side (rhs_type previous, rhs_fact previous, rhs_excluded previous)
                             (rhs_type r, rhs_fact r, rhs_excluded r);
  Ok (Row (r_file previous) (r_line previous) (r_column previous) (r_operator previous) lt lf lx rt rf rx).

Definition surface (path : str) : str :=
  if startswith path ($"kernel/") then $"kernel"
  else if startswith path ($"linux_user/") then $"linux_user" else $"other".

Definition key : Type := (str * str * str * str).
Definition key_of (r : row) : key := (r_file r, r_line r, r_column r, r_operator r).

(** [rows], one report line at a time. *)
Definition add_row (rows : list (key * row)) (r : row) : res (list (key * row)) :=
  match dget (key_of r) rows with
  | None => Ok (dset (key_of r) r rows)
  | Some previous => merged ← merge_duplicate previous r; Ok (dset (key_of r) merged rows)
  end.
Definition collect (reports : list (list row)) : res (list (key * row)) := foldM add_row [] (concat reports).

(** Python's order on the keys, tuples of strings. *)
Definition str_lt (a b : str) : bool := str_le a b && bool_decide (a ≠ b).
Definition key_le (a b : key) : bool :=
  let '(a1, a2, a3, a4) := a in
  let '(b1, b2, b3, b4) := b in
  str_lt a1 b1 || (bool_decide (a1 = b1) && (str_lt a2 b2 || (bool_decide (a2 = b2)
    && (str_lt a3 b3 || (bool_decide (a3 = b3) && str_le a4 b4))))).

Definition ordered (rows : list (key * row)) : list row :=
  omap (fun k => dget k rows) (py_sorted key_le (map fst rows)).

Definition output_row (r : row) : res (list str) :=
  '(classification, reason) ← classify r;
  Ok [surface (r_file r); classification; reason; r_file r; r_line r; r_column r; r_operator r;
      lhs_type r; lhs_fact r; lhs_excluded r; rhs_type r; rhs_fact r; rhs_excluded r].

(** [Counter] over pairs, and its sorted lines. *)
Definition pair_le (a b : (str * str) * Z) : bool :=
  str_lt a.1.1 b.1.1 || (bool_decide (a.1.1 = b.1.1) && str_le a.1.2 b.1.2).
Definition counter (keys : list (str * str)) : list ((str * str) * Z) :=
  foldl (fun d k => dset k (default 0 (dget k d) + 1) d) [] keys.
Definition counter_lines (keys : list (str * str)) : list str :=
  map (fun kn => kn.1.1 ++ [9] ++ kn.1.2 ++ [9] ++ dec kn.2) (py_sorted pair_le (counter keys)).

Definition both_facts (r : row) : str :=
  if bool_decide (lhs_fact r ≠ $"unknown") && bool_decide (rhs_fact r ≠ $"unknown")
  then $"both-facts" else $"missing-fact".

(** The table (header first) and the lines of the summary, without the lines of
    the time and memory the builds took. *)
Definition survey (output : str) (reports : list (list row)) : res (list (list str) * list str) :=
  rows ← collect reports;
  let rows := ordered rows in
  table ← mapM_res output_row rows;
  classes ← mapM_res (fun r => '(c, _) ← classify r; Ok (surface (r_file r), c)) rows;
  Ok (HEADER :: table,
      ($"wrote " ++ dec (zlen rows) ++ $" unique source locations to " ++ output)
      :: counter_lines (map (fun r => (surface (r_file r), r_operator r)) rows)
      ++ counter_lines (map (fun r => (surface (r_file r), both_facts r)) rows)
      ++ counter_lines classes).

(** ** The controls *)

Definition control (op ty lhs lx rhs : str) : row := Row [] [] [] op ty lhs lx [] rhs ($"-").
Definition controls : list (str * row) :=
  let full := $"interval-inclusive:0..65535" in
  [($"proven", control ($"add") ($"u8") ($"constant:254") ($"-") ($"constant:1"));
   ($"review", control ($"add") ($"u8") ($"constant:255") ($"-") ($"constant:1"));
   ($"proven", control ($"sub") ($"i8") ($"range:-10..<11") ($"-") ($"range:-2..<3"));
   ($"proven", control ($"mul") ($"i8") ($"range:-4..<5") ($"-") ($"constant:30"));
   ($"review", control ($"mul") ($"i8") ($"range:-5..<6") ($"-") ($"constant:30"));
   ($"proven", control ($"div") ($"i32") ($"unknown") ($"-") ($"constant:2"));
   ($"review", control ($"div") ($"i32") ($"unknown") ($"-") ($"constant:-1"));
   ($"proven", control ($"shl") ($"u8") ($"constant:1") ($"-") ($"constant:7"));
   ($"review", control ($"shl") ($"u8") ($"constant:2") ($"-") ($"constant:7"));
   ($"proven", control ($"add") ($"u16") full ($"65535") ($"constant:1"));
   ($"proven", control ($"sub") ($"u16") full ($"0") ($"constant:1"));
   ($"review", control ($"add") ($"u16") full ($"32768") ($"constant:1"));
   ($"review", control ($"sub") ($"u16") full ($"32768") ($"constant:1"))].

Definition RuntimeError (msg : str) : exn := Custom "RuntimeError" msg.

Definition run_one (c : str * row) : res unit :=
  '(actual, reason) ← classify c.2;
  require (bool_decide (actual = c.1))
    (RuntimeError ($"classifier control expected " ++ c.1 ++ $", got " ++ actual ++ $": " ++ reason)).

Definition check_classifier : res unit :=
  _ ← mapM_res run_one controls;
  let full := $"interval-inclusive:0..65535" in
  let common := Row [] [] [] [] ($"u16") full ($"0,65535") ($"u16") ($"constant:1") ($"0") in
  let other := Row [] [] [] [] ($"u16") full ($"65535") ($"u16") ($"constant:1") ($"-") in
  merged ← merge_duplicate common other;
  require (bool_decide (lhs_excluded merged = $"65535") && bool_decide (rhs_excluded merged = $"-"))
    (RuntimeError ($"deduplication retained an exclusion missing from one build")).

(** [main] up to the builds: the self-test, or the survey of the reports. *)
Definition main (self_test : bool) (output : str) (reports : list (list row)) : res (list (list str) * list str) :=
  _ ← check_classifier;
  if self_test then Ok ([], [$"PASS overflow survey classifier controls"]) else survey output reports.
