(* ===== verification/OverflowFacts.v ===== *)
(** * Facts about the overflow survey

    Soundness of the classifier: an operation it calls proven overflows for no
    operands that satisfy the compiler's facts; soundness of the whole survey over
    several builds; and the place where the 32-bit reading of isize is unsound. *)
From S2P Require Import Prelude Text Dict Sort PassLine Overflow.

(** ** What the compiler reports, and what it means *)

Inductive fact : Type :=
| Constant (c : Z) | Range (lo hi : Z) | Inclusive (lo hi : Z) | Singleton (c : Z) | Symbolic (name : str) | Unknown.

Definition show_fact (f : fact) : str :=
  match f with
  | Constant c => $"constant:" ++ dec c
  | Range lo hi => $"range:" ++ dec lo ++ $"..<" ++ dec hi
  | Inclusive lo hi => $"interval-inclusive:" ++ dec lo ++ $".." ++ dec hi
  | Singleton c => $"singleton:" ++ dec c
  | Symbolic name => $"singleton:" ++ name
  | Unknown => $"unknown"
  end.

(** A symbolic singleton is not a number. *)
Definition fact_ok (f : fact) : Prop :=
  match f with Symbolic name => py_int 10 name = Err ValueError | _ => True end.

Definition holds (f : fact) (v : Z) : Prop :=
  match f with
  | Constant c | Singleton c => v = c
  | Range lo hi => lo ≤ v < hi
  | Inclusive lo hi => lo ≤ v ≤ hi
  | Symbolic _ | Unknown => True
  end.

(** One operand: its type, the fact known of it, and the values it is not. *)
Record side := Side { s_type : str; s_fact : fact; s_excluded : list Z }.
Definition side_holds (s : side) (v : Z) : Prop := holds (s_fact s) v ∧ v ∉ s_excluded s.

Record operation := Operation { o_file : str; o_line : str; o_column : str; o_operator : str; o_lhs : side; o_rhs : side }.
Definition operation_ok (o : operation) : Prop := fact_ok (s_fact (o_lhs o)) ∧ fact_ok (s_fact (o_rhs o)).

Definition show_excluded (l : list Z) : str := if decide (l = []) then $"-" else join ($",") (map dec l).
Definition show_row (o : operation) : row :=
  Row (o_file o) (o_line o) (o_column o) (o_operator o)
    (s_type (o_lhs o)) (show_fact (s_fact (o_lhs o))) (show_excluded (s_excluded (o_lhs o)))
    (s_type (o_rhs o)) (show_fact (s_fact (o_rhs o))) (show_excluded (s_excluded (o_rhs o))).

(** The machine's operations: when a result leaves its type. *)
Definition fits (t : Z * Z) (v : Z) : Prop := t.1 ≤ v ≤ t.2.
Definition width (t : Z * Z) : Z := Z.log2 (t.2 - t.1 + 1).
Definition overflows (t : Z * Z) (op : str) (a b : Z) : Prop :=
  if decide (op = $"add") then ¬ fits t (a + b)
  else if decide (op = $"sub") then ¬ fits t (a - b)
  else if decide (op = $"mul") then ¬ fits t (a * b)
  else if decide (op = $"shl") then ¬ (0 ≤ b < width t ∧ fits t (a * 2 ^ b))
  else b ≠ 0 ∧ ¬ fits t (Z.quot a b).

Definition is_division (op : str) : Prop := op = $"div" ∨ op = $"mod".

(** The operands an operation can have: within their types (the divisor has the
    dividend's) and as the facts say. *)
Definition operands (t : Z * Z) (o : operation) (a b : Z) : Prop :=
  side_holds (o_lhs o) a ∧ side_holds (o_rhs o) b ∧ fits t a ∧ (is_division (o_operator o) → fits t b).

(** ** Reading the facts back *)

Definition interval (f : fact) : option (Z * Z) :=
  match f with
  | Constant c | Singleton c => Some (c, c)
  | Range lo hi => Some (lo, hi - 1)
  | Inclusive lo hi => Some (lo, hi)
  | Symbolic _ | Unknown => None
  end.

Definition in_interval (i : option (Z * Z)) (v : Z) : Prop := match i with Some i => i.1 ≤ v ≤ i.2 | None => True end.

Lemma holds_interval f v : holds f v ↔ in_interval (interval f) v.
Proof. destruct f; cbn; lia || tauto. Qed.

Lemma find_app c p a b : Forall (fun x => x ≠ c) a → find (c :: p) (a ++ (c :: p) ++ b) = Some (zlen a).
Proof.
  assert (∀ q s : str, startswith (q ++ s) q = true) as Hs.
  { intros q s. induction q as [|d q IH]; cbn; [done|]. by rewrite Z.eqb_refl, IH. }
  induction 1 as [|x a Hx Ha IH].
  - cbn [app]. destruct (find _ _) eqn:E; revert E; cbn [find]; change (c :: p ++ b) with ((c :: p) ++ b); by rewrite Hs.
  - cbn [app find startswith]. rewrite (proj2 (Z.eqb_neq c x)) by congruence. cbn [andb]. cbn [app] in IH. rewrite IH.
    cbn. rewrite zlen_cons. f_equal. lia.
Qed.

Lemma split_once_app c p a b :
  Forall (fun x => x ≠ c) a → split_once (c :: p) (a ++ (c :: p) ++ b) = Ok (a, b).
Proof.
  intros Ha. unfold split_once. rewrite find_app by done. rewrite slice_app by done. f_equal. f_equal.
  rewrite app_assoc. apply from_app. rewrite zlen_app. done.
Qed.

Lemma dec_chars n : Forall (fun c => c = 45 ∨ is_digit c = true) (dec n).
Proof.
  assert (∀ m, Forall (fun c => c = 45 ∨ is_digit c = true) (show_nat 10 m)) as H.
  { intros m. eapply Forall_impl; [apply show_nat_digits|]. auto. }
  unfold dec. destruct (n <? 0); [constructor|]; auto.
Qed.

Lemma dec_without c n : c ≠ 45 → is_digit c = false → Forall (fun x => x ≠ c) (dec n).
Proof. intros H1 H2. eapply Forall_impl; [apply dec_chars|]. intros x [Hx|Hx] Heq; congruence. Qed.

Lemma fact_interval_show f : fact_ok f → fact_interval (show_fact f) = Ok (interval f).
Proof.
  intros Hok. unfold fact_interval. destruct f as [c|lo hi|lo hi|c|name|]; cbn [show_fact].
  - rewrite strip_prefix_app. by rewrite py_int_dec by auto.
  - change (strip_prefix ($"constant:") _) with (@None str). rewrite strip_prefix_app.
    change ($"..<") with (46 :: [46; 60]). rewrite split_once_app by by apply dec_without.
    cbn [mbind res_bind]. by rewrite !py_int_dec by auto.
  - change (strip_prefix ($"constant:") _) with (@None str). change (strip_prefix ($"range:") _) with (@None str).
    rewrite strip_prefix_app. change ($"..") with (46 :: [46]). rewrite split_once_app by by apply dec_without.
    cbn [mbind res_bind]. by rewrite !py_int_dec by auto.
  - change (strip_prefix ($"constant:") _) with (@None str). change (strip_prefix ($"range:") _) with (@None str).
    change (strip_prefix ($"interval-inclusive:") _) with (@None str). rewrite strip_prefix_app. by rewrite py_int_dec by auto.
  - change (strip_prefix ($"constant:") _) with (@None str). change (strip_prefix ($"range:") _) with (@None str).
    change (strip_prefix ($"interval-inclusive:") _) with (@None str). rewrite strip_prefix_app. cbn in Hok. by rewrite Hok.
  - done.
Qed.

Lemma split_on_decs l : l ≠ [] → split_on 44 (join ($",") (map dec l)) = map dec l.
Proof.
  intros Hl. apply split_on_join; [by destruct l|]. apply Forall_forall. intros s (n & -> & _)%list_elem_of_fmap. by apply dec_without.
Qed.

Lemma excluded_values_show l : excluded_values (show_excluded l) = Ok l.
Proof.
  unfold show_excluded. destruct (decide (l = [])) as [->|Hne]; [by_compute|].
  assert (∀ s, split_on 44 s = [s] → py_int 10 s = Err ValueError → join ($",") (map dec l) ≠ s) as Hnot.
  { intros s Hs He Heq. pose proof (split_on_decs l Hne) as Hl. rewrite Heq, Hs in Hl.
    destruct l as [|m [|]]; [done| |done]. cbn in Hl. injection Hl as ->. rewrite py_int_dec in He by auto. done. }
  unfold excluded_values. rewrite bool_decide_eq_false_2 by (apply (Hnot []); by_compute).
  rewrite bool_decide_eq_false_2 by (apply (Hnot ($"-")); by_compute). cbn [orb].
  rewrite split_on_decs by done. apply mapM_res_Forall2. clear. induction l; constructor; [by apply py_int_dec; auto|done].
Qed.

(** ** The tightened interval *)

Lemma tighten_lo excluded lo hi :
  ∃ lo', while (S (length excluded)) (raise_lo excluded hi) lo = Ok lo'
    ∧ lo ≤ lo' ∧ ∀ v, lo ≤ v ≤ hi → v ∉ excluded → lo' ≤ v.
Proof.
  apply (while_total _ (fun x => lo ≤ x ∧ ∀ v, lo ≤ v < x → v ∈ excluded)
    (fun r => ∃ lo', r = Ok lo' ∧ lo ≤ lo' ∧ ∀ v, lo ≤ v ≤ hi → v ∉ excluded → lo' ≤ v)
    (fun x => (length excluded - Z.to_nat (x - lo))%nat)); [|split; [lia|intros; lia]|lia].
  intros x [Hx Hin]. unfold raise_lo. destruct (x <=? hi) eqn:E; cbn [andb].
  2: { exists x. split; [done|]. split; [done|]. intros v Hv Hn. destruct (decide (x ≤ v)); [done|].
       exfalso. apply Hn, Hin. lia. }
  case_bool_decide as Hex.
  - assert (∀ v, lo ≤ v < x + 1 → v ∈ excluded) as Hin'.
    { intros v Hv. destruct (decide (v = x)) as [->|]; [done|apply Hin; lia]. }
    split; [split; [lia|done]|].
    assert (length (map (Z.add lo) (zrange (x + 1 - lo))) ≤ length excluded)%nat as Hlen.
    { apply submseteq_length, NoDup_submseteq.
      - rewrite zrange_seq, map_map. apply NoDup_fmap_2, NoDup_seq. intros ??; lia.
      - intros v (i & -> & Hi%elem_of_zrange)%list_elem_of_fmap. apply Hin'. lia. }
    rewrite length_fmap, zrange_seq, length_fmap, length_seq in Hlen. lia.
  - exists x. split; [done|]. split; [done|]. intros v Hv Hn. destruct (decide (x ≤ v)); [done|].
    exfalso. apply Hn, Hin. lia.
Qed.

(** The other endpoint is the first one of the mirrored interval. *)
Lemma lower_raise fuel excluded lo hi :
  while fuel (lower_hi excluded lo) hi = Z.opp <$> while fuel (raise_lo (map Z.opp excluded) (- lo)) (- hi).
Proof.
  unfold while. revert hi. induction fuel as [|fuel IH]; intros hi; [done|]. cbn [iterate].
  unfold lower_hi at 1. unfold raise_lo at 1.
  replace (- hi <=? - lo) with (lo <=? hi) by lia.
  replace (bool_decide (- hi ∈ map Z.opp excluded)) with (bool_decide (hi ∈ excluded)).
  2: { apply bool_decide_ext. rewrite list_elem_of_fmap. split; [intros H; by exists hi|].
       intros (x & Heq & Hx). by replace hi with x by lia. }
  destruct (_ && _); [|cbn; f_equal; lia]. replace (- hi + 1) with (- (hi - 1)) by lia. apply IH.
Qed.

Lemma tighten_endpoints_spec i excluded :
  ∃ o, tighten_endpoints i excluded = Ok o
    ∧ ∀ v, in_interval i v → v ∉ excluded → i = None ∧ o = None ∨ ∃ j, o = Some j ∧ j.1 ≤ v ≤ j.2.
Proof.
  destruct i as [[lo hi]|]; [|by exists None; split; [done|left]]. cbn [tighten_endpoints].
  destruct (tighten_lo excluded lo hi) as (lo' & -> & Hlo & Hv). cbn [mbind res_bind].
  rewrite lower_raise.
  destruct (tighten_lo (map Z.opp excluded) (- hi) (- lo')) as (hi' & Hhi & Hle & Hw).
  rewrite length_map in Hhi. rewrite Hhi. cbn [fmap res_fmap mbind res_bind]. eexists. split; [done|].
  intros v [H1 H2] Hn. cbn [fst snd] in *. right.
  assert (lo' ≤ v) as H3 by (apply Hv; [lia|done]).
  assert (hi' ≤ - v) as H4.
  { apply Hw; [lia|]. rewrite list_elem_of_fmap. intros (x & Heq & Hx). apply Hn. by replace v with x by lia. }
  rewrite (proj2 (Z.ltb_ge _ _)) by lia. exists (lo', - hi'). cbn. split; [done|lia].
Qed.

(** ** Soundness of one verdict *)

Lemma fits_base_proven t result reason :
  fits_base t result = Ok ($"proven", reason) → t.1 ≤ result.1 ∧ result.2 ≤ t.2.
Proof. unfold fits_base, proven, review. destruct (_ && _) eqn:E; [|done]. intros _. lia. Qed.

Lemma mul_between lo hi x y :
  lo ≤ x ≤ hi → lo * y ≤ x * y ≤ hi * y ∨ hi * y ≤ x * y ≤ lo * y.
Proof. intros H. destruct (Z.le_ge_cases 0 y); [left|right]; nia. Qed.

Lemma mul_bounds lhs rhs a b :
  lhs.1 ≤ a ≤ lhs.2 → rhs.1 ≤ b ≤ rhs.2 →
  list_min (products lhs rhs) ≤ a * b ≤ list_max (products lhs rhs).
Proof.
  intros Ha Hb. unfold list_min, list_max, products. cbn [foldl].
  destruct lhs as [l1 l2], rhs as [r1 r2]. cbn [fst snd] in *.
  pose proof (mul_between l1 l2 a b Ha) as H1. pose proof (mul_between r1 r2 b l1 Hb) as H2.
  pose proof (mul_between r1 r2 b l2 Hb) as H3. rewrite !(Z.mul_comm _ l1) in H2. rewrite !(Z.mul_comm _ l2) in H3.
  revert H1 H2 H3. generalize (l1 * r1), (l1 * r2), (l2 * r1), (l2 * r2), (l1 * b), (l2 * b), (a * b). intros; lia.
Qed.

(** Ranges of machine types: powers of two, with the signed ones one lower below. *)
Definition machine_range (t : Z * Z) : Prop :=
  ∃ w, 8 ≤ w ≤ 64 ∧ (t = (- 2 ^ (w - 1), 2 ^ (w - 1) - 1) ∨ t = (0, 2 ^ w - 1)).

Lemma type_range_cases ty t : dget ty TYPE_RANGES = Some t → machine_range t.
Proof.
  intros H%dget_elem_of. unfold TYPE_RANGES in H. rewrite !elem_of_cons in H.
  destruct H as [H|[H|[H|[H|[H|[H|[H|[H|[H|[H|H]]]]]]]]]]; try (by apply not_elem_of_nil in H); injection H as _ ->;
    [exists 8|exists 16|exists 32|exists 64|exists 8|exists 16|exists 32|exists 64|exists 32|exists 32];
    (split; [lia|]); (left; by_compute) || (right; by_compute).
Qed.

Lemma quot_abs_le a b : b ≠ 0 → Z.abs (Z.quot a b) * Z.abs b ≤ Z.abs a.
Proof.
  intros Hb. rewrite <- Z.quot_abs by done. rewrite Z.quot_div_nonneg by lia.
  rewrite Z.mul_comm. apply Z.mul_div_le. lia.
Qed.

Lemma quot_fits t a b :
  machine_range t → fits t a → fits t b → b ≠ 0 → (t.1 = 0 ∨ a ≠ t.1 ∨ b ≠ -1) → fits t (Z.quot a b).
Proof.
  intros (w & Hw & [->| ->]) Ha Hb Hb0 Hc; unfold fits in *; cbn [fst snd] in *;
    pose proof (quot_abs_le a b Hb0) as Hq.
  - assert (0 < 2 ^ (w - 2)) as Hp by (apply Z.pow_pos_nonneg; lia).
    assert (2 ^ (w - 1) = 2 * 2 ^ (w - 2)) as Hpow by (rewrite <- Z.pow_succ_r by lia; f_equal; lia).
    rewrite Hpow in *. generalize dependent (2 ^ (w - 2)). intros m Ha Hb Hc Hp _.
    destruct (decide (Z.abs b = 1)) as [H1|H1].
    + assert (b = 1 ∨ b = -1) as [-> | ->] by lia; [rewrite Z.quot_1_r; lia|].
      change (-1) with (- (1)). rewrite Z.quot_opp_r, Z.quot_1_r by lia. lia.
    + assert (Z.abs (Z.quot a b) * 2 ≤ Z.abs a) by nia. lia.
  - assert (0 ≤ Z.quot a b) by (apply Z.quot_pos; lia). nia.
Qed.

Definition DIVIDEND : str := $"dividend-range-excludes-signed-min".

Lemma division_sound t lhs rhs reason a b : classify_division t lhs rhs = Ok ($"proven", reason) →
  in_interval lhs a → in_interval rhs b → t.1 = 0 ∨ (reason = DIVIDEND ∧ a ≠ t.1) ∨ b ≠ -1.
Proof.
  unfold classify_division, proven, review, inside. destruct (t.1 =? 0) eqn:E; [intros; left; lia|].
  destruct lhs as [l|].
  - destruct (negb _) eqn:El; [intros [= <-] Ha _; cbn in Ha; right; left; split; [done|lia]|].
    destruct rhs as [r|]; [|done]. destruct (negb ((r.1 <=? -1) && _)) eqn:Er; [|done].
    intros _ _ Hb. cbn in Hb. right; right. lia.
  - destruct rhs as [r|]; [|done]. destruct (negb ((r.1 <=? -1) && _)) eqn:Er; [|done].
    intros _ _ Hb. cbn in Hb. right; right. lia.
Qed.

Lemma shift_sound ty t lhs rhs reason a b :
  dget ty TYPE_RANGES = Some t → classify_shift t lhs rhs = Ok ($"proven", reason) →
  lhs.1 ≤ a ≤ lhs.2 → rhs.1 ≤ b ≤ rhs.2 → 0 ≤ b < width t ∧ fits t (a * 2 ^ b).
Proof.
  intros Ht H Ha Hb. unfold classify_shift in H. destruct ((rhs.1 <? 0) || _) eqn:E1; [done|].
  destruct (lhs.1 <? 0) eqn:E2; [done|]. apply orb_false_iff in E1 as [E1 E3].
  unfold shift_left in H. rewrite (proj2 (Z.ltb_ge rhs.1 0)), (proj2 (Z.ltb_ge rhs.2 0)) in H by lia.
  cbn [mbind res_bind] in H. apply fits_base_proven in H as [H1 H2]. cbn [fst snd] in *.
  rewrite !Z.shiftl_mul_pow2 in * by lia.
  assert (bit_length t.2 + (if t.1 <? 0 then 1 else 0) = width t) as Hwidth.
  { apply type_range_cases in Ht as (w & Hw & [-> | ->]); unfold bit_length, width; cbn [fst snd].
    - assert (2 ≤ 2 ^ (w - 1)) by (change 2 with (2 ^ 1) at 1; apply Z.pow_le_mono_r; lia).
      rewrite (proj2 (Z.eqb_neq _ 0)), (proj2 (Z.ltb_lt _ 0)), Z.abs_eq by lia.
      replace (2 ^ (w - 1) - 1) with (Z.pred (2 ^ (w - 1))) by lia. rewrite Z.log2_pred_pow2 by lia.
      replace (Z.pred (2 ^ (w - 1)) - - 2 ^ (w - 1) + 1) with (2 * 2 ^ (w - 1)) by lia.
      rewrite <- Z.pow_succ_r, Z.log2_pow2 by lia. lia.
    - assert (2 ≤ 2 ^ w) by (change 2 with (2 ^ 1) at 1; apply Z.pow_le_mono_r; lia).
      rewrite (proj2 (Z.eqb_neq _ 0)), Z.abs_eq by lia. change (0 <? 0) with false.
      replace (2 ^ w - 1) with (Z.pred (2 ^ w)) by lia. rewrite Z.log2_pred_pow2 by lia.
      replace (Z.pred (2 ^ w) - 0 + 1) with (2 ^ w) by lia. rewrite Z.log2_pow2 by lia. lia. }
  split; [lia|]. assert (2 ^ rhs.1 ≤ 2 ^ b ≤ 2 ^ rhs.2) as Hp by (split; apply Z.pow_le_mono_r; lia).
  assert (0 < 2 ^ rhs.1) by (apply Z.pow_pos_nonneg; lia). unfold fits. nia.
Qed.

(** What a proof of the classifier says: for a division the rule it rests on, for the
    other operators that the result is in the range it tests. *)
Lemma classify_divides o t reason : operation_ok o → dget (s_type (o_lhs o)) TYPE_RANGES = Some t → is_division (o_operator o) →
  classify (show_row o) = Ok ($"proven", reason) →
  classify_division t (interval (s_fact (o_lhs o))) (interval (s_fact (o_rhs o))) = Ok ($"proven", reason).
Proof.
  intros [Hl Hr] Ht Hop. unfold classify, show_row. cbn [lhs_fact rhs_fact lhs_type r_operator].
  rewrite (fact_interval_show _ Hl), (fact_interval_show _ Hr). cbn [mbind res_bind]. rewrite Ht.
  destruct (bool_decide (o_operator o = $"div") || bool_decide (o_operator o = $"mod")) eqn:E; [done|].
  apply orb_false_iff in E as [E1%bool_decide_eq_false E2%bool_decide_eq_false]. by destruct Hop.
Qed.

Lemma classify_stays o t reason a b : operation_ok o → dget (s_type (o_lhs o)) TYPE_RANGES = Some t → ¬ is_division (o_operator o) →
  classify (show_row o) = Ok ($"proven", reason) → side_holds (o_lhs o) a → side_holds (o_rhs o) b → ¬ overflows t (o_operator o) a b.
Proof.
  intros [Hl Hr] Ht Hop H [Ha Hax] [Hb Hbx].
  unfold classify, show_row in H. cbn [lhs_fact rhs_fact lhs_type r_operator lhs_excluded rhs_excluded] in H.
  rewrite (fact_interval_show _ Hl), (fact_interval_show _ Hr) in H. cbn [mbind res_bind] in H.
  rewrite Ht in H. apply holds_interval in Ha, Hb. unfold is_division in Hop. set (op := o_operator o) in *.
  rewrite (bool_decide_eq_false_2 (op = $"div")), (bool_decide_eq_false_2 (op = $"mod")) in H by tauto. cbn [orb] in H.
  rewrite !excluded_values_show in H.
  destruct (tighten_endpoints_spec (interval (s_fact (o_lhs o))) (s_excluded (o_lhs o))) as (ol & El & Sl).
  destruct (tighten_endpoints_spec (interval (s_fact (o_rhs o))) (s_excluded (o_rhs o))) as (or & Er & Sr).
  specialize (Sl a Ha Hax). specialize (Sr b Hb Hbx).
  assert (∀ x y (k : Z * Z → Z * Z → res (str * str)),
    match x, y with Some l, Some r => k l r | _, _ => review (missing_range x y) end = Ok ($"proven", reason) →
    ∃ l r, x = Some l ∧ y = Some r ∧ k l r = Ok ($"proven", reason)) as Hboth by (intros [?|] [?|] ?; eauto; done).
  unfold overflows.
  destruct (bool_decide (op = $"add") || bool_decide (op = $"sub") || bool_decide (op = $"mul")) eqn:E.
  - cbn [mbind res_bind] in H. rewrite El in H. cbn [mbind res_bind] in H. rewrite Er in H. cbn [mbind res_bind] in H.
    apply Hboth in H as (l & r & -> & -> & H).
    destruct Sl as [[_ ?]|(? & [= <-] & Sl)]; [done|]. destruct Sr as [[_ ?]|(? & [= <-] & Sr)]; [done|].
    destruct (decide (op = $"add")); [apply fits_base_proven in H; unfold fits; cbn [fst snd] in *; lia|].
    destruct (decide (op = $"sub")); [apply fits_base_proven in H; unfold fits; cbn [fst snd] in *; lia|].
    destruct (decide (op = $"mul")); [|by rewrite !bool_decide_eq_false_2 in E].
    apply fits_base_proven in H. pose proof (mul_bounds l r a b Sl Sr). unfold fits. cbn [fst snd] in *. lia.
  - apply orb_false_iff in E as [[E1 E2]%orb_false_iff E3]. apply bool_decide_eq_false in E1, E2, E3.
    cbn [mbind res_bind] in H. apply Hboth in H as (l & r & Hil & Hir & H). rewrite Hil in Ha. rewrite Hir in Hb.
    rewrite !decide_False in * by done. destruct (decide (op = $"shl")); [|done].
    pose proof (shift_sound _ _ _ _ _ _ _ Ht H Ha Hb). tauto.
Qed.

(** The range of a type on a target of 32 or 64 bits. *)
Definition target_range (bits : Z) (ty : str) : option (Z * Z) :=
  if decide (ty = $"isize") then Some (signed bits) else if decide (ty = $"usize") then Some (unsigned bits) else dget ty TYPE_RANGES.

Lemma target_range_cases bits ty t : bits = 32 ∨ bits = 64 → target_range bits ty = Some t →
  machine_range t ∧ ∃ t', dget ty TYPE_RANGES = Some t' ∧
    (t = t' ∨ bits = 64 ∧ (ty = $"isize" ∧ t = signed 64 ∧ t' = signed 32 ∨ ty = $"usize" ∧ t = unsigned 64 ∧ t' = unsigned 32)).
Proof.
  unfold target_range. intros Hbits. case_decide as Ei; [|case_decide as Eu].
  - intros [= <-]. subst ty. split.
    { destruct Hbits as [->| ->]; [exists 32|exists 64]; (split; [lia|]); left; by_compute. }
    exists (signed 32). split; [by_compute|]. destruct Hbits as [->| ->]; [by left|right]. split; [done|]. by left.
  - intros [= <-]. subst ty. split.
    { destruct Hbits as [->| ->]; [exists 32|exists 64]; (split; [lia|]); right; by_compute. }
    exists (unsigned 32). split; [by_compute|]. destruct Hbits as [->| ->]; [by left|right]. split; [done|]. by right.
  - intros H. split; [by eapply type_range_cases|]. exists t. by split; [|left].
Qed.

Lemma overflows_mono t t' op a b : t.1 ≤ t'.1 → t'.2 ≤ t.2 → width t' ≤ width t → ¬ overflows t' op a b → ¬ overflows t op a b.
Proof. unfold overflows, fits. intros H1 H2 Hw. repeat case_decide; lia. Qed.

(** The division the 32-bit rule says nothing of on a 64-bit target. *)
Definition narrow_rule (bits : Z) (ty reason : str) : Prop := bits = 64 ∧ ty = $"isize" ∧ reason = DIVIDEND.

Lemma classify_proven bits o t reason a b : bits = 32 ∨ bits = 64 →
  operation_ok o → target_range bits (s_type (o_lhs o)) = Some t →
  classify (show_row o) = Ok ($"proven", reason) → ¬ narrow_rule bits (s_type (o_lhs o)) reason →
  operands t o a b → ¬ overflows t (o_operator o) a b.
Proof.
  intros Hbits Hok Ht H Hn (Ha & Hb & Hfa & Hfb). destruct (target_range_cases _ _ _ Hbits Ht) as (Hm & t' & Ht' & Hcase).
  destruct (decide (is_division (o_operator o))) as [Hop|Hop].
  - pose proof (classify_divides _ _ _ Hok Ht' Hop H) as Hd.
    apply (division_sound _ _ _ _ a b) in Hd; [|by apply holds_interval, Ha|by apply holds_interval, Hb].
    unfold overflows. rewrite !decide_False by (destruct Hop as [-> | ->]; by_compute).
    intros [Hb0 Hfits]. apply Hfits, quot_fits; [done|done|by apply Hfb|done|].
    destruct Hcase as [->|[-> [(Ety & -> & ->)|(_ & -> & ->)]]]; [tauto| |by left].
    destruct Hd as [Hd|[[Hr _]|Hd]]; [done|by destruct Hn|tauto].
  - pose proof (classify_stays _ _ _ a b Hok Ht' Hop H Ha Hb) as Hs.
    destruct Hcase as [->|[_ [(_ & -> & ->)|(_ & -> & ->)]]]; [done| |]; (eapply overflows_mono; [..|exact Hs]; by_compute).
Qed.

(** ** Several builds *)

(** [s] is no stronger than [s']. *)
Definition weaker (s s' : side) : Prop :=
  (s_type s = $"unknown" ∨ s_type s = s_type s') ∧ ∀ v, side_holds s' v → side_holds s v.

Definition show_side (s : side) : str * str * str := (s_type s, show_fact (s_fact s), show_excluded (s_excluded s)).

Definition merge_sides (s1 s2 : side) : side :=
  let ty := if decide (s_type s1 = s_type s2) then s_type s1 else $"unknown" in
  Side ty (if decide (show_fact (s_fact s1) = show_fact (s_fact s2)) then s_fact s1 else Unknown)
    (if decide (ty = $"unknown") then []
     else sorted_Z (filter (fun x => x ∈ s_excluded s2) (remove_dups (s_excluded s1)))).

Lemma merge_side_show s1 s2 : merge_side (show_side s1) (show_side s2) = Ok (show_side (merge_sides s1 s2)).
Proof.
  unfold merge_side, show_side. rewrite !excluded_values_show. cbn [mbind res_bind]. unfold merge_sides.
  set (ty := if decide (s_type s1 = _) then _ else _). set (common := filter _ _). cbn [s_type s_fact s_excluded].
  replace (show_fact (if decide (show_fact (s_fact s1) = show_fact (s_fact s2)) then s_fact s1 else Unknown))
    with (if decide (show_fact (s_fact s1) = show_fact (s_fact s2)) then show_fact (s_fact s1) else $"unknown")
    by by destruct (decide (show_fact (s_fact s1) = show_fact (s_fact s2))).
  do 2 f_equal.
  destruct (decide (ty = $"unknown")); [done|]. unfold show_excluded.
  destruct (decide (common = [])) as [->|Hne]; [done|]. rewrite decide_False; [done|].
  intros Hs. apply Hne, Permutation_nil_r. by rewrite <- (sorted_Z_perm common), Hs.
Qed.

Lemma merge_sides_ok s1 s2 : fact_ok (s_fact s1) → fact_ok (s_fact (merge_sides s1 s2)).
Proof. intros H. cbn. by destruct (decide _). Qed.

Lemma merge_weaker s1 s2 :
  fact_ok (s_fact s1) → fact_ok (s_fact s2) → weaker (merge_sides s1 s2) s1 ∧ weaker (merge_sides s1 s2) s2.
Proof.
  intros H1 H2. unfold weaker, side_holds, merge_sides. cbn [s_type s_fact s_excluded].
  set (ty := if decide (s_type s1 = s_type s2) then s_type s1 else _).
  assert (∀ v, v ∉ s_excluded s1 ∨ v ∉ s_excluded s2 → v ∉ (if decide (ty = $"unknown") then []
     else sorted_Z (filter (fun x => x ∈ s_excluded s2) (remove_dups (s_excluded s1))))) as Hx.
  { intros v Hv. clearbody ty. destruct (decide (ty = _)); [apply not_elem_of_nil|]. rewrite sorted_Z_perm, list_elem_of_filter, elem_of_remove_dups. tauto. }
  assert (∀ v, holds (s_fact s1) v ∨ holds (s_fact s2) v →
    holds (if decide (show_fact (s_fact s1) = show_fact (s_fact s2)) then s_fact s1 else Unknown) v) as Hf.
  { intros v Hv. destruct (decide (show_fact (s_fact s1) = _)) as [Heq|]; [|done]. destruct Hv as [|Hv]; [done|].
    apply (f_equal fact_interval) in Heq. rewrite !fact_interval_show in Heq by done. injection Heq as Heq.
    apply holds_interval. rewrite Heq. by apply holds_interval. }
  split; (split; [unfold ty; destruct (decide (s_type s1 = s_type s2)); auto|intros v [Hv Hn]; split; auto]).
Qed.

Lemma weaker_trans s1 s2 s3 : weaker s1 s2 → weaker s2 s3 → weaker s1 s3.
Proof. intros [[H1|H1] H2] [[H3|H3] H4]; (split; [|by auto]); [by left|by left|left; congruence|right; congruence]. Qed.

Lemma weaker_refl s : weaker s s.
Proof. split; auto. Qed.

Definition covers (m o : operation) : Prop :=
  weaker (o_lhs m) (o_lhs o) ∧ weaker (o_rhs m) (o_rhs o) ∧ o_operator m = o_operator o.

(** The row kept for a key covers every operation of the key met so far. *)
Definition table_ok (seen : list operation) (rows : list (key * row)) : Prop :=
  (∀ k r, dget k rows = Some r → ∃ m, r = show_row m ∧ operation_ok m ∧ key_of r = k
     ∧ ∀ o, o ∈ seen → key_of (show_row o) = k → covers m o)
  ∧ ∀ o, o ∈ seen → is_Some (dget (key_of (show_row o)) rows).

Lemma merge_rows m o :
  merge_duplicate (show_row m) (show_row o) =
  Ok (show_row (Operation (o_file m) (o_line m) (o_column m) (o_operator m)
        (merge_sides (o_lhs m) (o_lhs o)) (merge_sides (o_rhs m) (o_rhs o)))).
Proof.
  unfold merge_duplicate. cbn [lhs_type lhs_fact lhs_excluded rhs_type rhs_fact rhs_excluded show_row].
  change (s_type (o_lhs m), show_fact (s_fact (o_lhs m)), show_excluded (s_excluded (o_lhs m))) with (show_side (o_lhs m)).
  change (s_type (o_rhs m), show_fact (s_fact (o_rhs m)), show_excluded (s_excluded (o_rhs m))) with (show_side (o_rhs m)).
  change (s_type (o_lhs o), show_fact (s_fact (o_lhs o)), show_excluded (s_excluded (o_lhs o))) with (show_side (o_lhs o)).
  change (s_type (o_rhs o), show_fact (s_fact (o_rhs o)), show_excluded (s_excluded (o_rhs o))) with (show_side (o_rhs o)).
  by rewrite !merge_side_show.
Qed.

Lemma table_ok_set seen rows o m :
  table_ok seen rows → operation_ok m → key_of (show_row m) = key_of (show_row o) →
  (∀ x, x ∈ seen ++ [o] → key_of (show_row x) = key_of (show_row o) → covers m x) →
  table_ok (seen ++ [o]) (dset (key_of (show_row o)) (show_row m) rows).
Proof.
  intros [H1 H2] Hm Hk Hc. split.
  - intros k r. destruct (decide (k = key_of (show_row o))) as [->|Hne].
    + rewrite dget_dset. intros [= <-]. exists m. auto.
    + rewrite dget_dset_ne by done. intros Hr. destruct (H1 k r Hr) as (x & -> & Hx & Hkx & Hcx). exists x.
      split_and!; try done. intros y [Hy|Hy]%elem_of_app Hky; [by apply Hcx|].
      apply list_elem_of_singleton in Hy as ->. congruence.
  - intros x Hx. destruct (decide (key_of (show_row x) = key_of (show_row o))) as [->|Hne]; [by rewrite dget_dset|].
    rewrite dget_dset_ne by done. apply H2. apply elem_of_app in Hx as [Hx|Hx]; [done|].
    by apply list_elem_of_singleton in Hx as ->.
Qed.

Lemma add_row_ok seen rows o :
  table_ok seen rows → Forall operation_ok (seen ++ [o]) →
  ∃ rows', add_row rows (show_row o) = Ok rows' ∧ table_ok (seen ++ [o]) rows'.
Proof.
  intros Ht Hok. pose proof Ht as [H1 H2]. assert (operation_ok o) as [Hol Hor] by (apply Forall_app in Hok as [_ Hok]; by apply Forall_inv in Hok).
  unfold add_row. destruct (dget (key_of (show_row o)) rows) as [r|] eqn:E.
  - destruct (H1 _ _ E) as (m & -> & [Hml Hmr] & Hkm & Hcm). rewrite merge_rows. cbn [mbind res_bind].
    eexists. split; [done|]. destruct (merge_weaker (o_lhs m) (o_lhs o) Hml Hol) as [Wl1 Wl2].
    destruct (merge_weaker (o_rhs m) (o_rhs o) Hmr Hor) as [Wr1 Wr2]. apply table_ok_set; [done| | |].
    + split; by apply merge_sides_ok.
    + done.
    + intros x [Hx|Hx]%elem_of_app Hkx.
      * destruct (Hcm x Hx Hkx) as (Cl & Cr & Co). split_and!;
          [exact (weaker_trans _ _ _ Wl1 Cl)|exact (weaker_trans _ _ _ Wr1 Cr)|done].
      * apply list_elem_of_singleton in Hx as ->. split_and!; [done|done|]. injection Hkm as _ _ _ Hkop. done.
  - eexists. split; [done|]. apply table_ok_set; [done|done|done|].
    intros x [Hx|Hx]%elem_of_app Hkx.
    + destruct (H2 x Hx) as [r Hr]. congruence.
    + apply list_elem_of_singleton in Hx as ->. split_and!; [apply weaker_refl..|done].
Qed.

Lemma collect_ok ops : Forall operation_ok ops → ∃ rows, foldM add_row [] (map show_row ops) = Ok rows ∧ table_ok ops rows.
Proof.
  induction ops as [|o ops IH] using rev_ind; intros Hok.
  { exists []. split; [done|]. split; [done|]. by intros o ?%not_elem_of_nil. }
  destruct IH as (rows & Hr & Ht); [by apply Forall_app in Hok as [? _]|].
  rewrite map_app, foldM_app, Hr. cbn [map foldM mbind res_bind].
  destruct (add_row_ok ops rows o Ht Hok) as (rows' & -> & Ht'). by exists rows'.
Qed.

(** C3: a location the survey calls proven overflows in no build, on a target of 32 or
    of 64 bits, but for one rule.  Whatever reports the builds give, if the table has a
    proven record for a source location and operator, then in every build, for all
    operands within their types on that target that satisfy that build's own facts and
    exclusions, the operation stays in the range its type has there (for a division: the
    quotient does, so the least signed number is never divided by -1).  The exception is
    an isize division on a 64-bit target whose reason is that the dividend excludes the
    signed minimum: the rule tests the 32-bit one. *)
Theorem survey_sound output reports table lines record reason o bits t a b :
  bits = 32 ∨ bits = 64 → Forall operation_ok (concat reports) →
  survey output (map (map show_row) reports) = Ok (table, lines) →
  [surface (o_file o); $"proven"; reason; o_file o; o_line o; o_column o; o_operator o] ++ record ∈ tail table →
  o ∈ concat reports → target_range bits (s_type (o_lhs o)) = Some t → operands t o a b →
  ¬ narrow_rule bits (s_type (o_lhs o)) reason →
  ¬ overflows t (o_operator o) a b.
Proof.
  intros Hbits Hok H Hin Ho Ht (Ha & Hb & Hfa & Hfb) Hn. unfold survey, collect in H.
  rewrite <- concat_map in H. destruct (collect_ok _ Hok) as (rows & Hr & Htab). rewrite Hr in H. cbn [mbind res_bind] in H.
  apply bind_Ok_inv in H as (out & Hout & H). apply bind_Ok_inv in H as (classes & _ & H). injection H as <- _.
  cbn [tail] in Hin. apply mapM_res_Forall2 in Hout. apply list_elem_of_lookup_1 in Hin as [i Hi].
  eapply Forall2_lookup_r in Hout as (r & Hri & Hout); [|exact Hi].
  apply list_elem_of_lookup_2 in Hri. unfold ordered in Hri. apply list_elem_of_omap in Hri as (k & _ & Hk).
  destruct Htab as [Htab _]. destruct (Htab k r Hk) as (m & -> & Hm & Hkm & Hcov).
  unfold output_row in Hout. apply bind_Ok_inv in Hout as ([cls why] & Hcls & Hout). injection Hout as _ -> -> H1 H2 H3 H4 _.
  destruct (Hcov o Ho) as (Wl & Wr & Hop).
  { rewrite <- Hkm. unfold key_of. cbn [r_file r_line r_column r_operator show_row] in *. congruence. }
  destruct Wl as [[Hu|Hty] Wl].
  { exfalso. unfold classify in Hcls. cbn [lhs_type show_row] in Hcls. rewrite Hu in Hcls.
    apply bind_Ok_inv in Hcls as (? & _ & Hcls). by apply bind_Ok_inv in Hcls as (? & _ & Hcls). }
  rewrite <- Hop. eapply classify_proven; [exact Hbits|exact Hm| |exact Hcls| |]; [by rewrite Hty|by rewrite Hty|].
  split_and!; [by apply Wl|by apply Wr|done|by rewrite Hop].
Qed.

(** Two builds of [x + 1]: the second knows less. *)
Definition two_builds : list (list operation) :=
  let add x := Operation ($"kernel/a.tkb") ($"3") ($"9") ($"add") (Side ($"u16") (Inclusive 0 65535) x)
                 (Side ($"u16") (Constant 1) []) in
  [[add [65535; 0]]; [add [65535]]].
Definition two_builds_table : list (list str) * list str :=
  match survey ($"out.tsv") (map (map show_row) two_builds) with Ok t => t | Err _ => ([], []) end.

Lemma survey_sound_witness :
  ¬ overflows (0, 65535) ($"add") 65534 1.
Proof.
  eapply (survey_sound ($"out.tsv") two_builds two_builds_table.1 two_builds_table.2
    [$"u16"; $"interval-inclusive:0..65535"; $"65535"; $"u16"; $"constant:1"; $"-"] ($"result-interval-fits-base-type")
    (Operation ($"kernel/a.tkb") ($"3") ($"9") ($"add") (Side ($"u16") (Inclusive 0 65535) [65535]) (Side ($"u16") (Constant 1) [])) 64);
    [by right|by repeat constructor|vm_compute; reflexivity|by_compute|right; by left|by_compute| |by intros (_ & ? & _)].
  split_and!; [split; [done|by_compute]|split; [done|by_compute]|by_compute|by intros [?|?]].
Defined.

(** The 32-bit reading of isize is not sound for division on a 64-bit target,
    where the source's comment says a proof within 32 bits is valid too: there is a
    division of isize operands the classifier calls proven because the dividend
    excludes the least 32-bit number, while the facts allow the least 64-bit number
    divided by -1. *)
Theorem isize_division_unsound :
  ∃ o, operation_ok o ∧ s_type (o_lhs o) = $"isize" ∧ o_operator o = $"div"
    ∧ classify (show_row o) = Ok ($"proven", $"dividend-range-excludes-signed-min")
    ∧ operands (signed 64) o (- 2 ^ 63) (-1) ∧ overflows (signed 64) ($"div") (- 2 ^ 63) (-1).
Proof.
  exists (Operation [] [] [] ($"div") (Side ($"isize") (Range (- 2 ^ 63) (- 2 ^ 31)) []) (Side ($"isize") Unknown [])).
  split; [by repeat constructor|]. split; [done|]. split; [done|]. split; [by_compute|].
  split; [|split; [done|]; intros [_ H]; vm_compute in H; by destruct H].
  split; [split; [by_compute|apply not_elem_of_nil]|]. split; [split; [done|apply not_elem_of_nil]|].
  split; [by_compute|intros _; by_compute].
Qed.

(** The classifier's own controls pass, so [main] reaches the survey, and its
    self-test prints the PASS line. *)
Theorem self_test_survey output reports :
  main true output reports = Ok ([], [$"PASS overflow survey classifier controls"])
  ∧ main false output reports = survey output reports.
Proof. unfold main. replace check_classifier with (@Ok unit ()) by by_compute. done. Qed.
