(* ===== verification/Fuzz.v ===== *)
(** * The compiler fuzzer

    Model of scripts/fuzz_compiler.py: the generated probes with the outputs an
    exact evaluation expects, the C driver, the verdict on one probe, the
    reduction of a failing one, the campaign and its control.  The compiler, the
    host C compiler and the program they make are the parameter [FuzzTools]; the
    clock is the argument [late]. *)
From S2P Require Import Prelude Text Dict Sort Random PassLine.

Definition FAMILIES : list str :=
  [$"refined"; $"arithmetic"; $"array"; $"slice"; $"loop"; $"variant"; $"inclusive"].

Definition RuntimeError (msg : str) : exn := Custom "RuntimeError" msg.

(** ** Probes *)

(** [sorted(set(l))]. *)
Definition sorted_set (l : list Z) : list Z := sorted_Z (remove_dups l).

Definition lines_of (l : list str) : str := concat (map (fun s => s ++ nl) l).

(** The function with the refined parameter that every family declares. *)
Definition prefix (size : Z) : str :=
  lines_of [$"// Generated compiler soundness probe.";
            $"extern fn fuzz_observe(value: i32, lo: i32, hi: i32);";
            $"fn checked(x: {0..<" ++ dec size ++ $" as i32}) -> i32 {";
            $"    fuzz_observe(x, 0, " ++ dec size ++ $");";
            $"    return x;"; $"}"].

Definition in_size (size x : Z) : bool := (0 <=? x) && (x <? size).

(** A bound as the language writes it. *)
Definition bound_text (n : Z) : str := if 0 <=? n then dec n else $"(0 - " ++ dec (- n) ++ $")".

(** The value after one step, and the bounds of the values. *)
Definition apply_step (x : Z) (s : str * Z) : Z :=
  if decide (s.1 = $"+") then x + s.2 else if decide (s.1 = $"-") then x - s.2 else x * s.2.
Definition step_bounds (b : Z * Z) (s : str * Z) : Z * Z :=
  if decide (s.1 = $"+") then (b.1 + s.2, b.2 + s.2)
  else if decide (s.1 = $"-") then (b.1 - s.2, b.2 - s.2)
  else (b.1 * s.2, (b.2 - 1) * s.2 + 1).

Definition calculate (size : Z) (steps : list (str * Z)) (x : Z) : Z :=
  if in_size size x then foldl apply_step x steps else -1.

(** The lines of the steps, with the name of the last value. *)
Fixpoint arith_lines (i : Z) (expression : str) (b : Z * Z) (steps : list (str * Z)) : list str * str :=
  match steps with
  | [] => ([], expression)
  | s :: steps =>
      let b := step_bounds b s in
      let name := $"y" ++ dec i in
      let '(rest, last_) := arith_lines (i + 1) name b steps in
      (($"let " ++ name ++ $": {" ++ bound_text b.1 ++ $"..<" ++ bound_text b.2 ++ $" as i32} = "
        ++ expression ++ $" " ++ s.1 ++ $" " ++ dec s.2 ++ $";")
       :: ($"fuzz_observe(" ++ name ++ $", " ++ dec b.1 ++ $", " ++ dec b.2 ++ $");") :: rest, last_)
  end.

Section generate.
Context {R : Rng}.

Fixpoint draw_steps (n : nat) (r : rng) : list (str * Z) * rng :=
  match n with
  | O => ([], r)
  | S n =>
      let '(op, r) := choice [] [$"+"; $"-"; $"*"] r in
      let '(amount, r) := randint 1 4 r in
      let '(steps, r) := draw_steps n r in ((op, amount) :: steps, r)
  end.

Fixpoint draw_inputs (n : nat) (size : Z) (r : rng) : list Z * rng :=
  match n with
  | O => ([], r)
  | S n => let '(x, r) := randint (-3) (size + 3) r in
           let '(xs, r) := draw_inputs n size r in (x :: xs, r)
  end.

Definition guard (size : Z) : str := $"if (x >= 0 && x < " ++ dec size ++ $") {".

(** The body of [fuzz_entry] and what it answers on an input, by family; the
    variant family adds to the prefix. *)
Definition family_body (family : str) (size bias : Z) (values : list Z) (r : rng)
    : str * str * (Z → Z) * rng :=
  let n := dec size in
  if bool_decide (family = $"refined") || bool_decide (family = $"inclusive") then
    let op := if decide (family = $"inclusive") then $"<=" else $"<" in
    ([], $"if (x >= 0 && x " ++ op ++ $" " ++ n ++ $") { return checked(x); }",
     fun x => if in_size (size + (if decide (op = $"<=") then 1 else 0)) x then x else -1, r)
  else if decide (family = $"arithmetic") then
    let '(count, r) := randint 1 5 r in
    let '(steps, r) := draw_steps (Z.to_nat count) r in
    let '(operations, expression) := arith_lines 0 ($"x") (0, size) steps in
    ([], guard size ++ nl ++ join nl operations ++ nl ++ $"return " ++ expression ++ $";" ++ nl ++ $"}",
     calculate size steps, r)
  else if bool_decide (family = $"array") || bool_decide (family = $"slice") then
    let place := if decide (family = $"slice") then $"s" else $"a" in
    ([], $"let mut a: [i32; " ++ n ++ $"] = {" ++ join ($", ") (map dec values) ++ $"};" ++ nl
         ++ (if decide (family = $"slice") then $"let s: []i32 = a as []i32;" ++ nl else [])
         ++ guard size ++ nl ++ $"    checked(x);" ++ nl ++ $"    return " ++ place ++ $"[x as usize];" ++ nl ++ $"}",
     fun x => if in_size size x then default (-1) (values !! Z.to_nat x) else -1, r)
  else if decide (family = $"loop") then
    ([], $"let mut a: [i32; " ++ n ++ $"];" ++ nl ++ $"for i: usize in 0..<" ++ n ++ $" {" ++ nl
         ++ $"    fuzz_observe(i as i32, 0, " ++ n ++ $");" ++ nl ++ $"    a[i] = " ++ dec bias ++ $" + i as i32;" ++ nl
         ++ $"}" ++ nl ++ guard size ++ $" return a[x as usize]; }",
     fun x => if in_size size x then bias + x else -1, r)
  else
    (lines_of [$"variant Choice { Value(i32); Missing; }"; $"fn choose(x: i32) -> Choice {";
               $"    " ++ guard size ++ $" return Choice::Value(checked(x)); }"; $"    return Choice::Missing;"; $"}"],
     join nl [$"    let v: Choice = choose(x);"; $"    match v {";
              $"        Choice::Value(n) => { return n + " ++ dec bias ++ $"; }";
              $"        Choice::Missing => { return -1; }"; $"    }"],
     fun x => if in_size size x then x + bias else -1, r).

Definition generate (r : rng) (family : str) : str * list (Z * Z) * rng :=
  let '(size, r) := randint 2 12 r in
  let '(bias, r) := randint 1 20 r in
  let values := map (fun i => bias + i * 3) (zrange size) in
  let '(drawn, r) := draw_inputs 5 size r in
  let inputs := sorted_set ([-2; -1; 0; 1; size - 1; size; size + 1] ++ drawn) in
  let '(extra, body, answer, r) := family_body family size bias values r in
  (prefix size ++ extra ++ $"fn fuzz_entry(x: i32) -> i32 {" ++ nl ++ body ++ nl ++ $"return -1;" ++ nl ++ $"}" ++ nl,
   map (fun x => (x, answer x)) inputs, r).
End generate.

(** A double quote, and the C escape of a line break. *)
Definition q : str := [34].
Definition bn : str := [92] ++ $"n".

Definition driver (pairs : list (Z * Z)) : str :=
  lines_of [$"/* Independent oracle: compiled by the host C compiler. */"; $"#include <stdint.h>"; $"#include <stdio.h>";
    $"#include <stdlib.h>"; $"extern int32_t fuzz_entry(int32_t);";
    $"void fuzz_observe(int32_t value, int32_t lo, int32_t hi) {";
    $"    if (value < lo || value >= hi) {";
    $"        fprintf(stderr, " ++ q ++ $"refinement violated: %d outside [%d,%d)" ++ bn ++ q ++ $", value, lo, hi);";
    $"        exit(90);"; $"    }"; $"}"; $"int main(void) {"]
  ++ $"    const int32_t cases[][2] = {"
  ++ join ($"," ++ nl) (map (fun p => $"{" ++ dec p.1 ++ $", " ++ dec p.2 ++ $"}") pairs) ++ $"};" ++ nl
  ++ lines_of [$"    for (unsigned i = 0; i < sizeof(cases) / sizeof(cases[0]); ++i) {";
    $"        int32_t actual = fuzz_entry(cases[i][0]);"; $"        if (actual != cases[i][1]) {";
    $"            fprintf(stderr, " ++ q ++ $"result mismatch: input=%d expected=%d actual=%d" ++ bn ++ q ++ $",";
    $"                    cases[i][0], cases[i][1], actual);"; $"            return 91;"; $"        }"; $"    }";
    $"    return 0;"; $"}"].

(** ** One probe *)

(** The three commands, with their status and output; on a timeout, the text of the command
    line that was stopped. *)
Class FuzzTools := {
  compile : str → str + (Z * str);
  link : str → str → str + (Z * str);
  execute : str → str → str + (Z * str)
}.

(** [re.search] of File ".*", line \d+, character \d+: in one line. *)
Fixpoint any_suffix (f : str → bool) (s : str) : bool :=
  f s || match s with [] => false | _ :: s => any_suffix f s end.
Definition location_tail (s : str) : bool :=
  match match_numbers [q ++ $", line "; $", character "] s with
  | Some (_, rest) => startswith rest ($":")
  | None => false
  end.
Definition has_location (output : str) : bool :=
  existsb (any_suffix (fun s => match strip_prefix ($"File " ++ q) s with
                                | Some rest => any_suffix location_tail rest
                                | None => false
                                end)) (split_on 10 output).

Definition compile_verdict (status : Z) (output : str) : str :=
  if (status <? 0) || existsb (fun w => contains w output) [$"BUG"; $"Fatal error"; $"LLVM ERROR"]
  then $"compiler-failure" else
  if contains ($"Syntax error") output then $"generator-failure" else
  if negb (contains ($"Error:") output) && negb (contains ($"error:") output) && negb (has_location output)
  then $"compiler-failure" else $"rejected".

Section campaign.
Context {R : Rng}.

Definition evaluate {T : FuzzTools} (source harness : str) : str * str :=
  let timeout cmd := ($"timeout", $"command timed out: " ++ cmd) in
  match compile source with
  | inl cmd => timeout cmd
  | inr (status, output) =>
      if negb (status =? 0) then (compile_verdict status output, output) else
      match link source harness with
      | inl cmd => timeout cmd
      | inr (status, output) =>
          if negb (status =? 0) then ($"link-failure", output) else
          match execute source harness with
          | inl cmd => timeout cmd
          | inr (status, output) =>
              let output := if negb (status =? 0) && bool_decide (output = [])
                            then $"execution failed: exit=" ++ dec status ++ nl else output in
              (if status =? 0 then $"accepted" else $"runtime-failure", output)
          end
      end
  end.

(** ** Reduction *)

(** [s.split(":", 1)[0]]. *)
Definition before_colon (s : str) : str := (span (fun c => negb (c =? 58)) s).1.

(** Whether a candidate fails as the original did. *)
Definition same_failure {T : FuzzTools} (harness diagnosis : str) (candidate : list str) : bool :=
  let '(status, detail) := evaluate (concat candidate) harness in
  bool_decide (status = $"runtime-failure") && bool_decide (before_colon detail = diagnosis).

(** The deletions of one width: the reduced lines if one is kept, and the attempts. *)
Fixpoint try_deletions {T : FuzzTools} (harness diagnosis : str) (lines : list str) (width budget : Z)
    (starts : list Z) (attempts : Z) : option (list str) * Z :=
  match starts with
  | [] => (None, attempts)
  | start :: starts =>
      let candidate := slice lines 0 start ++ from lines (start + width) in
      let attempts := attempts + 1 in
      if same_failure harness diagnosis candidate then (Some candidate, attempts)
      else if budget <=? attempts then (None, attempts)
      else try_deletions harness diagnosis lines width budget starts attempts
  end.

Definition minimize_body {T : FuzzTools} (harness diagnosis : str) (budget : Z) (st : list str * Z * Z)
    : flow (list str * Z * Z) (res (list str)) :=
  let '(lines, width, attempts) := st in
  if negb (width =? 0) && (attempts <? budget) then
    match try_deletions harness diagnosis lines width budget (py_range 0 (zlen lines) width) attempts with
    | (Some lines, attempts) => Next (lines, width, attempts)
    | (None, attempts) => Next (lines, width / 2, attempts)
    end
  else Stop (Ok lines).

Definition minimize {T : FuzzTools} (source harness failure_detail : str) (budget : Z) : res str :=
  let lines := splitlines_keep source in
  let width := Z.max 1 (zlen lines / 2) in
  lines ← while (S (Z.to_nat budget + Z.to_nat width)) (minimize_body harness (before_colon failure_detail) budget)
            (lines, width, 0);
  Ok (concat lines).

(** ** The campaign *)

Record failure := Failure { f_case : Z; f_family : str; f_status : str; f_detail : str; f_minimized : option str; f_harness : str }.
Record summary := Summary {
  accepted : Z; rejected : Z; families : list (str * Z); executed_families : list (str * Z); failed : option failure
}.
Definition count_in (k : str) (d : list (str * Z)) : list (str * Z) := dset k (default 0 (dget k d) + 1) d.

(** One case; [true] when the loop breaks. *)
Definition run_case {T : FuzzTools} (reduce : bool) (index : Z) (s : summary) (r : rng) : res (summary * rng * bool) :=
  family ← item FAMILIES (index mod zlen FAMILIES);
  let '(source, pairs, r) := generate r family in
  let harness := driver pairs in
  let '(status, detail) := evaluate source harness in
  let fams := count_in family (families s) in
  if bool_decide (status ∈ [$"accepted"; $"rejected"]) then
    Ok (if decide (status = $"accepted")
        then Summary (accepted s + 1) (rejected s) fams (count_in family (executed_families s)) None
        else Summary (accepted s) (rejected s + 1) fams (executed_families s) None, r, false)
  else
    minimized ← (if reduce && bool_decide (status = $"runtime-failure")
                 then m ← minimize source harness detail 64; Ok (Some m) else Ok None);
    Ok (Summary (accepted s) (rejected s) fams (executed_families s)
          (Some (Failure index family status detail minimized harness)), r, true).

(** [late i] is whether the deadline has passed before case [i]. *)
Fixpoint run_cases {T : FuzzTools} (late : Z → bool) (overdue : exn) (reduce : bool) (indexes : list Z)
    (s : summary) (r : rng) : res summary :=
  match indexes with
  | [] => Ok s
  | index :: indexes =>
      if late index then Err overdue else
      '(s, r, over) ← run_case reduce index s r;
      if (over : bool) then Ok s else run_cases late overdue reduce indexes s r
  end.

Definition campaign {T : FuzzTools} (late : Z → bool) (seconds : str) (seed cases : Z) : res summary :=
  run_cases late
    (RuntimeError ($"campaign exceeded " ++ seconds ++ $"s before completing " ++ dec cases ++ $" cases"))
    true (zrange cases) (Summary 0 0 [] [] None) (seeded seed).

(** The control: the campaign with the mutant compiler ([None] when it was not
    built for this commit), then the minimized probe with both. *)
Definition seeded_control (original : FuzzTools) (mutant : option FuzzTools) (late : Z → bool) (commit scratch : str) (seed : Z)
    : res str :=
  mutant ← of_option (RuntimeError ($"no mutant compiler for HEAD " ++ commit ++ $" in " ++ scratch
             ++ $"; run scripts/fuzz_compiler.py --build-mutant first")) mutant;
  result ← campaign (T := mutant) late ($"60") seed 14;
  let missed := RuntimeError ($"seeded control did not find the injected interval defect") in
  f ← of_option missed (failed result);
  _ ← require (bool_decide (f_status f = $"runtime-failure") && contains ($"refinement violated:") (f_detail f)) missed;
  minimized ← of_option (Custom "OSError" []) (f_minimized f);
  let '(status, detail) := evaluate (T := mutant) minimized (f_harness f) in
  _ ← require (bool_decide (status = $"runtime-failure") && contains ($"refinement violated:") detail)
        (RuntimeError ($"minimized counterexample did not reproduce the seeded defect"));
  let '(status, detail) := evaluate (T := original) minimized (f_harness f) in
  _ ← require (bool_decide (status = $"rejected") && contains ($"refined int range mismatch") detail)
        (RuntimeError ($"original compiler did not reject the minimized seeded defect"));
  Ok ($"PASS compiler-fuzz control: injected <= defect found at case " ++ dec (f_case f) ++ $"; minimized source retained").

(** [main] after argparse, without --build-mutant: the status and what it reports. *)
Inductive verdict : Type :=
| Failing (f : failure) | Stopped (msg : str) | Passing (control : option str) (s : summary).

Definition main (original : FuzzTools) (mutant : option FuzzTools) (late late_control : Z → bool)
    (seconds commit scratch : str) (seed cases : Z) (control : bool) : res (Z * verdict) :=
  let body :=
    result ← campaign (T := original) late seconds seed cases;
    match failed result with
    | Some f => Ok (1, Failing f)
    | None =>
        _ ← require (negb (accepted result =? 0)) (RuntimeError ($"no accepted program was executed"));
        let missing := filter (fun f => f ∉ map fst (executed_families result)) (slice FAMILIES 0 6) in
        _ ← require (bool_decide (missing = []))
              (RuntimeError ($"no executed program for families: [" ++ join ($", ")
                 (map (fun f => $"'" ++ f ++ $"'") (py_sorted str_le missing)) ++ $"]"));
        line ← (if control then
                  l ← seeded_control original mutant late_control commit scratch seed; Ok (Some l)
                else Ok None);
        Ok (0, Passing line result)
    end in
  match body with
  | Err (Custom cls msg) =>
      if bool_decide (cls = "RuntimeError"%string) || bool_decide (cls = "OSError"%string)
      then Ok (1, Stopped msg) else Err (Custom cls msg)
  | r => r
  end.
End campaign.
