(* ===== verification/FuzzFacts.v ===== *)
(** * Facts about the compiler fuzzer

    The bounds the arithmetic probes declare are the exact hull of their values,
    and every expected output is an i32; the reduction of a failing probe ends with
    a part of it that fails in the same way; and a passing campaign accounts for
    every case. *)
From S2P Require Import Prelude Text Dict Sort Random PassLine Fuzz.

(** ** The oracle *)

Definition step_ok (s : str * Z) : Prop := (s.1 = $"+" ∨ s.1 = $"-" ∨ s.1 = $"*") ∧ 1 ≤ s.2 ≤ 4.

Lemma step_exact b x s :
  step_ok s → b.1 ≤ x < b.2 → (step_bounds b s).1 ≤ apply_step x s < (step_bounds b s).2.
Proof.
  intros [_ Hn] Hx. unfold step_bounds, apply_step. destruct (decide (s.1 = $"+")); [cbn; lia|].
  destruct (decide (s.1 = $"-")); [cbn; lia|]. cbn. nia.
Qed.

Lemma step_ends b s :
  (step_bounds b s).1 = apply_step b.1 s ∧ (step_bounds b s).2 - 1 = apply_step (b.2 - 1) s.
Proof.
  unfold step_bounds, apply_step. destruct (decide (s.1 = $"+")); [cbn; lia|].
  destruct (decide (s.1 = $"-")); [cbn; lia|]. cbn. lia.
Qed.

(** Each step grows a magnitude at most to four times it and four. *)
Lemma step_magnitude x s m : step_ok s → Z.abs x ≤ m → Z.abs (apply_step x s) ≤ 4 * m + 4.
Proof.
  intros [_ Hn] Hx. unfold apply_step. destruct (decide (s.1 = $"+")); [lia|]. destruct (decide (s.1 = $"-")); [lia|].
  rewrite Z.abs_mul. nia.
Qed.

Fixpoint grow (n : nat) (m : Z) : Z := match n with O => m | S n => grow n (4 * m + 4) end.

Lemma steps_magnitude steps x m :
  Forall step_ok steps → Z.abs x ≤ m → Z.abs (foldl apply_step x steps) ≤ grow (length steps) m.
Proof.
  intros H. revert x m. induction H as [|s steps Hs Hss IH]; intros x m Hx; cbn; [done|]. apply IH. by apply step_magnitude.
Qed.

Lemma grow_mono n n' m : (n ≤ n')%nat → 0 ≤ m → grow n m ≤ grow n' m.
Proof.
  intros Hn. revert n m Hn. induction n' as [|n' IH]; intros [|n] m Hn Hm; cbn; [lia|lia| |apply IH; lia].
  assert (∀ k p, 0 ≤ p → p ≤ grow k p) as Hg.
  { induction k as [|k IHk]; intros p Hp; cbn; [done|]. pose proof (IHk (4 * p + 4) ltac:(lia)). lia. }
  pose proof (Hg n' (4 * m + 4) ltac:(lia)). lia.
Qed.

(** The bounds an arithmetic probe declares are exact.  For any steps the
    generator can draw (amounts 1 to 4), the values of the inputs 0 up to size stay
    within the bounds after every step, and both ends are met by an input; and with
    at most five steps from a size of at most 12 no value leaves i32, so the
    mathematical result is the program's. *)
Theorem arithmetic_bounds_exact size steps x :
  1 ≤ size ≤ 12 → Forall step_ok steps → in_size size x = true →
  let b := foldl step_bounds (0, size) steps in
  b.1 ≤ calculate size steps x < b.2 ∧ b.1 = calculate size steps 0 ∧ b.2 - 1 = calculate size steps (size - 1)
  ∧ ((length steps ≤ 5)%nat → - 2 ^ 31 < calculate size steps x < 2 ^ 31).
Proof.
  intros Hsize Hs Hx b. unfold calculate. rewrite Hx.
  unfold in_size in Hx. assert (in_size size 0 = true ∧ in_size size (size - 1) = true) as [-> ->] by (unfold in_size; lia).
  assert (∀ b0 y, b0.1 ≤ y < b0.2 → (foldl step_bounds b0 steps).1 ≤ foldl apply_step y steps < (foldl step_bounds b0 steps).2
    ∧ (foldl step_bounds b0 steps).1 = foldl apply_step b0.1 steps
    ∧ (foldl step_bounds b0 steps).2 - 1 = foldl apply_step (b0.2 - 1) steps) as H.
  { clear b Hx. induction Hs as [|s steps Hs Hss IH]; intros b0 y Hy; [cbn; lia|]. cbn [foldl].
    destruct (step_ends b0 s) as [H1 H2]. rewrite <- H1, <- H2. apply IH. by apply step_exact. }
  destruct (H (0, size) x) as (H1 & H2 & H3); [cbn; lia|]. cbn [fst snd] in *. subst b.
  split; [exact H1|]. split; [exact H2|]. split; [exact H3|].
  intros Hlen; pose proof (steps_magnitude steps x 12 Hs ltac:(lia)) as Hm;
    pose proof (grow_mono _ 5 12 Hlen ltac:(lia)) as Hg; change (grow 5 12) with 13652 in Hg; lia.
Qed.

Lemma arithmetic_bounds_exact_witness :
  calculate 4 [($"-", 2); ($"*", 3)] 1 = -3 ∧ foldl step_bounds (0, 4) [($"-", 2); ($"*", 3)] = (-6, 4)
  ∧ -6 = calculate 4 [($"-", 2); ($"*", 3)] 0.
Proof.
  destruct (arithmetic_bounds_exact 4 [($"-", 2); ($"*", 3)] 1) as (_ & H & _);
    [lia|repeat constructor; cbn; auto; lia|done|].
  apply conj; [by_compute|]. apply conj; [by_compute|]. exact H.
Defined.

Lemma sorted_set_elem x l : x ∈ sorted_set l ↔ x ∈ l.
Proof. unfold sorted_set. by rewrite sorted_Z_perm, elem_of_remove_dups. Qed.

Section probes.
Context {R : Rng} {HR : RngLaw R}.

Lemma draw_inputs_in n size r xs r' : 2 ≤ size → draw_inputs n size r = (xs, r') → Forall (fun x => -3 ≤ x ≤ size + 3) xs.
Proof.
  intros Hs. revert r xs r'. induction n as [|n IH]; intros r xs r'; cbn [draw_inputs]; [by intros [= <- _]|].
  destruct (randint (-3) (size + 3) r) as [x r1] eqn:E. destruct (draw_inputs n size r1) as [ys r2] eqn:E'.
  intros [= <- _]. apply randint_in in E; [|lia]. constructor; [done|by eapply IH].
Qed.

Lemma draw_steps_ok n r steps r' : draw_steps n r = (steps, r') → Forall step_ok steps ∧ length steps = n.
Proof.
  revert r steps r'. induction n as [|n IH]; intros r steps r'; cbn [draw_steps]; [by intros [= <- _]|].
  destruct (choice _ _ r) as [op r1] eqn:E1. destruct (randint 1 4 r1) as [k r2] eqn:E2.
  destruct (draw_steps n r2) as [rest r3] eqn:E3. intros [= <- _]. apply choice_in in E1; [|done].
  apply randint_in in E2; [|lia]. destruct (IH _ _ _ E3) as [H1 H2]. split; [|cbn; lia]. constructor; [|done].
  rewrite !elem_of_cons in E1. split; cbn; [|lia]. destruct E1 as [->|[->|[->|H%not_elem_of_nil]]]; auto; done.
Qed.

(** What a family answers outside its guard, and within i32. *)
Lemma family_answers family size bias values r extra body answer r' x :
  2 ≤ size ≤ 12 → 1 ≤ bias ≤ 20 → values = map (fun i => bias + i * 3) (zrange size) →
  family_body family size bias values r = (extra, body, answer, r') → -3 ≤ x ≤ size + 3 →
  - 2 ^ 31 < answer x < 2 ^ 31 ∧ (x < 0 ∨ size < x → answer x = -1)
  ∧ (x = size → family ≠ $"inclusive" → answer x = -1).
Proof.
  intros Hsize Hbias Hv H Hx. unfold family_body in H.
  destruct (bool_decide (family = $"refined") || bool_decide (family = $"inclusive")) eqn:E1.
  { injection H as _ _ <- _. unfold in_size. destruct (decide (family = $"inclusive")) as [->|Hne].
    - rewrite decide_True by done. destruct (_ && _) eqn:E; split_and!; try done; lia.
    - rewrite decide_False by by_compute. destruct (_ && _) eqn:E; split_and!; try done; lia. }
  destruct (decide (family = $"arithmetic")).
  { destruct (randint 1 5 r) as [count r1] eqn:Ec. destruct (draw_steps (Z.to_nat count) r1) as [steps r2] eqn:Es.
    destruct (arith_lines _ _ _ _) as [operations expression]. injection H as _ _ <- _.
    apply randint_in in Ec; [|lia]. apply draw_steps_ok in Es as [Hok Hlen]. unfold calculate.
    destruct (in_size size x) eqn:E; unfold in_size in E; [|split_and!; try done; lia].
    pose proof (steps_magnitude steps x 12 Hok ltac:(lia)) as Hm.
    pose proof (grow_mono (length steps) 5 12 ltac:(lia) ltac:(lia)) as Hg. change (grow 5 12) with 13652 in Hg. lia. }
  destruct (bool_decide (family = $"array") || bool_decide (family = $"slice")).
  { injection H as _ _ <- _. destruct (in_size size x) eqn:E; unfold in_size in E; [|split_and!; try done; lia].
    assert (- 2 ^ 31 < default (-1) (values !! Z.to_nat x) < 2 ^ 31); [|split_and!; lia].
    subst values. rewrite list_lookup_fmap, zrange_seq, list_lookup_fmap.
    destruct (seq 0 (Z.to_nat size) !! Z.to_nat x) as [i|] eqn:Ei; cbn; [|lia].
    apply lookup_seq in Ei as [-> ?]. lia. }
  destruct (decide (family = $"loop")); injection H as _ _ <- _;
    (destruct (in_size size x) eqn:E; unfold in_size in E; [split_and!; lia|split_and!; try done; lia]).
Qed.

(** Every probe's table is exact and covers the borders.  For any family and any
    source of random numbers within its ranges, the inputs of a generated probe
    hold the borders 0, size-1, size and their neighbours, the expected outputs
    are i32 values, and an input outside the guard is expected to answer -1. *)
Lemma generated_cases r family source pairs r' :
  generate r family = (source, pairs, r') →
  ∃ size, 2 ≤ size ≤ 12 ∧ (∀ x, x ∈ [-2; -1; 0; 1; size - 1; size; size + 1] → x ∈ map fst pairs)
    ∧ ∀ x y, (x, y) ∈ pairs → - 2 ^ 31 < y < 2 ^ 31 ∧ (x < 0 ∨ size < x → y = -1)
        ∧ (x = size → family ≠ $"inclusive" → y = -1).
Proof.
  unfold generate. destruct (randint 2 12 r) as [size r1] eqn:E1. destruct (randint 1 20 r1) as [bias r2] eqn:E2.
  destruct (draw_inputs 5 size r2) as [drawn r3] eqn:E3.
  set (values := map (fun i => bias + i * 3) (zrange size)). set (borders := [_; _; _; _; _; _; _]).
  destruct (family_body family size bias values r3) as [[[extra body] answer] r4] eqn:E4. intros [= _ <- _].
  apply randint_in in E1, E2; [|lia..]. apply draw_inputs_in in E3; [|lia]. exists size. split; [done|]. split.
  - intros x Hx. rewrite map_map. cbn [fst]. rewrite map_id, sorted_set_elem.
    change (x ∈ borders ++ drawn). apply elem_of_app. by left.
  - intros x y (z & [= -> ->] & Hz)%list_elem_of_fmap. rewrite sorted_set_elem in Hz.
    change (z ∈ borders ++ drawn) in Hz. eapply family_answers; [done|done|reflexivity|exact E4|].
    rewrite Forall_forall in E3. apply elem_of_app in Hz as [Hz|Hz]; [|by apply E3].
    unfold borders in Hz. rewrite !elem_of_cons in Hz.
    destruct Hz as [->|[->|[->|[->|[->|[->|[->|Hz%not_elem_of_nil]]]]]]]; lia || done.
Qed.
End probes.

(** ** Reduction *)

Lemma delete_sublist {A} (l : list A) a b : 0 ≤ b → slice l 0 a ++ from l (a + b) `sublist_of` l.
Proof.
  intros Hb. unfold slice, from. rewrite drop_0, Z.sub_0_r. rewrite <- (take_drop (Z.to_nat a) l) at 3.
  apply sublist_app; [done|].
  replace (Z.to_nat (a + b)) with (Z.to_nat a + (Z.to_nat (a + b) - Z.to_nat a))%nat by lia.
  rewrite <- drop_drop. apply sublist_drop.
Qed.

Section reduction.
Context {T : FuzzTools} (harness diagnosis : str) (budget : Z).

(** A deletion that is kept is a shorter program that fails in the same way. *)
Lemma try_deletions_spec lines width starts attempts out attempts' :
  0 ≤ width → try_deletions harness diagnosis lines width budget starts attempts = (out, attempts') →
  (starts ≠ [] → attempts < attempts') ∧ attempts ≤ attempts'
  ∧ match out with
    | Some c => starts ≠ [] ∧ c `sublist_of` lines ∧ same_failure harness diagnosis c = true
    | None => True
    end.
Proof.
  intros Hw. revert attempts. induction starts as [|start starts IH]; intros attempts; cbn [try_deletions].
  { intros [= <- <-]. split_and!; done. }
  set (candidate := slice lines 0 start ++ from lines (start + width)).
  destruct (same_failure harness diagnosis candidate) eqn:E.
  { intros [= <- <-]. split; [lia|]. split; [lia|]. split; [done|]. split; [by apply delete_sublist|done]. }
  destruct (budget <=? attempts + 1); [intros [= <- <-]; split_and!; done || lia|].
  intros H. apply IH in H as (_ & H1 & H2). split; [lia|]. split; [lia|]. destruct out; [|done]. naive_solver.
Qed.

Lemma minimize_loop lines width :
  0 ≤ width → same_failure harness diagnosis lines = true →
  ∃ out, while (S (Z.to_nat budget + Z.to_nat width)) (minimize_body harness diagnosis budget) (lines, width, 0) = Ok out
    ∧ out `sublist_of` lines ∧ same_failure harness diagnosis out = true.
Proof.
  intros Hw Hf.
  apply (while_total _ (fun st => let '(l, w, a) := st in
            0 ≤ w ∧ l `sublist_of` lines ∧ same_failure harness diagnosis l = true)
    (fun r => ∃ out, r = Ok out ∧ out `sublist_of` lines ∧ same_failure harness diagnosis out = true)
    (fun st => let '(l, w, a) := st in (Z.to_nat (budget - a) + Z.to_nat w)%nat)); [|done|lia].
  intros [[l w] a] (Hw0 & Hl & Hs). unfold minimize_body.
  destruct (negb (w =? 0) && (a <? budget)) eqn:E; [|by exists l].
  apply andb_true_iff in E as [E1%negb_true_iff E2]. apply Z.eqb_neq in E1. apply Z.ltb_lt in E2.
  destruct (try_deletions _ _ _ _ _ _ _) as [[c|] a'] eqn:Et; apply try_deletions_spec in Et as (H1 & H2 & H3); [|done| |done].
  - destruct H3 as (Hne & Hc & Hsame). specialize (H1 Hne). split; [|lia].
    split; [done|]. split; [by etrans|done].
  - assert (w / 2 < w) by (apply Z.div_lt; lia). assert (0 ≤ w / 2) by (apply Z.div_pos; lia). split; [done|lia].
Qed.
End reduction.

(** C21: the reduction ends with a part of the program that fails in the same way.
    For a probe that fails at run time, [minimize] returns, for every budget of
    attempts, a program made of some of its lines, in order, that still fails at
    run time with the same diagnosis under the unchanged driver. *)
Theorem minimize_sound {T : FuzzTools} source harness detail budget :
  evaluate source harness = ($"runtime-failure", detail) →
  ∃ result kept detail', minimize source harness detail budget = Ok result
    ∧ result = concat kept ∧ kept `sublist_of` splitlines_keep source
    ∧ evaluate result harness = ($"runtime-failure", detail') ∧ before_colon detail' = before_colon detail.
Proof.
  intros He. unfold minimize.
  destruct (minimize_loop harness (before_colon detail) budget (splitlines_keep source)
              (Z.max 1 (zlen (splitlines_keep source) / 2))) as (out & -> & Hsub & Hsame).
  { lia. }
  { unfold same_failure. rewrite concat_splitlines_keep, He. by rewrite !bool_decide_eq_true_2. }
  unfold same_failure in Hsame. destruct (evaluate (concat out) harness) as [status detail'] eqn:Eo.
  apply andb_true_iff in Hsame as [Hst%bool_decide_eq_true Hd%bool_decide_eq_true]. subst status.
  exists (concat out), out, detail'. done.
Qed.

(** A compiler whose programs fail while they hold the letter b. *)
Definition fragile_tools : FuzzTools := {|
  compile _ := inr (0, []); link _ _ := inr (0, []);
  execute source _ := if contains ($"b") source then inr (90, $"refinement violated: 1") else inr (0, [])
|}.

Lemma minimize_sound_witness :
  ∃ result kept detail', minimize (T := fragile_tools) (lines_of [$"a"; $"b"; $"c"; $"d"]) [] ($"refinement violated: 1") 64
      = Ok result
    ∧ result = concat kept ∧ kept `sublist_of` splitlines_keep (lines_of [$"a"; $"b"; $"c"; $"d"])
    ∧ evaluate (T := fragile_tools) result [] = ($"runtime-failure", detail')
    ∧ before_colon detail' = before_colon ($"refinement violated: 1").
Proof. apply (minimize_sound (T := fragile_tools)). by_compute. Defined.

(** ** A passing campaign *)

Definition total (d : list (str * Z)) : Z := foldr Z.add 0 (map snd d).

Lemma total_count_in k d : NoDup (map fst d) → total (count_in k d) = total d + 1.
Proof.
  unfold count_in, total. induction d as [|[k' v] d IH]; intros Hn; cbn; [done|].
  apply NoDup_cons in Hn as [Hk Hn]. destruct (decide (k' = k)) as [->|Hne]; cbn; [lia|]. rewrite IH by done. lia.
Qed.

(** The books of a campaign that has not failed after [n] cases. *)
Record balanced (n : Z) (s : summary) : Prop := {
  b_cases : accepted s + rejected s = n;
  b_families : NoDup (map fst (families s)) ∧ total (families s) = n;
  b_executed : NoDup (map fst (executed_families s)) ∧ total (executed_families s) = accepted s;
  b_positive : 0 ≤ accepted s ∧ 0 ≤ rejected s;
  b_going : failed s = None
}.

Lemma balanced_start : balanced 0 (Summary 0 0 [] [] None).
Proof. split; cbn; [done|split; [constructor|done]|split; [constructor|done]|done|done]. Qed.

Section passing.
Context {R : Rng}.

Lemma run_case_balanced {T : FuzzTools} reduce index s r s' r' over n :
  balanced n s → run_case reduce index s r = Ok (s', r', over) →
  if (over : bool) then is_Some (failed s') else balanced (n + 1) s'.
Proof.
  intros [H1 [H2 H2'] [H3 H3'] [H4 H4'] H5] H. unfold run_case in H. apply bind_Ok_inv in H as (family & _ & H).
  destruct (generate r family) as [[source pairs] r1]. destruct (evaluate source (driver pairs)) as [status detail].
  destruct (bool_decide (status ∈ _)) eqn:E.
  - injection H as <- <- <-. destruct (decide (status = $"accepted")); split; cbn [accepted rejected families executed_families failed];
      rewrite ?total_count_in by done; try lia; try done.
    + split; [by apply dset_NoDup|lia].
    + split; [by apply dset_NoDup|lia].
    + split; [by apply dset_NoDup|lia].
  - apply bind_Ok_inv in H as (minimized & _ & [= <- <- <-]). done.
Qed.

Lemma run_cases_balanced {T : FuzzTools} late overdue reduce indexes s r s' n :
  balanced n s → run_cases late overdue reduce indexes s r = Ok s' →
  is_Some (failed s') ∨ balanced (n + zlen indexes) s'.
Proof.
  revert s r n. induction indexes as [|index indexes IH]; intros s r n Hb; cbn [run_cases].
  - intros [= <-]. right. by rewrite zlen_nil, Z.add_0_r.
  - destruct (late index); [done|]. intros H. apply bind_Ok_inv in H as ([[s1 r1] over] & Hc & H).
    pose proof (run_case_balanced _ _ _ _ _ _ _ _ Hb Hc) as Hs. destruct over; [injection H as <-; by left|].
    destruct (IH _ _ _ Hs H) as [?|H']; [by left|right]. rewrite zlen_cons. by replace (n + (1 + zlen indexes)) with (n + 1 + zlen indexes) by lia.
Qed.

(** A PASS accounts for every case.  When [main] exits 0, no case failed, each
    of the cases was accepted and run or rejected by the compiler, at least one was
    run, the cases per family sum to all of them and the executed ones per family to
    the accepted, and every family but the one that probes rejection was executed. *)
Theorem pass_accounts original mutant late late_control seconds commit scratch seed cases control v :
  0 ≤ cases →
  main original mutant late late_control seconds commit scratch seed cases control = Ok (0, v) →
  ∃ line s, v = Passing line s ∧ balanced cases s ∧ 0 < accepted s
    ∧ (∀ f, f ∈ FAMILIES → f ≠ $"inclusive" → f ∈ map fst (executed_families s))
    ∧ (control = true → is_Some line).
Proof.
  intros Hcases H. unfold main in H.
  destruct (campaign late seconds seed cases) as [s|e] eqn:Ec; cbn [mbind res_bind] in H.
  2: { destruct e; try done. destruct (_ || _); [|done]. by injection H. }
  destruct (failed s) as [f|] eqn:Ef; [by injection H|].
  unfold campaign in Ec. apply (run_cases_balanced _ _ _ _ _ _ _ 0) in Ec as [[? ?]|Hb]; [congruence| |by apply balanced_start].
  rewrite Z.add_0_l in Hb. assert (zlen (zrange cases) = cases) as Hl.
  { unfold zlen. rewrite zrange_seq, length_map, length_seq. lia. }
  rewrite Hl in Hb. destruct (accepted s =? 0) eqn:Ea; cbn [negb require mbind res_bind] in H; [by injection H|].
  set (missing := filter _ _) in H. destruct (bool_decide (missing = [])) eqn:Em; cbn [require mbind res_bind] in H.
  2: { by injection H. }
  apply bool_decide_eq_true in Em.
  assert (∀ f, f ∈ FAMILIES → f ≠ $"inclusive" → f ∈ map fst (executed_families s)) as Hfam.
  { intros f Hf Hne. destruct (decide (f ∈ map fst (executed_families s))); [done|]. exfalso.
    apply (not_elem_of_nil f). rewrite <- Em. apply list_elem_of_filter. split; [done|].
    unfold FAMILIES in *. change (slice _ 0 6) with [$"refined"; $"arithmetic"; $"array"; $"slice"; $"loop"; $"variant"].
    rewrite !elem_of_cons in *. tauto. }
  assert (0 < accepted s) as Hpos by (destruct Hb as [_ _ _ [] _]; lia).
  destruct control; cbn [mbind res_bind] in H.
  - destruct (seeded_control _ _ _ _ _ _) as [l|e]; cbn [mbind res_bind] in H.
    + injection H as <-. exists (Some l), s. split_and!; [done|done|done|done|done].
    + destruct e; try done. destruct (_ || _); [|done]. by injection H.
  - injection H as <-. exists None, s. split_and!; [done|done|done|done|done].
Qed.
End passing.

(** A compiler that accepts every probe and compiles it right. *)
Definition right_tools : FuzzTools := {| compile _ := inr (0, []); link _ _ := inr (0, []); execute _ _ := inr (0, []) |}.
Definition right_summary : summary :=
  let once := map (fun f => (f, 1)) FAMILIES in Summary 7 0 once once None.

Lemma pass_accounts_witness :
  ∃ line s, Passing None right_summary = Passing line s ∧ balanced 7 s ∧ 0 < accepted s
    ∧ (∀ f, f ∈ FAMILIES → f ≠ $"inclusive" → f ∈ map fst (executed_families s)) ∧ (false = true → is_Some line).
Proof.
  apply (pass_accounts (R := counting_rng) right_tools None (fun _ => false) (fun _ => false) [] [] [] 646 7 false); [lia|].
  vm_compute. reflexivity.
Defined.
