(* ===== verification/SourceScan.v ===== *)
(** * Source scans

    Model of scripts/source_scan.py and scripts/function_source.py: the lexer that
    blanks Takibi comments and literals, the one for shell text, the pattern of a
    function header, and the extraction of a function's source by its braces.  The
    caches around them ([per_file], [FrozenMap]) return what the functions return
    and are left out, as is [py_code_only], which runs Python's own tokenizer. *)
From S2P Require Import Prelude Text Dict.

(** ** Takibi tokens *)

(** The rest after the closing quote of a string literal; [escaped] after a
    backslash. *)
Fixpoint string_end (escaped : bool) (s : str) : option str :=
  match s with
  | [] => None
  | c :: s => if escaped then string_end false s
              else if c =? 34 then Some s
              else string_end (c =? 92) s
  end.

(** The rest after a character literal, past its opening quote. *)
Definition char_end (s : str) : option str :=
  match s with
  | 92 :: _ :: 39 :: s => Some s
  | c :: 39 :: s => if (c =? 39) || (c =? 92) || (c =? 10) then None else Some s
  | _ => None
  end.

(** The rest after a block comment, past its opening: the end of the text when it is
    not closed. *)
Fixpoint block_end (s : str) : str :=
  match s with
  | [] => []
  | 42 :: (47 :: s') => s'
  | _ :: s => block_end s
  end.

Definition line_end (s : str) : str := (span (fun c => negb (c =? 10)) s).2.

Inductive token_kind : Type := Literal | Comment.

(** [_TKB_TOKEN] at the start of a text: the kind and the rest. *)
Definition next_token (s : str) : option (token_kind * str) :=
  match s with
  | 34 :: s => (Literal,.) <$> string_end false s
  | 39 :: s => (Literal,.) <$> char_end s
  | 47 :: 47 :: s => Some (Comment, line_end s)
  | 47 :: 42 :: s => Some (Comment, block_end s)
  | _ => None
  end.

(** The text in pieces: its tokens, and the characters between them. *)
Inductive piece : Type := Plain (c : Z) | Token (k : token_kind) (text : str).

Fixpoint scan_fuel (fuel : nat) (s : str) : list piece :=
  match fuel with
  | O => []
  | S fuel =>
      match s with
      | [] => []
      | c :: rest =>
          match next_token s with
          | Some (k, rest) => Token k (take (length s - length rest) s) :: scan_fuel fuel rest
          | None => Plain c :: scan_fuel fuel rest
          end
      end
  end.
Definition scan (s : str) : list piece := scan_fuel (length s) s.

(** [re.sub] of every character but a line break by a space. *)
Definition blank (s : str) : str := map (fun c => if c =? 10 then 10 else 32) s.

Definition code_piece (p : piece) : str :=
  match p with Plain c => [c] | Token Literal t => t | Token Comment t => blank t end.
Definition code_only (text : str) : str := concat (map code_piece (scan text)).

Definition skeleton_piece (p : piece) : str := match p with Plain c => [c] | Token _ t => blank t end.
Definition code_skeleton (text : str) : str := concat (map skeleton_piece (scan text)).

(** Comments and the white space outside literals removed. *)
Definition compact_piece (p : piece) : str :=
  match p with Plain c => if is_space c then [] else [c] | Token Literal t => t | Token Comment _ => [] end.
Definition compact (text : str) : str := concat (map compact_piece (scan text)).

(** ** Shell text *)

(** [_SH_HEREDOC] at the start of a text: whether tabs are stripped, the word and the
    rest. *)
Definition heredoc_word (s : str) : option (str * str) :=
  match s with
  | c :: _ => if is_alpha c || (c =? 95) then Some (span is_word s) else None
  | [] => None
  end.
Definition heredoc (s : str) : option (bool * str * str) :=
  s ← strip_prefix ($"<<") s;
  let '(tabs, s) := match strip_prefix ($"-") s with Some s => (true, s) | None => (false, s) end in
  let s := (span is_space s).2 in
  match s with
  | c :: r =>
      if (c =? 39) || (c =? 34) then
        '(word, rest) ← heredoc_word r; rest ← strip_prefix [c] rest; Some (tabs, word, rest)
      else '(word, rest) ← heredoc_word s; Some (tabs, word, rest)
  | [] => None
  end.

(** One line of a text and what follows its line break. *)
Definition take_line (s : str) : str * str :=
  let '(line, rest) := span (fun c => negb (c =? 10)) s in (line, tail rest).

(** A here-document's body: the lines up to the one that is the word. *)
Fixpoint skip_body (fuel : nat) (tabs : bool) (word s : str) : str :=
  match fuel with
  | O => s
  | S fuel =>
      match s with
      | [] => []
      | _ =>
          let '(line, rest) := take_line s in
          if decide ((if tabs then lstrip_by (Z.eqb 9) line else line) = word) then rest
          else skip_body fuel tabs word rest
      end
  end.
Definition skip_bodies (docs : list (bool * str)) (s : str) : str :=
  foldl (fun s d => skip_body (length s) d.1 d.2 s) s docs.

(** What the scan of a shell text keeps between characters. *)
Record sh_state := ShState { sh_quote : option Z; sh_line_start : bool; sh_docs : list (bool * str); sh_last : Z }.

Definition is_separator (c : Z) : bool := existsb (Z.eqb c) ($" 	;&|()<>").

(** One turn at a character: what it writes, the state after it and the rest.  The
    rest is past the text when a backslash ends it, which the loop reads as the
    end. *)
Definition kept (s rest : str) : str := take (length s - length rest) s.
Definition sh_turn (st : sh_state) (c : Z) (s : str) : str * sh_state * str :=
  let next q := ([c], ShState q false (sh_docs st) c, s) in
  let skip q := match s with
                | [] => ([c], ShState q false (sh_docs st) c, [])
                | d :: s => ([c; d], ShState q false (sh_docs st) d, s)
                end in
  if c =? 10 then
    let rest := match sh_quote st with None => skip_bodies (sh_docs st) s | Some _ => s end in
    (10 :: kept s rest, ShState (sh_quote st) true (match sh_quote st with None => [] | _ => sh_docs st end) 10, rest)
  else match sh_quote st with
  | Some 39 => next (if c =? 39 then None else Some 39)
  | Some q => if c =? 92 then skip (Some q) else next (if c =? 34 then None else Some q)
  | None =>
      if c =? 92 then skip None
      else if (c =? 39) || (c =? 34) then next (Some c)
      else if c =? 60 then
        match heredoc (c :: s) with
        | Some (tabs, word, rest) =>
            (kept (c :: s) rest, ShState None false (sh_docs st ++ [(tabs, word)]) (default 0 (last (kept (c :: s) rest))), rest)
        | None => next None
        end
      else if (c =? 35) && (sh_line_start st || is_separator (sh_last st)) then
        let rest := line_end s in
        (32 :: blank (kept s rest), ShState None (sh_line_start st) (sh_docs st) (default c (last (kept s rest))), rest)
      else next None
  end.

Fixpoint sh_loop (fuel : nat) (st : sh_state) (s : str) : str :=
  match fuel with
  | O => []
  | S fuel =>
      match s with
      | [] => []
      | c :: s => let '(out, st, rest) := sh_turn st c s in out ++ sh_loop fuel st rest
      end
  end.
Definition sh_code_only (text : str) : str := sh_loop (length text) (ShState None true [] 10) text.

(** ** Functions *)

(** [\s+] and what follows. *)
Definition spaces (s : str) : option str :=
  let '(w, rest) := span is_space s in if decide (w = []) then None else Some rest.

(** [WORD\s+], or nothing. *)
Definition optional_word (word s : str) : str :=
  match (r ← strip_prefix word s; spaces r) with Some r => r | None => s end.

(** [function_header()] at the start of a line: the name, and the rest after it. *)
Definition header_name (line : str) : option (str * str) :=
  let s := (span (fun c => (c =? 32) || (c =? 9)) line).2 in
  let s := optional_word ($"private") s in
  let s := match (r ← strip_prefix ($"inline") s; spaces r) with
           | Some r => r
           | None => optional_word ($"noinline") s
           end in
  s ← strip_prefix ($"fn") s;
  s ← spaces s;
  let '(name, s) := span is_word s in
  if decide (name = []) then None else Some (name, s).

(** With the suffix [\(]: the rest after the parenthesis. *)
Definition function_header (line : str) : option (str * str) :=
  '(name, s) ← header_name line;
  rest ← strip_prefix ($"(") s;
  Some (name, rest).

(** [function_starts]: the first header of each name, with the offsets of its start
    and of its end, over the masked source. *)
Fixpoint starts_from (fuel : nat) (at_ : Z) (line_start : bool) (s : str) (starts : list (str * (Z * Z)))
    : list (str * (Z * Z)) :=
  match fuel with
  | O => starts
  | S fuel =>
      match s with
      | [] => starts
      | c :: rest =>
          match (if line_start then function_header s else None) with
          | Some (name, rest) =>
              let end_ := at_ + (zlen s - zlen rest) in
              let starts := if dmem name starts then starts else dset name (at_, end_) starts in
              starts_from fuel end_ false rest starts
          | None => starts_from fuel (at_ + 1) (c =? 10) rest starts
          end
      end
  end.
Definition masked_sources (sources : str) : str := code_skeleton sources.
Definition function_starts (sources : str) : list (str * (Z * Z)) :=
  let code := masked_sources sources in
  starts_from (length code) 0 true code [].

(** The rest of a text after the bracket that closes [depth] open ones; the text
    ends before it: [IndexError]. *)
Fixpoint close (open_ close_ depth : Z) (s : str) : res str :=
  if depth =? 0 then Ok s else
  match s with
  | [] => Err IndexError
  | c :: s => close open_ close_ (depth + (if c =? open_ then 1 else 0) - (if c =? close_ then 1 else 0)) s
  end.

(** [code.index(c, i)] on the rest of the code: the rest from the character on. *)
Definition index_char (c : Z) (s : str) : res str :=
  match (span (fun d => negb (d =? c)) s).2 with [] => Err ValueError | s => Ok s end.

(** From the parenthesis of the header to the end of the body. *)
Definition body_end (code : str) (position : Z) : res str :=
  rest ← close 40 41 1 (from code position);
  brace ← index_char 123 rest;
  before ← py_item code (zlen code - zlen brace - 1);
  brace ← (if before =? 33 then r ← index_char 125 brace; index_char 123 (tail r) else Ok brace);
  close 123 125 1 (tail brace).

Definition function_body (name sources : str) : res (option str) :=
  match dget name (function_starts sources) with
  | None => Ok None
  | Some (start, position) =>
      let code := masked_sources sources in
      rest ← body_end code position;
      Ok (Some (slice sources start (zlen code - zlen rest)))
  end.
