(* ===== verification/SourceScanFacts.v ===== *)
(** * Facts about the source scans

    The lexer of SourceScan.v tiles a text: its pieces are the text.  The blanked text
    keeps every offset and line break.  Scanned again it shows the same literals and
    no comment, so the passes are idempotent and [compact] does not see comments.
    The shell pass keeps the layout as well, and a function's extracted source runs
    from its header to the brace that closes its body. *)
From S2P Require Import Prelude Text Dict SourceScan.

(** ** Tokens *)

(** The shapes of [_TKB_TOKEN], with the text that follows. *)
Inductive tkb_token : token_kind → str → str → Prop :=
  | token_string u r : string_end false u = Some [] → tkb_token Literal (34 :: u) r
  | token_escape x r : tkb_token Literal [39; 92; x; 39] r
  | token_char c r : (c =? 39) || (c =? 92) || (c =? 10) = false → tkb_token Literal [39; c; 39] r
  | token_line u r : hd 10 r = 10 → tkb_token Comment (47 :: 47 :: u) r
  | token_block u r : r = [] ∨ (∃ v, u = v ++ [42; 47]) → tkb_token Comment (47 :: 42 :: u) r.

Lemma string_end_split s : ∀ e r, string_end e s = Some r → ∃ u, s = u ++ r ∧ string_end e u = Some [].
Proof.
  induction s as [|c s IH]; intros e r; [done|]. cbn [string_end].
  destruct e; [|destruct (c =? 34) eqn:Hc].
  - intros (u & -> & Hu)%IH. exists (c :: u). by cbn.
  - intros [= ->]. exists [c]. by cbn; rewrite Hc.
  - intros (u & -> & Hu)%IH. exists (c :: u). by cbn; rewrite Hc.
Qed.

Lemma string_end_app u : ∀ e r, string_end e u = Some [] → string_end e (u ++ r) = Some r.
Proof.
  induction u as [|c u IH]; intros e r; [done|]. cbn [string_end app].
  destruct e; [apply IH|]. destruct (c =? 34); [by intros [= ->]|apply IH].
Qed.

Lemma block_end_split s : ∃ u, s = u ++ block_end s ∧ (block_end s = [] ∨ ∃ v, u = v ++ [42; 47]).
Proof.
  remember (length s) as n eqn:Hn. revert s Hn.
  induction n as [n IH] using lt_wf_ind; intros [|c s] ->; [by exists []; auto|].
  destruct (IH (length s) ltac:(cbn; lia) s eq_refl) as (u & Hs & Hu).
  assert (block_end (c :: s) = block_end s ∨ ∃ s', c = 42 ∧ s = 47 :: s' ∧ block_end (c :: s) = s')
    as [->|(s' & -> & -> & ->)].
  { destruct (decide (c = 42)) as [->|]; [|left; cbn; by repeat case_match].
    destruct s as [|d s]; [by left|]. destruct (decide (d = 47)) as [->|]; [right; eauto|].
    left. cbn. by repeat case_match. }
  - exists (c :: u). split; [cbn; by f_equal|]. destruct Hu as [|[v ->]]; [by left|right; by exists (c :: v)].
  - exists [42; 47]. split; [done|]. right. by exists [].
Qed.

Lemma line_end_split s : ∃ u, s = u ++ line_end s ∧ hd 10 (line_end s) = 10.
Proof.
  unfold line_end. exists (span (λ c, negb (c =? 10)) s).1.
  induction s as [|c s [IH1 IH2]]; [done|]. cbn.
  destruct (span _ s) as [a b] eqn:Hs; cbn in *. destruct (c =? 10) eqn:Hc; cbn.
  - apply Z.eqb_eq in Hc as ->. done.
  - split; [by f_equal|done].
Qed.

(** What the pattern matches is a token. *)
Lemma next_token_token s k r : next_token s = Some (k, r) → ∃ t, s = t ++ r ∧ tkb_token k t r.
Proof.
  unfold next_token. intros H.
  repeat (case_match; try discriminate); simplify_eq.
  - match goal with |- context [line_end ?s] => destruct (line_end_split s) as (u & Hs & Hu) end.
    exists (47 :: 47 :: u). split; [cbn [app]; by rewrite <- Hs|by constructor].
  - match goal with |- context [block_end ?s] => destruct (block_end_split s) as (u & Hs & Hu) end.
    exists (47 :: 42 :: u). split; [cbn [app]; by rewrite <- Hs|by constructor].
  - apply fmap_Some in H as (r' & H & [= -> ->]).
    unfold char_end in H. repeat (case_match; try discriminate); simplify_eq.
    all: match goal with
         | |- ∃ t, 39 :: 92 :: ?x :: 39 :: ?r = _ ∧ _ => exists [39; 92; x; 39]; split; [done|constructor]
         | |- ∃ t, 39 :: ?x :: 39 :: ?r = _ ∧ _ => exists [39; x; 39]; split; [done|by constructor]
         end.
  - apply fmap_Some in H as (r' & H & [= -> ->]).
    apply string_end_split in H as (u & -> & Hu). exists (34 :: u). split; [done|by constructor].
Qed.

(** A literal is a literal whatever follows it. *)
Lemma literal_next t r r' : tkb_token Literal t r → next_token (t ++ r') = Some (Literal, r').
Proof.
  inversion 1 as [u ? Hu|x|c ? Hc| |]; subst; cbn [next_token app].
  - by rewrite (string_end_app u).
  - unfold char_end. repeat case_match; simplify_eq; done.
  - destruct (decide (c = 92)) as [->|]; [by apply orb_false_iff in Hc as [[? ?]%orb_false_iff ?]|].
    unfold char_end. repeat case_match; simplify_eq; try done; congruence.
Qed.

Lemma token_length k t r : tkb_token k t r → (2 ≤ length t)%nat.
Proof.
  destruct 1 as [u r Hu| | | |]; cbn; try lia. destruct u; [done|cbn; lia].
Qed.

(** ** Pieces *)

(** The scan as a relation. *)
Inductive scans : str → list piece → Prop :=
  | scans_nil : scans [] []
  | scans_plain c s ps : next_token (c :: s) = None → scans s ps → scans (c :: s) (Plain c :: ps)
  | scans_token k t r ps : next_token (t ++ r) = Some (k, r) → tkb_token k t r → scans r ps → scans (t ++ r) (Token k t :: ps).

Lemma scan_fuel_scans fuel : ∀ s, (length s ≤ fuel)%nat → scans s (scan_fuel fuel s).
Proof.
  induction fuel as [|fuel IH]; intros [|c s] Hs; cbn [length] in Hs; try lia; try constructor.
  cbn [scan_fuel]. destruct (next_token (c :: s)) as [[k r]|] eqn:Ht.
  - destruct (next_token_token _ _ _ Ht) as (t & E & Hk). rewrite E in Ht |- *.
    rewrite length_app, Nat.add_sub, take_app_length. constructor; [done..|].
    apply IH. pose proof (token_length _ _ _ Hk). apply (f_equal length) in E. rewrite length_app in E. cbn in E. lia.
  - constructor; [done|apply IH; lia].
Qed.

Lemma scan_scans s : scans s (scan s).
Proof. by apply scan_fuel_scans. Qed.

Lemma scans_unique s ps qs : scans s ps → scans s qs → ps = qs.
Proof.
  intros H. revert qs. induction H as [|c s ps Hn _ IH|k t r ps Hn Ht _ IH]; intros qs Hq.
  - inversion Hq as [| |k t r qs' Hn Ht]; subst; [done|].
    apply token_length in Ht. destruct t; cbn in *; [lia|done].
  - inversion Hq as [| |k t r qs' Hn' Ht Hs E]; subst; [f_equal; by apply IH|].
    rewrite E in Hn'. congruence.
  - pose proof (token_length _ _ _ Ht) as Hl.
    inversion Hq as [E|c s qs' Hn' Hs E|k' t' r' qs' Hn' Ht' Hs E]; subst.
    + destruct t; cbn in *; [lia|done].
    + rewrite E in Hn'. congruence.
    + rewrite E, Hn in Hn'. injection Hn' as <- <-. apply app_inv_tail in E as ->. f_equal. by apply IH.
Qed.

Lemma scan_eq s ps : scans s ps → scan s = ps.
Proof. apply scans_unique, scan_scans. Qed.

Definition piece_text (p : piece) : str := match p with Plain c => [c] | Token _ t => t end.

Lemma scans_text s ps : scans s ps → concat (map piece_text ps) = s.
Proof. induction 1 as [|c s ps _ _ IH|k t r ps _ _ _ IH]; cbn; congruence. Qed.

(** ** Blanked texts *)

(** [code_piece] and [skeleton_piece] at once: whether literals are kept. *)
Definition mask (keep : bool) (p : piece) : str := if keep then code_piece p else skeleton_piece p.
Definition masked (keep : bool) (ps : list piece) : str := concat (map (mask keep) ps).

(** The pieces of the blanked text: the blanks are characters of their own. *)
Definition bare (keep : bool) (p : piece) : list piece :=
  match p with
  | Plain c => [Plain c]
  | Token Literal t => if keep then [Token Literal t] else map Plain (blank t)
  | Token Comment t => map Plain (blank t)
  end.

(** What blanking does to a text: characters are kept, and runs of two or more are
    blanked. *)
Inductive weave : str → str → Prop :=
  | weave_nil : weave [] []
  | weave_same c s o : weave s o → weave (c :: s) (c :: o)
  | weave_blank t s o : (2 ≤ length t)%nat → weave s o → weave (t ++ s) (blank t ++ o).

Lemma weave_kept t s o : weave s o → weave (t ++ s) (t ++ o).
Proof. induction t; [done|]. intros. cbn. constructor. auto. Qed.

Lemma masked_weave keep s ps : scans s ps → weave s (masked keep ps).
Proof.
  induction 1 as [|c s ps _ _ IH|k t r ps _ Ht _ IH]; [constructor|..].
  - unfold masked. cbn. destruct keep; cbn; by constructor.
  - apply token_length in Ht.
    unfold masked. cbn. destruct keep, k; cbn; (by apply weave_kept) || by constructor.
Qed.

(** A character that is no blank was there before. *)
Lemma weave_head s c o : weave s (c :: o) → c ≠ 32 → c ≠ 10 → ∃ s', s = c :: s' ∧ weave s' o.
Proof.
  inversion 1 as [|c' s' o' Hw|t s' o' Ht Hw Es E]; subst; intros; [eauto|].
  destruct t as [|x t]; cbn in Ht, E; [lia|]. injection E as E _. case_match; lia.
Qed.

(** A kept character after the first: the first was kept too. *)
Lemma weave_second s c d o : weave s (c :: d :: o) → d ≠ 32 → d ≠ 10 → ∃ s', s = c :: s' ∧ weave s' (d :: o).
Proof.
  inversion 1 as [|c' s' o' Hw|t s' o' Ht Hw Es E]; subst; intros; [eauto|].
  destruct t as [|x [|y t]]; cbn in Ht, E; try lia. injection E as _ E _. repeat case_match; lia.
Qed.

Lemma weave_char_end s o : weave s o → char_end s = None → char_end o = None.
Proof.
  intros Hw Hs. destruct (char_end o) as [r|] eqn:Ho; [exfalso|done].
  assert ((∃ x, o = 92 :: x :: 39 :: r) ∨ (∃ c, o = c :: 39 :: r ∧ (c =? 39) || (c =? 92) || (c =? 10) = false))
    as [[x ->]|(c & -> & Hc)].
  { unfold char_end in Ho. repeat (case_match; try discriminate); simplify_eq; eauto. }
  - apply weave_head in Hw as (s1 & -> & Hw); [|done..].
    apply weave_second in Hw as (s2 & -> & Hw); [|done..].
    apply weave_head in Hw as (s3 & -> & Hw); [|done..].
    revert Hs. unfold char_end. repeat case_match; simplify_eq; done.
  - apply weave_second in Hw as (s1 & -> & Hw); [|done..].
    apply weave_head in Hw as (s2 & -> & Hw); [|done..].
    pose proof (literal_next [39; c; 39] [] s2 (token_char _ _ Hc)) as H.
    cbn [next_token app] in H. by rewrite Hs in H.
Qed.

Lemma weave_slash s o : weave s o → next_token (47 :: s) = None → next_token (47 :: o) = None.
Proof.
  intros Hw Hs. destruct o as [|c o]; [done|].
  destruct (decide (c = 47 ∨ c = 42)) as [[-> | ->]|Hc].
  - apply weave_head in Hw as (s1 & -> & _); done.
  - apply weave_head in Hw as (s1 & -> & _); done.
  - unfold next_token. repeat case_match; simplify_eq; tauto.
Qed.

(** Whether the next character is escaped, after a part of a string. *)
Fixpoint after (e : bool) (t : str) : bool :=
  match t with [] => e | c :: t => after (if e then false else c =? 92) t end.

Lemma after_snoc t c : ∀ e, c ≠ 92 → after e (t ++ [c]) = false.
Proof.
  induction t as [|d t IH]; intros e Hc; cbn; [|by apply IH].
  destruct e; [done|]. by apply Z.eqb_neq.
Qed.

Lemma string_end_after t r : ∀ e r', string_end e (t ++ r) = None → string_end e (t ++ r') = string_end (after e t) r'.
Proof.
  induction t as [|c t IH]; intros e r' H; [done|]. cbn in *.
  destruct e; [by apply IH|]. destruct (c =? 34); [done|by apply IH].
Qed.

Lemma string_end_blank t o : t ≠ [] → ∀ e, string_end e (blank t ++ o) = string_end false o.
Proof.
  induction t as [|c t IH]; intros Ht e; [done|]. cbn.
  destruct t as [|d t]; [by destruct e, (c =? 10)|].
  destruct e, (c =? 10); cbn [Z.eqb Pos.eqb]; by apply IH.
Qed.

(** A quote that opens no string opens none in the blanked text. *)
Lemma masked_string_end keep s ps : scans s ps → ∀ e, string_end e s = None → string_end e (masked keep ps) = None.
Proof.
  induction 1 as [|c s ps _ _ IH|k t r ps _ Ht _ IH]; intros e He; [done|..].
  - assert (masked keep (Plain c :: ps) = c :: masked keep ps) as -> by by destruct keep.
    cbn [string_end] in *. destruct e; [by apply IH|]. destruct (c =? 34); [done|by apply IH].
  - assert (t ≠ []) as Hne by (apply token_length in Ht; destruct t; cbn in *; [lia|done]).
    assert (string_end false r = None) as Hr.
    { pose proof He as Ha. rewrite (string_end_after _ _ _ r He) in Ha.
      inversion Ht as [u ? Hu|x|c ? Hc|u ? Hu|u ? Hu]; subst.
      - cbn [string_end app] in He. destruct e; [|done]. by rewrite (string_end_app u) in He.
      - by rewrite (after_snoc [39; 92; x] 39) in Ha.
      - by rewrite (after_snoc [39; c] 39) in Ha.
      - destruct r as [|c r]; [done|]. cbn in Hu. subst c. cbn in Ha. by case_match.
      - destruct Hu as [->|[v ->]]; [done|].
        replace (47 :: 42 :: v ++ [42; 47]) with ((47 :: 42 :: v ++ [42]) ++ [47]) in Ha by by cbn; rewrite <- app_assoc.
        by rewrite after_snoc in Ha. }
    change (masked keep (Token k t :: ps)) with (mask keep (Token k t) ++ masked keep ps).
    destruct keep, k; cbn [mask code_piece skeleton_piece]; try (rewrite string_end_blank by done; by apply IH).
    rewrite (string_end_after t r e) by done.
    inversion Ht as [u ? Hu|x|c ? Hc| |]; subst.
    + cbn [string_end app] in He. destruct e; [|done]. by rewrite (string_end_app u) in He.
    + rewrite (after_snoc [39; 92; x] 39) by done. by apply IH.
    + rewrite (after_snoc [39; c] 39) by done. by apply IH.
Qed.

Lemma masked_next keep c s ps : scans s ps → next_token (c :: s) = None → next_token (c :: masked keep ps) = None.
Proof.
  intros Hs Hn.
  destruct (decide (c = 34)) as [->|]; [|destruct (decide (c = 39)) as [->|]; [|destruct (decide (c = 47)) as [->|]]].
  - cbn in *. destruct (string_end false s) eqn:E; [done|]. by rewrite (masked_string_end keep s).
  - cbn in *. destruct (char_end s) eqn:E; [done|]. by rewrite (weave_char_end _ _ (masked_weave keep _ _ Hs)).
  - by apply (weave_slash _ _ (masked_weave keep _ _ Hs)).
  - unfold next_token. repeat case_match; simplify_eq; done.
Qed.

Lemma scans_blank t s ps : scans s ps → scans (blank t ++ s) (map Plain (blank t) ++ ps).
Proof.
  intros Hs. induction t as [|c t IH]; [done|]. cbn. constructor; [|done]. by destruct (c =? 10).
Qed.

(** The pieces of the blanked text are the pieces of the text with the blanks in
    place of what was blanked. *)
Lemma masked_scans keep s ps : scans s ps → scans (masked keep ps) (concat (map (bare keep) ps)).
Proof.
  induction 1 as [|c s ps Hn Hs IH|k t r ps Hn Ht Hs IH]; [constructor|..].
  - assert (masked keep (Plain c :: ps) = c :: masked keep ps) as -> by by destruct keep.
    cbn. constructor; [|done]. by apply (masked_next keep c s).
  - change (masked keep (Token k t :: ps)) with (mask keep (Token k t) ++ masked keep ps).
    cbn [map concat bare]. destruct keep, k; cbn [mask code_piece skeleton_piece]; try by apply scans_blank.
    apply (scans_token Literal t); [|by inversion Ht; constructor|done]. by apply (literal_next t r).
Qed.

(** ** What the passes keep *)

(** A text and the blanked one, character by character. *)
Definition layout (c d : Z) : Prop := d = c ∨ (d = 32 ∧ c ≠ 10).

Lemma layout_blank t : Forall2 layout t (blank t).
Proof.
  induction t as [|c t IH]; cbn; constructor; [|done]. unfold layout. destruct (Z.eqb_spec c 10); auto.
Qed.
Lemma layout_refl t : Forall2 layout t t.
Proof. induction t; constructor; [by left|done]. Qed.

Lemma weave_layout s o : weave s o → Forall2 layout s o.
Proof.
  induction 1; [constructor|constructor; [by left|done]|]. apply Forall2_app; [apply layout_blank|done].
Qed.

Lemma code_only_masked s : code_only s = masked true (scan s).
Proof. done. Qed.
Lemma code_skeleton_masked s : code_skeleton s = masked false (scan s).
Proof. done. Qed.

Lemma rescan keep s : scan (masked keep (scan s)) = concat (map (bare keep) (scan s)).
Proof. apply scan_eq. exact (masked_scans keep s _ (scan_scans s)). Qed.

(** A map of the pieces of a blanked text. *)
Lemma flat_bare {A} (f g : piece → list A) keep ps :
  (∀ p, p ∈ ps → concat (map f (bare keep p)) = g p) →
  concat (map f (concat (map (bare keep) ps))) = concat (map g ps).
Proof.
  induction ps as [|p ps IH]; intros H; [done|]. cbn. rewrite map_app, concat_app.
  rewrite (H p) by left. f_equal. apply IH. intros q Hq. apply H. by right.
Qed.

Lemma concat_plain (f : piece → str) t : (∀ c, c ∈ t → f (Plain c) = [c]) → concat (map f (map Plain t)) = t.
Proof.
  induction t as [|c t IH]; intros H; [done|]. cbn. rewrite H by left. cbn. f_equal. apply IH.
  intros d Hd. apply H. by right.
Qed.

Lemma bare_skeleton ps : concat (map (bare false) ps) = map Plain (masked false ps).
Proof.
  induction ps as [|p ps IH]; [done|]. unfold masked in *. cbn. rewrite map_app, IH. by destruct p as [c|[] t].
Qed.

(** Blanks are white space. *)
Lemma compact_blank t : concat (map compact_piece (map Plain (blank t))) = [].
Proof. induction t as [|c t IH]; [done|]. cbn. destruct (c =? 10); cbn; apply IH. Qed.

(** C14: a second pass over the blanked text finds the same literals and no comment:
    its pieces are those of the text with every comment replaced by its blanks, and
    the skeleton has no token at all.  So the passes are idempotent, the skeleton of
    the code is the skeleton of the text, and the layout-blind spelling does not see
    comments. *)
Theorem comments_are_gone text :
  scan (code_only text) = concat (map (bare true) (scan text)) ∧
  scan (code_skeleton text) = map Plain (code_skeleton text) ∧
  code_only (code_only text) = code_only text ∧
  code_skeleton (code_skeleton text) = code_skeleton text ∧
  code_skeleton (code_only text) = code_skeleton text ∧
  compact (code_only text) = compact text.
Proof.
  assert (scan (code_only text) = concat (map (bare true) (scan text))) as Hc by apply (rescan true).
  assert (scan (code_skeleton text) = map Plain (code_skeleton text)) as Hk
    by (rewrite code_skeleton_masked, <- bare_skeleton; apply (rescan false)).
  do 2 (split; [done|]). split_and!.
  - unfold code_only at 1. rewrite Hc. apply flat_bare. intros [c|[] t] _; cbn; try (by rewrite ?app_nil_r).
    by apply concat_plain.
  - unfold code_skeleton at 1. rewrite Hk. by apply concat_plain.
  - unfold code_skeleton at 1. rewrite Hc. apply flat_bare. intros [c|[] t] _; cbn; try (by rewrite ?app_nil_r).
    by apply concat_plain.
  - unfold compact at 1. rewrite Hc. apply flat_bare. intros [c|[] t] _; cbn; try (by rewrite ?app_nil_r).
    apply compact_blank.
Qed.

(** ** Shell text *)

Lemma span_suffix {A} (f : A → bool) s : (span f s).1 ++ (span f s).2 = s.
Proof. induction s as [|c s IH]; cbn; [done|]. destruct (f c); [|done]. destruct (span f s). cbn in *. by f_equal. Qed.
Lemma span_rest_suffix {A} (f : A → bool) s : (span f s).2 `suffix_of` s.
Proof. exists (span f s).1. by rewrite span_suffix. Qed.
Lemma tail_suffix {A} (s : list A) : tail s `suffix_of` s.
Proof. destruct s as [|c s]; [done|]. by exists [c]. Qed.
Lemma strip_prefix_eq p : ∀ s r, strip_prefix p s = Some r → s = p ++ r.
Proof.
  induction p as [|c p IH]; intros s r H; [by cbn in H; simplify_eq|].
  destruct s as [|d s]; [done|]. cbn in H. destruct (Z.eqb_spec c d); [|done]. subst. cbn. f_equal. by apply IH.
Qed.
Lemma strip_prefix_suffix p s r : strip_prefix p s = Some r → r `suffix_of` s.
Proof. intros ->%strip_prefix_eq. by exists p. Qed.

Lemma skip_body_suffix fuel tabs word : ∀ s, skip_body fuel tabs word s `suffix_of` s.
Proof.
  induction fuel as [|fuel IH]; intros s; [done|]. cbn. destruct s as [|c s]; [done|].
  destruct (take_line (c :: s)) as [line rest] eqn:E.
  assert (rest `suffix_of` (c :: s)) as Hr.
  { unfold take_line in E. pose proof (span_rest_suffix (λ c, negb (c =? 10)) (c :: s)) as H.
    destruct (span _ (c :: s)) as [a b]. injection E as _ <-. etrans; [apply tail_suffix|done]. }
  destruct (decide _); [done|]. etrans; [apply IH|done].
Qed.

Lemma skip_bodies_suffix docs : ∀ s, skip_bodies docs s `suffix_of` s.
Proof.
  unfold skip_bodies. induction docs as [|d docs IH]; intros s; [done|]. cbn. etrans; [apply IH|apply skip_body_suffix].
Qed.

Lemma heredoc_word_suffix s w r : heredoc_word s = Some (w, r) → r `suffix_of` s.
Proof.
  unfold heredoc_word. destruct s as [|c s]; [done|]. destruct (_ || _); [|done].
  intros [= E]. pose proof (span_rest_suffix is_word (c :: s)) as H. cbn [span] in *. by rewrite E in H.
Qed.

Lemma heredoc_suffix s tabs w r : heredoc s = Some (tabs, w, r) → ∃ u, u ≠ [] ∧ s = u ++ r.
Proof.
  unfold heredoc. intros H. apply bind_Some in H as (s1 & ->%strip_prefix_eq & H).
  assert (r `suffix_of` s1) as [u ->]; [|by exists ($"<<" ++ u); rewrite <- app_assoc].
  destruct (match strip_prefix ($"-") s1 with Some s => (true, s) | None => (false, s1) end) as [b s2] eqn:E2.
  etrans; [|assert (s2 `suffix_of` s1) as Hs; [|exact Hs]].
  2:{ destruct (strip_prefix ($"-") s1) eqn:E; simplify_eq; [by eapply strip_prefix_suffix|done]. }
  etrans; [|apply (span_rest_suffix is_space)].
  destruct (span is_space s2).2 as [|c s3]; [done|]. destruct (_ || _).
  - apply bind_Some in H as ([w' r1] & Hw & H). apply bind_Some in H as (r2 & Hr & [= _ _ <-]).
    etrans; [by eapply strip_prefix_suffix|]. etrans; [by eapply heredoc_word_suffix|]. by exists [c].
  - apply bind_Some in H as ([w' r1] & Hw & [= _ _ <-]). by eapply heredoc_word_suffix.
Qed.

(** What the shell pass does to a text: characters are kept, but for runs that start
    with [#] and go to the end of their line, which are blanked. *)
Inductive comments_blanked : str → str → Prop :=
  | blanked_nil : comments_blanked [] []
  | blanked_kept c s o : comments_blanked s o → comments_blanked (c :: s) (c :: o)
  | blanked_comment u s o :
      10 ∉ u → hd 10 s = 10 → comments_blanked s o → comments_blanked (35 :: u ++ s) (blank (35 :: u) ++ o).

Lemma blanked_app t s o : comments_blanked s o → comments_blanked (t ++ s) (t ++ o).
Proof. induction t; [done|]. intros. cbn. constructor. auto. Qed.

Lemma kept_app u r : kept (u ++ r) r = u.
Proof. unfold kept. by rewrite length_app, Nat.add_sub, take_app_length. Qed.
Lemma kept_suffix s r : r `suffix_of` s → kept s r ++ r = s.
Proof. intros [u ->]. by rewrite kept_app. Qed.

(** A comment runs to the end of its line. *)
Lemma blanked_line s o :
  comments_blanked (line_end s) o →
  comments_blanked (35 :: s) (32 :: blank (kept s (line_end s)) ++ o).
Proof.
  unfold line_end. set (f := λ c : Z, negb (c =? 10)). intros Ho.
  assert (kept s (span f s).2 = (span f s).1) as ->
    by (transitivity (kept ((span f s).1 ++ (span f s).2) (span f s).2); [by rewrite span_suffix|apply kept_app]).
  rewrite <- (span_suffix f s) at 1. apply (blanked_comment (span f s).1); [| |done]; clear.
  - induction s as [|d s IH]; cbn; [apply not_elem_of_nil|]. destruct (f d) eqn:Ed; [|apply not_elem_of_nil].
    destruct (span f s). cbn in *. intros [<-|?]%elem_of_cons; done.
  - induction s as [|d s IH]; [done|]. cbn. destruct (f d) eqn:Ed; [by destruct (span f s)|].
    by apply negb_false_iff, Z.eqb_eq in Ed.
Qed.

(** One turn: the text it reads is not empty and is kept, or is a comment. *)
Lemma sh_turn_spec st c s out st' rest :
  sh_turn st c s = (out, st', rest) →
  ∃ u, u ≠ [] ∧ c :: s = u ++ rest ∧ ∀ o, comments_blanked rest o → comments_blanked (u ++ rest) (out ++ o).
Proof.
  assert (∀ (out : str) rest, out ≠ [] → c :: s = out ++ rest →
    ∃ u, u ≠ [] ∧ c :: s = u ++ rest ∧ ∀ o, comments_blanked rest o → comments_blanked (u ++ rest) (out ++ o)) as Hkeep.
  { intros o r Hne E. exists o. split_and!; [done..|]. intros. by apply blanked_app. }
  unfold sh_turn. destruct (Z.eqb_spec c 10) as [->|_].
  { intros [= <- _ <-]. apply Hkeep; [done|]. cbn. f_equal. symmetry. apply kept_suffix.
    destruct (sh_quote st); [done|apply skip_bodies_suffix]. }
  assert (∀ q, (match s with [] => ([c], ShState q false (sh_docs st) c, [])
               | d :: s => ([c; d], ShState q false (sh_docs st) d, s) end) = (out, st', rest) →
    out ≠ [] ∧ c :: s = out ++ rest) as Hskip by (intros q; by destruct s; intros [= <- _ <-]).
  intros H.
  assert ((out ≠ [] ∧ c :: s = out ++ rest) ∨ (c = 35 ∧ out = 32 :: blank (kept s rest) ∧ rest = line_end s))
    as [[? ?]|(-> & -> & ->)]; [|by apply Hkeep|].
  - assert (∀ q, ([c], ShState q false (sh_docs st) c, s) = (out, st', rest) → out ≠ [] ∧ c :: s = out ++ rest)
      as Hnext by (by intros q [= <- _ <-]).
    destruct (sh_quote st) as [q|].
    { left. destruct (decide (q = 39)) as [->|Hq]; [by eapply Hnext|].
      assert ((if c =? 92 then (match s with [] => ([c], ShState (Some q) false (sh_docs st) c, [])
               | d :: s => ([c; d], ShState (Some q) false (sh_docs st) d, s) end)
               else ([c], ShState (if c =? 34 then None else Some q) false (sh_docs st) c, s)) = (out, st', rest)) as H'
        by (rewrite <- H; by repeat case_match).
      destruct (c =? 92); [by eapply Hskip|by eapply Hnext]. }
    destruct (c =? 92); [left; by eapply Hskip|]. destruct (_ || _); [left; by eapply Hnext|].
    destruct (c =? 60).
    + left. destruct (heredoc (c :: s)) as [[[tabs word] r]|] eqn:Hh; [|by eapply Hnext].
      injection H as <- _ <-. apply heredoc_suffix in Hh as (u & Hu & E).
      rewrite kept_suffix by by exists u. split; [|done].
      by rewrite E, kept_app.
    + destruct ((c =? 35) && _) eqn:Hc; [|left; by eapply Hnext]. right.
      apply andb_prop in Hc as [->%Z.eqb_eq _]. by injection H as <- _ <-.
  - destruct (line_end_split s) as (u & Hu & _). exists (35 :: u). split_and!; [done|by cbn; f_equal|].
    intros o Ho. cbn [app]. rewrite <- Hu. by apply blanked_line.
Qed.

Lemma sh_loop_blanked fuel : ∀ st s, (length s ≤ fuel)%nat → comments_blanked s (sh_loop fuel st s).
Proof.
  induction fuel as [|fuel IH]; intros st [|c s] Hs; cbn [length] in Hs; try lia; try constructor.
  cbn [sh_loop]. destruct (sh_turn st c s) as [[out st'] rest] eqn:E.
  apply sh_turn_spec in E as (u & Hu & E & Hb). rewrite E. apply Hb, IH.
  apply (f_equal length) in E. rewrite length_app in E. destruct u; [done|]. cbn in E. lia.
Qed.

Lemma blanked_layout s o : comments_blanked s o → Forall2 layout s o.
Proof.
  induction 1 as [|c s o _ IH|u s o _ _ _ IH]; [constructor|constructor; [by left|done]|].
  change (35 :: u ++ s) with ((35 :: u) ++ s). apply Forall2_app; [apply layout_blank|done].
Qed.

(** Every pass keeps the offsets and the line breaks: the blanked text has the
    text's length, and each of its characters is the text's or a space where the text
    has no line break.  In a shell text the only characters changed are those of runs
    that begin with [#] and end with their line. *)
Theorem passes_keep_layout text :
  Forall2 layout text (code_only text) ∧
  Forall2 layout text (code_skeleton text) ∧
  Forall2 layout text (sh_code_only text) ∧
  comments_blanked text (sh_code_only text).
Proof.
  split_and!.
  - apply weave_layout, (masked_weave true), scan_scans.
  - apply weave_layout, (masked_weave false), scan_scans.
  - by apply blanked_layout, sh_loop_blanked.
  - by apply sh_loop_blanked.
Qed.

(** ** Functions *)

(** The brackets open after a text, with [depth] before it. *)
Fixpoint level (open_ close_ depth : Z) (s : str) : Z :=
  match s with
  | [] => depth
  | c :: s => level open_ close_ (depth + (if c =? open_ then 1 else 0) - (if c =? close_ then 1 else 0)) s
  end.

(** The text closes [depth] brackets, with its last character and not before. *)
Definition closes (open_ close_ depth : Z) (p : str) : Prop :=
  level open_ close_ depth p = 0 ∧ ∀ q r, p = q ++ r → r ≠ [] → level open_ close_ depth q ≠ 0.

Lemma close_iff o c s : ∀ depth r, close o c depth s = Ok r ↔ ∃ p, s = p ++ r ∧ closes o c depth p.
Proof.
  induction s as [|x s IH]; intros depth r; cbn [close]; destruct (Z.eqb_spec depth 0) as [->|Hd].
  1,3: split; [intros [= ->]; exists []; split; [done|split; [done|]];
    intros q r' E Hr; symmetry in E; by apply app_eq_nil in E as [-> ->]|].
  1,2: intros (p & Hs & Hl & Hp); destruct p as [|y p]; [by rewrite Hs|]; by destruct (Hp [] (y :: p)).
  - split; [done|]. intros (p & Hs & Hl & Hp). symmetry in Hs. apply app_eq_nil in Hs as [-> ->]. by cbn in Hl.
  - rewrite IH. split; intros (p & Hs & Hl & Hp).
    + exists (x :: p). rewrite Hs. split; [done|split; [done|]]. intros [|y q] r' E Hr; cbn in *; [done|].
      injection E as <- E. by eapply Hp.
    + destruct p as [|y p]; [by cbn in Hl|]. injection Hs as <- ->. exists p. split; [done|split; [done|]].
      intros q r' -> Hr. by apply (Hp (x :: q) r').
Qed.

Lemma index_char_iff c s t : index_char c s = Ok t ↔ ∃ m t', s = m ++ c :: t' ∧ (c ∉ m) ∧ t = (c :: t').
Proof.
  unfold index_char. induction s as [|x s IH]; cbn.
  - split; [done|]. by intros ([] & t' & E & _).
  - destruct (Z.eqb_spec x c) as [->|Hx]; cbn.
    + split; [intros [= <-]; exists [], s; split_and!; [done|apply not_elem_of_nil|done]|].
      intros ([|y m] & t' & E & Hm & ->); [by injection E as ->|]. injection E as <- _. destruct Hm. left.
    + destruct (span _ s) as [a b]. cbn in *. rewrite IH. split.
      * intros (m & t' & -> & Hm & ->). exists (x :: m), t'. split_and!; [done| |done].
        by intros [->|?]%elem_of_cons.
      * intros ([|y m] & t' & E & Hm & ->); [by injection E as -> _|]. injection E as <- ->.
        exists m, t'. split_and!; [done| |done]. intros ?. destruct Hm. by right.
Qed.

(** From the end of a header to the end of the body: the parameters up to their
    closing parenthesis, what stands before the body's brace, and the body up to the
    brace that closes it.  An effect set [!{...}] before the body is passed over. *)
Inductive body_region : str → str → Prop :=
  | region_plain params mid body rest :
      closes 40 41 1 params → 123 ∉ mid → last (params ++ mid) ≠ Some 33 → closes 123 125 1 body →
      body_region (params ++ mid ++ 123 :: body ++ rest) rest
  | region_effects params mid effects mid' body rest :
      closes 40 41 1 params → 123 ∉ mid → last (params ++ mid) = Some 33 → 125 ∉ effects → 123 ∉ mid' →
      closes 123 125 1 body →
      body_region (params ++ mid ++ 123 :: effects ++ 125 :: mid' ++ 123 :: body ++ rest) rest.

Lemma closes_last o c p m : closes o c 1 p → ∃ q x, p ++ m = q ++ [x].
Proof.
  intros [Hl _]. destruct (p ++ m) as [|x q _] eqn:E using rev_ind; [|eauto].
  apply app_eq_nil in E as [-> _]. done.
Qed.

Lemma item_before pre q x (t : str) :
  py_item (pre ++ (q ++ [x]) ++ t) (zlen (pre ++ (q ++ [x]) ++ t) - zlen t - 1) = Ok x.
Proof.
  replace (pre ++ (q ++ [x]) ++ t) with ((pre ++ q) ++ x :: t) by (by rewrite <- !app_assoc).
  replace (zlen _ - zlen t - 1) with (zlen (pre ++ q)) by (rewrite (zlen_app _ (x :: t)), zlen_cons; lia).
  assert ((zlen (pre ++ q) <? 0) = false) as H by apply Z.ltb_ge, zlen_nonneg.
  unfold py_item. rewrite H, H. by apply item_app.
Qed.

Lemma body_end_iff pre s rest : body_end (pre ++ s) (zlen pre) = Ok rest ↔ body_region s rest.
Proof.
  unfold body_end. rewrite from_app by done. split.
  - intros H. apply bind_Ok_inv in H as (r1 & (params & -> & Hp)%close_iff & H).
    apply bind_Ok_inv in H as (b1 & (mid & t & -> & Hm & ->)%index_char_iff & H).
    destruct (closes_last _ _ _ mid Hp) as (q & x & E).
    rewrite (app_assoc params mid), E, item_before in H. cbn [mbind res_bind] in H.
    destruct (Z.eqb_spec x 33) as [Ex|Hx]; [subst x|].
    + apply bind_Ok_inv in H as (b2 & H2 & (body & E2 & Hb)%close_iff).
      apply bind_Ok_inv in H2 as (b3 & (eff & t' & Et & He & ->)%index_char_iff & H2).
      apply index_char_iff in H2 as (mid' & t'' & Et' & Hm' & ->). cbn [tail] in *. subst t' t''.
      destruct eff as [|y eff]; cbn in Et; [done|]. injection Et as <- ->.
      apply region_effects; [done|done|by rewrite E, last_snoc| |done|done].
      intros ?. destruct He. by right.
    + cbn in H. apply close_iff in H as (body & -> & Hb).
      apply region_plain; [done|done|rewrite E, last_snoc; congruence|done].
  - intros H. inversion H as [params mid body ? Hp Hm Hl Hb|params mid eff mid' body ? Hp Hm Hl He Hm' Hb]; subst.
    + rewrite (proj2 (close_iff _ _ _ _ _)) by eauto. cbn [mbind res_bind].
      rewrite (proj2 (index_char_iff _ _ _)) by eauto 6. cbn [mbind res_bind].
      destruct (closes_last _ _ _ mid Hp) as (q & x & E). rewrite E, last_snoc in Hl.
      rewrite (app_assoc params mid), E, item_before. cbn [mbind res_bind].
      rewrite (proj2 (Z.eqb_neq x 33)) by congruence. cbn. apply close_iff. eauto.
    + rewrite (proj2 (close_iff _ _ _ _ _)) by eauto. cbn [mbind res_bind].
      rewrite (proj2 (index_char_iff _ _ _)) by eauto 6. cbn [mbind res_bind].
      destruct (closes_last _ _ _ mid Hp) as (q & x & E). rewrite E, last_snoc in Hl. injection Hl as ->.
      rewrite (app_assoc params mid), E, item_before. cbn [mbind res_bind Z.eqb Pos.eqb].
      rewrite (proj2 (index_char_iff 125 _ (125 :: mid' ++ 123 :: body ++ rest))).
      2:{ exists (123 :: eff), (mid' ++ 123 :: body ++ rest). split_and!; [done| |done].
          by intros [?|?]%elem_of_cons. }
      cbn [mbind res_bind tail]. rewrite (proj2 (index_char_iff 123 _ (123 :: body ++ rest))) by eauto 6.
      cbn [mbind res_bind tail]. apply close_iff. eauto.
Qed.

Lemma spaces_suffix s r : spaces s = Some r → r `suffix_of` s.
Proof.
  unfold spaces. pose proof (span_rest_suffix is_space s) as H. destruct (span is_space s) as [w rest].
  destruct (decide _); [done|]. by intros [= <-].
Qed.

Lemma word_spaces_suffix w s r : (r ← strip_prefix w s; spaces r) = Some r → r `suffix_of` s.
Proof.
  intros (r' & Hp & Hr)%bind_Some. etrans; [by apply spaces_suffix|by eapply strip_prefix_suffix].
Qed.

Lemma optional_word_suffix w s : optional_word w s `suffix_of` s.
Proof.
  unfold optional_word. destruct (strip_prefix w s ≫= spaces) eqn:E; [|done]. by eapply word_spaces_suffix.
Qed.

(** The name is read off the front of the text. *)
Lemma header_name_suffix s name rest : header_name s = Some (name, rest) → rest `suffix_of` s.
Proof.
  unfold header_name. set (s1 := (span _ s).2). set (s2 := optional_word _ s1).
  set (s3 := match _ with Some r => r | None => _ end). intros H.
  apply bind_Some in H as (s4 & H4 & H). apply bind_Some in H as (s5 & H5%spaces_suffix & H).
  pose proof (span_rest_suffix is_word s5) as H6. destruct (span is_word s5) as [w s6].
  destruct (decide _); [done|]. injection H as <- <-.
  assert (s3 `suffix_of` s) as Hs3.
  { etrans; [|apply span_rest_suffix]. etrans; [|apply (optional_word_suffix ($"private"))]. subst s3.
    destruct (strip_prefix ($"inline") s2 ≫= spaces) eqn:E; [by eapply word_spaces_suffix|apply optional_word_suffix]. }
  etrans; [exact H6|]. etrans; [exact H5|]. etrans; [by eapply strip_prefix_suffix|done].
Qed.

Lemma function_header_suffix s name rest : function_header s = Some (name, rest) → ∃ h, h ≠ [] ∧ s = h ++ rest.
Proof.
  unfold function_header. intros ([n s6] & [h Hh]%header_name_suffix & H)%bind_Some.
  apply bind_Some in H as (s7 & H7%strip_prefix_eq & [= <- <-]).
  exists (h ++ $"("). split; [by destruct h|]. rewrite Hh, H7. by rewrite <- app_assoc.
Qed.

(** A header of [name] starts a line of [code] at [start] and ends at [position]. *)
Definition header_at (code name : str) (start position : Z) : Prop :=
  ∃ pre h rest, code = pre ++ h ++ rest ∧ start = zlen pre ∧ position = zlen (pre ++ h) ∧
    (pre = [] ∨ last pre = Some 10) ∧ function_header (h ++ rest) = Some (name, rest).

Lemma starts_from_headers code fuel : ∀ pre s line_start starts,
  code = pre ++ s → (line_start = true → pre = [] ∨ last pre = Some 10) →
  (∀ name start position, dget name starts = Some (start, position) → header_at code name start position) →
  ∀ name start position,
    dget name (starts_from fuel (zlen pre) line_start s starts) = Some (start, position) →
    header_at code name start position.
Proof.
  induction fuel as [|fuel IH]; intros pre s ls starts Hcode Hls Hst; [done|]. cbn [starts_from].
  destruct s as [|c s]; [done|]. destruct (if ls then function_header (c :: s) else None) as [[n r]|] eqn:E.
  - destruct ls; [|done]. destruct (function_header_suffix _ _ _ E) as (h & Hh & Eh).
    rewrite Eh in *. replace (zlen pre + (zlen (h ++ r) - zlen r)) with (zlen (pre ++ h)) by (rewrite !zlen_app; lia).
    apply IH; [by rewrite <- app_assoc|done|]. intros name start position.
    destruct (dmem n starts); [apply Hst|]. destruct (decide (name = n)) as [->|Hn].
    + rewrite dget_dset. intros [= <- <-]. exists pre, h, r. split_and!; auto.
    + rewrite dget_dset_ne by done. apply Hst.
  - replace (zlen pre + 1) with (zlen (pre ++ [c])) by (rewrite zlen_app, zlen_cons, zlen_nil; lia).
    apply IH; [by rewrite <- app_assoc| |done]. intros ->%Z.eqb_eq. right. by rewrite last_snoc.
Qed.

Lemma function_starts_header sources name start position :
  dget name (function_starts sources) = Some (start, position) →
  header_at (masked_sources sources) name start position.
Proof. by apply (starts_from_headers _ _ [] _ true []); auto. Qed.

Lemma zlen_masked_sources sources : zlen (masked_sources sources) = zlen sources.
Proof.
  unfold zlen. f_equal. symmetry.
  apply (Forall2_length layout), weave_layout, (masked_weave false), scan_scans.
Qed.

(** A function's source is found exactly when its name has a header and what
    follows is well bracketed in the masked text.  It runs from the start of the
    header's line to the brace that closes the body; brackets in comments and in
    literals do not count, and an effect set before the body is not taken for it. *)
Theorem function_body_extent name sources body :
  function_body name sources = Ok (Some body) ↔
  ∃ start position rest,
    dget name (function_starts sources) = Some (start, position) ∧
    header_at (masked_sources sources) name start position ∧
    body_region (from (masked_sources sources) position) rest ∧
    body = slice sources start (zlen sources - zlen rest).
Proof.
  unfold function_body. rewrite zlen_masked_sources.
  destruct (dget name (function_starts sources)) as [[start position]|] eqn:E.
  2:{ split; [done|]. by intros (? & ? & ? & ? & _). }
  pose proof (function_starts_header _ _ _ _ E) as Hat.
  destruct Hat as (pre & h & rest & Hc & Hs & Hp & Hat). rewrite Hc.
  replace (pre ++ h ++ rest) with ((pre ++ h) ++ rest) by by rewrite <- app_assoc.
  rewrite Hp. split.
  - intros (r & Hr%body_end_iff & [= <-])%bind_Ok_inv. exists start, (zlen (pre ++ h)), r.
    split_and!; [done|exists pre, h, rest; by rewrite <- app_assoc|by rewrite from_app|done].
  - intros (? & ? & r & [= <- <-] & _ & Hr & ->). rewrite from_app in Hr by done.
    apply (body_end_iff (pre ++ h)) in Hr. by rewrite Hr.
Qed.

(** A function after a comment and a string that hold braces, with an effect set. *)
Example function_body_runs :
  function_body ($"f") ($"// fn f( {" ++ [10] ++ $"  private fn f(a: u8) !{io} { g('{') }" ++ [10] ++ $"fn g() {}")
  = Ok (Some ($"  private fn f(a: u8) !{io} { g('{') }")).
Proof. by_compute. Qed.
