(* ===== verification/RangeObligations.v ===== *)
(** * Range obligations

    Model of scripts/buildcheck_range_obligations.py: every SMT-LIB file the compiler
    wrote is checked with z3.  Files whose formulas differ only in comments and in the
    names of atoms share one verdict, in a run and in the cache of [unsat] verdicts.
    The files run in batches, several in one z3 process, and a file whose batch gave
    no [unsat] is run alone.

    z3 is the class [Z3]: processes that are written to and read from, and runs on one
    text.  MD5 is the argument [md5].  Solving times are left out: the entry of the
    cache is its key, and whether the run was over its time budget is an argument of
    [main].  The failing controls, which compile planted sources, are left out. *)
From S2P Require Import Prelude Text Dict Sort PassLine.

Definition HEADER : str := $"; takibi-range-obligation v2".
Definition INIT_HEADER : str := $"; takibi-init-obligation v1".
Definition INDEX_RULE : str := nl ++ $"; rule: index" ++ nl.

(** Site lines, and the text whose MD5 is the obligation's identity. *)
Definition split (text : str) : list str * str :=
  let site line := startswith line ($"; site: ") in
  let lines := splitlines_keep text in
  (map (fun line => strip (from line (zlen ($"; site: ")))) (filter (fun line => site line = true) lines),
   concat (filter (fun line => site line = false) lines)).

(** ** Canonical form *)

(** [\bx_[A-Za-z0-9_]+\b]: a whole word that starts with [x_] and goes on. *)
Definition is_atom (w : str) : bool :=
  match w with 120 :: 95 :: _ :: _ => true | _ => false end.

(** A line in words and the characters between them. *)
Fixpoint lex (line : str) : list (str + Z) :=
  match line with
  | [] => []
  | c :: line =>
      if is_word c then
        match lex line with inl w :: ts => inl (c :: w) :: ts | ts => inl [c] :: ts end
      else inr c :: lex line
  end.

(** [names.setdefault(a, f"x_c{len(names)}")]. *)
Definition rename_atom (names : list (str * str)) (a : str) : list (str * str) * str :=
  match dget a names with
  | Some n => (names, n)
  | None => let n := $"x_c" ++ dec (zlen names) in (dset a n names, n)
  end.

Definition rename_token (names : list (str * str)) (t : str + Z) : list (str * str) * str :=
  match t with
  | inl w => if is_atom w then rename_atom names w else (names, w)
  | inr c => (names, [c])
  end.

(** [ATOM.sub] over a line. *)
Fixpoint rename_tokens (names : list (str * str)) (ts : list (str + Z)) : list (str * str) * str :=
  match ts with
  | [] => (names, [])
  | t :: ts =>
      let '(names, s) := rename_token names t in
      let '(names, rest) := rename_tokens names ts in
      (names, s ++ rest)
  end.

Fixpoint rename_lines (names : list (str * str)) (lines : list str) : list str :=
  match lines with
  | [] => []
  | line :: lines =>
      let '(names, line) := rename_tokens names (lex line) in
      line :: rename_lines names lines
  end.

Definition code_lines (body : str) : list str :=
  filter (fun line => startswith line ($";") = false) (splitlines body).

Definition canonical (body : str) : str :=
  let kind := default [] (head (splitlines body)) in
  join nl (kind :: rename_lines [] (code_lines body)) ++ nl.

(** ** z3 *)

(** A z3 process: its start, which the system may refuse; the lines it answers to
    what is written, before its output ends or it waits for more; a write that fails.
    The processes of a run are numbered.  [z3_alone] is the output of a process given
    one text, or the word the time limit stands for. *)
Class Z3 : Type := {
  z3_state : Type;
  z3_start : Z → option z3_state;
  z3_write : z3_state → str → option (list str * z3_state);
  z3_alone : str → str }.

Definition no_output : str := $"no output".

Definition marker (index : Z) : str := $"takibi-obligation-end-" ++ dec index.
Definition query (index : Z) (body : str) : str :=
  body ++ $"(echo " ++ quo ++ marker index ++ quo ++ $")" ++ nl ++ $"(reset)" ++ nl.

(** The lines up to the marker, and those after it; none when the output ends
    first. *)
Fixpoint read_answer (mark : str) (output : list str) : option (list str * list str) :=
  match output with
  | [] => None
  | line :: output =>
      if decide (strip line = mark) then Some ([], output)
      else '(lines, rest) ← read_answer mark output; Some (strip line :: lines, rest)
  end.

Definition verdict_of (lines : list str) : str := match lines with [line] => line | _ => no_output end.

Section solver.
Context {S : Z3}.

(** The loop over the bodies; [pending] was written before and not read. *)
Fixpoint batch_loop (st : z3_state) (pending : list str) (index : Z) (bodies : list str) : list str :=
  match bodies with
  | [] => []
  | body :: bodies =>
      match z3_write st (query index body) with
      | None => []
      | Some (output, st) =>
          match read_answer (marker index) (pending ++ output) with
          | None => [no_output]
          | Some (lines, pending) => verdict_of lines :: batch_loop st pending (index + 1) bodies
          end
      end
  end.

Definition batch_solve (process : Z) (bodies : list str) : list str :=
  let results := match z3_start process with None => [] | Some st => batch_loop st [] 0 bodies end in
  results ++ replicate (length bodies - length results) no_output.

(** ** The directory *)

Record obligation := Obligation { path_name : str; sites : list str; body : str }.

(** [path.stem] of a name that ends in [.smt2]. *)
Definition stem (name : str) : str :=
  let s := take (length name - 5) name in if decide (s = []) then name else s.

Definition smt2_files (directory : list (str * str)) : list (str * str) :=
  py_sorted (fun a b => str_le a.1 b.1) (filter (fun f => endswith f.1 ($".smt2") = true) directory).

Definition is_init (text : str) : bool := startswith text INIT_HEADER.

(** What the loop over the files collects: the reports, the obligations by the digest
    of their canonical form, and the counts of init and of index obligations. *)
Record collected := Collected {
  failures : list str;
  groups : list (str * list obligation);
  init_count : Z;
  index_count : Z }.

Section digests.
Variable md5 : str → str.

Definition cache_key (body : str) : str := md5 ($"canonical-v1" ++ nl ++ canonical body).

Definition collect_file (st : collected) (file : str * str) : collected :=
  let '(name, text) := file in
  let '(sites, body) := split text in
  let failed report := Collected (failures st ++ [report]) (groups st) (init_count st) (index_count st) in
  if negb (startswith text HEADER) && negb (is_init text) then
    failed (name ++ $": not a v1 range or init obligation")
  else if decide (md5 body = stem name) then
    let key := cache_key body in
    let members := default [] (dget key (groups st)) ++ [Obligation name sites body] in
    let init := is_init text in
    Collected (failures st) (dset key members (groups st))
      (init_count st + (if init then 1 else 0))
      (index_count st + (if init && contains INDEX_RULE text then 1 else 0))
  else failed (name ++ $": content digest is " ++ md5 body).

Definition collect (files : list (str * str)) : collected := foldl collect_file (Collected [] [] 0 0) files.

(** The body that is solved for a group; a group is never empty. *)
Definition first_body (members : list obligation) : str := match members with m :: _ => body m | [] => [] end.

Definition group : Type := str * list obligation.

Definition run_chunk (process : Z) (chunk : list group) : list (group * str) :=
  zip chunk (batch_solve process (map (fun g => first_body g.2) chunk)).

(** [l[i::n]], for a positive [n]. *)
Fixpoint stride_from {A} (skip n : nat) (l : list A) : list A :=
  match l with
  | [] => []
  | a :: l => match skip with O => a :: stride_from (n - 1) n l | Datatypes.S skip => stride_from skip n l end
  end.

Definition range_chunks (cpus : Z) (range_todo : list group) : list (list group) :=
  let workers := Z.max 1 (Z.min 8 (Z.min cpus (zlen range_todo))) in
  filter (fun c => c ≠ []) (map (fun i => stride_from (Z.to_nat i) (Z.to_nat workers) range_todo) (zrange workers)).

(** The init obligations run first, in a process of their own. *)
Definition solve_todo (cpus : Z) (todo : list group) : list (group * str) :=
  let init_todo := filter (fun g => is_init (first_body g.2) = true) todo in
  let range_todo := filter (fun g => is_init (first_body g.2) = false) todo in
  (if decide (init_todo = []) then [] else run_chunk 0 init_todo) ++
  concat (imap (fun i chunk => run_chunk (Z.of_nat i + 1) chunk) (range_chunks cpus range_todo)).

(** The first line of what a run alone answers. *)
Definition alone_verdict (out : str) : str :=
  match splitlines (strip out) with line :: _ => line | [] => no_output end.

Definition first_line (prefix body : str) : str :=
  default [] (List.find (fun line => startswith line prefix) (splitlines body)).

(** The report of an obligation that a run alone did not prove. *)
Definition report (o : obligation) (out : str) : str :=
  let verdict := alone_verdict out in
  let claim := first_line ($"; claim:") (body o) in
  let rule := first_line ($"; rule:") (body o) in
  let model extra := map (fun l => $"    " ++ l) (tail (splitlines (strip (z3_alone (body o ++ extra))))) in
  join nl
    ([path_name o ++ $": " ++ verdict ++ $"  (" ++ from rule 2 ++ $", " ++ from claim 2 ++ $")"] ++
     map (fun s => $"  at " ++ s) (sites o) ++
     (if decide (verdict = $"sat") then
        if is_init (body o) then
          $"  counterexample (k: an element not covered):" ::
          model ($"(get-model)" ++ nl ++ $"(get-value (k))" ++ nl)
        else
          $"  counterexample (a, b: inputs; r: result):" ::
          model ($"(get-model)" ++ nl ++ $"(get-value (r))" ++ nl)
      else [$"  " ++ replace nl (nl ++ $"  ") (strip out)])).

Definition run_alone (o : obligation) : list str :=
  let out := z3_alone (body o) in
  if decide (alone_verdict out = $"unsat") then [] else [report o out].

(** [check_dir]: the reports, the counts, and the cache after the run. *)
Definition check_dir (cpus : Z) (dirname : str) (directory : list (str * str)) (cache : option (list str))
    : collected * option (list str) :=
  let files := smt2_files directory in
  if decide (files = []) then (Collected [$"no obligations in " ++ dirname] [] 0 0, cache) else
  let got := collect files in
  let cached key := match cache with Some keys => bool_decide (key ∈ keys) | None => false end in
  let todo := filter (fun g : group => cached g.1 = false) (groups got) in
  let solved := solve_todo cpus todo in
  let proved := filter (fun s : group * str => s.2 = $"unsat") solved in
  let retry := concat (map (fun s : group * str => s.1.2) (filter (fun s => s.2 ≠ $"unsat") solved)) in
  (Collected (failures got ++ concat (map run_alone retry)) (groups got) (init_count got) (index_count got),
   (fun keys => keys ++ map (fun s => s.1.1) proved) <$> cache).

(** [main] on a directory: the exit status and the lines it prints before the time
    budgets. *)
Definition main (over_budget : bool) (cpus : Z) (dirname : str) (directory : list (str * str))
    (cache : option (list str)) : res (Z * list str) :=
  let '(got, _) := check_dir cpus dirname directory cache in
  if decide (failures got = []) then
    if over_budget then Ok (1, []) else
    line ← report_pass ($"range-obligations") ($"z3 proves every derived refinement range in " ++ dirname)
             [($"obligations", zlen (filter (fun f => endswith f.1 ($".smt2") = true) directory))];
    Ok (0, [line])
  else Ok (1, [join nl (failures got);
               $"FAIL range-obligations: " ++ dec (zlen (failures got)) ++
               $" derived range(s) not proved by z3 in " ++ dirname]).
End digests.
End solver.
