(* ===== verification/RangeObligationsFacts.v ===== *)
(** * Facts about the range obligations

    Two obligations have one canonical form exactly when their formulas are equal up
    to an injective renaming of atoms.  So sharing verdicts is sound: when the run
    reports nothing, every obligation of the directory is proved, whether its verdict
    came from the cache, from another member of its group, from a batch or from a run
    alone; and the cache only ever holds keys of proved obligations. *)
From S2P Require Import Prelude Text Dict Sort PassLine RangeObligations.

(** ** Words *)

Definition print (ts : list (str + Z)) : str := concat (map (fun t => match t with inl w => w | inr c => [c] end) ts).

Definition word (w : str) : Prop := w ≠ [] ∧ Forall (fun c => is_word c = true) w.

(** The words of a line are not adjacent. *)
Fixpoint lexed (ts : list (str + Z)) : Prop :=
  match ts with
  | [] => True
  | inr c :: ts => is_word c = false ∧ lexed ts
  | inl w :: ts => word w ∧ (match ts with inl _ :: _ => False | _ => True end) ∧ lexed ts
  end.

Lemma lex_lexed line : lexed (lex line).
Proof.
  induction line as [|c line IH]; [done|]. cbn [lex]. destruct (is_word c) eqn:Hc; [|done].
  destruct (lex line) as [|[w|d] ts]; cbn in *; unfold word; [by auto|..].
  - destruct IH as ([_ Hw] & Ht & IH). split_and!; [done|by constructor|done|done].
  - destruct IH as [Hd IH]. split_and!; auto.
Qed.

Lemma print_lex line : print (lex line) = line.
Proof.
  unfold print. induction line as [|c line IH]; [done|]. cbn [lex]. destruct (is_word c).
  - destruct (lex line) as [|[w|d] ts]; cbn in *; by rewrite IH.
  - cbn. by rewrite IH.
Qed.

Lemma lex_print ts : lexed ts → lex (print ts) = ts.
Proof.
  unfold print. induction ts as [|[w|c] ts IH]; intros H; [done|..]; cbn in *.
  - destruct H as ([Hne Hw] & Hadj & Hts). specialize (IH Hts).
    set (s := concat _) in *. clearbody s.
    induction Hw as [|c w Hc Hw IHw]; [done|]. cbn [app lex]. rewrite Hc.
    destruct w as [|d w]; [cbn [app]; rewrite IH; destruct ts as [|[]]; done|]. by rewrite IHw.
  - destruct H as [Hc Hts]. by rewrite Hc, IH.
Qed.

(** ** Renamings *)

Definition rename (f : str → str) (t : str + Z) : str + Z :=
  match t with inl w => if is_atom w then inl (f w) else t | inr _ => t end.

Definition is_token_atom (a : str) (t : str + Z) : Prop := t = inl a ∧ is_atom a = true.

Lemma rename_ext f g ts :
  (∀ a, inl a ∈ ts → is_atom a = true → f a = g a) → map (rename f) ts = map (rename g) ts.
Proof.
  induction ts as [|t ts IH]; intros H; [done|]. cbn. f_equal.
  - destruct t as [w|]; [|done]. cbn. destruct (is_atom w) eqn:E; [|done]. f_equal. apply H; [left|done].
  - apply IH. intros a Ha. apply H. by right.
Qed.

Lemma rename_lexed f ts :
  (∀ a, inl a ∈ ts → is_atom a = true → word (f a)) → lexed ts → lexed (map (rename f) ts).
Proof.
  induction ts as [|[w|c] ts IH]; intros Hf H; [done|..]; cbn [map rename].
  - destruct H as (Hw & Hadj & Hts).
    assert (lexed (map (rename f) ts)) as IH' by (apply IH; [intros; apply Hf; [by right|done]|done]).
    assert (match map (rename f) ts with inl _ :: _ => False | _ => True end)
      by (by destruct ts as [|[]]; cbn in *).
    destruct (is_atom w) eqn:E; split_and!; try done. apply Hf; [left|done].
  - destruct H as [Hc Hts]. split; [done|]. apply IH; [intros; apply Hf; [by right|done]|done].
Qed.

(** The names given so far: the values are [x_c0], [x_c1], ... in order. *)
Definition fresh (i : nat) : str := $"x_c" ++ dec (Z.of_nat i).
Definition named (names : list (str * str)) : Prop :=
  NoDup (map fst names) ∧ map snd names = map fresh (seq 0 (length names)).
Definition name_of (names : list (str * str)) (a : str) : str := default a (dget a names).
Definition extends (names names' : list (str * str)) : Prop :=
  ∀ a n, dget a names = Some n → dget a names' = Some n.

Lemma fresh_inj i j : fresh i = fresh j → i = j.
Proof. unfold fresh. intros E%app_inv_head%dec_inj. lia. Qed.

Lemma fresh_word i : word (fresh i) ∧ is_atom (fresh i) = true.
Proof.
  unfold fresh. destruct (dec_digits (Z.of_nat i)) as [Hd Hne]; [lia|]. split.
  - split; [done|]. apply Forall_app. split; [by repeat constructor|].
    eapply Forall_impl; [exact Hd|]. intros c Hc. unfold is_word, is_alnum. by rewrite Hc, orb_true_r.
  - by destruct (dec (Z.of_nat i)).
Qed.

Lemma named_lookup names a n : named names → dget a names = Some n → ∃ i, names !! i = Some (a, n) ∧ n = fresh i.
Proof.
  intros [_ Hv] (i & Hi)%dget_elem_of%list_elem_of_lookup_1. exists i. split; [done|].
  assert (map snd names !! i = Some n) as H by by rewrite list_lookup_fmap, Hi.
  rewrite Hv, list_lookup_fmap in H. pose proof (lookup_lt_Some _ _ _ Hi).
  rewrite lookup_seq_lt in H by done. by injection H as <-.
Qed.

Lemma named_inj names a b n : named names → dget a names = Some n → dget b names = Some n → a = b.
Proof.
  intros Hn Ha Hb. destruct (named_lookup _ _ _ Hn Ha) as (i & Hi & ->).
  destruct (named_lookup _ _ _ Hn Hb) as (j & Hj & ->%fresh_inj). congruence.
Qed.

Lemma rename_atom_spec names a names' n :
  named names → rename_atom names a = (names', n) → named names' ∧ extends names names' ∧ dget a names' = Some n.
Proof.
  intros [Hk Hv] E. unfold rename_atom in E. destruct (dget a names) as [m|] eqn:Ea; simplify_eq.
  - split_and!; [by split|by intros ?|done].
  - pose proof Ea as Ha. rewrite dget_None in Ha. split_and!.
    + split; [by apply dset_NoDup|]. rewrite dset_new by done. rewrite map_app, Hv, length_app. cbn.
      rewrite Nat.add_1_r, seq_S, map_app. done.
    + intros b m Hb. destruct (decide (b = a)) as [->|]; [congruence|]. by rewrite dget_dset_ne.
    + apply dget_dset.
Qed.

(** Over a line, every atom gets its name in the dictionary after the line. *)
Lemma rename_tokens_spec ts : ∀ names names' s,
  named names → rename_tokens names ts = (names', s) →
  named names' ∧ extends names names' ∧
  (∀ a, inl a ∈ ts → is_atom a = true → is_Some (dget a names')) ∧
  s = print (map (rename (name_of names')) ts).
Proof.
  induction ts as [|t ts IH]; intros names names' s Hn E; cbn in E.
  { injection E as <- <-. split_and!; [done|by intros ?| |done]. by intros a ?%not_elem_of_nil. }
  destruct (rename_token names t) as [n1 s1] eqn:Et. destruct (rename_tokens n1 ts) as [n2 s2] eqn:Er.
  injection E as <- <-.
  assert (named n1 ∧ extends names n1 ∧
    ∀ n, extends n1 n → s1 = print [rename (name_of n) t] ∧ (∀ a, inl a = t → is_atom a = true → is_Some (dget a n)))
    as (Hn1 & He1 & Hs1).
  { destruct t as [w|c]; cbn in Et; [destruct (is_atom w) eqn:Ew|]; simplify_eq.
    - apply rename_atom_spec in Et as (Hn1 & He & Hw); [|done]. split_and!; [done..|]. intros n Hx.
      apply Hx in Hw. unfold print, name_of. cbn. rewrite Ew, Hw. cbn. rewrite app_nil_r.
      split; [done|]. intros a [= ->] _. eauto.
    - split_and!; [done|by intros ?|]. intros n _. unfold print. cbn. rewrite Ew. cbn. rewrite app_nil_r. split; [done|].
      intros a [= ->]. congruence.
    - split_and!; [done|by intros ?|]. intros n _. by split. }
  destruct (IH _ _ _ Hn1 Er) as (Hn2 & He2 & Ha2 & ->). destruct (Hs1 n2 He2) as [-> Ht].
  split_and!; [done|by intros a n ?%He1%He2| |].
  - intros a [Ea|Ha]%elem_of_cons; [by apply Ht|by apply Ha2].
  - unfold print. cbn. by rewrite app_nil_r.
Qed.

Lemma name_of_extends names names' ts :
  extends names names' → (∀ a, inl a ∈ ts → is_atom a = true → is_Some (dget a names)) →
  map (rename (name_of names)) ts = map (rename (name_of names')) ts.
Proof.
  intros He Ha. apply rename_ext. intros a Hin Hat. destruct (Ha a Hin Hat) as [n Hn].
  unfold name_of. by rewrite Hn, (He _ _ Hn).
Qed.

Definition renamed (names : list (str * str)) (line : str) : str := print (map (rename (name_of names)) (lex line)).
Definition covers (names : list (str * str)) (line : str) : Prop :=
  ∀ a, inl a ∈ lex line → is_atom a = true → is_Some (dget a names).

Lemma rename_lines_spec lines : ∀ names, named names →
  ∃ names', named names' ∧ extends names names' ∧ Forall (covers names') lines ∧
    rename_lines names lines = map (renamed names') lines.
Proof.
  induction lines as [|line lines IH]; intros names Hn; [exists names; split_and!; [done|by intros ?|constructor|done]|]. cbn.
  destruct (rename_tokens names (lex line)) as [n1 s1] eqn:E.
  apply rename_tokens_spec in E as (Hn1 & He1 & Ha1 & ->); [|done].
  destruct (IH n1 Hn1) as (n2 & Hn2 & He2 & Ha2 & ->). exists n2. split_and!; [done|by intros a n ?%He1%He2| |].
  - constructor; [|done]. intros a Hin Hat. destruct (Ha1 a Hin Hat) as [n Ha]. exists n. by apply He2.
  - f_equal. unfold renamed. by rewrite (name_of_extends n1 n2).
Qed.

(** ** Lines *)

Lemma word_no_break w : word w → no_break w.
Proof.
  intros [_ Hw]. eapply Forall_impl; [exact Hw|]. intros c Hc. cbn in *. unfold is_linebreak, in_range.
  unfold is_word, is_alnum, is_alpha, is_upper, is_lower, is_digit, in_range in Hc. lia.
Qed.

Lemma print_no_break f ts :
  (∀ a, inl a ∈ ts → is_atom a = true → word (f a)) → no_break (print ts) → no_break (print (map (rename f) ts)).
Proof.
  unfold print, no_break. induction ts as [|t ts IH]; intros Hf H; [done|]. cbn in *.
  apply Forall_app in H as [Ht Hts]. apply Forall_app. split.
  - destruct t as [w|c]; [|done]. cbn. destruct (is_atom w) eqn:E; [|done]. apply word_no_break, Hf; [left|done].
  - apply IH; [|done]. intros a Ha. apply Hf. by right.
Qed.

Lemma join_lines l ls : join nl (l :: ls) ++ nl = concat (map (fun l => l ++ nl) (l :: ls)).
Proof.
  revert l. induction ls as [|l' ls IH]; intros l; [by cbn; rewrite app_nil_r|].
  change (join nl (l :: l' :: ls)) with (l ++ nl ++ join nl (l' :: ls)). rewrite <- !app_assoc, IH.
  cbn [map concat]. by rewrite <- !app_assoc.
Qed.

Lemma lines_inj l1 ls1 l2 ls2 :
  Forall no_break (l1 :: ls1) → Forall no_break (l2 :: ls2) →
  join nl (l1 :: ls1) ++ nl = join nl (l2 :: ls2) ++ nl → l1 :: ls1 = l2 :: ls2.
Proof.
  intros H1 H2 E. rewrite !join_lines in E.
  by rewrite <- (splitlines_lines (l1 :: ls1)), <- (splitlines_lines (l2 :: ls2)), E.
Qed.

(** ** Formulas *)

Definition formula (body : str) : list (list (str + Z)) := map lex (code_lines body).
Definition kind_of (body : str) : str := default [] (head (splitlines body)).
Definition atom_in (a : str) (body : str) : Prop := is_atom a = true ∧ ∃ ts, ts ∈ formula body ∧ inl a ∈ ts.

(** Equal up to an injective renaming of atoms. *)
Definition same_formula (b1 b2 : str) : Prop := ∃ f : str → str,
  (∀ a, atom_in a b1 → is_atom (f a) = true) ∧
  (∀ a a', atom_in a b1 → atom_in a' b1 → f a = f a' → a = a') ∧
  formula b2 = map (map (rename f)) (formula b1).

Lemma code_lines_no_break body : Forall no_break (code_lines body).
Proof.
  pose proof (splitlines_no_break body) as H. rewrite Forall_forall in *.
  intros l [_ Hl]%list_elem_of_filter. by apply H.
Qed.

Lemma named_nil : named [].
Proof. split; [constructor|done]. Qed.

Lemma name_of_word names a : named names → is_Some (dget a names) → word (name_of names a) ∧ is_atom (name_of names a) = true.
Proof.
  intros Hn [n Ha]. destruct (named_lookup _ _ _ Hn Ha) as (i & _ & ->). unfold name_of. rewrite Ha. apply fresh_word.
Qed.

(** The canonical text: the kind and the lines under the names given at the end. *)
Lemma canonical_spec body : ∃ names,
  named names ∧ Forall (covers names) (code_lines body) ∧
  Forall no_break (kind_of body :: map (renamed names) (code_lines body)) ∧
  canonical body = join nl (kind_of body :: map (renamed names) (code_lines body)) ++ nl.
Proof.
  destruct (rename_lines_spec (code_lines body) [] named_nil) as (names & Hn & _ & Hc & E).
  exists names. split_and!; [done|done| |by unfold canonical; rewrite E]. constructor.
  - unfold kind_of. pose proof (splitlines_no_break body) as H. destruct H; [constructor|done].
  - apply Forall_map. pose proof (code_lines_no_break body) as Hb.
    rewrite Forall_forall in Hb, Hc |- *. intros line Hl. apply print_no_break; [|rewrite print_lex; by apply Hb].
    intros a Ha Hat. apply name_of_word; [done|]. by apply (Hc line).
Qed.

Lemma renamed_lex names line : named names → covers names line → lex (renamed names line) = map (rename (name_of names)) (lex line).
Proof.
  intros Hn Hc. apply lex_print, rename_lexed; [|apply lex_lexed]. intros a Ha Hat. apply name_of_word; [done|]. by apply Hc.
Qed.

(** ** Equal canonical forms *)

Section matching.
Variables (names1 names2 : list (str * str)).
Hypotheses (Hn1 : named names1) (Hn2 : named names2).

(** The atom of the second text that has the name of one of the first. *)
Definition counterpart (a : str) : str :=
  match dget a names1 with
  | Some n => match List.find (fun p => bool_decide (p.2 = n)) names2 with Some p => p.1 | None => a end
  | None => a
  end.

Lemma counterpart_eq a b n : dget a names1 = Some n → dget b names2 = Some n → counterpart a = b.
Proof using Hn2.
  intros Ha Hb. unfold counterpart. rewrite Ha. destruct (List.find _ names2) as [[b' n']|] eqn:E.
  - apply List.find_some in E as [Hin Hv%bool_decide_eq_true]. cbn in *. subst n'.
    apply (named_inj names2 _ _ n); [done| |done]. apply dget_NoDup; [apply Hn2|by apply list_elem_of_In].
  - pose proof (List.find_none _ _ E (b, n)) as H. rewrite bool_decide_eq_false in H.
    destruct H; [|done]. by apply list_elem_of_In, dget_elem_of.
Qed.

Definition linked (t1 t2 : str + Z) : Prop :=
  t2 = rename counterpart t1 ∧
  ∀ a, t1 = inl a → is_atom a = true →
    is_atom (counterpart a) = true ∧ ∃ n, dget a names1 = Some n ∧ dget (counterpart a) names2 = Some n.

Lemma tokens_linked t1 t2 :
  (∀ a, t1 = inl a → is_atom a = true → is_Some (dget a names1)) →
  (∀ a, t2 = inl a → is_atom a = true → is_Some (dget a names2)) →
  rename (name_of names1) t1 = rename (name_of names2) t2 → linked t1 t2.
Proof using Hn1 Hn2.
  intros H1 H2 E.
  assert (∀ names a, named names → is_Some (dget a names) → is_atom (name_of names a) = true) as Hatom
    by (intros; by apply name_of_word).
  destruct t1 as [a|c], t2 as [b|d]; cbn in E.
  - destruct (is_atom a) eqn:Ea, (is_atom b) eqn:Eb; simplify_eq.
    + destruct (H1 a eq_refl Ea) as [n Ha], (H2 b eq_refl Eb) as [m Hb].
      unfold name_of in E. rewrite Ha, Hb in E. cbn in E. subst m.
      pose proof (counterpart_eq a b n Ha Hb) as Hc. split; cbn; rewrite ?Ea, ?Hc; [done|].
      intros a' [= <-] _. rewrite Hc. eauto.
    + specialize (Hatom names1 a Hn1 (H1 a eq_refl Ea)). congruence.
    + specialize (Hatom names2 b Hn2 (H2 b eq_refl Eb)). congruence.
    + split; cbn; [by rewrite Ea|]. intros a' [= <-]. congruence.
  - by destruct (is_atom a).
  - by destruct (is_atom b).
  - split; [done|]. by intros a [=].
Qed.

Lemma lines_linked l1 l2 :
  Forall (covers names1) l1 → Forall (covers names2) l2 → map (renamed names1) l1 = map (renamed names2) l2 →
  Forall2 (Forall2 linked) (map lex l1) (map lex l2).
Proof using Hn1 Hn2.
  intros H1. revert l2. induction H1 as [|x1 l1 Hx1 H1 IH]; intros [|x2 l2] H2 E; try done.
  inversion_clear H2 as [|?? Hx2 H2']. injection E as Ex E. cbn. constructor; [|by apply IH].
  apply (f_equal lex) in Ex. rewrite !renamed_lex in Ex by done. clear - Hn1 Hn2 Hx1 Hx2 Ex. unfold covers in *.
  revert Ex Hx1 Hx2. generalize (lex x1), (lex x2). intros ts1.
  induction ts1 as [|t1 ts1 IH]; intros [|t2 ts2] E H1 H2; try done.
  injection E as Et E. constructor.
  - apply tokens_linked; [intros a ->; apply H1; left|intros a ->; apply H2; left|done].
  - apply IH; [done|intros a Ha; apply H1; by right|intros a Ha; apply H2; by right].
Qed.
End matching.

Lemma canonical_same b1 b2 : canonical b1 = canonical b2 → kind_of b1 = kind_of b2 ∧ same_formula b1 b2.
Proof.
  destruct (canonical_spec b1) as (n1 & Hn1 & Hc1 & Hb1 & ->), (canonical_spec b2) as (n2 & Hn2 & Hc2 & Hb2 & ->).
  intros E%lines_inj; [|done..]. injection E as Ek E. split; [done|].
  pose proof (lines_linked n1 n2 Hn1 Hn2 _ _ Hc1 Hc2 E) as H. fold (formula b1) (formula b2) in H.
  assert (∀ a, atom_in a b1 → is_atom (counterpart n1 n2 a) = true ∧
    ∃ n, dget a n1 = Some n ∧ dget (counterpart n1 n2 a) n2 = Some n) as Ha.
  { intros a (Hat & ts & (i & Hi)%list_elem_of_lookup_1 & (j & Hj)%list_elem_of_lookup_1).
    destruct (Forall2_lookup_l _ _ _ _ _ H Hi) as (ts2 & _ & Hts).
    destruct (Forall2_lookup_l _ _ _ _ _ Hts Hj) as (t2 & _ & _ & Ht). by apply Ht. }
  exists (counterpart n1 n2). split_and!.
  - intros a Hin. by apply Ha.
  - intros a a' (_ & n & Hx & Hx')%Ha (_ & n' & Hy & Hy')%Ha Eq. rewrite Eq in Hx'. simplify_eq.
    by apply (named_inj n1 _ _ n).
  - clear - H. induction H as [|ts1 ts2 l1 l2 Hts _ IH]; [done|]. cbn. f_equal; [|done].
    clear - Hts. induction Hts as [|t1 t2 ts1 ts2 [-> _] _ IH]; [done|]. cbn. by f_equal.
Qed.

(** ** Equal formulas *)

Section renaming.
Variables (f : str → str) (P : str → Prop).
Hypotheses (Hatom : ∀ a, P a → is_atom (f a) = true) (Hinj : ∀ a a', P a → P a' → f a = f a' → a = a').

Definition carried (names : list (str * str)) : list (str * str) := map (fun p => (f p.1, p.2)) names.

Lemma carried_get names a : Forall (fun p => P p.1) names → P a → dget (f a) (carried names) = dget a names.
Proof using Hinj.
  intros Hn Ha. induction Hn as [|[b n] names Hb _ IH]; [done|]. cbn in *.
  destruct (decide (b = a)) as [->|Hne]; [by rewrite decide_True|]. rewrite decide_False; [done|].
  intros E. by apply Hne, Hinj.
Qed.

Lemma carried_set names a n : Forall (fun p => P p.1) names → P a → dset (f a) n (carried names) = carried (dset a n names).
Proof using Hinj.
  intros Hn Ha. induction Hn as [|[b m] names Hb _ IH]; [done|]. cbn in *.
  destruct (decide (b = a)) as [->|Hne]; [by rewrite decide_True|]. rewrite decide_False; [cbn; f_equal; apply IH|].
  intros E. by apply Hne, Hinj.
Qed.

Lemma rename_tokens_carried ts : ∀ names,
  Forall (fun p => P p.1) names → (∀ a, inl a ∈ ts → is_atom a = true → P a) →
  let r := rename_tokens names ts in
  rename_tokens (carried names) (map (rename f) ts) = (carried r.1, r.2) ∧ Forall (fun p => P p.1) r.1.
Proof using Hatom Hinj.
  induction ts as [|t ts IH]; intros names Hn Ha; [done|]. cbn.
  assert (∃ n1 s, rename_token names t = (n1, s) ∧ Forall (fun p => P p.1) n1 ∧
    rename_token (carried names) (rename f t) = (carried n1, s)) as (n1 & s & -> & Hn1 & ->).
  { destruct t as [w|c]; cbn; [destruct (is_atom w) eqn:Ew|]; cbn; rewrite ?Ew; eauto 6.
    assert (P w) as Hw by (apply Ha; [left|done]). rewrite (Hatom w Hw). unfold rename_atom.
    rewrite carried_get by done. destruct (dget w names) as [n|] eqn:E; [eauto 6|].
    do 2 eexists. split_and!; [done| |].
    - rewrite dset_new by by apply dget_None. apply Forall_app. by repeat constructor.
    - rewrite carried_set by done. unfold carried, zlen. by rewrite !length_map. }
  destruct (IH n1 Hn1) as [-> Hr]; [intros a Hin; apply Ha; by right|].
  by destruct (rename_tokens n1 ts).
Qed.

Lemma rename_lines_carried l1 : ∀ l2 names,
  Forall (fun p => P p.1) names →
  (∀ ts a, ts ∈ map lex l1 → inl a ∈ ts → is_atom a = true → P a) →
  map lex l2 = map (map (rename f)) (map lex l1) →
  rename_lines (carried names) l2 = rename_lines names l1.
Proof using Hatom Hinj.
  induction l1 as [|x1 l1 IH]; intros [|x2 l2] names Hn Ha E; try done. cbn in *. injection E as Ex E. rewrite Ex.
  destruct (rename_tokens_carried (lex x1) names Hn) as [-> Hn']; [intros a; apply Ha; left|].
  destruct (rename_tokens names (lex x1)) as [n1 s1]. cbn in *. f_equal.
  apply IH; [done| |done]. intros ts a Hts. apply Ha. by right.
Qed.
End renaming.

(** C28: two obligations have the same canonical text exactly when they are of the same
    kind and their formulas, the lines without the comments, are equal up to an
    injective renaming of the atoms. *)
Theorem canonical_iff b1 b2 : canonical b1 = canonical b2 ↔ kind_of b1 = kind_of b2 ∧ same_formula b1 b2.
Proof.
  split; [apply canonical_same|]. intros (Hk & f & Hat & Hinj & E). unfold canonical. fold (kind_of b1) (kind_of b2).
  rewrite Hk. do 3 f_equal. symmetry.
  apply (rename_lines_carried f (fun a => atom_in a b1) Hat Hinj _ _ []); [constructor| |done].
  intros ts a Hts Hin Ha. split; [done|]. by exists ts.
Qed.

(** ** Batches *)

Lemma read_answer_app answer line rest mark :
  strip line = mark → Forall (fun l => strip l ≠ mark) answer →
  read_answer mark (answer ++ line :: rest) = Some (map strip answer, rest).
Proof.
  intros Hl. induction 1 as [|l answer Hne _ IH]; cbn; [by rewrite decide_True|].
  rewrite decide_False by done. by rewrite IH.
Qed.

Lemma read_answer_none output mark : Forall (fun l => strip l ≠ mark) output → read_answer mark output = None.
Proof. induction 1 as [|l output Hne _ IH]; cbn; [done|]. rewrite decide_False by done. by rewrite IH. Qed.

Lemma elem_of_stride {A} (n : nat) (x : A) l :
  (0 < n)%nat → x ∈ l → ∀ d, (d < n)%nat → ∃ i, (i < n)%nat ∧ x ∈ stride_from ((i + d) mod n) n l.
Proof.
  intros Hn. induction 1 as [l|a l x Hx IH]; intros d Hd.
  - exists ((n - d) mod n)%nat. split; [by apply Nat.mod_upper_bound; lia|].
    rewrite Nat.Div0.add_mod_idemp_l. replace (n - d + d)%nat with n by lia. rewrite Nat.Div0.mod_same. left.
  - destruct (IH ((d + (n - 1)) mod n)%nat) as (i & Hi & Hin); [by apply Nat.mod_upper_bound; lia|].
    exists i. split; [done|]. rewrite Nat.Div0.add_mod_idemp_r in Hin.
    destruct ((i + d) mod n)%nat as [|k] eqn:E; cbn.
    + right. replace (n - 1)%nat with ((i + (d + (n - 1))) mod n)%nat; [done|].
      rewrite Nat.add_assoc, <- Nat.Div0.add_mod_idemp_l, E. apply Nat.mod_small. lia.
    + replace k with ((i + (d + (n - 1))) mod n)%nat; [done|].
      rewrite Nat.add_assoc, <- Nat.Div0.add_mod_idemp_l, E.
      pose proof (Nat.mod_upper_bound (i + d) n ltac:(lia)).
      replace (Datatypes.S k + (n - 1))%nat with (k + 1 * n)%nat by lia.
      rewrite Nat.Div0.mod_add. apply Nat.mod_small. lia.
Qed.

Lemma stride_sublist {A} n (x : A) l : ∀ skip, x ∈ stride_from skip n l → x ∈ l.
Proof.
  induction l as [|a l IH]; intros skip; [done|]. cbn. destruct skip as [|skip]; [|by intros ?%IH; right].
  intros [->|?%IH]%elem_of_cons; [by left|by right].
Qed.

(** The chunks hold the groups, all of them and no other. *)
Lemma elem_of_range_chunks cpus (todo : list group) g :
  g ∈ todo ↔ ∃ chunk, chunk ∈ range_chunks cpus todo ∧ g ∈ chunk.
Proof.
  unfold range_chunks. set (workers := Z.max 1 _). split.
  - intros Hg. assert (0 < Z.to_nat workers)%nat as Hw by lia.
    destruct (elem_of_stride (Z.to_nat workers) g todo Hw Hg 0 Hw) as (i & Hi & Hin).
    rewrite Nat.add_0_r, Nat.mod_small in Hin by done.
    exists (stride_from i (Z.to_nat workers) todo). split; [|done]. apply list_elem_of_filter. split.
    + intros E. rewrite E in Hin. by apply not_elem_of_nil in Hin.
    + apply list_elem_of_fmap. exists (Z.of_nat i). rewrite Nat2Z.id. split; [done|]. apply elem_of_zrange. lia.
  - intros (chunk & [_ (i & -> & _)%list_elem_of_fmap]%list_elem_of_filter & Hg). by apply stride_sublist in Hg.
Qed.

(** ** The files *)

Lemma elem_of_smt2_files directory f :
  f ∈ smt2_files directory ↔ f ∈ directory ∧ endswith f.1 ($".smt2") = true.
Proof. unfold smt2_files. rewrite elem_of_py_sorted, list_elem_of_filter. tauto. Qed.

Definition obligation_of (file : str * str) : obligation := Obligation file.1 (split file.2).1 (split file.2).2.
Definition body_of (file : str * str) : str := (split file.2).2.
Definition well_formed (md5 : str → str) (file : str * str) : Prop :=
  (startswith file.2 HEADER = true ∨ startswith file.2 INIT_HEADER = true) ∧ md5 (body_of file) = stem file.1.

#[global] Instance well_formed_dec md5 file : Decision (well_formed md5 file).
Proof. unfold well_formed. apply _. Defined.

Section files.
Variable md5 : str → str.

Lemma collect_file_ok st file :
  well_formed md5 file → ∃ i j,
  collect_file md5 st file = Collected (failures st)
    (dset (cache_key md5 (body_of file)) (default [] (dget (cache_key md5 (body_of file)) (groups st)) ++ [obligation_of file])
       (groups st)) i j.
Proof.
  destruct file as [name text]. unfold well_formed, body_of, collect_file, obligation_of, is_init. cbn [fst snd].
  destruct (split text) as [sites body]. cbn [fst snd]. intros [Hh Hd].
  rewrite decide_True by done. destruct (negb _ && negb _) eqn:E; [|by do 2 eexists].
  apply andb_prop in E as [E1%negb_true_iff E2%negb_true_iff]. destruct Hh; congruence.
Qed.

Lemma collect_file_bad st file :
  ¬ well_formed md5 file → ∃ r, collect_file md5 st file = Collected (failures st ++ [r]) (groups st) (init_count st) (index_count st).
Proof.
  destruct file as [name text]. unfold well_formed, body_of, collect_file, is_init. cbn [fst snd].
  destruct (split text) as [sites body]. cbn [fst snd]. intros Hbad.
  destruct (negb _ && negb _) eqn:E; [by eexists|]. destruct (decide (md5 body = stem name)) as [Hd|]; [|by eexists].
  destruct Hbad. split; [|done].
  apply andb_false_iff in E as [E%negb_false_iff|E%negb_false_iff]; [by left|by right].
Qed.

(** What the groups hold: the well-formed files, by the digest of their canonical
    form. *)
Record grouped (files : list (str * str)) (st : collected) : Prop := Grouped {
  grouped_failures : failures st = [] ↔ Forall (well_formed md5) files;
  grouped_keys : NoDup (map fst (groups st));
  grouped_member : ∀ file, file ∈ files → well_formed md5 file →
    ∃ members, (cache_key md5 (body_of file), members) ∈ groups st ∧ obligation_of file ∈ members;
  grouped_files : ∀ key members, (key, members) ∈ groups st →
    members ≠ [] ∧ ∀ m, m ∈ members → ∃ file, file ∈ files ∧ m = obligation_of file ∧ cache_key md5 (body m) = key }.

Lemma grouped_nil : grouped [] (Collected [] [] 0 0).
Proof.
  split; [by split|constructor|..].
  - by intros file ?%not_elem_of_nil.
  - by intros key members ?%not_elem_of_nil.
Qed.

Lemma grouped_bad files st file :
  grouped files st → ¬ well_formed md5 file → grouped (files ++ [file]) (collect_file md5 st file).
Proof.
  intros [Hf Hk Hm Hg] Hbad. destruct (collect_file_bad st file Hbad) as [r ->]. split; cbn [failures groups].
  - split; [by destruct (failures st)|]. intros H%Forall_app. destruct H as [_ H]. by inversion H.
  - done.
  - intros f [Hin| ->%list_elem_of_singleton]%elem_of_app Hw; [by apply Hm|done].
  - intros key members [Hne H]%Hg. split; [done|]. intros m (f & Hin & ?)%H. exists f. split; [|done].
    apply elem_of_app. by left.
Qed.

Lemma dset_other {V} (k k' : str) (v v' : V) d : k ≠ k' → (k, v) ∈ d → (k, v) ∈ dset k' v' d.
Proof.
  intros Hne. induction d as [|[k'' v''] d IH]; cbn; [by intros ?%not_elem_of_nil|]. intros [[= -> ->]|H]%elem_of_cons.
  - rewrite decide_False by congruence. left.
  - destruct (decide (k'' = k')); right; auto.
Qed.

Lemma grouped_ok files st file :
  grouped files st → well_formed md5 file → grouped (files ++ [file]) (collect_file md5 st file).
Proof.
  intros [Hf Hk Hm Hg] Hw. destruct (collect_file_ok st file Hw) as (i & j & ->).
  set (key := cache_key md5 (body_of file)). set (old := default [] (dget key (groups st))).
  assert (∀ m, m ∈ old → ∃ f, f ∈ files ∧ m = obligation_of f ∧ cache_key md5 (body m) = key) as Hold.
  { unfold old. intros m Hin. destruct (dget key (groups st)) as [ms|] eqn:E; cbn in Hin; [|by apply not_elem_of_nil in Hin].
    by apply dget_elem_of, Hg in E as [_ E]; apply E. }
  split; cbn [failures groups].
  - rewrite Forall_app, Forall_singleton, Hf. tauto.
  - by apply dset_NoDup.
  - intros f [Hin| ->%list_elem_of_singleton]%elem_of_app Hwf.
    + destruct (Hm f Hin Hwf) as (ms & Hms & Hin'). destruct (decide (cache_key md5 (body_of f) = key)) as [E|E].
      * exists (old ++ [obligation_of file]). rewrite E in Hms |- *. split; [by apply dget_elem_of, dget_dset|].
        apply elem_of_app. left. unfold old. by rewrite (dget_NoDup _ ms).
      * exists ms. split; [by apply dset_other|done].
    + exists (old ++ [obligation_of file]). split; [by apply dget_elem_of, dget_dset|].
      apply elem_of_app. right. by apply list_elem_of_singleton.
  - intros k ms [[-> ->]|H]%dset_elem_of.
    + split; [by destruct old|]. intros m [Hin|Hin]%elem_of_app.
      * destruct (Hold m Hin) as (f & Hf' & ?). exists f. split; [|done]. apply elem_of_app. by left.
      * apply list_elem_of_singleton in Hin as ->. exists file. split; [|done]. apply elem_of_app. right.
        by apply list_elem_of_singleton.
    + apply Hg in H as [Hne H]. split; [done|]. intros m (f & Hin & ?)%H. exists f. split; [|done].
      apply elem_of_app. by left.
Qed.

Lemma collect_grouped files : grouped files (collect md5 files).
Proof.
  unfold collect. induction files as [|file files IH] using rev_ind; [apply grouped_nil|].
  rewrite foldl_snoc. destruct (decide (well_formed md5 file)); [by apply grouped_ok|by apply grouped_bad].
Qed.
End files.

(** ** Verdicts *)

(** The line feed is the only line break. *)
Definition plain (body : str) : Prop := Forall (fun c => is_linebreak c = true → c = 10) body.

(** What the check relies on of z3: [unsat] is answered of unsatisfiable texts only,
    which a renaming of atoms and other comments do not change, and a process that has
    been reset answers one text and then the marker, or its output ends before the
    marker. *)
Record z3_laws {S : Z3} (unsatisfiable : str → Prop) (clean : z3_state → Prop) : Prop := Z3Laws {
  law_same : ∀ b1 b2, plain b1 → plain b2 → same_formula b1 b2 → unsatisfiable b1 → unsatisfiable b2;
  law_alone : ∀ b, alone_verdict (z3_alone b) = $"unsat" → unsatisfiable b;
  law_start : ∀ process st, z3_start process = Some st → clean st;
  law_write : ∀ st i b output st', clean st → z3_write st (query i b) = Some (output, st') →
    Forall (fun l => strip l ≠ marker i) output ∨
    ∃ answer line, output = answer ++ [line] ∧ strip line = marker i ∧
      Forall (fun l => strip l ≠ marker i) answer ∧ clean st' ∧
      (map strip answer = [$"unsat"] → unsatisfiable b) }.

(** The pairs of a run come from its processes, each with groups of the run. *)
Lemma solve_todo_process {S : Z3} cpus todo g v :
  (g, v) ∈ solve_todo cpus todo → ∃ process chunk, (g, v) ∈ run_chunk process chunk ∧ ∀ x, x ∈ chunk → x ∈ todo.
Proof.
  unfold solve_todo. set (init := filter _ todo). set (range := filter (fun g => _ = false) todo).
  intros [Hg|Hg]%elem_of_app.
  - destruct (decide (init = [])); [by apply not_elem_of_nil in Hg|]. exists 0, init. split; [done|].
    by intros x [_ Hx]%list_elem_of_filter.
  - apply list_elem_of_In, List.in_concat in Hg as (l & Hl & Hg%list_elem_of_In).
    apply list_elem_of_In, elem_of_lookup_imap in Hl as (k & chunk & -> & Hk%list_elem_of_lookup_2).
    exists (Z.of_nat k + 1), chunk. split; [done|]. intros x Hx.
    assert (x ∈ range) as Hin by (apply (elem_of_range_chunks cpus); by exists chunk).
    by apply list_elem_of_filter in Hin as [_ Hin].
Qed.

Lemma solve_todo_groups {S : Z3} cpus todo g v : (g, v) ∈ solve_todo cpus todo → g ∈ todo.
Proof.
  intros (process & chunk & Hg & Hc)%solve_todo_process. apply Hc. unfold run_chunk in Hg.
  by apply elem_of_zip_l in Hg.
Qed.

Section soundness.
Context {S : Z3} {unsatisfiable : str → Prop} {clean : z3_state → Prop}.
Hypothesis laws : z3_laws unsatisfiable clean.

Lemma batch_loop_sound bodies : ∀ st i,
  clean st → ∃ bodies' rest, bodies = bodies' ++ rest ∧
    Forall2 (fun b v => v = $"unsat" → unsatisfiable b) bodies' (batch_loop st [] i bodies).
Proof using laws.
  induction bodies as [|b bodies IH]; intros st i Hst; [by exists [], []|]. cbn [batch_loop app].
  destruct (z3_write st (query i b)) as [[output st']|] eqn:E; [|exists [], (b :: bodies); by constructor].
  apply (law_write _ _ laws) in E as [E|(answer & line & -> & Hl & Ha & Hc & Hu)]; [..|done].
  - rewrite read_answer_none by done. exists [b], bodies. split; [done|]. by repeat constructor.
  - rewrite read_answer_app by done. destruct (IH st' (i + 1) Hc) as (bs & rest & -> & H).
    exists (b :: bs), rest. split; [done|]. constructor; [|done]. unfold verdict_of.
    destruct (map strip answer) as [|x [|]] eqn:Em; try done. intros ->. by apply Hu.
Qed.

Lemma batch_solve_sound process bodies :
  Forall2 (fun b v => v = $"unsat" → unsatisfiable b) bodies (batch_solve process bodies).
Proof using laws.
  unfold batch_solve.
  assert (∃ bodies' rest, bodies = bodies' ++ rest ∧ Forall2 (fun b v => v = $"unsat" → unsatisfiable b) bodies'
    match z3_start process with None => [] | Some st => batch_loop st [] 0 bodies end) as (bs & rest & E & H).
  { destruct (z3_start process) as [st|] eqn:Es; [|by exists [], bodies].
    apply batch_loop_sound. by apply (law_start _ _ laws) in Es. }
  set (results := match z3_start process with None => _ | Some _ => _ end) in *. clearbody results.
  pose proof (Forall2_length _ _ _ H) as Hl. subst bodies. apply Forall2_app; [done|].
  rewrite length_app, Hl. replace (length results + length rest - length results)%nat with (length rest) by lia.
  clear. induction rest; constructor; done.
Qed.

Lemma run_chunk_spec process chunk :
  map fst (run_chunk process chunk) = chunk ∧
  Forall (fun s => s.2 = $"unsat" → unsatisfiable (first_body s.1.2)) (run_chunk process chunk).
Proof using laws.
  unfold run_chunk. pose proof (batch_solve_sound process (map (fun g => first_body g.2) chunk)) as H.
  set (vs := batch_solve _ _) in *. clearbody vs. revert vs H.
  induction chunk as [|g chunk IH]; intros vs H; [done|]. inversion H as [|?? v vs' Hv Hvs]; subst.
  destruct (IH vs' Hvs) as [E F]. cbn. split; [by rewrite E|by constructor].
Qed.

Lemma solve_todo_sound cpus todo g v :
  (g, v) ∈ solve_todo cpus todo → v = $"unsat" → unsatisfiable (first_body g.2).
Proof using laws.
  intros (process & chunk & Hg & _)%solve_todo_process. destruct (run_chunk_spec process chunk) as [_ F].
  rewrite Forall_forall in F. apply (F (g, v) Hg).
Qed.

(** Every group gets a verdict. *)
Lemma solve_todo_all cpus todo g : g ∈ todo → ∃ v, (g, v) ∈ solve_todo cpus todo.
Proof using laws.
  assert (∀ process chunk, g ∈ chunk → ∃ v, (g, v) ∈ run_chunk process chunk) as Hall.
  { intros process chunk Hg. destruct (run_chunk_spec process chunk) as [E _]. rewrite <- E in Hg.
    apply list_elem_of_fmap in Hg as ([g' v] & -> & Hg). by exists v. }
  unfold solve_todo. set (init := filter _ todo). set (range := filter (fun g => _ = false) todo).
  intros Hg. destruct (is_init (first_body g.2)) eqn:Ei.
  - assert (g ∈ init) as Hin by (by apply list_elem_of_filter).
    rewrite decide_False by (intros E; rewrite E in Hin; by apply not_elem_of_nil in Hin).
    destruct (Hall 0 init Hin) as [v Hv]. exists v. apply elem_of_app. by left.
  - assert (g ∈ range) as Hin by (by apply list_elem_of_filter).
    apply (elem_of_range_chunks cpus) in Hin as (chunk & (k & Hk)%list_elem_of_lookup_1 & Hin).
    destruct (Hall (Z.of_nat k + 1) chunk Hin) as [v Hv]. exists v. apply elem_of_app. right.
    apply list_elem_of_In, List.in_concat. exists (run_chunk (Z.of_nat k + 1) chunk).
    split; [|by apply list_elem_of_In]. apply list_elem_of_In, elem_of_lookup_imap. by exists k, chunk.
Qed.

(** ** The directory *)

Section directory.
Variables (md5 : str → str) (known : str → Prop).
Hypothesis known_plain : ∀ b, known b → plain b.
Hypothesis no_collision : ∀ b1 b2, known b1 → known b2 → cache_key md5 b1 = cache_key md5 b2 → canonical b1 = canonical b2.

Definition cache_ok (cache : option (list str)) : Prop :=
  ∀ keys b, cache = Some keys → known b → cache_key md5 b ∈ keys → unsatisfiable b.

Lemma shared_verdict b1 b2 :
  known b1 → known b2 → cache_key md5 b1 = cache_key md5 b2 → unsatisfiable b1 → unsatisfiable b2.
Proof using known_plain laws no_collision.
  intros H1 H2 E. destruct (proj1 (canonical_iff b1 b2)) as [_ Hs]; [by apply no_collision|].
  apply (law_same _ _ laws); auto.
Qed.

Lemma first_body_elem members : members ≠ [] → ∃ m, m ∈ members ∧ first_body members = body m.
Proof. destruct members as [|m ms]; [done|]. intros _. exists m. split; [left|done]. Qed.

Lemma group_verdict files key members b :
  (key, members) ∈ groups (collect md5 files) → (∀ f, f ∈ files → known (body_of f)) →
  known b → cache_key md5 b = key → unsatisfiable (first_body members) → unsatisfiable b.
Proof using known_plain laws no_collision.
  intros Hg Hk Hf Ek. destruct (grouped_files _ _ _ (collect_grouped md5 files) _ _ Hg) as [Hne Hm].
  destruct (first_body_elem members Hne) as (m & Hin & ->). destruct (Hm m Hin) as (f & Hff & -> & E).
  apply shared_verdict; [by apply Hk|done|congruence].
Qed.

Lemma run_alone_nil o : run_alone o = [] ↔ alone_verdict (z3_alone (body o)) = $"unsat".
Proof. unfold run_alone. by destruct (decide _). Qed.

(** C5: when the check reports nothing there were obligations, and every one of the
    directory has a known header, the digest its name says, and a formula that is
    unsatisfiable: its own verdict, one of its group, or one of an earlier run. *)
Theorem check_dir_sound cpus dirname files cache :
  cache_ok cache → (∀ f, f ∈ smt2_files files → known (body_of f)) →
  failures (check_dir md5 cpus dirname files cache).1 = [] →
  smt2_files files ≠ [] ∧
  ∀ f, f ∈ files → endswith f.1 ($".smt2") = true → well_formed md5 f ∧ unsatisfiable (body_of f).
Proof using known_plain laws no_collision.
  intros Hcache Hk. unfold check_dir. destruct (decide (smt2_files files = [])) as [|Hne]; [done|]. cbn [fst failures].
  match goal with |- context [solve_todo cpus ?t] => set (todo := t) end. intros [Hf Hr]%app_eq_nil. split; [done|]. intros f Hin Hend.
  assert (f ∈ smt2_files files) as Hsm by by apply elem_of_smt2_files.
  destruct (collect_grouped md5 (smt2_files files)) as [Hok _ Hm _].
  apply Hok in Hf. rewrite Forall_forall in Hf. assert (well_formed md5 f) as Hw by by apply Hf. split; [done|].
  destruct (Hm f Hsm Hw) as (members & Hg & Hmem).
  destruct (match cache with Some keys => bool_decide (cache_key md5 (body_of f) ∈ keys) | None => false end) eqn:Ec.
  { destruct cache as [keys|]; [|done]. apply bool_decide_eq_true in Ec. by apply (Hcache keys); [|apply Hk|]. }
  assert ((cache_key md5 (body_of f), members) ∈ todo) as Ht by by apply list_elem_of_filter.
  destruct (solve_todo_all cpus todo _ Ht) as [v Hv]. destruct (decide (v = $"unsat")) as [Hu|Hu].
  - apply (group_verdict _ _ _ _ Hg Hk (Hk f Hsm) eq_refl). by apply (solve_todo_sound cpus todo _ v Hv).
  - apply (law_alone _ _ laws), (run_alone_nil (obligation_of f)).
    apply concat_nil_Forall in Hr. rewrite Forall_forall in Hr. apply Hr, list_elem_of_fmap.
    exists (obligation_of f). split; [done|]. apply list_elem_of_In, List.in_concat. exists members.
    split; [|by apply list_elem_of_In]. apply list_elem_of_In, list_elem_of_fmap.
    exists ((cache_key md5 (body_of f), members), v). split; [done|]. by apply list_elem_of_filter.
Qed.

(** The cache keeps its meaning over a run, with or without failures: an
    obligation whose key is in the cache is unsatisfiable. *)
Theorem check_dir_cache cpus dirname files cache :
  cache_ok cache → (∀ f, f ∈ smt2_files files → known (body_of f)) →
  cache_ok (check_dir md5 cpus dirname files cache).2.
Proof using known_plain laws no_collision.
  intros Hcache Hk. unfold check_dir. destruct (decide (smt2_files files = [])) as [|Hne]; [done|]. cbn [snd].
  match goal with |- context [solve_todo cpus ?t] => set (todo := t) end. intros keys b Hkeys Hb Hin. destruct cache as [old|]; [|done]. injection Hkeys as <-.
  apply elem_of_app in Hin as [Hin|Hin]; [by apply (Hcache old)|].
  apply list_elem_of_fmap in Hin as ([[key members] v] & Ekey & [Hv Hin]%list_elem_of_filter). cbn [fst snd] in Hv, Ekey.
  pose proof (solve_todo_groups _ _ _ _ Hin) as [_ Hg]%list_elem_of_filter.
  apply (group_verdict (smt2_files files) key members b); [done..|].
  by apply (solve_todo_sound cpus todo _ v Hin).
Qed.
End directory.
End soundness.

(** The check passes a directory of well-formed obligations that z3 proves one by
    one, whatever the batches answered and whatever the cache holds. *)
Theorem check_dir_complete {S : Z3} md5 cpus dirname files cache :
  smt2_files files ≠ [] →
  (∀ f, f ∈ smt2_files files → well_formed md5 f ∧ alone_verdict (z3_alone (body_of f)) = $"unsat") →
  failures (check_dir md5 cpus dirname files cache).1 = [].
Proof.
  intros Hne Hall. unfold check_dir. rewrite decide_False by done. cbn [fst failures].
  match goal with |- context [solve_todo cpus ?t] => set (todo := t) end. destruct (collect_grouped md5 (smt2_files files)) as [Hok _ _ Hg].
  rewrite (proj2 Hok) by (apply Forall_forall; intros f Hf; by apply Hall).
  apply concat_nil_Forall, Forall_map, Forall_forall.
  intros m (ms & Hms & Hm)%list_elem_of_In%List.in_concat.
  apply list_elem_of_In, list_elem_of_fmap in Hms as ([[key members] v] & -> & [_ Hin]%list_elem_of_filter).
  pose proof (solve_todo_groups _ _ _ _ Hin) as [_ Hgr]%list_elem_of_filter.
  destruct (Hg _ _ Hgr) as [_ Hmem]. apply list_elem_of_In in Hm.
  destruct (Hmem m Hm) as (f & Hf & -> & _). apply run_alone_nil. by apply Hall.
Qed.

(** ** A solver

    One that answers [unsat] when a line is [(assert false)], and reads the text and
    the marker back from a query. *)
Module Toy.
Definition false_line : list (str + Z) := lex ($"(assert false)").
Definition unsatisfiable (b : str) : Prop := false_line ∈ formula b.
Definition answer (b : str) : str := if decide (unsatisfiable b) then $"unsat" else $"sat".

Definition echo : str := $"(echo " ++ quo.
Definition ending : str := quo ++ $")" ++ nl ++ $"(reset)" ++ nl.
Definition parse (q : str) : str * str :=
  let '(m, r) := span (fun c => negb (c =? 34)) (drop (length ending) (reverse q)) in
  (reverse (drop (length echo) r), reverse m).

#[local] Instance solver : Z3 := {|
  z3_state := unit;
  z3_start _ := Some tt;
  z3_write _ q := let '(b, m) := parse q in Some ([answer b; m], tt);
  z3_alone b := answer b ++ nl |}.

Lemma marker_chars i : Forall (fun c => is_space c = false ∧ negb (c =? 34) = true) (marker i).
Proof.
  unfold marker. apply Forall_app. split; [by repeat constructor|].
  assert (∀ n, Forall (fun c => is_space c = false ∧ negb (c =? 34) = true) (show_nat 10 n)) as Hd.
  { intros n. eapply Forall_impl; [apply show_nat_digits|]. intros c Hc. cbn in Hc.
    unfold is_digit, is_space, in_range in *. lia. }
  unfold dec. destruct (i <? 0); [by constructor|done].
Qed.

Lemma strip_marker i : strip (marker i) = marker i.
Proof. apply strip_by_none. eapply Forall_impl; [apply marker_chars|]. by intros c [? _]. Qed.

Lemma parse_query i b : parse (query i b) = (b, marker i).
Proof.
  unfold parse, query.
  replace (b ++ $"(echo " ++ quo ++ marker i ++ quo ++ $")" ++ nl ++ $"(reset)" ++ nl)
    with ((b ++ echo) ++ marker i ++ ending) by (unfold echo, ending; by rewrite <- !app_assoc).
  rewrite !reverse_app, <- app_assoc, <- (length_reverse ending), drop_app_length.
  rewrite span_app.
  - by rewrite <- (length_reverse echo), drop_app_length, !reverse_involutive.
  - apply Forall_reverse. eapply Forall_impl; [apply marker_chars|]. by intros c [_ ?].
  - by intros a [= <-].
Qed.

Lemma laws : z3_laws unsatisfiable (fun _ => True).
Proof.
  assert (∀ b, strip (answer b) = answer b) as Hs by (intros b; unfold answer; by destruct (decide _)).
  split; try done.
  - intros b1 b2 _ _ (f & _ & _ & E) H. unfold unsatisfiable in *. rewrite E.
    change false_line with (map (rename f) false_line). by apply list_elem_of_fmap_2.
  - intros b. unfold z3_alone. cbn. unfold answer. by destruct (decide _).
  - intros [] i b output [] _. unfold z3_write. cbn. rewrite parse_query. intros [= <-]. right.
    exists [answer b], (marker i). split_and!; [done|apply strip_marker| |done|].
    + constructor; [|done]. rewrite Hs. unfold answer. by destruct (decide _).
    + cbn. rewrite Hs. unfold answer. by destruct (decide _).
Qed.

(** Two obligations that differ in the name of an atom and in a comment, and one of
    another kind, each in a file named by its text. *)
Definition range_body (comment atom : str) : str :=
  HEADER ++ nl ++ $"; claim: " ++ comment ++ nl ++ $"(declare-const " ++ atom ++ $" Int)" ++ nl ++ $"(assert false)" ++ nl.
Definition init_body : str := INIT_HEADER ++ nl ++ $"(assert false)" ++ nl ++ $"(check-sat)" ++ nl.
Definition file (b : str) : str * str := (b ++ $".smt2", b).
Definition directory : list (str * str) :=
  [file (range_body ($"a") ($"x_a")); file init_body; file (range_body ($"b") ($"x_bb"))].
Definition known (b : str) : Prop := b ∈ map snd directory.
End Toy.

Lemma toy_known_plain b : Toy.known b → plain b.
Proof.
  assert (Forall plain (map snd Toy.directory)) as H; [|rewrite Forall_forall in H; apply H].
  unfold Toy.directory. repeat constructor; unfold plain; cbn [Toy.file snd]; repeat constructor; done.
Qed.

Lemma toy_directory_known f : f ∈ smt2_files Toy.directory → Toy.known (body_of f).
Proof.
  intros [Hf _]%elem_of_smt2_files. unfold Toy.directory in Hf.
  rewrite !elem_of_cons in Hf. destruct Hf as [->|[->|[->|Hf%not_elem_of_nil]]]; [..|done].
  all: unfold Toy.known; apply (bool_decide_unpack _); vm_compute; exact I.
Qed.

Lemma id_no_collision (b1 b2 : str) : cache_key id b1 = cache_key id b2 → canonical b1 = canonical b2.
Proof. unfold cache_key, id. by intros E%app_inv_head%app_inv_head. Qed.

Lemma toy_cache_ok : cache_ok (unsatisfiable := Toy.unsatisfiable) id Toy.known (Some []).
Proof. by intros keys b [= <-] _ ?%not_elem_of_nil. Qed.

Lemma check_dir_sound_witness :
  smt2_files Toy.directory ≠ [] ∧
  ∀ f, f ∈ Toy.directory → endswith f.1 ($".smt2") = true → well_formed id f ∧ Toy.unsatisfiable (body_of f).
Proof.
  apply (check_dir_sound (S := Toy.solver) Toy.laws id Toy.known toy_known_plain
           (fun b1 b2 _ _ => id_no_collision b1 b2) 2 ($"d") Toy.directory (Some [])).
  - apply toy_cache_ok.
  - apply toy_directory_known.
  - vm_compute. reflexivity.
Defined.

Lemma check_dir_cache_witness :
  cache_ok (unsatisfiable := Toy.unsatisfiable) id Toy.known
    (check_dir (S := Toy.solver) id 2 ($"d") Toy.directory (Some [])).2.
Proof.
  apply (check_dir_cache (S := Toy.solver) Toy.laws id Toy.known toy_known_plain
           (fun b1 b2 _ _ => id_no_collision b1 b2) 2 ($"d") Toy.directory (Some [])).
  - apply toy_cache_ok.
  - apply toy_directory_known.
Defined.

Lemma check_dir_complete_witness :
  failures (check_dir (S := Toy.solver) id 2 ($"d") Toy.directory None).1 = [].
Proof.
  apply (check_dir_complete (S := Toy.solver) id 2 ($"d") Toy.directory None).
  - vm_compute. discriminate.
  - intros f [Hf _]%elem_of_smt2_files. unfold Toy.directory in Hf.
    rewrite !elem_of_cons in Hf. destruct Hf as [->|[->|[->|Hf%not_elem_of_nil]]]; [..|done].
    all: split; [apply (bool_decide_unpack _)|]; vm_compute; done.
Defined.

(** The three obligations are two groups, so two keys are cached. *)
Example check_dir_shares :
  length <$> (check_dir (S := Toy.solver) id 2 ($"d") Toy.directory (Some [])).2 = Some 2%nat.
Proof. vm_compute. reflexivity. Qed.

(** The status is 0 only when the check reports nothing within the budget. *)
Lemma main_status {S : Z3} md5 over_budget cpus dirname files cache lines :
  main md5 over_budget cpus dirname files cache = Ok (0, lines) →
  failures (check_dir md5 cpus dirname files cache).1 = [] ∧ over_budget = false.
Proof.
  unfold main. destruct (check_dir md5 cpus dirname files cache) as [got cache']. cbn [fst].
  destruct (decide (failures got = [])); [|done]. by destruct over_budget.
Qed.
