(* ===== verification/FrameSize.v ===== *)
(** * Stack frames

    Model of scripts/buildcheck_frame_size.py: the frame of every function is read
    from the first lines of its listing, and refused above the ceiling or above the
    function's recorded budget.  The disassembler is the argument [objdump] of
    [main]. *)
From S2P Require Import Prelude Text Dict Sort PassLine.

Definition CEILING : Z := 2048.
Definition BUDGET : list (str * Z) :=
  [($"kernel_process_scheduler_probe", 3216); ($"ext2_update_regular_file", 2544)].
Definition PROLOGUE_LINES : Z := 12.

(** The longest part of a text before [>:], the greedy [.+]. *)
Fixpoint before_last (s : str) : option str :=
  match s with
  | [] => None
  | c :: s' =>
      match before_last s' with
      | Some p => Some (c :: p)
      | None => if startswith s ($">:") then Some [] else None
      end
  end.

(** [re.match(r"^[0-9a-f]+ <(.+)>:", line)]. *)
Definition function_line (line : str) : option str :=
  let '(address, s) := span (fun c => is_digit c || in_range 97 102 c) line in
  if decide (address = []) then None else
  s ← strip_prefix ($" <") s;
  match before_last s with Some [] => None | name => name end.

(** [WORD\s+REST] at the start of a text. *)
Definition operation (word operands s : str) : option str :=
  s ← strip_prefix word s;
  let '(space, s) := span is_space s in
  if decide (space = []) then None else strip_prefix operands s.

(** [stp\s+x29, x30, \[sp, #-(\d+)\]!] at the start of a text: the digits. *)
Definition match_stp (s : str) : option str :=
  s ← operation ($"stp") ($"x29, x30, [sp, #-") s;
  let '(digits, s) := span is_digit s in
  if decide (digits = []) then None else
  _ ← strip_prefix ($"]!") s;
  Some digits.

(** [0x[0-9a-f]+|\d+] at the start of a text: the number and the rest. *)
Definition match_number (s : str) : option (str * str) :=
  let decimal :=
    let '(digits, rest) := span is_digit s in
    if decide (digits = []) then None else Some (digits, rest) in
  match strip_prefix ($"0x") s with
  | Some r =>
      let '(digits, rest) := span (fun c => is_digit c || in_range 97 102 c) r in
      if decide (digits = []) then decimal else Some ($"0x" ++ digits, rest)
  | None => decimal
  end.

(** [sub\s+sp, sp, #(0x[0-9a-f]+|\d+)(, lsl #12)?] at the start of a text: the
    number, and whether it is shifted. *)
Definition match_sub (s : str) : option (str * bool) :=
  s ← operation ($"sub") ($"sp, sp, #") s;
  '(number, s) ← match_number s;
  Some (number, startswith s ($", lsl #12")).

(** [re.search]. *)
Fixpoint search {A} (m : str → option A) (s : str) : option A :=
  match m s with
  | Some a => Some a
  | None => match s with [] => None | _ :: s => search m s end
  end.

(** The bytes a line of the prologue takes from the stack. *)
Definition line_size (line : str) : res Z :=
  a ← (match search match_stp line with Some digits => py_int 10 digits | None => Ok 0 end);
  b ← (match search match_sub line with
       | Some (number, shifted) => v ← py_int 0 number; Ok (if shifted then Z.shiftl v 12 else v)
       | None => Ok 0
       end);
  Ok (a + b).

Record frames_state := FramesState { result : list (str * Z); current : option str; size : Z; seen : Z }.

Definition close_function (st : frames_state) : list (str * Z) :=
  match current st with
  | Some name => dset name (Z.max (default 0 (dget name (result st))) (size st)) (result st)
  | None => result st
  end.

Definition frames_line (st : frames_state) (line : str) : res frames_state :=
  match function_line line with
  | Some name => Ok (FramesState (close_function st) (Some name) 0 0)
  | None =>
      match current st with
      | None => Ok st
      | Some _ =>
          if PROLOGUE_LINES <=? seen st then Ok st else
          n ← line_size line;
          Ok (FramesState (result st) (current st) (size st + n) (seen st + 1))
      end
  end.

Definition frames (text : str) : res (list (str * Z)) :=
  st ← foldM frames_line (FramesState [] None 0 0) (splitlines text);
  Ok (close_function st).

(** ** Limits *)

Definition sorted_items (d : list (str * Z)) : list (str * Z) := py_sorted (fun a b => str_le a.1 b.1) d.

Definition over (budget : list (str * Z)) (ceiling : Z) (item : str * Z) : list str :=
  let '(name, size) := item in
  let limit := default ceiling (dget name budget) in
  if limit <? size then
    [if dmem name budget then
       name ++ $": frame " ++ dec size ++ $" B exceeds its recorded budget " ++ dec limit ++ $" B"
     else
       name ++ $": frame " ++ dec size ++ $" B exceeds the " ++ dec ceiling ++
       $" B ceiling (a large value passed or held by value? see #1081)"]
  else [].

Definition stale (measured : list (str * Z)) (ceiling : Z) (entry : str * Z) : list str :=
  let name := entry.1 in
  match dget name measured with
  | None => [name ++ $": budget entry for a function not in the image"]
  | Some size =>
      if size <=? ceiling then
        [name ++ $": frame " ++ dec size ++ $" B is within the ceiling; delete its budget entry"]
      else []
  end.

Definition problems (measured budget : list (str * Z)) (ceiling : Z) (check_stale : bool) : list str :=
  concat (map (over budget ceiling) (sorted_items measured)) ++
  (if check_stale then concat (map (stale measured ceiling) (sorted_items budget)) else []).

(** ** The check *)

(** [max(d.items(), key=lambda kv: kv[1])]: the first of the largest. *)
Definition largest (d : list (str * Z)) (first : str * Z) : str * Z :=
  foldl (fun best kv => if best.2 <? kv.2 then kv else best) first d.

(** [p] is the report of a budget entry whose function is not in the image. *)
Definition absent (p : str) : bool := contains ($"not in the image") p.

Definition found (measured : list (str * Z)) : list str :=
  sorted_set
    (problems measured BUDGET CEILING false ++
     filter (fun p => absent p = false)
       (problems (filter (fun kv => dmem kv.1 BUDGET = true) measured) BUDGET CEILING true)).

(** One object: whether it failed, and the lines it prints. *)
Definition check_object (path text : str) : res (bool * list str) :=
  measured ← frames text;
  match measured with
  | [] => Ok (true, [$"FAIL frame-size: " ++ path ++ $": no functions found"])
  | first :: rest =>
      let found := found measured in
      if decide (found = []) then
        let '(name, bytes) := largest rest first in
        line ← report_pass ($"frame-size")
          (path ++ $": " ++ dec (zlen measured) ++ $" functions, largest " ++ name ++ $" " ++ dec bytes ++
           $" B, ceiling " ++ dec CEILING ++ $" B, " ++ dec (zlen BUDGET) ++ $" budgeted")
          [($"functions", zlen measured)];
        Ok (false, [line])
      else Ok (true, map (fun p => $"FAIL frame-size: " ++ path ++ $": " ++ p) found)
  end.

Definition main (objdump : str → res str) (argv : list str) : res Z :=
  match argv with
  | [] | [_] => Ok 2
  | _ :: paths =>
      failed ← foldM (fun (failed : bool) path => text ← objdump path; '(bad, _) ← check_object path text; Ok (failed || bad))
                 false paths;
      Ok (if failed : bool then 1 else 0)
  end.
