(* ===== verification/FrameSizeFacts.v ===== *)
(** * Facts about the stack frames

    The check passes exactly the objects whose functions keep to the ceiling or to
    their budget and whose budgeted functions need theirs, and the frames it reads
    from a listing are the sums of the adjustments in the prologues. *)
From S2P Require Import Prelude Text Dict Sort PassLine FrameSize.

(** ** The limits *)

(** The characters [c] and [d] one after the other. *)
Fixpoint has_pair (c d : Z) (s : str) : bool :=
  match s with
  | [] => false
  | x :: s' => ((x =? c) && match s' with y :: _ => y =? d | [] => false end) || has_pair c d s'
  end.

Lemma has_pair_app c d a b : has_pair c d (a ++ c :: d :: b) = true.
Proof.
  induction a as [|x a IH]; cbn [app has_pair]; [by rewrite !Z.eqb_refl|]. by rewrite IH, orb_true_r.
Qed.

Lemma has_pair_mid c d a m b :
  m ≠ [] → Forall (fun x => x ≠ c ∧ x ≠ d) m → has_pair c d (a ++ m ++ b) = has_pair c d a || has_pair c d b.
Proof.
  intros Hne Hm. induction a as [|x a IH]; cbn [app has_pair].
  - clear Hne. induction Hm as [|x m [Hc Hd] Hm IH]; [done|]. cbn [app has_pair].
    by rewrite (proj2 (Z.eqb_neq x c) Hc).
  - rewrite IH, orb_assoc. f_equal. f_equal. f_equal. destruct a as [|y a]; [|done]. cbn.
    destruct Hm as [|y m [Hc Hd] _]; [done|]. cbn. by apply Z.eqb_neq.
Qed.

Lemma dec_char_range n : dec n ≠ [] ∧ Forall (fun c => c = 45 ∨ 48 ≤ c ≤ 57) (dec n).
Proof.
  assert (∀ m, Forall (fun c => c = 45 ∨ 48 ≤ c ≤ 57) (show_nat 10 m)) as Hm.
  { intros m. eapply Forall_impl; [apply show_nat_digits|]. intros c Hc. cbn in Hc.
    unfold is_digit, in_range in Hc. lia. }
  unfold dec. destruct (Z.ltb_spec n 0); [split; [done|]; constructor; [by left|done]|].
  split; [|done]. pose proof (dec_digits n ltac:(lia)) as [_ Hne]. unfold dec in Hne.
  by rewrite (proj2 (Z.ltb_ge n 0)) in Hne by lia.
Qed.

(** The reports of frames within the ceiling are not those of absent functions. *)
Lemma within_not_absent name n :
  has_pair 105 109 (name ++ $": frame ") = false →
  contains ($"not in the image") (name ++ $": frame " ++ dec n ++ $" B is within the ceiling; delete its budget entry") = false.
Proof.
  intros Hn. destruct (contains _ _) eqn:E; [exfalso|done]. apply contains_split in E as (a & b & E).
  apply (f_equal (has_pair 105 109)) in E. destruct (dec_char_range n) as [Hne Hd].
  rewrite (app_assoc name), has_pair_mid, Hn in E; [|done|].
  - change ($"not in the image") with ($"not in the " ++ 105 :: 109 :: $"age") in E.
    rewrite <- (app_assoc ($"not in the ")), (app_assoc a) in E. cbn [app] in E.
    by rewrite (has_pair_app 105 109 (a ++ _)) in E.
  - eapply Forall_impl; [exact Hd|]. intros c Hc. cbn in Hc. lia.
Qed.

(** A function keeps to its limit, and a budgeted one is above the ceiling. *)
Definition accepted (name : str) (size : Z) : Prop :=
  match dget name BUDGET with Some limit => CEILING < size ≤ limit | None => size ≤ CEILING end.

Lemma over_nil budget ceiling name size : over budget ceiling (name, size) = [] ↔ size ≤ default ceiling (dget name budget).
Proof. unfold over. destruct (Z.ltb_spec (default ceiling (dget name budget)) size); split; done || lia. Qed.

Lemma over_all_nil budget ceiling measured :
  concat (map (over budget ceiling) (sorted_items measured)) = [] ↔
  ∀ name size, (name, size) ∈ measured → size ≤ default ceiling (dget name budget).
Proof.
  unfold sorted_items. rewrite concat_nil_Forall, Forall_map, Forall_forall. split.
  - intros H name size Hin. apply over_nil, H. by apply elem_of_py_sorted.
  - intros H [name size] Hin. apply over_nil, H. by apply elem_of_py_sorted in Hin.
Qed.

Lemma stale_nil measured entry :
  entry ∈ BUDGET →
  filter (fun p => absent p = false) (stale measured CEILING entry) = [] ↔
  ∀ size, dget entry.1 measured = Some size → CEILING < size.
Proof.
  intros Hin.
  assert (has_pair 105 109 (entry.1 ++ $": frame ") = false ∧
    absent (entry.1 ++ $": budget entry for a function not in the image") = true) as [Hp Ha].
  { revert Hin. unfold BUDGET. rewrite !elem_of_cons. intros [->|[->|H%not_elem_of_nil]]; by_compute || done. }
  unfold stale. destruct (dget entry.1 measured) as [size|].
  - destruct (Z.leb_spec size CEILING) as [Hle|Hlt].
    + rewrite filter_cons_True by by apply within_not_absent. split; [done|]. intros H. specialize (H size eq_refl). lia.
    + split; [|done]. by intros _ ? [= <-].
  - rewrite filter_cons_False by by rewrite Ha. by split.
Qed.

Lemma elem_of_budgeted (measured : list (str * Z)) name size :
  (name, size) ∈ filter (fun kv => dmem kv.1 BUDGET = true) measured ↔ (name, size) ∈ measured ∧ name ∈ map fst BUDGET.
Proof. rewrite list_elem_of_filter. cbn [fst]. rewrite dmem_true. tauto. Qed.

Lemma filter_keys_NoDup {V} (P : str * V → Prop) `{∀ x, Decision (P x)} d : NoDup (map fst d) → NoDup (map fst (filter P d)).
Proof.
  induction d as [|[k v] d IH]; intros Hd; [constructor|]. cbn in Hd. apply NoDup_cons in Hd as [Hk Hd].
  rewrite filter_cons. destruct (decide _); [|auto]. cbn. constructor; [|auto].
  intros ([k' v'] & -> & [_ Hin]%list_elem_of_filter)%list_elem_of_fmap. apply Hk, list_elem_of_fmap. by exists (k', v').
Qed.

Lemma filter_concat_nil {A} (P : A → Prop) `{∀ x, Decision (P x)} (l : list (list A)) :
  filter P (concat l) = [] ↔ Forall (fun x => filter P x = []) l.
Proof.
  induction l as [|x l IH]; [by split|]. cbn. rewrite filter_app, Forall_cons, <- IH. split; [apply app_eq_nil|].
  by intros [-> ->].
Qed.

(** No report is left exactly when every function is accepted. *)
Lemma found_nil measured :
  NoDup (map fst measured) → found measured = [] ↔ ∀ name size, (name, size) ∈ measured → accepted name size.
Proof.
  intros Hd. unfold found. rewrite sorted_set_nil. unfold problems. rewrite app_nil_r, filter_app.
  set (budgeted := filter _ measured). set (reports := concat (map (stale _ _) _)).
  assert (filter (fun p => absent p = false) reports = [] ↔
    ∀ name size, (name, size) ∈ measured → name ∈ map fst BUDGET → CEILING < size) as Hst.
  { unfold reports. rewrite filter_concat_nil, Forall_map, Forall_forall. split.
    - intros H name size Hin (entry & -> & He)%list_elem_of_fmap.
      apply (stale_nil budgeted entry He); [apply H; by apply elem_of_py_sorted|].
      apply dget_NoDup; [by apply filter_keys_NoDup|]. apply elem_of_budgeted. split; [done|].
      apply list_elem_of_fmap. by exists entry.
    - intros H entry He%elem_of_py_sorted. apply stale_nil; [done|]. intros size Hs%dget_elem_of.
      apply elem_of_budgeted in Hs as [Hin Hb]. by apply (H entry.1). }
  split.
  - intros [H1 [_ H2]%app_eq_nil]%app_eq_nil name size Hin. rewrite over_all_nil in H1. specialize (H1 _ _ Hin).
    unfold accepted. destruct (dget name BUDGET) eqn:E; [|done]. split; [|done].
    apply (proj1 Hst H2 name size Hin). apply dget_elem_of in E. apply list_elem_of_fmap. by eexists (_, _).
  - intros Hall. rewrite (proj2 (over_all_nil BUDGET CEILING measured)), (proj2 (over_all_nil BUDGET CEILING budgeted)), (proj2 Hst).
    + done.
    + intros name size Hin Hb. specialize (Hall _ _ Hin). unfold accepted in Hall.
      apply dget_Some_in in Hb as [limit Hb]. rewrite Hb in Hall. lia.
    + intros name size [Hin _]%elem_of_budgeted. specialize (Hall _ _ Hin). unfold accepted in Hall.
      destruct (dget name BUDGET); cbn; lia.
    + intros name size Hin. specialize (Hall _ _ Hin). unfold accepted in Hall. destruct (dget name BUDGET); cbn; lia.
Qed.

(** ** The verdict *)

Lemma close_function_NoDup st : NoDup (map fst (result st)) → NoDup (map fst (close_function st)).
Proof. intros H. unfold close_function. destruct (current st); [by apply dset_NoDup|done]. Qed.

Lemma frames_NoDup text measured : frames text = Ok measured → NoDup (map fst measured).
Proof.
  unfold frames. intros (st & Hst & [= <-])%bind_Ok_inv. apply close_function_NoDup.
  revert Hst. apply (foldM_inv _ (fun st => NoDup (map fst (result st)))); [|constructor].
  intros st0 line st1 _ H E. unfold frames_line in E. destruct (function_line line); simplify_eq/=.
  - by apply close_function_NoDup.
  - destruct (current st0); [|by simplify_eq]. destruct (_ <=? _); [by simplify_eq|].
    by apply bind_Ok_inv in E as (n & _ & [= <-]).
Qed.

Lemma check_object_ok path text :
  (∃ lines, check_object path text = Ok (false, lines)) ↔
  ∃ measured, frames text = Ok measured ∧ measured ≠ [] ∧ ∀ name size, (name, size) ∈ measured → accepted name size.
Proof.
  unfold check_object. destruct (frames text) as [measured|e] eqn:E; cbn [mbind res_bind].
  2:{ split; [by intros [? ?]|by intros (? & ? & _)]. }
  pose proof (found_nil measured (frames_NoDup _ _ E)) as Hf.
  destruct measured as [|first rest]; [split; [by intros [? ?]|by intros (? & [= <-] & ? & _)]|].
  destruct (decide (found (first :: rest) = [])) as [Hn|Hn].
  - destruct (largest rest first) as [name n].
    match goal with |- context [report_pass ?c ?m ?e] =>
      assert (report_pass c m e = Ok ($"PASS " ++ c ++ $": " ++ m)) as ->
        by (apply report_pass_ok; split_and!; [done|done|]; constructor; [|constructor]; cbn [snd];
            rewrite zlen_cons; pose proof (zlen_nonneg rest); lia)
    end.
    split; [|eauto]. intros _. exists (first :: rest). split_and!; [done|done|by apply Hf].
  - split; [by intros [? ?]|]. intros (? & [= <-] & _ & H). by apply Hf in H.
Qed.

(** The status is 0 exactly when every object named has functions, every function
    without a budget keeps to the ceiling, and every budgeted function it has is above
    the ceiling and within its budget.  A budgeted function that no object has is not
    looked for. *)
Theorem frame_size_status objdump prog path paths :
  main objdump (prog :: path :: paths) = Ok 0 ↔
  ∀ p, p ∈ path :: paths → ∃ text measured,
    objdump p = Ok text ∧ frames text = Ok measured ∧ measured ≠ [] ∧
    ∀ name size, (name, size) ∈ measured → accepted name size.
Proof.
  unfold main. set (step := fun (failed : bool) path => _). generalize (path :: paths). clear path paths. intros paths.
  assert (∀ failed p, step failed p = (text ← objdump p; '(bad, _) ← check_object p text; Ok (failed || bad))) as Hstep by done.
  clearbody step.
  assert (∀ failed, foldM step failed paths = Ok false ↔
    failed = false ∧ ∀ p, p ∈ paths → ∃ text, objdump p = Ok text ∧ ∃ lines, check_object p text = Ok (false, lines)) as Hfold.
  { induction paths as [|p paths IH]; intros failed; cbn [foldM].
    { split; [intros [= ->]; split; [done|by intros p ?%not_elem_of_nil]|by intros [-> _]]. }
    setoid_rewrite elem_of_cons. rewrite Hstep. destruct (objdump p) as [text|e] eqn:Eo; cbn [mbind res_bind].
    2:{ split; [done|]. intros [_ H]. destruct (H p (or_introl eq_refl)) as (? & ? & _). congruence. }
    destruct (check_object p text) as [[bad lines]|e] eqn:Ec; cbn [mbind res_bind].
    2:{ split; [done|]. intros [_ H]. destruct (H p (or_introl eq_refl)) as (? & ? & ? & ?). congruence. }
    rewrite IH, orb_false_iff. split.
    - intros [[-> ->] H]. split; [done|]. intros q [->|Hq]; [eauto|by apply H].
    - intros [-> H]. split; [|intros q Hq; apply H; by right]. split; [done|].
      destruct (H p (or_introl eq_refl)) as (? & ? & ? & ?). congruence. }
  transitivity (foldM step false paths = Ok false).
  - destruct (foldM step false paths) as [[]|]; by split.
  - rewrite Hfold. setoid_rewrite check_object_ok. split.
    + intros [_ H] p Hp. destruct (H p Hp) as (text & ? & measured & ?). by exists text, measured.
    + intros H. split; [done|]. intros p Hp. destruct (H p Hp) as (text & measured & ? & ?). eauto.
Qed.

(** ** Listings *)

Inductive insn : Type := Stp (n : Z) | Sub (n : Z) (as_hex shifted : bool) | Other (text : str).

Definition insn_text (i : insn) : str :=
  match i with
  | Stp n => $"stp" ++ [9] ++ $"x29, x30, [sp, #-" ++ dec n ++ $"]!"
  | Sub n as_hex shifted =>
      $"sub" ++ [9] ++ $"sp, sp, #" ++ (if as_hex then hex_alt n else dec n) ++ (if shifted then $", lsl #12" else [])
  | Other text => text
  end.

(** What an instruction takes from the stack. *)
Definition insn_size (i : insn) : Z :=
  match i with
  | Stp n => n
  | Sub n _ shifted => if shifted then n * 4096 else n
  | Other _ => 0
  end.

Definition insn_ok (i : insn) : Prop :=
  match i with
  | Stp n | Sub n _ _ => 0 ≤ n
  | Other text => no_break text ∧ search match_stp text = None ∧ search match_sub text = None
  end.

(** A pattern that starts with [s]. *)
Definition needs_s {A} (m : str → option A) : Prop := m [] = None ∧ ∀ c s, c ≠ 115 → m (c :: s) = None.

Lemma search_skip {A} (m : str → option A) pre s :
  needs_s m → Forall (fun c => c ≠ 115) pre → search m (pre ++ s) = search m s.
Proof. intros [_ Hm]. induction 1 as [|c pre Hc _ IH]; [done|]. cbn. by rewrite Hm. Qed.

Lemma search_head {A} (m : str → option A) s a : m s = Some a → search m s = Some a.
Proof. intros H. destruct s; cbn [search]; by rewrite H. Qed.

Lemma search_none {A} (m : str → option A) s : needs_s m → Forall (fun c => c ≠ 115) s → search m s = None.
Proof.
  intros Hm Hs. rewrite <- (app_nil_r s), search_skip by done. cbn. by rewrite (proj1 Hm).
Qed.

Lemma operation_needs_s w operands s c : c ≠ 115 → operation (115 :: w) operands (c :: s) = None.
Proof. intros Hc. unfold operation. cbn [strip_prefix]. by rewrite (proj2 (Z.eqb_neq 115 c)) by done. Qed.

Lemma match_stp_needs_s : needs_s match_stp.
Proof. split; [done|]. intros c s Hc. unfold match_stp. by rewrite (operation_needs_s ($"tp")). Qed.
Lemma match_sub_needs_s : needs_s match_sub.
Proof. split; [done|]. intros c s Hc. unfold match_sub. by rewrite (operation_needs_s ($"ub")). Qed.

(** Digits, decimal or hexadecimal. *)
Definition hex_digit (c : Z) : bool := is_digit c || in_range 97 102 c.

Lemma show_nat_hex b n : 2 ≤ b ≤ 16 → Forall (fun c => hex_digit c = true) (show_nat b n).
Proof.
  intros Hb. eapply Forall_impl; [apply show_digits_chars; [lia|constructor]|].
  intros c (d & Hd & ->). unfold hex_digit, is_digit, in_range, digit_char. destruct (Z.ltb_spec d 10); lia.
Qed.

Lemma stp_text n : 0 ≤ n →
  search match_stp (insn_text (Stp n)) = Some (dec n) ∧ search match_sub (insn_text (Stp n)) = None.
Proof.
  intros Hn. destruct (dec_digits n Hn) as [Hd Hne]. unfold insn_text.
  generalize dependent (dec n). intros d Hd Hne. split.
  - apply search_head. unfold match_stp, operation. rewrite strip_prefix_app. cbn [mbind option_bind].
    rewrite (span_app is_space [9]); [|by repeat constructor|by intros a [= <-]]. rewrite decide_False by done.
    rewrite strip_prefix_app. cbn [mbind option_bind].
    rewrite span_app; [|done|by intros a [= <-]]. by rewrite decide_False.
  - transitivity (search match_sub (d ++ $"]!")); [done|]. apply search_none; [apply match_sub_needs_s|].
    apply Forall_app. split; [|by repeat constructor]. eapply Forall_impl; [exact Hd|].
    intros c Hc ->. done.
Qed.

(** The spelling of a number in a [sub]. *)
Lemma number_text n (as_hex : bool) rest : 0 ≤ n → rest = [] ∨ head rest = Some 44 →
  let number := if as_hex then hex_alt n else dec n in
  match_number (number ++ rest) = Some (number, rest) ∧ py_int 0 number = Ok n ∧ Forall (fun c => c ≠ 115) number.
Proof.
  intros Hn Hr. assert (∀ a f, head rest = Some a → f 44 = false → f a = false) as Hrest.
  { intros a f Ha Hf. destruct Hr as [->|Hr]; [done|]. congruence. }
  destruct as_hex; cbv zeta; split_and!.
  - unfold hex_alt. rewrite (proj2 (Z.ltb_ge n 0)) by lia. unfold match_number.
    rewrite <- app_assoc, strip_prefix_app. rewrite span_app; [|apply (show_nat_hex 16); lia|by intros a Ha; apply (Hrest a hex_digit)].
    rewrite decide_False; [done|]. apply (show_nat_sign 16 n); lia.
  - apply py_int_hex_alt; auto.
  - unfold hex_alt. rewrite (proj2 (Z.ltb_ge n 0)) by lia. apply Forall_app. split; [by repeat constructor|].
    eapply Forall_impl; [apply (show_nat_hex 16); lia|]. intros c Hc ->. done.
  - destruct (dec_digits n Hn) as [Hd Hne]. unfold match_number.
    assert (strip_prefix ($"0x") (dec n ++ rest) = None) as ->.
    { destruct Hd as [|c d Hc Hd]; [done|]. change (strip_prefix ($"0x") ((c :: d) ++ rest)) with
        (if 48 =? c then strip_prefix ($"x") (d ++ rest) else None). destruct (48 =? c); [|done].
      destruct Hd as [|c' d Hc' Hd]; cbn [app].
      - destruct rest as [|r rest]; [done|]. destruct Hr as [|[= ->]]; done.
      - change (strip_prefix ($"x") (c' :: d ++ rest)) with (if 120 =? c' then Some (d ++ rest) else None).
        destruct (Z.eqb_spec 120 c') as [<-|]; done. }
    rewrite span_app; [by rewrite decide_False|done|by intros a Ha; apply (Hrest a is_digit)].
  - apply py_int_dec; auto.
  - eapply Forall_impl; [apply dec_digits; done|]. intros c Hc ->. done.
Qed.

Lemma sub_text n (as_hex shifted : bool) : 0 ≤ n →
  let number := if as_hex then hex_alt n else dec n in
  search match_sub (insn_text (Sub n as_hex shifted)) = Some (number, shifted) ∧
  search match_stp (insn_text (Sub n as_hex shifted)) = None.
Proof.
  intros Hn number. unfold insn_text. fold number. set (tail := if shifted then _ else _).
  destruct (number_text n as_hex tail Hn) as (Hm & _ & Hs); [destruct shifted; [by right|by left]|]. fold number in Hm, Hs.
  split.
  - apply search_head. unfold match_sub, operation. rewrite strip_prefix_app. cbn [mbind option_bind].
    rewrite (span_app is_space [9]); [|by repeat constructor|by intros a [= <-]]. rewrite decide_False by done.
    rewrite strip_prefix_app. cbn [mbind option_bind]. rewrite Hm. by destruct shifted.
  - transitivity (search match_stp (number ++ tail)); [done|].
    rewrite search_skip; [|apply match_stp_needs_s|done]. by destruct shifted.
Qed.

(** The size a printed instruction is read with; what precedes it on its line has no
    [s]. *)
Lemma line_size_insn pre i : insn_ok i → Forall (fun c => c ≠ 115) pre → line_size (pre ++ insn_text i) = Ok (insn_size i).
Proof.
  intros Hi Hpre. unfold line_size. rewrite !search_skip by (done || apply match_stp_needs_s || apply match_sub_needs_s).
  destruct i as [n|n as_hex shifted|text]; cbn [insn_ok] in Hi.
  - destruct (stp_text n Hi) as [-> ->]. rewrite py_int_dec by auto. cbn. f_equal. lia.
  - destruct (sub_text n as_hex shifted Hi) as [-> ->].
    destruct (number_text n as_hex [] Hi) as (_ & Hv & _); [by left|]. cbn [mbind res_bind]. rewrite Hv.
    cbn [mbind res_bind insn_size]. destruct shifted; [|done]. by rewrite Z.shiftl_mul_pow2.
  - cbn [insn_text insn_size]. by destruct Hi as (_ & -> & ->).
Qed.

(** A function of a listing: its address, its name and its lines, each with its
    indentation, its address and its instruction. *)
Record listed := Listed { address : Z; name : str; code : list (nat * Z * insn) }.

Definition code_line (l : nat * Z * insn) : str :=
  let '(indent, addr, i) := l in replicate indent 32 ++ show_nat 16 addr ++ $":" ++ [9] ++ insn_text i.
Definition head_line (f : listed) : str := show_nat 16 (address f) ++ $" <" ++ name f ++ $">:".
Definition listing_lines (fs : list listed) : list str :=
  concat (map (fun f => head_line f :: map code_line (code f)) fs).
Definition listing (fs : list listed) : str := concat (map (fun l => l ++ nl) (listing_lines fs)).

(** The frame: what the first twelve lines take. *)
Definition frame (f : listed) : Z := foldr (fun l n => insn_size l.2 + n) 0 (take 12 (code f)).
Definition listed_ok (f : listed) : Prop :=
  0 ≤ address f ∧ name f ≠ [] ∧ no_break (name f) ∧ Forall (fun l => 0 ≤ l.1.2 ∧ insn_ok l.2) (code f).

(** The largest frame of each name, in the order of the first of each. *)
Definition largest_frames (fs : list listed) : list (str * Z) :=
  foldl (fun d f => dset (name f) (Z.max (default 0 (dget (name f) d)) (frame f)) d) [] fs.

Lemma before_last_end s : before_last (s ++ $">:") = Some s.
Proof. induction s as [|c s IH]; [done|]. cbn [app before_last]. by rewrite IH. Qed.

Lemma function_line_head f : listed_ok f → function_line (head_line f) = Some (name f).
Proof.
  intros (Ha & Hne & _). unfold function_line, head_line.
  rewrite span_app; [|apply (show_nat_hex 16); lia|by intros a [= <-]].
  rewrite decide_False by (apply (show_nat_sign 16); lia). rewrite strip_prefix_app. cbn [mbind option_bind].
  rewrite before_last_end. by destruct (name f).
Qed.

Lemma function_line_code l : function_line (code_line l) = None.
Proof.
  destruct l as [[k addr] i]. unfold function_line, code_line. destruct k as [|k]; [|done]. cbn [replicate app].
  rewrite span_app; [|apply (show_nat_hex 16); lia|by intros a [= <-]].
  destruct (decide (show_nat 16 addr = [])); done.
Qed.

Lemma digits_facts c : hex_digit c = true → c ≠ 115 ∧ is_linebreak c = false.
Proof. unfold hex_digit, is_digit, is_linebreak, in_range. lia. Qed.

Lemma code_line_size l : insn_ok l.2 → line_size (code_line l) = Ok (insn_size l.2).
Proof.
  destruct l as [[k addr] i]. cbn [snd]. intros Hi. unfold code_line.
  replace (replicate k 32 ++ show_nat 16 addr ++ $":" ++ [9] ++ insn_text i)
    with ((replicate k 32 ++ show_nat 16 addr ++ $":" ++ [9]) ++ insn_text i) by (by rewrite <- !app_assoc).
  apply line_size_insn; [done|]. rewrite !Forall_app. split_and!; [by apply Forall_replicate| |by repeat constructor..].
  eapply Forall_impl; [apply (show_nat_hex 16); lia|]. by intros c [? _]%digits_facts.
Qed.

Lemma code_line_break l : insn_ok l.2 → no_break (code_line l).
Proof.
  assert (∀ b n, 2 ≤ b ≤ 16 → no_break (show_nat b n)) as Hnat.
  { intros b n Hb. eapply Forall_impl; [by apply show_nat_hex|]. by intros c [_ ?]%digits_facts. }
  assert (∀ n, 0 ≤ n → no_break (dec n)) as Hdec.
  { intros n Hn. unfold dec. rewrite (proj2 (Z.ltb_ge n 0)) by lia. apply Hnat. lia. }
  assert (∀ n, 0 ≤ n → no_break (hex_alt n)) as Hhex.
  { intros n Hn. unfold hex_alt. rewrite (proj2 (Z.ltb_ge n 0)) by lia. apply Forall_app.
    split; [by repeat constructor|]. apply Hnat. lia. }
  destruct l as [[k addr] i]. cbn [snd]. intros Hi. unfold code_line, no_break. rewrite !Forall_app.
  split_and!; [by apply Forall_replicate|apply Hnat; lia|by repeat constructor..|].
  destruct i as [n|n as_hex shifted|text]; cbn [insn_text insn_ok] in *; [..|by apply Hi]; rewrite !Forall_app.
  - split_and!; [by repeat constructor..|by apply Hdec|by repeat constructor].
  - split_and!; [by repeat constructor..|destruct as_hex; [by apply Hhex|by apply Hdec]|destruct shifted; by repeat constructor].
Qed.

Lemma listing_no_break fs : Forall listed_ok fs → Forall no_break (listing_lines fs).
Proof.
  intros Hfs. unfold listing_lines. apply Forall_concat, Forall_map. eapply Forall_impl; [exact Hfs|].
  intros f (Ha & _ & Hn & Hc). constructor.
  - unfold head_line, no_break. rewrite !Forall_app. split_and!; [|by repeat constructor|done|by repeat constructor].
    eapply Forall_impl; [apply (show_nat_hex 16); lia|]. by intros c [_ ?]%digits_facts.
  - apply Forall_map. eapply Forall_impl; [exact Hc|]. intros l [_ Hl]. by apply code_line_break.
Qed.

(** The lines of one function: those after the twelfth do not count. *)
Lemma frames_code ls : Forall (fun l => insn_ok l.2) ls → ∀ st, is_Some (current st) → 0 ≤ seen st →
  ∃ seen', foldM frames_line st (map code_line ls) =
    Ok (FramesState (result st) (current st)
          (size st + foldr (fun l n => insn_size l.2 + n) 0 (take (Z.to_nat (12 - seen st)) ls)) seen').
Proof.
  induction 1 as [|l ls Hl _ IH]; intros st Hcur Hseen.
  { exists (seen st). rewrite take_nil. cbn. destruct st. cbn. by rewrite Z.add_0_r. }
  destruct Hcur as [c Hc]. cbn [map foldM].
  assert (frames_line st (code_line l) = if 12 <=? seen st then Ok st else
    n ← line_size (code_line l); Ok (FramesState (result st) (current st) (size st + n) (seen st + 1))) as ->
    by (unfold frames_line; by rewrite function_line_code, Hc).
  rewrite Hc. destruct (Z.leb_spec 12 (seen st)) as [Hge|Hlt].
  - cbn [mbind res_bind]. destruct (IH st) as [s' E]; [by eexists|done|]. exists s'. rewrite E, Hc.
    by replace (Z.to_nat (12 - seen st)) with 0%nat by lia.
  - rewrite code_line_size by done. cbn [mbind res_bind].
    destruct (IH (FramesState (result st) (Some c) (size st + insn_size l.2) (seen st + 1))) as [s' E]; [by eexists|cbn; lia|].
    exists s'. rewrite E. cbn [result current size seen].
    replace (Z.to_nat (12 - seen st)) with (S (Z.to_nat (12 - (seen st + 1)))) by lia. cbn [take foldr].
    do 2 f_equal. lia.
Qed.

Lemma frames_functions fs : Forall listed_ok fs → ∀ st,
  ∃ st', foldM frames_line st (listing_lines fs) = Ok st' ∧
    close_function st' = foldl (fun d f => dset (name f) (Z.max (default 0 (dget (name f) d)) (frame f)) d) (close_function st) fs.
Proof.
  induction 1 as [|f fs Hf _ IH]; intros st; [by exists st|].
  change (listing_lines (f :: fs)) with (head_line f :: map code_line (code f) ++ listing_lines fs).
  cbn [foldM foldl].
  assert (frames_line st (head_line f) = Ok (FramesState (close_function st) (Some (name f)) 0 0)) as ->
    by (unfold frames_line; by rewrite function_line_head).
  cbn [mbind res_bind]. rewrite foldM_app. destruct Hf as (_ & _ & _ & Hc).
  destruct (frames_code (code f)) with (st := FramesState (close_function st) (Some (name f)) 0 0) as [s' ->];
    [eapply Forall_impl; [exact Hc|by intros l [_ ?]]|by eexists|done|].
  cbn [mbind res_bind result current size seen]. rewrite Z.add_0_l. change (Z.to_nat (12 - 0)) with 12%nat.
  fold (frame f). destruct (IH (FramesState (close_function st) (Some (name f)) (frame f) s')) as (st' & -> & E).
  by exists st'.
Qed.

(** The frames read from a listing are those of its functions: for each name the
    largest, where a frame is the sum of what the instructions of the first twelve
    lines take, with [sub] in decimal or hexadecimal and with its shift. *)
Theorem frames_listing fs : Forall listed_ok fs → frames (listing fs) = Ok (largest_frames fs).
Proof.
  intros Hfs. unfold frames, listing. rewrite splitlines_lines by by apply listing_no_break.
  destruct (frames_functions fs Hfs (FramesState [] None 0 0)) as (st' & -> & E). cbn [mbind res_bind].
  by rewrite E.
Qed.

(** The listing of the controls. *)
Definition sample : list listed :=
  [Listed 0 ($"small") [(7%nat, 0, Stp 32); (7%nat, 4, Other ($"mov"))];
   Listed 16 ($"plan_holder") [(6%nat, 16, Stp 96); (6%nat, 20, Sub 1 true true); (6%nat, 24, Sub 0x6a0 true false)];
   Listed 32 ($"budgeted") [(6%nat, 32, Stp 16); (6%nat, 36, Sub 3000 false false)]].

Lemma frames_listing_witness :
  frames (listing sample) = Ok [($"small", 32); ($"plan_holder", 5888); ($"budgeted", 3016)].
Proof.
  rewrite (frames_listing sample).
  - vm_compute. reflexivity.
  - unfold sample, listed_ok, no_break. repeat constructor; cbn; try done; try (repeat constructor; done).
Defined.

(** A store of the frame record whose offset is spelled in hexadecimal, as [sub]'s
    immediates may be, counts for nothing. *)
Theorem hex_store_uncounted n :
  0 ≤ n → line_size ($"stp" ++ [9] ++ $"x29, x30, [sp, #-" ++ hex_alt n ++ $"]!") = Ok 0.
Proof.
  intros Hn. unfold line_size, hex_alt. rewrite (proj2 (Z.ltb_ge n 0)) by lia.
  assert (Forall (fun c => c ≠ 115) (show_nat 16 n ++ $"]!")) as Hd.
  { apply Forall_app. split; [|by repeat constructor].
    eapply Forall_impl; [apply (show_nat_hex 16); lia|]. by intros c [? _]%digits_facts. }
  rewrite <- (app_assoc ($"0x")). generalize dependent (show_nat 16 n ++ $"]!"). intros d Hd.
  assert (search match_stp ($"stp" ++ [9] ++ $"x29, x30, [sp, #-" ++ $"0x" ++ d) = None) as ->.
  { transitivity (search match_stp d); [done|]. by apply search_none; [apply match_stp_needs_s|]. }
  assert (search match_sub ($"stp" ++ [9] ++ $"x29, x30, [sp, #-" ++ $"0x" ++ d) = None) as ->; [|done].
  transitivity (search match_sub d); [done|]. by apply search_none; [apply match_sub_needs_s|].
Qed.

Lemma hex_store_uncounted_witness : line_size ($"stp" ++ [9] ++ $"x29, x30, [sp, #-" ++ hex_alt 32 ++ $"]!") = Ok 0.
Proof. apply (hex_store_uncounted 32). lia. Defined.
