(* ===== verification/CallGraph.v ===== *)
(** * The call graph table

    Model of scripts/call_graph_table.py, the reader of the table of functions the
    compiler writes: one row for a definition, with the definitions it calls.  The
    build checks on the call graph read it, here and in the files that require this
    one.  The theory of calls they share is at the end. *)
From S2P Require Import Prelude Text Dict.

Definition FORMAT : Z := 2.
Definition HEADER : str := $"# takibi call graph, format ".
Definition COLUMNS : list str :=
  [$"file"; $"line"; $"end_line"; $"name"; $"qualifiers"; $"declared"; $"effects"; $"params"; $"callees"; $"callers";
   $"values"; $"body_hash"].

Definition TableError (message : str) : exn := Custom "TableError" message.

Record row := Row {
  r_file : str; r_line : str; r_end_line : str; r_name : str; r_qualifiers : list str; r_declared : str;
  r_effects : list str; r_params : list str; r_callees : list str; r_callers : list str; r_values : list str;
  r_body_hash : str }.

(** [s.split(", ")]. *)
Fixpoint split_params (s : str) : list str :=
  match s with
  | [] => [[]]
  | c :: s' =>
      match s' with
      | d :: s'' =>
          if (c =? 44) && (d =? 32) then [] :: split_params s''
          else match split_params s' with [] => [[c]] | p :: ps => (c :: p) :: ps end
      | [] => [[c]]
      end
  end.

(** A cell that holds a list: [-] is the empty one. *)
Definition list_cell (split : str → list str) (cell : str) : list str := if decide (cell = $"-") then [] else split cell.

Definition columns_repr : str := $"(" ++ join ($", ") (map py_repr COLUMNS) ++ $")".

Definition parse_row (origin : str) (number : Z) (line : str) : res row :=
  let cells := split_on 9 line in
  let list := list_cell (split_on 44) in
  match cells with
  | [file; line; end_line; name; qualifiers; declared; effects; params; callees; callers; values; body_hash] =>
      Ok (Row file line end_line name (list qualifiers) declared (list effects) (list_cell split_params params)
            (list callees) (list callers) (list values) body_hash)
  | _ => Err (TableError (origin ++ $":" ++ dec number ++ $": " ++ dec (zlen cells) ++ $" cells, not " ++ dec (zlen COLUMNS)))
  end.

Fixpoint parse_rows (origin : str) (number : Z) (lines : list str) : res (list row) :=
  match lines with
  | [] => Ok []
  | line :: lines => r ← parse_row origin number line; rs ← parse_rows origin (number + 1) lines; Ok (r :: rs)
  end.

Definition parse (text origin : str) : res (list row) :=
  match splitlines text with
  | [] => Err (TableError (origin ++ $": not a takibi call graph table"))
  | first :: rest =>
      match strip_prefix HEADER first with
      | None => Err (TableError (origin ++ $": not a takibi call graph table"))
      | Some version =>
          let version := (span (fun c => negb (c =? 59)) version).1 in
          if decide (version = dec FORMAT) then
            match rest with
            | columns :: lines =>
                if decide (split_on 9 columns = COLUMNS) then
                  rows ← parse_rows origin 3 lines;
                  if decide (rows = []) then Err (TableError (origin ++ $": no rows")) else Ok rows
                else Err (TableError (origin ++ $": column header is not " ++ columns_repr))
            | [] => Err (TableError (origin ++ $": column header is not " ++ columns_repr))
            end
          else Err (TableError (origin ++ $": format " ++ version ++ $", this reader knows " ++ dec FORMAT))
      end
  end.

(** [name@file:line] is [name]; [*], an indirect call, stays [*]. *)
Definition callee_name (entry : str) : str := (span (fun c => negb (c =? 64)) entry).1.

(** [name@file:line] is [file]; [-] for a callee with no definition. *)
Definition callee_file (entry : str) : str :=
  match (span (fun c => negb (c =? 64)) entry).2 with
  | [] => $"-"
  | _ :: rest =>
      match span (fun c => negb (c =? 58)) (reverse rest) with
      | (_, []) => rest
      | (_, _ :: file) => reverse file
      end
  end.

(** The negative controls' copy of a table with one row changed.  The row's name must
    be in the table once; the message says of what check. *)
Definition SystemExit (message : str) : exn := Custom "SystemExit" message.

Fixpoint change_first (name : str) (change : row → row) (rows : list row) : list row :=
  match rows with
  | [] => []
  | r :: rows => if decide (r_name r = name) then change r :: rows else r :: change_first name change rows
  end.

Definition plant (check : str) (rows : list row) (name : str) (change : row → row) : res (list row) :=
  let matches := zlen (filter (fun r => r_name r = name) rows) in
  if matches =? 1 then Ok (change_first name change rows)
  else Err (SystemExit ($"FAIL " ++ check ++ $": the negative control's subject " ++ name ++ $" is in the table " ++
                        dec matches ++ $" times, not once")).

(** The columns a control changes. *)
Definition with_name (f : str → str) (r : row) : row :=
  Row (r_file r) (r_line r) (r_end_line r) (f (r_name r)) (r_qualifiers r) (r_declared r) (r_effects r) (r_params r)
    (r_callees r) (r_callers r) (r_values r) (r_body_hash r).
Definition with_declared (f : str → str) (r : row) : row :=
  Row (r_file r) (r_line r) (r_end_line r) (r_name r) (r_qualifiers r) (f (r_declared r)) (r_effects r) (r_params r)
    (r_callees r) (r_callers r) (r_values r) (r_body_hash r).
Definition with_params (f : list str → list str) (r : row) : row :=
  Row (r_file r) (r_line r) (r_end_line r) (r_name r) (r_qualifiers r) (r_declared r) (r_effects r) (f (r_params r))
    (r_callees r) (r_callers r) (r_values r) (r_body_hash r).
Definition with_callees (f : list str → list str) (r : row) : row :=
  Row (r_file r) (r_line r) (r_end_line r) (r_name r) (r_qualifiers r) (r_declared r) (r_effects r) (r_params r)
    (f (r_callees r)) (r_callers r) (r_values r) (r_body_hash r).
Definition with_callers (f : list str → list str) (r : row) : row :=
  Row (r_file r) (r_line r) (r_end_line r) (r_name r) (r_qualifiers r) (r_declared r) (r_effects r) (r_params r)
    (r_callees r) (f (r_callers r)) (r_values r) (r_body_hash r).

(** ** Lists of names *)

(** [e in l]. *)
Definition mem (e : str) (l : list str) : bool := bool_decide (e ∈ l).

Lemma mem_true e l : mem e l = true ↔ e ∈ l.
Proof. apply bool_decide_eq_true. Qed.

Lemma mem_false e l : mem e l = false ↔ e ∉ l.
Proof. apply bool_decide_eq_false. Qed.

Lemma filter_length_lt {A} (P Q : A → Prop) `{∀ x, Decision (P x)} `{∀ x, Decision (Q x)} (l : list A) x :
  (∀ y, Q y → P y) → x ∈ l → P x → ¬ Q x → (length (filter Q l) < length (filter P l))%nat.
Proof.
  intros Hqp Hx HP HQ.
  assert (∀ l, (length (filter Q l) ≤ length (filter P l))%nat) as Hle.
  { clear -Hqp. induction l as [|y l IH]; [done|]. rewrite !filter_cons.
    destruct (decide (Q y)), (decide (P y)); cbn; [lia|naive_solver|lia|done]. }
  induction Hx as [x l|x y l Hx IH]; rewrite !filter_cons.
  - rewrite decide_False, decide_True by done. cbn. pose proof (Hle l). lia.
  - specialize (IH HP HQ). destruct (decide (Q y)), (decide (P y)); cbn; try lia. naive_solver.
Qed.

Lemma elem_not_nil {A} (l : list A) : l ≠ [] ↔ ∃ x, x ∈ l.
Proof.
  destruct l as [|a l]; split; [done|by intros [x ?%not_elem_of_nil]|intros _; exists a; left|done].
Qed.

Lemma filter_map_nil {A B} (f : A → B) (P : A → Prop) `{∀ x, Decision (P x)} l :
  map f (filter P l) = [] ↔ ∀ x, x ∈ l → ¬ P x.
Proof.
  split.
  - intros E%map_eq_nil x Hx HP. assert (x ∈ []) as []%not_elem_of_nil. rewrite <- E. by apply list_elem_of_filter.
  - intros Hn. destruct (filter P l) as [|x xs] eqn:E; [done|]. assert (x ∈ x :: xs) as Hx by left.
    rewrite <- E in Hx. apply list_elem_of_filter in Hx as [HP Hx]. by destruct (Hn x Hx).
Qed.

(** ** Rows by name *)

(** With one row for each name, the dictionary of the rows is the rows. *)
Lemma dict_of_rows {V} (f : row → V) rows :
  NoDup (map r_name rows) → foldl (fun d r => dset (r_name r) (f r) d) [] rows = map (fun r => (r_name r, f r)) rows.
Proof.
  induction rows as [|r rows IH] using rev_ind; intros Hd; [done|].
  rewrite map_app in Hd. apply NoDup_app in Hd as (Hrs & Hr & _).
  rewrite foldl_snoc, IH, map_app by done. apply dset_new. rewrite map_map. cbn.
  intros Hin. apply (Hr _ Hin). by left.
Qed.

Lemma dict_get {V} (f : row → V) rows name v :
  NoDup (map r_name rows) →
  dget name (foldl (fun d r => dset (r_name r) (f r) d) [] rows) = Some v ↔ ∃ r, r ∈ rows ∧ r_name r = name ∧ v = f r.
Proof.
  intros Hd. rewrite dict_of_rows by done. split.
  - intros (r & [= -> ->] & Hr)%dget_elem_of%list_elem_of_fmap. eauto.
  - intros (r & Hr & <- & ->). apply dget_NoDup; [by rewrite map_map|]. apply list_elem_of_fmap. by exists r.
Qed.

Lemma filter_names_NoDup (P : row → Prop) `{∀ r, Decision (P r)} rows :
  NoDup (map r_name rows) → NoDup (map r_name (filter P rows)).
Proof.
  induction rows as [|r rows IH]; intros Hd; [constructor|]. cbn [map] in Hd.
  apply NoDup_cons in Hd as [Hr Hd]. rewrite filter_cons. destruct (decide _); [|auto]. cbn. constructor; [|auto].
  intros (r' & E & [_ Hin]%list_elem_of_filter)%list_elem_of_fmap. apply Hr, list_elem_of_fmap. by exists r'.
Qed.

(** ** Reports of a list *)

Lemma mapM_res_rel {A B} (f : A → res B) (R : A → B → Prop) l :
  (∀ a, a ∈ l → ∃ b, f a = Ok b ∧ R a b) → ∃ bs, mapM_res f l = Ok bs ∧ Forall2 R l bs.
Proof.
  induction l as [|a l IH]; intros H; [by exists []|]. destruct (H a) as (b & Hb & Hr); [left|].
  destruct IH as (bs & Hbs & Hrs); [intros x Hx; apply H; by right|]. exists (b :: bs).
  cbn. rewrite Hb. cbn. rewrite Hbs. split; [done|by constructor].
Qed.

Lemma reports_nil {A B} (f : B → list str) (P : A → Prop) l bs :
  Forall2 (fun a b => f b = [] ↔ P a) l bs → concat (map f bs) = [] ↔ ∀ a, a ∈ l → P a.
Proof.
  induction 1 as [|a b l bs Hab _ IH]; cbn; [split; [by intros _ a ?%not_elem_of_nil|done]|]. split.
  - intros [Hb Hbs]%app_eq_nil x [->|Hx]%elem_of_cons; [by apply Hab|by apply IH].
  - intros Hp. rewrite (proj2 Hab), (proj2 IH); [done|intros x Hx; apply Hp; by right|apply Hp; left].
Qed.

(** ** Rows of the sample tables *)

Definition entry (name file : str) : str := name ++ $"@" ++ file ++ $":1".
Definition simple_row (file name : str) (params callees : list str) : row :=
  Row file ($"1") ($"2") name [] ($"-") [] params callees [] [] ($"-").
