(* ===== verification/CallGraphFacts.v ===== *)
(** * Facts about the call graph table

    The text of a table, in the format of docs/CALL_GRAPH.md, is read back as the rows
    it was written from, and an entry of the callees as its name and file. *)
From S2P Require Import Prelude Text Dict CallGraph.

(** ** The text of a table *)

Definition show_list (sep : str) (l : list str) : str := if decide (l = []) then $"-" else join sep l.

Definition row_cells (r : row) : list str :=
  [r_file r; r_line r; r_end_line r; r_name r; show_list ($",") (r_qualifiers r); r_declared r;
   show_list ($",") (r_effects r); show_list ($", ") (r_params r); show_list ($",") (r_callees r);
   show_list ($",") (r_callers r); show_list ($",") (r_values r); r_body_hash r].

(** The first line may say more after a semicolon. *)
Definition table_lines (comment : str) (rows : list row) : list str :=
  (HEADER ++ dec FORMAT ++ $";" ++ comment) :: join ($"	") COLUMNS :: map (fun r => join ($"	") (row_cells r)) rows.

Definition table_text (comment : str) (rows : list row) : str :=
  concat (map (fun line => line ++ nl) (table_lines comment rows)).

(** ** Cells *)

Definition clean (s : str) : Prop := no_break s ∧ Forall (fun c => c ≠ 9) s.
(** No comma and space in a row. *)
Definition one_param (s : str) : Prop := ∀ a b, s ≠ a ++ 44 :: 32 :: b.

Record clean_row (r : row) : Prop := CleanRow {
  cr_cells : Forall clean (row_cells r);
  cr_lists : Forall (fun l => l ≠ [$"-"] ∧ Forall (Forall (fun c => c ≠ 44)) l)
               [r_qualifiers r; r_effects r; r_callees r; r_callers r; r_values r];
  cr_params : r_params r ≠ [$"-"] ∧ Forall one_param (r_params r) }.

Lemma one_param_tail c s : one_param (c :: s) → one_param s.
Proof. intros H a b ->. by apply (H (c :: a) b). Qed.

Lemma split_params_step c s : (∀ s', c = 44 → s ≠ 32 :: s') →
  split_params (c :: s) = match split_params s with [] => [[c]] | p :: ps => (c :: p) :: ps end.
Proof.
  intros H. destruct s as [|d s]; [done|]. cbn [split_params].
  destruct ((c =? 44) && (d =? 32)) eqn:E; [|done]. apply andb_true_iff in E as [->%Z.eqb_eq ->%Z.eqb_eq]. by destruct (H s).
Qed.

Lemma split_params_app p rest : one_param p → split_params (p ++ 44 :: 32 :: rest) = p :: split_params rest.
Proof.
  induction p as [|c p IH]; intros H; [done|]. cbn [app]. rewrite split_params_step, IH; [done|by eapply one_param_tail|].
  intros s' -> E. destruct p as [|d p]; [done|]. injection E as -> _. by apply (H [] p).
Qed.

Lemma split_params_one p : one_param p → split_params p = [p].
Proof.
  induction p as [|c p IH]; intros H; [done|]. rewrite split_params_step, IH; [done|by eapply one_param_tail|].
  intros s' -> ->. by apply (H [] s').
Qed.

Lemma split_params_join ps : ps ≠ [] → Forall one_param ps → split_params (join ($", ") ps) = ps.
Proof.
  intros Hne H. induction H as [|p ps Hp _ IH]; [done|]. destruct ps as [|q ps]; [by apply split_params_one|].
  change (join ($", ") (p :: q :: ps)) with (p ++ 44 :: 32 :: join ($", ") (q :: ps)). by rewrite split_params_app, IH.
Qed.

Lemma list_cell_show split sep l :
  l ≠ [$"-"] → split ($"-") = [$"-"] → (l ≠ [] → split (join sep l) = l) → list_cell split (show_list sep l) = l.
Proof.
  intros Hd Hs Hl. unfold show_list, list_cell. destruct (decide (l = [])) as [->|Hn]; [done|].
  rewrite decide_False; [by apply Hl|]. intros E. specialize (Hl Hn). rewrite E in Hl. congruence.
Qed.

Lemma list_cell_commas l : l ≠ [$"-"] ∧ Forall (Forall (fun c => c ≠ 44)) l → list_cell (split_on 44) (show_list ($",") l) = l.
Proof. intros [Hd Hl]. apply list_cell_show; [done..|]. intros Hn. by apply (split_on_join 44). Qed.

Lemma parse_row_cells origin number r : clean_row r → parse_row origin number (join ($"	") (row_cells r)) = Ok r.
Proof.
  intros [Hc Hl [Hp Hps]]. unfold parse_row. rewrite (split_on_join 9).
  2: done. 2: { eapply Forall_impl; [done|]. by intros s []. }
  cbn [row_cells]. rewrite !Forall_cons in Hl. destruct Hl as (H1 & H2 & H3 & H4 & H5 & _).
  rewrite !list_cell_commas by done. rewrite list_cell_show; [by destruct r|done..|]. intros Hn. by apply split_params_join.
Qed.

Lemma parse_rows_cells origin number rows : Forall clean_row rows →
  parse_rows origin number (map (fun r => join ($"	") (row_cells r)) rows) = Ok rows.
Proof.
  intros H. revert number. induction H as [|r rows Hr _ IH]; intros number; [done|].
  cbn [map parse_rows]. rewrite parse_row_cells by done. cbn [mbind res_bind]. by rewrite IH.
Qed.

Lemma join_no_break sep parts : no_break sep → Forall no_break parts → no_break (join sep parts).
Proof.
  intros Hs. induction 1 as [|p parts Hp H IH]; [constructor|]. destruct parts as [|q parts]; [done|].
  change (no_break (p ++ sep ++ join sep (q :: parts))). apply Forall_app; split; [done|]. by apply Forall_app.
Qed.

(** A table written in the format, its cells free of tabs and line breaks and its
    lists of items without the separator, is read back as its rows. *)
Theorem table_round_trip comment rows origin :
  no_break comment → rows ≠ [] → Forall clean_row rows → parse (table_text comment rows) origin = Ok rows.
Proof.
  intros Hcm Hn Hr. unfold parse, table_text. rewrite splitlines_lines.
  - unfold table_lines. rewrite strip_prefix_app. change (dec FORMAT ++ $";" ++ comment) with ($"2" ++ 59 :: comment).
    rewrite span_app; [|by repeat constructor|by intros a [= <-]]. cbn [fst]. rewrite decide_True by by_compute.
    rewrite decide_True by by_compute. rewrite parse_rows_cells by done. cbn [mbind res_bind]. by rewrite decide_False.
  - unfold table_lines. constructor; [|constructor; [by_compute|]].
    + change (no_break (HEADER ++ dec FORMAT ++ $";" ++ comment)). repeat apply Forall_app_2; [by_compute..|done].
    + apply Forall_map. eapply Forall_impl; [exact Hr|]. intros r [Hc _ _]. apply join_no_break; [by repeat constructor|].
      eapply Forall_impl; [exact Hc|]. by intros s [].
Qed.

Definition sample_row : row :=
  Row ($"kernel/fs/ext2/ext2.tkb") ($"10") ($"20") ($"ext2_unlink_name") [] ($"{}") [$"io"; $"unsafe"]
    [$"dir: usize"; $"f: (usize,bool)"] [$"ext2_block_write@kernel/fs/ext2/ext2.tkb:5"; $"*"] [] [] ($"9f3a").

Lemma table_round_trip_witness :
  parse (table_text ($" docs/CALL_GRAPH.md") [sample_row]) ($"t") = Ok [sample_row].
Proof.
  apply table_round_trip; [apply (bool_decide_unpack _); vm_compute; exact I|discriminate|].
  constructor; [|constructor]. constructor.
  - apply (bool_decide_unpack _). vm_compute. exact I.
  - apply (bool_decide_unpack _). vm_compute. exact I.
  - split; [discriminate|]. repeat constructor; intros a b E.
    + repeat (destruct a as [|? a]; [discriminate E|]; injection E as _ E). by destruct a.
    + repeat (destruct a as [|? a]; [discriminate E|]; injection E as _ E). by destruct a.
Defined.

(** An entry [name@file:line] gives its name and its file. *)
Lemma entry_parts name file line : (64 ∉ name) → (58 ∉ line) →
  callee_name (name ++ $"@" ++ file ++ $":" ++ line) = name ∧ callee_file (name ++ $"@" ++ file ++ $":" ++ line) = file.
Proof.
  intros Hn Hl. assert (∀ (c : Z) s, c ∉ s → Forall (fun x => negb (x =? c) = true) s) as Hno.
  { intros c s H. apply Forall_forall. intros x Hx. apply negb_true_iff, Z.eqb_neq. by intros ->. }
  unfold callee_name, callee_file. rewrite span_app by (first [by apply Hno|by intros a [= <-]]). split; [done|].
  cbn [snd]. change ($"@" ++ ?s) with (64 :: s). cbn match.
  change (file ++ $":" ++ line) with (file ++ [58] ++ line). rewrite app_assoc, reverse_app, reverse_app, reverse_singleton.
  change ([58] ++ reverse file) with (58 :: reverse file).
  rewrite span_app; [|apply Hno; by rewrite elem_of_reverse|by intros a [= <-]]. apply reverse_involutive.
Qed.
