(* ===== verification/MutationGuard.v ===== *)
(** * The ext2 mutation guard

    Model of scripts/buildcheck_ext2_mutation_guard.py: every function that calls an
    ext2 mutator from outside the files that define them takes the mutation guard, or
    is handed it, or is in a file that is excepted; and every function of the mutators'
    file that reaches a block write and is called from outside is named a mutator. *)
From S2P Require Import Prelude Text Dict Sort PassLine CallGraph.

Definition MUTATORS : list str :=
  [$"ext2_resize_small_file"; $"ext2_create_root_file"; $"ext2_unlink_root_file"; $"ext2_create_file_in";
   $"ext2_create_empty_file_in"; $"ext2_truncate_regular_file"; $"ext2_unlink_file_in"; $"ext2_make_directory_in";
   $"ext2_claim_directory"; $"ext2_unlink_name"; $"ext2_rename_in"; $"ext2_remove_directory_in";
   $"ext2_write_regular_file_range"; $"ext2_replace_regular_file"; $"ext2_bitmap_fill"; $"ext2_bitmap_roundtrip_check";
   $"ext2_owner_roundtrip_check"; $"ext2_write_allocations_roundtrip_check"].
Definition BLOCK_WRITE : str := $"ext2_block_write".
Definition MUTATOR_FILE : str := $"kernel/fs/ext2/ext2.tkb".
Definition TAKE : str := $"ext2_mutation_take".
Definition LOCK_FILE : str := $"kernel/fs/ext2/mutation_lock.tkb".
Definition HELD : str := $"guard: borrow Ext2MutationGuard[ext2_mutation]".
Definition DEFINING : list str := [MUTATOR_FILE; LOCK_FILE].
Definition UNGUARDED_ALLOWED : list str := [$"kernel/init/ext2_fixture.tkb"].

Definition mutators_called (r : row) (mutators : list str) : list str :=
  map callee_name
    (filter (fun e => callee_name e ∈ mutators ∧ callee_file e = MUTATOR_FILE) (r_callees r)).

Definition takes_guard (r : row) : bool :=
  existsb (fun e => bool_decide (callee_name e = TAKE) && bool_decide (callee_file e = LOCK_FILE)) (r_callees r)
  || mem HELD (r_params r).

(** The calls of the mutators' file that stay in it, by caller; of two rows of a name
    the later one counts. *)
Definition file_callees (rows : list row) : list (str * list str) :=
  foldl (fun d r => dset (r_name r)
                      (map callee_name (filter (fun e => callee_file e = MUTATOR_FILE) (r_callees r))) d)
    [] (filter (fun r => r_file r = MUTATOR_FILE) rows).

(** One pass of the loop: the names added join the set at once. *)
Definition writers_step (st : bool * list str) (item : str * list str) : bool * list str :=
  let '(grew, writers) := st in
  let '(name, called) := item in
  if negb (mem name writers) && existsb (fun c => mem c writers) called then (true, writers ++ [name])
  else (grew, writers).
Definition writers_pass (callees : list (str * list str)) (writers : list str) : bool * list str :=
  foldl writers_step (false, writers) callees.

Definition writers_body (callees : list (str * list str)) (writers : list str) : flow (list str) (res (list str)) :=
  match writers_pass callees writers with
  | (true, writers) => Next writers
  | (false, writers) => Stop (Ok writers)
  end.

Definition block_writers (rows : list row) : res (list str) :=
  let callees := file_callees rows in
  while (S (length callees)) (writers_body callees) [BLOCK_WRITE].

Definition unlisted_mutators (rows : list row) (mutators : list str) : res (list str) :=
  writers ← block_writers rows;
  Ok (sorted_set (concat (map (fun r =>
    if mem (r_file r) DEFINING then [] else
    map callee_name
      (filter (fun e => callee_file e = MUTATOR_FILE ∧ callee_name e ∈ writers ∧ callee_name e ∉ mutators) (r_callees r)))
    rows))).

Definition unlisted_problem (name : str) : str :=
  name ++ $" in " ++ MUTATOR_FILE ++ $" reaches " ++ BLOCK_WRITE ++
  $" and is called from outside it, but is not in MUTATORS: its callers are not checked for the guard (GitHub issue #1019)".
Definition undefined_problem (name : str) : str :=
  $"mutator " ++ name ++ $" is not defined in " ++ MUTATOR_FILE ++
  $"; a renamed mutator would leave this check matching nothing".
Definition unguarded_problem (r : row) (called : list str) : str :=
  r_file r ++ $":" ++ r_line r ++ $" " ++ r_name r ++ $" calls " ++ join ($", ") (sorted_set called) ++
  $" and does not take " ++ LOCK_FILE ++
  $"'s guard. An ext2 mutation that excludes nothing re-opens GitHub issue #533: two claims of one directory entry are two owners of one block. Take the guard, or add this file to UNGUARDED_ALLOWED in this script with the reason it cannot race a peer".
Definition stale_problem (name : str) : str :=
  name ++
  $" is allowed to mutate without the guard but no longer does (or is not compiled): remove the entry rather than leaving a claim about nothing".

(** A row of the loop over the callers: what it reports, and whether it is one of the
    guarded. *)
Definition caller_verdict (mutators : list str) (r : row) : list str * Z :=
  if mem (r_file r) DEFINING then ([], 0) else
  let called := mutators_called r mutators in
  if decide (called = []) then ([], 0)
  else if takes_guard r then ([], 1)
  else if mem (r_file r) UNGUARDED_ALLOWED then ([], 0)
  else ([unguarded_problem r called], 0).

Definition defined_in (name file : str) (rows : list row) : bool :=
  existsb (fun r => bool_decide (r_name r = name) && bool_decide (r_file r = file)) rows.

Definition guard_problems (rows : list row) (mutators : list str) : res (list str * Z) :=
  unlisted ← unlisted_mutators rows mutators;
  let verdicts := map (caller_verdict mutators) rows in
  Ok (map unlisted_problem unlisted
      ++ map undefined_problem (filter (fun name => defined_in name MUTATOR_FILE rows = false) mutators)
      ++ (if defined_in TAKE LOCK_FILE rows then [] else [TAKE ++ $" is not defined in " ++ LOCK_FILE])
      ++ concat (map fst verdicts)
      ++ map stale_problem
           (filter (fun name => existsb (fun r => bool_decide (r_file r = name) &&
                                                  bool_decide (mutators_called r mutators ≠ [])) rows = false)
              UNGUARDED_ALLOWED),
      foldr Z.add 0 (map snd verdicts)).

Definition planted : list row → str → (row → row) → res (list row) := plant ($"ext2-mutation-guard").

Definition StopIteration : exn := Custom "StopIteration" [].

(** [label], when the table planted is accepted. *)
Definition accepted (rows : list row) (mutators : list str) (label : str) : res (list str) :=
  '(problems, _) ← guard_problems rows mutators; Ok (if decide (problems = []) then [label] else []).

Definition controls_fail (rows : list row) : res (list str) :=
  mutator_call ← of_option StopIteration
    (head (filter (fun e => callee_name e ∈ MUTATORS)
             (concat (map r_callees (filter (fun r => r_name r = $"ext2_syscall_write_at") rows)))));
  untaken ← planted rows ($"syscall_ext2_write_locked")
    (with_callees (fun callees => filter (fun c => callee_name c ≠ TAKE) callees ++ [mutator_call]));
  f1 ← accepted untaken MUTATORS ($"a helper that no longer takes the guard");
  unborrowed ← planted rows ($"ext2_syscall_mkdir") (with_params (map (replace HELD ($"guard: usize"))));
  f2 ← accepted unborrowed MUTATORS ($"a helper whose guard parameter is a plain word");
  renamed ← planted rows ($"ext2_claim_directory") (with_name (fun _ => $"ext2_claim_dir"));
  f3 ← accepted renamed MUTATORS ($"a renamed mutator");
  f4 ← accepted rows (filter (fun m => m ≠ $"ext2_write_regular_file_range") MUTATORS)
         ($"a block-writing mutator missing from MUTATORS");
  Ok (f1 ++ f2 ++ f3 ++ f4).

(** [main] on the path of a table, which [read_text] reads: the status and the lines
    printed. *)
Definition main (read_text : str → res str) (path : str) : res (Z * list str) :=
  match (text ← read_text path; parse text path) with
  | Err (Custom cls message) =>
      if bool_decide (cls = "TableError"%string) || bool_decide (cls = "OSError"%string)
      then Ok (1, [$"FAIL ext2-mutation-guard: " ++ message]) else Err (Custom cls message)
  | Err e => Err e
  | Ok rows =>
      '(problems, guarded) ← guard_problems rows MUTATORS;
      if decide (problems = []) then
        not_refused ← controls_fail rows;
        if decide (not_refused = []) then
          line ← report_pass ($"ext2-mutation-guard")
            (dec guarded ++ $" guarded mutating function(s) in " ++ path ++ $", " ++ dec (zlen UNGUARDED_ALLOWED) ++
             $" file exempt with a stated reason, and a helper stripped of its guard, taken or borrowed, is refused")
            [($"guarded_functions", guarded)];
          Ok (0, [line])
        else Ok (1, [$"FAIL ext2-mutation-guard: negative control(s) " ++ join ($"; ") not_refused ++
                     $" were accepted, so this check proves nothing"])
      else Ok (1, map (fun p => $"ERROR ext2-mutation-guard: " ++ p) problems
                  ++ [$"FAIL ext2-mutation-guard: an ext2 mutation is not excluded"])
  end.
