(* ===== verification/MutationGuardFacts.v ===== *)
(** * Facts about the mutation guard

    The fixpoint of the check is the set of functions that reach a block write, so a
    table without problems means what the check claims: whoever calls a function that
    reaches a block write from outside its files holds the guard. *)
From S2P Require Import Prelude Text Dict Sort PassLine CallGraph MutationGuard.
From stdpp Require Import relations.
#[local] Open Scope Z_scope.

(** ** The calls inside the mutators' file *)

Definition file_call (rows : list row) (a b : str) : Prop :=
  ∃ r e, r ∈ rows ∧ r_file r = MUTATOR_FILE ∧ r_name r = a ∧
    e ∈ r_callees r ∧ callee_file e = MUTATOR_FILE ∧ callee_name e = b.

(** Through calls of the file, [a] comes to a block write. *)
Definition writes_blocks (rows : list row) (a : str) : Prop := rtc (file_call rows) a BLOCK_WRITE.

Definition own_callees (r : row) : list str :=
  map callee_name (filter (fun e => callee_file e = MUTATOR_FILE) (r_callees r)).

Lemma elem_of_own_callees r c :
  c ∈ own_callees r ↔ ∃ e, e ∈ r_callees r ∧ callee_file e = MUTATOR_FILE ∧ callee_name e = c.
Proof.
  unfold own_callees. rewrite list_elem_of_fmap. setoid_rewrite list_elem_of_filter. split.
  - intros (e & -> & Hf & He). eauto.
  - intros (e & He & Hf & <-). eauto.
Qed.

Lemma elem_of_file_callees rows a called :
  NoDup (map r_name rows) →
  (a, called) ∈ file_callees rows ↔ ∃ r, r ∈ rows ∧ r_file r = MUTATOR_FILE ∧ r_name r = a ∧ called = own_callees r.
Proof.
  intros Hd. unfold file_callees. fold own_callees. rewrite (dict_of_rows own_callees).
  - rewrite list_elem_of_fmap. setoid_rewrite list_elem_of_filter. split.
    + intros (r & [= -> ->] & Hf & Hr). eauto.
    + intros (r & Hr & Hf & <- & ->). eauto.
  - by apply filter_names_NoDup.
Qed.

(** ** The fixpoint *)

(** A pass keeps what holds of the callers of a name it holds of. *)
Lemma pass_inv (P : str → Prop) callees : ∀ st,
  (∀ n called c, (n, called) ∈ callees → c ∈ called → P c → P n) → Forall P st.2 →
  Forall P (foldl writers_step st callees).2.
Proof.
  induction callees as [|[n called] callees IH]; intros [grew writers] Hp Hw; [done|]. cbn [foldl].
  apply IH; [intros n' called' c Hin; apply Hp; by right|]. unfold writers_step.
  destruct (negb _ && _) eqn:E; [|done]. apply andb_prop in E as [_ (c & Hc & Hm)%existsb_exists].
  apply list_elem_of_In in Hc. apply mem_true in Hm. cbn [snd] in *.
  apply Forall_app. split; [done|]. constructor; [|done]. rewrite Forall_forall in Hw.
  eapply Hp; [left|done|by apply Hw].
Qed.

Lemma pass_true callees writers : (foldl writers_step (true, writers) callees).1 = true.
Proof.
  revert writers. induction callees as [|[n called] callees IH]; intros writers; [done|]. cbn [foldl].
  unfold writers_step at 2. destruct (_ && _); apply IH.
Qed.

(** It loses no name, says whether it added one, and otherwise the set is closed. *)
Lemma pass_grows callees : ∀ grew writers grew' writers',
  foldl writers_step (grew, writers) callees = (grew', writers') →
  (∀ n, n ∈ writers → n ∈ writers') ∧
  (grew' = true → grew = true ∨ ∃ n called, (n, called) ∈ callees ∧ (n ∉ writers) ∧ n ∈ writers') ∧
  (grew' = false → writers' = writers ∧
     ∀ n called c, (n, called) ∈ callees → c ∈ called → c ∈ writers → n ∈ writers).
Proof.
  induction callees as [|[n called] callees IH]; intros grew writers grew' writers' E; cbn [foldl] in E.
  { injection E as -> ->. split_and!; [done|by left|]. intros _. split; [done|]. by intros n called c ?%not_elem_of_nil. }
  unfold writers_step at 2 in E. destruct (negb _ && _) eqn:Ec.
  - apply andb_prop in Ec as [Hn%negb_true_iff%mem_false _]. destruct (IH _ _ _ _ E) as (Hm & _ & Hf). split_and!.
    + intros x Hx. apply Hm, elem_of_app. by left.
    + intros _. right. exists n, called. split_and!; [left|done|]. apply Hm, elem_of_app. right. by left.
    + intros ->. destruct (Hf eq_refl) as [-> _]. pose proof (pass_true callees (writers ++ [n])) as H. by rewrite E in H.
  - destruct (IH _ _ _ _ E) as (Hm & Ht & Hf). split_and!; [done| |].
    + intros [?|(x & cs & Hx & ?)]%Ht; [by left|right]. exists x, cs. split; [by right|done].
    + intros [-> Hcl]%Hf. split; [done|]. intros x cs c [[= -> ->]|Hin]%elem_of_cons Hc Hw; [|by eapply Hcl].
      destruct (decide (n ∈ writers)); [done|]. apply andb_false_iff in Ec as [Ec|Ec].
      * by apply negb_false_iff, mem_true in Ec.
      * assert (existsb (fun c => mem c writers) called = true) as E2; [|congruence].
        apply existsb_exists. exists c. split; [by apply list_elem_of_In|by apply mem_true].
Qed.

(** The loop that collects the block writers ends, and with one row for each name
    its result is exactly the functions that come to a block write through calls
    inside the mutators' file. *)
Theorem block_writers_exact rows :
  NoDup (map r_name rows) →
  ∃ writers, block_writers rows = Ok writers ∧ ∀ a, a ∈ writers ↔ writes_blocks rows a.
Proof.
  intros Hd. unfold block_writers.
  set (open_ := fun writers : list str => length (filter (fun p => p.1 ∉ writers) (file_callees rows))).
  apply (while_total _ (fun writers => BLOCK_WRITE ∈ writers ∧ Forall (writes_blocks rows) writers)
    (fun r => ∃ writers, r = Ok writers ∧ ∀ a, a ∈ writers ↔ writes_blocks rows a) open_).
  - intros writers [Hb Hw]. unfold writers_body, writers_pass.
    pose proof (pass_inv (writes_blocks rows) (file_callees rows) (false, writers)) as Hinv.
    destruct (foldl writers_step (false, writers) (file_callees rows)) as [grew writers'] eqn:E.
    destruct (pass_grows _ _ _ _ _ E) as (Hm & Ht & Hf). destruct grew.
    + split; [split|].
      * by apply Hm.
      * apply Hinv; [|done]. intros n called c (r & Hr & Hfile & <- & ->)%elem_of_file_callees Hc Hwb; [|done].
        apply elem_of_own_callees in Hc as (e & He & Hef & <-). eapply rtc_l; [|exact Hwb]. by exists r, e.
      * destruct (Ht eq_refl) as [|(n & called & Hin & Hn & Hn')]; [done|].
        apply (filter_length_lt _ _ _ (n, called)); [|done|done|by intros []]. intros p Hp ?. by apply Hp, Hm.
    + destruct (Hf eq_refl) as [-> Hcl]. exists writers. split; [done|]. intros a. split.
      * rewrite Forall_forall in Hw. apply Hw.
      * intros Ha. unfold writes_blocks in Ha. remember BLOCK_WRITE as b eqn:Eb.
        induction Ha as [x|x y b (r & e & Hr & Hfile & <- & He & Hef & <-) _ IH]; [by subst|].
        apply (Hcl _ (own_callees r) (callee_name e)); [by apply elem_of_file_callees; eauto| |by apply IH].
        apply elem_of_own_callees. eauto.
  - split; [left|]. constructor; [|done]. apply rtc_refl.
  - unfold open_. pose proof (length_filter (fun p : str * list str => p.1 ∉ [BLOCK_WRITE]) (file_callees rows)). lia.
Qed.

(** ** The verdict *)

Definition holds_guard (r : row) : Prop :=
  (∃ e, e ∈ r_callees r ∧ callee_name e = TAKE ∧ callee_file e = LOCK_FILE) ∨ HELD ∈ r_params r.
Definition outside (r : row) : Prop := r_file r ∉ DEFINING.
Definition calls_into (r : row) (name : str) : Prop :=
  ∃ e, e ∈ r_callees r ∧ callee_file e = MUTATOR_FILE ∧ callee_name e = name.
Definition defines (rows : list row) (name file : str) : Prop := ∃ r, r ∈ rows ∧ r_name r = name ∧ r_file r = file.

(** What the check claims of a table. *)
Record well_guarded (rows : list row) : Prop := WellGuarded {
  guard_held : ∀ r name, r ∈ rows → outside r → calls_into r name → name ∈ MUTATORS ∨ writes_blocks rows name →
    name ∈ MUTATORS ∧ (holds_guard r ∨ r_file r ∈ UNGUARDED_ALLOWED);
  mutators_defined : ∀ name, name ∈ MUTATORS → defines rows name MUTATOR_FILE;
  take_defined : defines rows TAKE LOCK_FILE;
  exceptions_used : ∀ file, file ∈ UNGUARDED_ALLOWED →
    ∃ r name, r ∈ rows ∧ r_file r = file ∧ calls_into r name ∧ name ∈ MUTATORS }.

Lemma takes_guard_true r : takes_guard r = true ↔ holds_guard r.
Proof.
  unfold takes_guard, holds_guard. rewrite orb_true_iff, mem_true, existsb_exists. apply or_iff_compat_r.
  setoid_rewrite andb_true_iff. setoid_rewrite bool_decide_eq_true. by setoid_rewrite list_elem_of_In.
Qed.

Lemma defined_in_true name file rows : defined_in name file rows = true ↔ defines rows name file.
Proof.
  unfold defined_in, defines. rewrite existsb_exists. setoid_rewrite andb_true_iff.
  setoid_rewrite bool_decide_eq_true. by setoid_rewrite list_elem_of_In.
Qed.

Lemma elem_of_mutators_called r mutators name :
  name ∈ mutators_called r mutators ↔ calls_into r name ∧ name ∈ mutators.
Proof.
  unfold mutators_called, calls_into. rewrite list_elem_of_fmap. setoid_rewrite list_elem_of_filter. split.
  - intros (e & -> & [Hm Hf] & He). split; [by exists e|done].
  - intros [(e & He & Hf & <-) Hm]. by exists e.
Qed.

(** The parts of the report are empty exactly when the claims hold. *)
Lemma unlisted_nil rows writers :
  (∀ a, a ∈ writers ↔ writes_blocks rows a) → block_writers rows = Ok writers →
  unlisted_mutators rows MUTATORS = Ok [] ↔
  ∀ r name, r ∈ rows → outside r → calls_into r name → writes_blocks rows name → name ∈ MUTATORS.
Proof.
  intros Hw Eb. unfold unlisted_mutators. rewrite Eb. cbn [mbind res_bind]. split.
  - intros [= E] r name Hr Ho (e & He & Hf & <-) Hb. rewrite sorted_set_nil, concat_nil_Forall in E.
    rewrite Forall_map, Forall_forall in E. specialize (E r Hr). cbn beta in E.
    rewrite (proj2 (mem_false _ _) Ho) in E. destruct (decide (callee_name e ∈ MUTATORS)) as [|Hn]; [done|].
    apply map_eq_nil in E. assert (e ∈ []) as []%not_elem_of_nil. rewrite <- E. apply list_elem_of_filter.
    split_and!; [done|by apply Hw|done|done].
  - intros H. f_equal. apply sorted_set_nil, concat_nil_Forall, Forall_map, Forall_forall. intros r Hr.
    destruct (mem (r_file r) DEFINING) eqn:Eo; [done|]. apply mem_false in Eo.
    destruct (filter _ (r_callees r)) as [|e es] eqn:E; [done|].
    assert (e ∈ e :: es) as He by left. rewrite <- E in He. apply list_elem_of_filter in He as [(Hf & Hb & Hn) He].
    destruct Hn. apply (H r); [done..|by exists e|by apply Hw].
Qed.

Lemma verdicts_nil rows :
  concat (map fst (map (caller_verdict MUTATORS) rows)) = [] ↔
  ∀ r name, r ∈ rows → outside r → calls_into r name → name ∈ MUTATORS → holds_guard r ∨ r_file r ∈ UNGUARDED_ALLOWED.
Proof.
  rewrite concat_nil_Forall, !Forall_map, Forall_forall. unfold caller_verdict. split.
  - intros H r name Hr Ho Hc Hm. specialize (H r Hr). rewrite (proj2 (mem_false _ _) Ho) in H.
    rewrite decide_False in H by (apply elem_not_nil; exists name; by apply elem_of_mutators_called).
    destruct (takes_guard r) eqn:Et; [left; by apply takes_guard_true|].
    destruct (mem (r_file r) UNGUARDED_ALLOWED) eqn:Ea; [right; by apply mem_true|done].
  - intros H r Hr. destruct (mem (r_file r) DEFINING) eqn:Eo; [done|]. apply mem_false in Eo.
    destruct (decide (mutators_called r MUTATORS = [])) as [|Hne]; [done|].
    apply elem_not_nil in Hne as [name [Hc Hm]%elem_of_mutators_called].
    destruct (H r name Hr Eo Hc Hm) as [->%takes_guard_true|Ha]; [done|].
    rewrite (proj2 (mem_true _ _) Ha). by destruct (takes_guard r).
Qed.

(** C9: on a table with one row for each name the check finds no problem exactly when,
    outside the defining files, every caller of a mutator, or of a function of the
    mutators' file that comes to a block write, calls one that is listed and holds the
    guard or is in an excepted file; and the names it relies on exist. *)
Theorem mutation_guard_iff rows :
  NoDup (map r_name rows) → (∃ n, guard_problems rows MUTATORS = Ok ([], n)) ↔ well_guarded rows.
Proof.
  intros Hd. destruct (block_writers_exact rows Hd) as (writers & Eb & Hw).
  pose proof (unlisted_nil rows writers Hw Eb) as Hu. unfold guard_problems.
  assert (∃ unlisted, unlisted_mutators rows MUTATORS = Ok unlisted) as [unlisted El]
    by (unfold unlisted_mutators; rewrite Eb; by eexists).
  rewrite El in Hu |- *. cbn [mbind res_bind]. split.
  - intros [n [= E _]]. apply app_eq_nil in E as [E1%map_eq_nil E]. apply app_eq_nil in E as [E2 E].
    apply app_eq_nil in E as [E3 E]. apply app_eq_nil in E as [E4 E5]. subst unlisted.
    pose proof (proj1 Hu eq_refl) as H1. rewrite verdicts_nil in E4. rewrite filter_map_nil in E2, E5. split.
    + intros r name Hr Ho Hc Hor. assert (name ∈ MUTATORS) as Hm by (destruct Hor; [done|by eapply H1]).
      split; [done|by eapply E4].
    + intros name Hn. apply defined_in_true. destruct (defined_in name _ rows) eqn:E; [done|]. by destruct (E2 name Hn).
    + apply defined_in_true. by destruct (defined_in TAKE LOCK_FILE rows).
    + intros file Hf. specialize (E5 file Hf). apply not_false_iff_true, existsb_exists in E5 as (r & Hr & E).
      apply andb_true_iff in E as [<-%bool_decide_eq_true E%bool_decide_eq_true%elem_not_nil].
      destruct E as [name [? ?]%elem_of_mutators_called]. exists r, name. split_and!; [by apply list_elem_of_In|done..].
  - intros [H1 H2 H3 H4]. eexists. f_equal. f_equal.
    assert (unlisted = []) as -> by (assert (Ok unlisted = Ok []) as [= ->]; [|done]; apply Hu;
      intros r name Hr Ho Hc Hb; apply (H1 r name); auto).
    rewrite (proj2 (verdicts_nil rows)) by (intros r name Hr Ho Hc Hm; apply (H1 r name); auto).
    rewrite (proj2 (filter_map_nil undefined_problem _ MUTATORS)).
    2:{ intros name Hn. rewrite (proj2 (defined_in_true _ _ _)); [done|by apply H2]. }
    rewrite (proj2 (defined_in_true _ _ _)) by done. rewrite (proj2 (filter_map_nil stale_problem _ UNGUARDED_ALLOWED)); [done|].
    intros file (r & name & Hr & <- & Hc & Hm)%H4. rewrite not_false_iff_true. apply existsb_exists. exists r.
    split; [by apply list_elem_of_In|]. apply andb_true_iff. rewrite !bool_decide_eq_true. split; [done|].
    apply elem_not_nil. exists name. by apply elem_of_mutators_called.
Qed.

(** A table: the mutators, each with a block write, the lock, a system call that takes
    the guard, a helper that is handed it, and the excepted fixture. *)
Definition sample : list row :=
  map (fun m => simple_row MUTATOR_FILE m [] [entry BLOCK_WRITE MUTATOR_FILE]) MUTATORS ++
  [simple_row MUTATOR_FILE BLOCK_WRITE [] [];
   simple_row LOCK_FILE TAKE [] [];
   simple_row ($"kernel/kernel/syscall.tkb") ($"unlinkat") []
     [entry TAKE LOCK_FILE; entry ($"ext2_unlink_name") MUTATOR_FILE];
   simple_row ($"kernel/fs/ext2/ext2_syscall.tkb") ($"mkdir") [HELD] [entry ($"ext2_make_directory_in") MUTATOR_FILE];
   simple_row ($"kernel/init/ext2_fixture.tkb") ($"fixture") [] [entry ($"ext2_create_root_file") MUTATOR_FILE]].

Lemma sample_NoDup : NoDup (map r_name sample).
Proof. apply (bool_decide_unpack _). vm_compute. exact I. Qed.

Lemma mutation_guard_iff_witness : well_guarded sample.
Proof.
  apply (mutation_guard_iff sample sample_NoDup). exists 2. vm_compute. reflexivity.
Defined.

Lemma block_writers_exact_witness :
  ∃ writers, block_writers sample = Ok writers ∧ ∀ a, a ∈ writers ↔ writes_blocks sample a.
Proof. apply (block_writers_exact sample sample_NoDup). Defined.

(** Status 0 means that the table was read and had no problem. *)
Lemma guard_status read_text path lines :
  main read_text path = Ok (0, lines) →
  ∃ text rows n, read_text path = Ok text ∧ parse text path = Ok rows ∧ guard_problems rows MUTATORS = Ok ([], n).
Proof.
  unfold main. destruct (read_text path) as [text|e] eqn:Er; cbn [mbind res_bind].
  - destruct (parse text path) as [rows|e] eqn:Ep.
    + intros ([problems n] & Hg & H)%bind_Ok_inv. destruct (decide (problems = [])) as [->|]; [eauto 6|done].
    + destruct e; try done. by destruct (_ || _).
  - destruct e; try done. by destruct (_ || _).
Qed.
