(* ===== verification/ReaderWait.v ===== *)
(** * Readers that would wait for themselves

    Model of scripts/buildcheck_ext2_reader_self_wait.py: no function that runs while a
    system call is counted as an ext2 reader comes to the mutation guard's take, but
    for the arms named.  The chain of calls is searched breadth first. *)
From S2P Require Import Prelude Text Dict Sort PassLine CallGraph.

Definition SYSCALL_FILE : str := $"kernel/kernel/syscall.tkb".
Definition LOCK_FILE : str := $"kernel/fs/ext2/mutation_lock.tkb".
Definition TAKE : str := $"ext2_mutation_take".
Definition MARK : str := $"syscall_ext2_reader_mark".
Definition RELEASE : str := $"syscall_ext2_reader_take".
Definition REGISTRAR : str := $"kernel_syscall_dispatch_action".
Definition RELEASERS : list str := [$"kernel_syscall_dispatch"; $"kernel_syscall_child_exec_return"].
Definition MUTATING_ARMS : list str := [TAKE; $"syscall_write_segment"; $"syscall_writev_current"].

(** Of two rows of a name the later one counts. *)
Definition by_name (rows : list row) : list (str * row) := foldl (fun d r => dset (r_name r) r d) [] rows.

Definition names (entries : list str) : list str := map callee_name entries.

(** The callees of one function of the frontier: the parents and the names to follow,
    or the parents with the guard's take among them. *)
Fixpoint scan_callees (name : str) (parent : list (str * option str)) (following entries : list str)
    : (list (str * option str) * list str) + list (str * option str) :=
  match entries with
  | [] => inl (parent, following)
  | e :: entries =>
      let callee := callee_name e in
      if dmem callee parent then scan_callees name parent following entries
      else if decide (callee = TAKE) then
        if decide (callee_file e = LOCK_FILE) then inr (dset callee (Some name) parent)
        else scan_callees name parent following entries
      else scan_callees name (dset callee (Some name) parent) (following ++ [callee]) entries
  end.

Fixpoint scan_frontier (rows : list (str * row)) (parent : list (str * option str)) (following frontier : list str)
    : (list (str * option str) * list str) + list (str * option str) :=
  match frontier with
  | [] => inl (parent, following)
  | name :: frontier =>
      match dget name rows with
      | None => scan_frontier rows parent following frontier
      | Some r =>
          match scan_callees name parent following (r_callees r) with
          | inl (parent, following) => scan_frontier rows parent following frontier
          | inr parent => inr parent
          end
      end
  end.

(** [chain], reversed, from the name at its head: the parents up to the start. *)
Fixpoint chain_from (fuel : nat) (parent : list (str * option str)) (name : str) (chain : list str) : res (list str) :=
  match fuel with
  | O => Err OutOfFuel
  | S fuel =>
      match dget name parent with
      | None => Err KeyError
      | Some None => Ok chain
      | Some (Some p) => chain_from fuel parent p (p :: chain)
      end
  end.

Definition search_body (rows : list (str * row)) (st : list (str * option str) * list str)
    : flow (list (str * option str) * list str) (res (option (list str))) :=
  let '(parent, frontier) := st in
  if decide (frontier = []) then Stop (Ok None) else
  match scan_frontier rows parent [] frontier with
  | inl st => Next st
  | inr parent => Stop (chain ← chain_from (S (length parent)) parent TAKE [TAKE]; Ok (Some chain))
  end.

(** The names a search can meet, which bounds its rounds. *)
Definition all_names (rows : list (str * row)) (start : str) : list str :=
  start :: concat (map (fun p => names (r_callees p.2)) rows).

Definition chain_to_take (rows : list (str * row)) (start : str) : res (option (list str)) :=
  if decide (start = TAKE) then Ok (Some [TAKE]) else
  while (S (S (length (all_names rows start)))) (search_body rows) ([(start, None)], [start]).

Definition undefined_problem (name file : str) : str :=
  name ++ $" is not defined in " ++ file ++ $"; a rename would leave this check reasoning about nothing".

Definition or_nothing (s : str) : str := if decide (s = []) then $"nothing" else s.

Definition marks_problem (marks : list str) : str :=
  MARK ++ $" is called by " ++ or_nothing (join ($", ") marks) ++ $", not by " ++ REGISTRAR ++
  $" alone. A new reader registration opens a window this check does not see: register in the one dispatch, or extend REGISTRAR in this script with the window it opens".
Definition releases_problem (releases : list str) : str :=
  RELEASE ++ $" is called by " ++ or_nothing (join ($", ") releases) ++ $", not by " ++
  join ($", ") (py_sorted str_le RELEASERS) ++
  $": the registration is now released somewhere this check does not include in the window; update RELEASERS".
Definition chain_problem (owner callee : str) (chain : list str) : str :=
  join ($" -> ") (owner :: chain) ++ $": " ++ callee ++ $" runs while the syscall is counted as an ext2 reader (" ++ MARK ++
  $") and reaches " ++ TAKE ++
  $", which waits for every counted reader, itself included (GitHub issue #1015). Do not register the syscall in syscall_reaches_filesystem, or, if it is already unregistered, name it in MUTATING_ARMS with the numbers it serves".
Definition arm_problem (arm : str) : str :=
  $"MUTATING_ARMS names " ++ arm ++ $", which is no longer a window callee that reaches " ++ TAKE ++ $": remove the entry".

Definition required : list (str * str) :=
  [(TAKE, LOCK_FILE); (MARK, SYSCALL_FILE); (RELEASE, SYSCALL_FILE); (REGISTRAR, SYSCALL_FILE)]
  ++ map (fun releaser => (releaser, SYSCALL_FILE)) RELEASERS.

(** The callees of the functions that run while the reader is counted, with the
    function. *)
Definition window_of (rows : list (str * row)) (owner : str) : res (list (str * str)) :=
  r ← dget_or_raise owner rows; Ok (map (fun callee => (owner, callee)) (sorted_set (names (r_callees r)))).

(** One callee of the window: the problem, and 1 when it was checked. *)
Definition check_window (rows : list (str * row)) (item : str * str) : res (list str * Z) :=
  let '(owner, callee) := item in
  if decide (callee = REGISTRAR ∨ callee = $"*") then Ok ([], 0) else
  chain ← chain_to_take rows callee;
  match chain with
  | None => Ok ([], 1)
  | Some chain =>
      if decide (owner = REGISTRAR ∧ callee ∈ MUTATING_ARMS) then Ok ([], 1)
      else Ok ([chain_problem owner callee chain], 1)
  end.

Definition check_arm (rows : list (str * row)) (window : list (str * str)) (arm : str) : res (list str) :=
  if decide ((REGISTRAR, arm) ∈ window) then
    chain ← chain_to_take rows arm; Ok (match chain with None => [arm_problem arm] | Some _ => [] end)
  else Ok [arm_problem arm].

Definition self_wait_problems (table : list row) : res (list str * Z) :=
  let rows := by_name table in
  let undefined := filter (fun nf => option_map r_file (dget nf.1 rows) ≠ Some nf.2) required in
  if decide (undefined = []) then
    mark ← dget_or_raise MARK rows;
    let marks := sorted_set (names (r_callers mark)) in
    release ← dget_or_raise RELEASE rows;
    let releases := sorted_set (names (r_callers release)) in
    windows ← mapM_res (window_of rows) (REGISTRAR :: RELEASERS);
    let window := concat windows in
    checked ← mapM_res (check_window rows) window;
    arms ← mapM_res (check_arm rows window) MUTATING_ARMS;
    Ok ((if decide (marks = [REGISTRAR]) then [] else [marks_problem marks])
        ++ (if decide (releases = py_sorted str_le RELEASERS) then [] else [releases_problem releases])
        ++ concat (map fst checked) ++ concat arms,
        foldr Z.add 0 (map snd checked))
  else Ok (map (fun nf => undefined_problem nf.1 nf.2) undefined, 0).

(** ** The controls *)

Definition planted (table : list row) (name : str) (change : list str → list str) : res (list row) :=
  if zlen (filter (fun r => r_name r = name) table) =? 1 then Ok (change_first name (with_callees change) table)
  else Err (SystemExit ($"FAIL ext2-reader-self-wait: the negative control's subject " ++ name ++
                        $" is not in the table exactly once")).

Definition StopIteration : exn := Custom "StopIteration" [].

(** [take_entry] and [mark_entry]: the entry that names a row of the table. *)
Definition entry_of (table : list row) (name : str) : res str :=
  r ← of_option StopIteration (List.find (fun r => bool_decide (r_name r = name)) table);
  Ok (name ++ $"@" ++ r_file r ++ $":" ++ r_line r).

Definition with_caller (table : list row) (callee caller : str) : res (list row) :=
  entry ← entry_of table caller;
  Ok (map (fun r => if decide (r_name r = callee) then with_callers (fun c => c ++ [entry]) r else r) table).

Definition accepted (table : list row) (label : str) : res (list str) :=
  '(problems, _) ← self_wait_problems table; Ok (if decide (problems = []) then [label] else []).

Definition controls_fail (table : list row) : res (list str) :=
  take ← entry_of table TAKE;
  t1 ← planted table ($"syscall_openat") (fun callees => callees ++ [take]);
  f1 ← accepted t1 ($"a registered reader handler that takes the guard");
  t2 ← planted table ($"kernel_syscall_child_exec_return") (fun callees => callees ++ [take]);
  f2 ← accepted t2 ($"a releaser that takes the guard before releasing");
  _ ← planted table ($"syscall_ext2_write_locked") id;
  mark ← entry_of table MARK;
  t3 ← planted table ($"syscall_ext2_write_locked") (fun callees => callees ++ [mark]);
  t3 ← with_caller t3 MARK ($"syscall_ext2_write_locked");
  f3 ← accepted t3 ($"a second reader registration");
  Ok (f1 ++ f2 ++ f3).

Definition main (read_text : str → res str) (path : str) : res (Z * list str) :=
  match (text ← read_text path; parse text path) with
  | Err (Custom cls message) =>
      if bool_decide (cls = "TableError"%string) || bool_decide (cls = "OSError"%string)
      then Ok (1, [$"FAIL ext2-reader-self-wait: " ++ message]) else Err (Custom cls message)
  | Err e => Err e
  | Ok table =>
      '(problems, checked) ← self_wait_problems table;
      if decide (problems = []) then
        not_refused ← controls_fail table;
        if decide (not_refused = []) then
          line ← report_pass ($"ext2-reader-self-wait")
            (dec checked ++ $" callee(s) of the registered reader window in " ++ path ++ $" checked, " ++
             dec (zlen MUTATING_ARMS) ++
             $" unregistered mutating arm(s) named, and a planted reader self-wait is refused")
            [($"window_callees", checked)];
          Ok (0, [line])
        else Ok (1, [$"FAIL ext2-reader-self-wait: negative control(s) " ++ join ($"; ") not_refused ++
                     $" were accepted, so this check proves nothing"])
      else Ok (1, map (fun p => $"ERROR ext2-reader-self-wait: " ++ p) problems
                  ++ [$"FAIL ext2-reader-self-wait: a registered ext2 reader can wait for itself"])
  end.
