(* ===== verification/ReaderWaitFacts.v ===== *)
(** * Facts about the readers' window

    The search finds a shortest chain of calls to the guard's take when there is one,
    and ends without one otherwise, so a table without problems has no other way from
    the window to the take than the arms that are named. *)
From S2P Require Import Prelude Text Dict Sort PassLine CallGraph ReaderWait.
From stdpp Require Import relations.
#[local] Open Scope Z_scope.

(** ** Calls *)

(** A call the search follows: a callee named like the take counts only from the
    lock's file. *)
Definition call (rows : list (str * row)) (a b : str) : Prop :=
  ∃ r e, dget a rows = Some r ∧ e ∈ r_callees r ∧ callee_name e = b ∧ (b = TAKE → callee_file e = LOCK_FILE).

(** Every step of a chain is a call. *)
Fixpoint is_chain (rows : list (str * row)) (chain : list str) : Prop :=
  match chain with
  | a :: (b :: _) as rest => call rows a b ∧ is_chain rows rest
  | _ => True
  end.

(** The length of the shortest chain. *)
Definition distance (rows : list (str * row)) (start : str) (k : nat) (x : str) : Prop :=
  nsteps (call rows) k start x ∧ ∀ m, (m < k)%nat → ¬ nsteps (call rows) m start x.

Lemma dset_keys_grow {V} (k z : str) (v : V) d : z ∈ map fst d → z ∈ map fst (dset k v d).
Proof.
  intros Hz. destruct (decide (k ∈ map fst d)) as [Hk|Hk]; [by rewrite dset_keys_old|].
  rewrite dset_new, map_app by done. apply elem_of_app. by left.
Qed.

Section search.
Variables (rows : list (str * row)) (start : str).
#[local] Abbreviation steps := (nsteps (call rows)).
#[local] Abbreviation dist := (distance rows start).

Lemma distance_step d name x : dist d name → call rows name x → (∀ m, (m ≤ d)%nat → ¬ steps m start x) → dist (S d) x.
Proof. intros [Hn _] Hc Hx. split; [by eapply nsteps_r|]. intros m Hm. apply Hx. lia. Qed.

(** Every name but the start was reached from one that is a step nearer. *)
Definition parents_ok (parent : list (str * option str)) : Prop :=
  ∀ x o, dget x parent = Some o →
    match o with
    | None => x = start ∧ dist 0 x
    | Some p => p ∈ map fst parent ∧ call rows p x ∧ ∃ k, dist k p ∧ dist (S k) x
    end.

Lemma parents_ok_add parent x p k :
  parents_ok parent → p ∈ map fst parent → call rows p x → dist k p → dist (S k) x →
  parents_ok (dset x (Some p) parent).
Proof.
  intros Hok Hp Hc Hk Hx y o Hy.
  assert (∀ z, z ∈ map fst parent → z ∈ map fst (dset x (Some p) parent)) as Hmono.
  { intros z Hz. by apply dset_keys_grow. }
  destruct (decide (y = x)) as [->|Hne].
  - rewrite dget_dset in Hy. injection Hy as <-. split_and!; [by apply Hmono|done|by exists k].
  - rewrite dget_dset_ne in Hy by done. specialize (Hok _ _ Hy). destruct o as [q|]; [|done].
    destruct Hok as (? & ? & ?). split_and!; auto.
Qed.

(** While a level is scanned: the names met are those within [d] calls, and those to
    follow, one call farther. *)
Record scanning (d : nat) (parent : list (str * option str)) (following : list str) : Prop := Scanning {
  scan_near : ∀ m x, (m ≤ d)%nat → steps m start x → x ∈ map fst parent;
  scan_met : ∀ x, x ∈ map fst parent → x ∈ following ∨ ∃ m, (m ≤ d)%nat ∧ steps m start x;
  scan_next : ∀ x, x ∈ following → dist (S d) x ∧ x ∈ map fst parent;
  scan_take : TAKE ∉ map fst parent;
  scan_parents : parents_ok parent }.

(** The take was met from a name at distance [d]. *)
Definition take_found (d : nat) (parent : list (str * option str)) : Prop :=
  parents_ok parent ∧ TAKE ∈ map fst parent ∧ dist (S d) TAKE.

(** What a scan of the callees [es] leaves. *)
Definition scanned (d : nat) (parent : list (str * option str)) (es : list str)
    (result : (list (str * option str) * list str) + list (str * option str)) : Prop :=
  match result with
  | inl (parent', following') =>
      scanning d parent' following' ∧ (∀ x, x ∈ map fst parent → x ∈ map fst parent') ∧
      ∀ e, e ∈ es → (callee_name e = TAKE → callee_file e = LOCK_FILE) → callee_name e ∈ map fst parent'
  | inr parent' => take_found d parent'
  end.

Lemma scanned_cons d parent parent1 e es result :
  (∀ x, x ∈ map fst parent → x ∈ map fst parent1) →
  ((callee_name e = TAKE → callee_file e = LOCK_FILE) → callee_name e ∈ map fst parent1) →
  scanned d parent1 es result → scanned d parent (e :: es) result.
Proof.
  intros Hm He. destruct result as [[parent' following']|]; [|done]. intros (Hs & Hm' & Hes).
  split_and!; [done|auto|]. intros e' [->|Hin]%elem_of_cons Hf; auto.
Qed.

Lemma scanning_add d parent following name x :
  scanning d parent following → dist d name → name ∈ map fst parent → call rows name x → x ∉ map fst parent → x ≠ TAKE →
  scanning d (dset x (Some name) parent) (following ++ [x]).
Proof.
  intros [H1 H2 H3 H4 H5] Hd Hn Hc Hx Ht.
  assert (∀ z, z ∈ map fst (dset x (Some name) parent) ↔ z = x ∨ z ∈ map fst parent) as Hkeys.
  { intros z. rewrite dset_new by done. rewrite map_app, elem_of_app. cbn. rewrite list_elem_of_singleton. tauto. }
  assert (dist (S d) x) as Hdx by (apply (distance_step d name); [done..|]; intros m Hm Hs; by apply Hx, (H1 m)).
  split.
  - intros m z Hm Hz. apply Hkeys. right. by apply (H1 m).
  - intros z [->|Hz]%Hkeys; [left; apply elem_of_app; right; by left|].
    destruct (H2 z Hz); [left; apply elem_of_app; by left|by right].
  - intros z [Hz| ->%list_elem_of_singleton]%elem_of_app.
    + destruct (H3 z Hz). split; [done|]. apply Hkeys. by right.
    + split; [done|]. apply Hkeys. by left.
  - rewrite Hkeys. intros [?|?]; [congruence|done].
  - by apply (parents_ok_add _ _ _ d).
Qed.

Lemma scan_callees_spec d name r es : ∀ parent following,
  dist d name → dget name rows = Some r → name ∈ map fst parent → (∀ e, e ∈ es → e ∈ r_callees r) →
  scanning d parent following → scanned d parent es (scan_callees name parent following es).
Proof.
  induction es as [|e es IH]; intros parent following Hd Hr Hn Hes Hs; cbn [scan_callees].
  { split_and!; [done..|]. by intros e ?%not_elem_of_nil. }
  assert (e ∈ r_callees r) as He by (apply Hes; left).
  assert (∀ e', e' ∈ es → e' ∈ r_callees r) as Hes' by (intros; apply Hes; by right).
  destruct (dmem (callee_name e) parent) eqn:Em; [apply dmem_true in Em|].
  { by apply (scanned_cons _ _ parent); [..|apply IH]. }
  assert (callee_name e ∉ map fst parent) as Hx by (intros ?%dmem_true; congruence).
  destruct (decide (callee_name e = TAKE)) as [Et|Et].
  - destruct (decide (callee_file e = LOCK_FILE)) as [Ef|Ef].
    + assert (call rows name TAKE) as Hc by (exists r, e; rewrite <- Et; auto).
      assert (dist (S d) TAKE) as Hdt.
      { apply (distance_step d name); [done..|]. intros m Hm Hs'. rewrite <- Et in Hs'. by apply Hx, (scan_near _ _ _ Hs m). }
      rewrite Et in *. split_and!; [apply (parents_ok_add _ _ _ d); by try apply (scan_parents _ _ _ Hs)| |done].
      rewrite dset_new, map_app by done. apply elem_of_app. right. by left.
    + apply (scanned_cons _ _ parent); [done|intros Hf; by destruct Ef; apply Hf|by apply IH].
  - assert (call rows name (callee_name e)) as Hc by (exists r, e; split_and!; [done..|by intros ?]).
    apply (scanned_cons _ _ (dset (callee_name e) (Some name) parent)).
    + intros x Hin. rewrite dset_new, map_app by done. apply elem_of_app. by left.
    + intros _. rewrite dset_new, map_app by done. apply elem_of_app. right. by left.
    + apply IH; [done..| |done|by apply scanning_add]. rewrite dset_new, map_app by done. apply elem_of_app. by left.
Qed.

(** ** Levels *)

Definition frontier_scanned (d : nat) (parent : list (str * option str)) (frontier : list str)
    (result : (list (str * option str) * list str) + list (str * option str)) : Prop :=
  match result with
  | inl (parent', following') =>
      scanning d parent' following' ∧ (∀ x, x ∈ map fst parent → x ∈ map fst parent') ∧
      ∀ name x, name ∈ frontier → call rows name x → x ∈ map fst parent'
  | inr parent' => take_found d parent'
  end.

Lemma scan_frontier_spec d frontier : ∀ parent following,
  (∀ x, x ∈ frontier → dist d x ∧ x ∈ map fst parent) → scanning d parent following →
  frontier_scanned d parent frontier (scan_frontier rows parent following frontier).
Proof.
  induction frontier as [|name frontier IH]; intros parent following Hf Hs; cbn [scan_frontier].
  { split_and!; [done..|]. by intros name x ?%not_elem_of_nil. }
  destruct (Hf name) as [Hd Hn]; [left|].
  destruct (dget name rows) as [r|] eqn:Hr.
  - pose proof (scan_callees_spec d name r (r_callees r) parent following Hd Hr Hn ltac:(done) Hs) as H.
    destruct (scan_callees name parent following (r_callees r)) as [[parent1 following1]|parent1]; [|done].
    destruct H as (Hs1 & Hm1 & He1).
    assert (∀ x, x ∈ frontier → dist d x ∧ x ∈ map fst parent1) as Hf1.
    { intros x Hx. destruct (Hf x); [by right|]. auto. }
    specialize (IH parent1 following1 Hf1 Hs1). unfold frontier_scanned in *.
    destruct (scan_frontier rows parent1 following1 frontier) as [[parent2 following2]|]; [|done].
    destruct IH as (Hs2 & Hm2 & Hc2). split_and!; [done|auto|].
    intros n x [->|Hin]%elem_of_cons Hc; [|by eapply Hc2]. destruct Hc as (r' & e & Hr' & He & <- & Ht).
    rewrite Hr in Hr'. injection Hr' as <-. by apply Hm2, He1.
  - specialize (IH parent following ltac:(intros; apply Hf; by right) Hs). unfold frontier_scanned in *.
    destruct (scan_frontier rows parent following frontier) as [[parent2 following2]|]; [|done].
    destruct IH as (Hs2 & Hm2 & Hc2). split_and!; [done..|].
    intros n x [->|Hin]%elem_of_cons Hc; [|by eapply Hc2]. destruct Hc as (r' & e & Hr' & _). congruence.
Qed.

(** Before a level is scanned: the names met are those within [d] calls, and the
    frontier those no nearer. *)
Record level (d : nat) (parent : list (str * option str)) (frontier : list str) : Prop := Level {
  level_near : ∀ m x, (m ≤ d)%nat → steps m start x → x ∈ map fst parent;
  level_met : ∀ x, x ∈ map fst parent → ∃ m, (m ≤ d)%nat ∧ steps m start x;
  level_front : ∀ x, x ∈ frontier → dist d x ∧ x ∈ map fst parent;
  level_old : ∀ x, x ∈ map fst parent → x ∈ frontier ∨ ∃ m, (m < d)%nat ∧ steps m start x;
  level_take : TAKE ∉ map fst parent;
  level_parents : parents_ok parent }.

Lemma level_scanning d parent frontier : level d parent frontier → scanning d parent [].
Proof.
  intros [H1 H2 H3 H4 H5 H6]. split; [done| |by intros x ?%not_elem_of_nil|done..]. intros x Hx. right. by apply H2.
Qed.

Lemma level_next d parent frontier parent' following :
  level d parent frontier → frontier_scanned d parent frontier (inl (parent', following)) → level (S d) parent' following.
Proof.
  intros Hl (Hs & Hm & Hc). split.
  - intros m x Hle Hx. destruct (decide (m ≤ d)%nat); [by apply (scan_near _ _ _ Hs m)|].
    replace m with (S d) in Hx by lia. apply nsteps_inv_r in Hx as (y & Hy & Hyx).
    destruct (level_old _ _ _ Hl y) as [Hf|(k & Hk & Hky)].
    + by apply (level_near _ _ _ Hl d).
    + by apply (Hc y).
    + apply (scan_near _ _ _ Hs (S k)); [lia|]. by eapply nsteps_r.
  - intros x [Hx|(m & Hm' & Hx)]%(scan_met _ _ _ Hs); [|exists m; split; [lia|done]].
    apply (scan_next _ _ _ Hs) in Hx as [[Hx _] _]. by exists (S d).
  - apply (scan_next _ _ _ Hs).
  - intros x [Hx|(m & Hm' & Hx)]%(scan_met _ _ _ Hs); [by left|right]. exists m. split; [lia|done].
  - apply (scan_take _ _ _ Hs).
  - apply (scan_parents _ _ _ Hs).
Qed.

Lemma level_start : start ≠ TAKE → level 0 [(start, None)] [start].
Proof.
  intros Ht. assert (dist 0 start) as H0 by (split; [constructor|intros m ?; lia]).
  assert (∀ x, x ∈ map fst [(start, @None str)] ↔ x = start) as Hk by (intros x; apply list_elem_of_singleton).
  split.
  - intros m x Hm Hx. apply Hk. replace m with 0%nat in Hx by lia. by inversion Hx.
  - intros x ->%Hk. exists 0%nat. split; [done|constructor].
  - intros x ->%list_elem_of_singleton. split; [done|]. by apply Hk.
  - intros x ->%Hk. left. by left.
  - rewrite Hk. congruence.
  - intros x o Hx. cbn in Hx. destruct (decide (start = x)) as [<-|]; [|done]. by injection Hx as <-.
Qed.

(** The search runs out of frontier with every reachable name met. *)
Lemma level_end d parent : level d parent [] → ∀ m, ¬ steps m start TAKE.
Proof.
  intros Hl.
  assert (∀ m x, steps m start x → x ∈ map fst parent) as Hall.
  { induction m as [m IH] using lt_wf_ind. intros x Hx. destruct (decide (m ≤ d)%nat); [by apply (level_near _ _ _ Hl m)|].
    destruct m as [|m]; [lia|]. apply nsteps_inv_r in Hx as (y & Hy & Hyx).
    destruct (level_old _ _ _ Hl y) as [[]%not_elem_of_nil|(k & Hk & Hky)]; [by eapply IH; [|exact Hy]; lia|].
    apply (level_near _ _ _ Hl (S k)); [lia|by eapply nsteps_r]. }
  intros m Hm. by apply (level_take _ _ _ Hl), (Hall m).
Qed.

Lemma steps_names m x : steps m start x → x ∈ all_names rows start.
Proof.
  destruct m as [|m]; intros Hx; [inversion Hx; left|]. right. apply nsteps_inv_r in Hx as (y & _ & r & e & Hr & He & <- & _).
  apply list_elem_of_In, List.in_concat. exists (names (r_callees r)). split; apply list_elem_of_In, list_elem_of_fmap.
  - exists (y, r). split; [done|by apply dget_elem_of].
  - by exists e.
Qed.

(** ** Chains *)

Lemma distance_unique k m x : dist k x → dist m x → k = m.
Proof.
  intros [Hk Hk'] [Hm Hm']. destruct (lt_eq_lt_dec k m) as [[?|?]|?]; [|done|]; exfalso.
  - by apply (Hm' k).
  - by apply (Hk' m).
Qed.

(** The parents of a name at distance [k] are [k] other names. *)
Lemma ancestors parent : parents_ok parent → ∀ k x, x ∈ map fst parent → dist k x →
  ∃ l, NoDup l ∧ length l = S k ∧ ∀ y, y ∈ l → y ∈ map fst parent ∧ ∃ j, (j ≤ k)%nat ∧ dist j y.
Proof.
  intros Hok. induction k as [|k IH]; intros x Hx Hd.
  { exists [x]. split_and!; [apply NoDup_singleton|done|]. intros y ->%list_elem_of_singleton. eauto. }
  destruct (dget_Some_in _ _ Hx) as [o Ho]. specialize (Hok _ _ Ho). destruct o as [p|].
  - destruct Hok as (Hp & _ & j & Hj & Hj'). pose proof (distance_unique _ _ _ Hd Hj') as [= <-].
    destruct (IH p Hp Hj) as (l & Hl & Hlen & Hin). exists (x :: l). split_and!.
    + constructor; [|done]. intros (_ & i & Hi & Hdi)%Hin. pose proof (distance_unique _ _ _ Hd Hdi). lia.
    + cbn. lia.
    + intros y [->|Hy]%elem_of_cons; [eauto|]. destruct (Hin y Hy) as (? & i & ? & ?). split; [done|]. exists i. split; [lia|done].
  - destruct Hok as [_ H0]. by pose proof (distance_unique _ _ _ Hd H0).
Qed.

Lemma distance_bound parent k x : parents_ok parent → x ∈ map fst parent → dist k x → (k < length parent)%nat.
Proof.
  intros Hok Hx Hd. destruct (ancestors parent Hok k x Hx Hd) as (l & Hl & Hlen & Hin).
  assert (l ⊆+ map fst parent) as Hs%submseteq_length by (apply NoDup_submseteq; [done|]; intros y Hy; by apply Hin).
  rewrite length_map in Hs. lia.
Qed.

Lemma chain_from_spec parent : parents_ok parent → ∀ k x rest fuel,
  x ∈ map fst parent → dist k x → (k < fuel)%nat → is_chain rows (x :: rest) →
  ∃ pre, chain_from fuel parent x (x :: rest) = Ok (pre ++ x :: rest) ∧ length pre = k ∧
    head (pre ++ x :: rest) = Some start ∧ is_chain rows (pre ++ x :: rest).
Proof.
  intros Hok. induction k as [|k IH]; intros x rest [|fuel] Hx Hd Hfuel Hc; try lia; cbn [chain_from].
  all: destruct (dget_Some_in _ _ Hx) as [o Ho]; rewrite Ho; specialize (Hok _ _ Ho); destruct o as [p|].
  - destruct Hok as (_ & _ & j & _ & Hj). by pose proof (distance_unique _ _ _ Hd Hj).
  - destruct Hok as [-> _]. by exists [].
  - destruct Hok as (Hp & Hpx & j & Hj & Hj'). pose proof (distance_unique _ _ _ Hd Hj') as [= <-].
    destruct (IH p (x :: rest) fuel Hp Hj ltac:(lia)) as (pre & E & Hl & Hh & Hch); [by split|].
    exists (pre ++ [p]). rewrite <- app_assoc, length_app. cbn [app length]. split_and!; [done|lia|done|done].
  - destruct Hok as [_ H0]. by pose proof (distance_unique _ _ _ Hd H0).
Qed.

(** What the search answers. *)
Definition searched (result : res (option (list str))) : Prop :=
  match result with
  | Ok (Some chain) =>
      head chain = Some start ∧ last chain = Some TAKE ∧ is_chain rows chain ∧
      ∀ m, steps m start TAKE → (length chain ≤ S m)%nat
  | Ok None => ∀ m, ¬ steps m start TAKE
  | Err _ => False
  end.

Lemma take_found_chain d parent :
  take_found d parent → searched (chain ← chain_from (S (length parent)) parent TAKE [TAKE]; Ok (Some chain)).
Proof.
  intros (Hok & Ht & Hd). destruct (chain_from_spec parent Hok (S d) TAKE [] (S (length parent))) as (pre & -> & Hl & Hh & Hc);
    [done|done|pose proof (distance_bound _ _ _ Hok Ht Hd); lia|done|].
  cbn [mbind res_bind searched]. split_and!; [done|by rewrite last_snoc|done|].
  intros m Hm. rewrite length_app, Hl. cbn. destruct Hd as [_ Hmin].
  destruct (decide (m < S d)%nat) as [Hlt|]; [by destruct (Hmin m)|lia].
Qed.

(** The rounds are bounded by the names not yet met. *)
Definition unmet (st : list (str * option str) * list str) : nat :=
  length (filter (fun x => x ∉ map fst st.1) (all_names rows start)) + (if decide (st.2 = []) then 0 else 1).

Lemma search_spec : start ≠ TAKE →
  searched (while (S (S (length (all_names rows start)))) (search_body rows) ([(start, None)], [start])).
Proof.
  intros Hst. apply (while_total _ (fun st => ∃ d, level d st.1 st.2) searched unmet).
  - intros [parent frontier] [d Hl]. unfold search_body. cbn [fst snd] in *.
    destruct (decide (frontier = [])) as [->|Hne]; [exact (level_end d parent Hl)|].
    pose proof (scan_frontier_spec d frontier parent [] (level_front _ _ _ Hl) (level_scanning _ _ _ Hl)) as H.
    destruct (scan_frontier rows parent [] frontier) as [[parent' following]|parent']; [|by apply (take_found_chain d)].
    split; [exists (S d); by apply (level_next d parent frontier)|]. unfold unmet. cbn [fst snd].
    rewrite (decide_False (P := frontier = [])) by done. destruct H as (Hs & Hm & _).
    destruct (decide (following = [])) as [|Hf].
    + assert (∀ l, (length (filter (fun x => x ∉ map fst parent') l) ≤ length (filter (fun x => x ∉ map fst parent) l))%nat) as Hle.
      { clear -Hm. induction l as [|y l IH]; [done|]. rewrite !filter_cons.
        destruct (decide (y ∉ map fst parent')), (decide (y ∉ map fst parent)); cbn; try lia. naive_solver. }
      specialize (Hle (all_names rows start)). lia.
    + apply elem_not_nil in Hf as [x Hx]. destruct (scan_next _ _ _ Hs x Hx) as [[Hx1 Hx2] Hx3].
      assert (x ∉ map fst parent) as Hxn.
      { intros (m & Hm' & Hxm)%(level_met _ _ _ Hl). apply (Hx2 m); [lia|done]. }
      enough (length (filter (fun x => x ∉ map fst parent') (all_names rows start)) <
              length (filter (fun x => x ∉ map fst parent) (all_names rows start)))%nat by lia.
      apply (filter_length_lt _ _ _ x); [|by eapply steps_names|done|tauto]. intros y Hy ?. by apply Hy, Hm.
  - exists 0%nat. by apply level_start.
  - unfold unmet. cbn [fst snd]. pose proof (length_filter (fun x => x ∉ map fst [(start, @None str)]) (all_names rows start)).
    rewrite decide_False by done. lia.
Qed.
End search.

Lemma chain_to_take_spec rows start : searched rows start (chain_to_take rows start).
Proof.
  unfold chain_to_take. destruct (decide (start = TAKE)) as [->|Hst]; [|by apply search_spec].
  split_and!; [done..|]. intros m _. cbn. lia.
Qed.

(** ** The verdict *)

Lemma chain_steps rows chain : ∀ a, head chain = Some a → last chain = Some TAKE → is_chain rows chain →
  ∃ m, nsteps (call rows) m a TAKE.
Proof.
  induction chain as [|x chain IH]; intros a Ha Hl Hc; [done|]. injection Ha as ->.
  destruct chain as [|y chain]; [injection Hl as ->; exists 0%nat; constructor|].
  destruct Hc as [Hc Hcs]. destruct (IH y eq_refl Hl Hcs) as [m Hm]. exists (S m). by eapply nsteps_l.
Qed.

Lemma chain_answer rows a : ∃ o, chain_to_take rows a = Ok o ∧ (is_Some o ↔ rtc (call rows) a TAKE).
Proof.
  pose proof (chain_to_take_spec rows a) as H. destruct (chain_to_take rows a) as [[chain|]|]; [..|done].
  - exists (Some chain). split; [done|]. destruct H as (Hh & Hl & Hc & _). split; [|by eexists]. intros _.
    destruct (chain_steps rows chain a Hh Hl Hc) as [m Hm]. by eapply rtc_nsteps_2.
  - exists None. split; [done|]. split; [by intros []|]. intros [m Hm]%rtc_nsteps_1. by destruct (H m).
Qed.

(** A call of the table. *)
Definition table_call (table : list row) (a b : str) : Prop :=
  ∃ r e, r ∈ table ∧ r_name r = a ∧ e ∈ r_callees r ∧ callee_name e = b ∧ (b = TAKE → callee_file e = LOCK_FILE).
Definition reaches_take (table : list row) (a : str) : Prop := rtc (table_call table) a TAKE.

Lemma by_name_get table name r :
  NoDup (map r_name table) → dget name (by_name table) = Some r ↔ r ∈ table ∧ r_name r = name.
Proof.
  intros Hd. unfold by_name. rewrite (dict_get id) by done. split.
  - by intros (r' & Hr & <- & ->).
  - intros [Hr <-]. by exists r.
Qed.

Lemma call_table table a : NoDup (map r_name table) → rtc (call (by_name table)) a TAKE ↔ reaches_take table a.
Proof.
  intros Hd. assert (∀ x y, call (by_name table) x y ↔ table_call table x y) as E.
  { intros x y. unfold call, table_call. split.
    - intros (r & e & [Hr <-]%by_name_get & H); [|done]. by exists r, e.
    - intros (r & e & Hr & Hn & H). exists r, e. by rewrite by_name_get. }
  unfold reaches_take. split; apply rtc_subrel; intros x y; apply E.
Qed.

(** What the check claims of a table. *)
Record no_self_wait (table : list row) : Prop := NoSelfWait {
  names_defined : ∀ name file, (name, file) ∈ required → ∃ r, r ∈ table ∧ r_name r = name ∧ r_file r = file;
  one_registrar : ∀ r c, r ∈ table → r_name r = MARK → c ∈ names (r_callers r) ↔ c = REGISTRAR;
  known_releasers : ∀ r c, r ∈ table → r_name r = RELEASE → c ∈ names (r_callers r) ↔ c ∈ RELEASERS;
  window_clear : ∀ r callee, r ∈ table → r_name r ∈ REGISTRAR :: RELEASERS → callee ∈ names (r_callees r) →
    callee ≠ REGISTRAR → callee ≠ $"*" → reaches_take table callee → r_name r = REGISTRAR ∧ callee ∈ MUTATING_ARMS;
  arms_used : ∀ arm, arm ∈ MUTATING_ARMS → reaches_take table arm ∧
    ∃ r, r ∈ table ∧ r_name r = REGISTRAR ∧ arm ∈ names (r_callees r) }.

Section verdict.
Variable table : list row.
Hypothesis Hd : NoDup (map r_name table).
#[local] Abbreviation rows := (by_name table).

Lemma check_window_spec owner callee : ∃ ps n, check_window rows (owner, callee) = Ok (ps, n) ∧
  (ps = [] ↔ (callee ≠ REGISTRAR → callee ≠ $"*" → reaches_take table callee → owner = REGISTRAR ∧ callee ∈ MUTATING_ARMS)).
Proof using Hd.
  unfold check_window. destruct (decide (callee = REGISTRAR ∨ callee = $"*")) as [Hc|Hc].
  { do 2 eexists. split; [done|]. split; [|done]. intros _ ? ?. tauto. }
  destruct (chain_answer rows callee) as (o & -> & Ho). rewrite call_table in Ho by done. cbn [mbind res_bind].
  destruct o as [chain|].
  - destruct (decide (owner = REGISTRAR ∧ callee ∈ MUTATING_ARMS)) as [Ha|Ha]; do 2 eexists; (split; [done|]).
    + split; done.
    + split; [done|]. intros H. destruct Ha. apply H; [tauto..|]. apply Ho. by eexists.
  - do 2 eexists. split; [done|]. split; [|done]. intros _ _ _ Hr. by apply Ho in Hr as [].
Qed.

Lemma check_arm_spec window arm : ∃ ps, check_arm rows window arm = Ok ps ∧
  (ps = [] ↔ (REGISTRAR, arm) ∈ window ∧ reaches_take table arm).
Proof using Hd.
  unfold check_arm. destruct (decide ((REGISTRAR, arm) ∈ window)) as [Hw|Hw].
  - destruct (chain_answer rows arm) as (o & -> & Ho). rewrite call_table in Ho by done. cbn [mbind res_bind].
    eexists. split; [done|]. destruct o; split; try done.
    + intros _. split; [done|]. apply Ho. by eexists.
    + intros [_ Hr]. by apply Ho in Hr as [].
  - eexists. split; [done|]. by split; [|intros []].
Qed.

Lemma window_spec : (∀ owner, owner ∈ REGISTRAR :: RELEASERS → ∃ r, r ∈ table ∧ r_name r = owner) →
  ∃ windows, mapM_res (window_of rows) (REGISTRAR :: RELEASERS) = Ok windows ∧
    ∀ owner callee, (owner, callee) ∈ concat windows ↔
      ∃ r, r ∈ table ∧ r_name r = owner ∧ owner ∈ REGISTRAR :: RELEASERS ∧ callee ∈ names (r_callees r).
Proof using Hd.
  intros Hdef.
  destruct (mapM_res_rel (window_of rows) (fun owner w => ∀ o c, (o, c) ∈ w ↔
      o = owner ∧ ∃ r, r ∈ table ∧ r_name r = owner ∧ c ∈ names (r_callees r)) (REGISTRAR :: RELEASERS)) as (ws & E & F).
  { intros owner Ho. destruct (Hdef owner Ho) as (r & Hr & Hn). unfold window_of, dget_or_raise.
    rewrite (proj2 (by_name_get table owner r Hd)) by done. cbn [of_option mbind res_bind]. eexists. split; [done|].
    intros o c. rewrite list_elem_of_fmap. setoid_rewrite elem_of_sorted_set. split.
    - intros (c' & [= -> ->] & Hc). split; [done|]. by exists r.
    - intros (-> & r' & Hr' & Hn' & Hc). exists c. split; [done|].
      assert (Some r = Some r') as [= ->]; [|done]. rewrite <- (proj2 (by_name_get table owner r Hd)) by done.
      by apply by_name_get. }
  exists ws. split; [done|]. intros o c. rewrite <- (map_id ws) at 1. clear E. revert F. generalize (REGISTRAR :: RELEASERS).
  intros l F. induction F as [|owner w l ws Hw _ IH]; cbn.
  - split; [by intros ?%not_elem_of_nil|by intros (r & _ & _ & ?%not_elem_of_nil & _)].
  - rewrite elem_of_app, Hw, IH. setoid_rewrite elem_of_cons. split.
    + intros [(-> & r & ?)|(r & ?)]; exists r; tauto.
    + intros (r & Hr & Hn & [->|Ho] & Hc); [left; split; [done|]; by exists r|right; by exists r].
Qed.

Lemma undefined_nil :
  filter (fun nf => option_map r_file (dget nf.1 rows) ≠ Some nf.2) required = [] ↔
  ∀ name file, (name, file) ∈ required → ∃ r, r ∈ table ∧ r_name r = name ∧ r_file r = file.
Proof using Hd.
  rewrite <- (map_id (filter _ required)), filter_map_nil. split.
  - intros H name file Hin. specialize (H _ Hin). cbn [fst snd] in H.
    destruct (dget name rows) as [r|] eqn:E; [|by destruct H]. apply by_name_get in E as [Hr Hn]; [|done].
    exists r. split_and!; [done..|]. destruct (decide (r_file r = file)); [done|]. destruct H. cbn. congruence.
  - intros H [name file] Hin Hne. destruct (H name file Hin) as (r & Hr & Hn & Hf). apply Hne. cbn [fst snd].
    rewrite (proj2 (by_name_get table name r Hd)) by done. cbn. congruence.
Qed.

Lemma get_defined name file :
  (∀ name file, (name, file) ∈ required → ∃ r, r ∈ table ∧ r_name r = name ∧ r_file r = file) → (name, file) ∈ required →
  ∃ r, r ∈ table ∧ r_name r = name ∧ dget_or_raise name rows = Ok r.
Proof using Hd.
  intros H Hin. destruct (H name file Hin) as (r & Hr & Hn & _). exists r. split_and!; [done..|].
  unfold dget_or_raise. by rewrite (proj2 (by_name_get table name r Hd)).
Qed.

Lemma same_row r r' : r ∈ table → r' ∈ table → r_name r = r_name r' → r = r'.
Proof using Hd.
  intros Hr Hr' E. assert (Some r = Some r') as [= ->]; [|done].
  rewrite <- (proj2 (by_name_get table (r_name r) r Hd)) by done. by apply by_name_get.
Qed.

Lemma callers_exact callers K (D : Decision (sorted_set callers = py_sorted str_le K)) problem : NoDup K →
  (if D then [] else [problem]) = @nil str ↔ ∀ x, x ∈ callers ↔ x ∈ K.
Proof. intros HK. rewrite <- sorted_set_eq by done. by destruct D. Qed.

(** The checks that follow once the functions are all defined. *)
Lemma checks_spec windows :
  ∃ checked arms, mapM_res (check_window rows) windows = Ok checked ∧
    mapM_res (check_arm rows windows) MUTATING_ARMS = Ok arms ∧
    (concat (map fst checked) = [] ↔ ∀ oc, oc ∈ windows → oc.2 ≠ REGISTRAR → oc.2 ≠ $"*" → reaches_take table oc.2 →
       oc.1 = REGISTRAR ∧ oc.2 ∈ MUTATING_ARMS) ∧
    (concat arms = [] ↔ ∀ arm, arm ∈ MUTATING_ARMS → (REGISTRAR, arm) ∈ windows ∧ reaches_take table arm).
Proof using Hd.
  destruct (mapM_res_rel (check_window rows) (fun oc b => b.1 = [] ↔ (oc.2 ≠ REGISTRAR → oc.2 ≠ $"*" →
      reaches_take table oc.2 → oc.1 = REGISTRAR ∧ oc.2 ∈ MUTATING_ARMS)) windows) as (checked & Hc & Fc).
  { intros [owner callee] _. destruct (check_window_spec owner callee) as (ps & n & ? & ?). by exists (ps, n). }
  destruct (mapM_res_rel (check_arm rows windows) (fun arm b => b = [] ↔
      (REGISTRAR, arm) ∈ windows ∧ reaches_take table arm) MUTATING_ARMS) as (arms & Ha & Fa).
  { intros arm _. apply check_arm_spec. }
  exists checked, arms. split_and!; [done..|by apply (reports_nil fst)|].
  rewrite <- (reports_nil id _ _ _ Fa). by rewrite map_id.
Qed.

Lemma verdict_parts mark release (windows : list (str * str)) :
  (∀ name file, (name, file) ∈ required → ∃ r, r ∈ table ∧ r_name r = name ∧ r_file r = file) →
  mark ∈ table → r_name mark = MARK → release ∈ table → r_name release = RELEASE →
  (∀ owner callee, (owner, callee) ∈ windows ↔
     ∃ r, r ∈ table ∧ r_name r = owner ∧ owner ∈ REGISTRAR :: RELEASERS ∧ callee ∈ names (r_callees r)) →
  no_self_wait table ↔
    (∀ x, x ∈ names (r_callers mark) ↔ x ∈ [REGISTRAR]) ∧ (∀ x, x ∈ names (r_callers release) ↔ x ∈ RELEASERS) ∧
    (∀ oc, oc ∈ windows → oc.2 ≠ REGISTRAR → oc.2 ≠ $"*" → reaches_take table oc.2 →
       oc.1 = REGISTRAR ∧ oc.2 ∈ MUTATING_ARMS) ∧
    (∀ arm, arm ∈ MUTATING_ARMS → (REGISTRAR, arm) ∈ windows ∧ reaches_take table arm).
Proof using Hd.
  intros Hdef Hm Hmn Hr Hrn Hw. split.
  - intros [_ H1 H2 H3 H4]. split_and!.
    + intros x. rewrite list_elem_of_singleton. by apply H1.
    + intros x. by apply H2.
    + intros [o c] (r & Hin & <- & Ho & Hc)%Hw. by apply H3.
    + intros arm Harm. destruct (H4 arm Harm) as [Hreach (r & Hin & Hn & Hc)]. split; [|done].
      apply Hw. exists r. split_and!; [done..|left|done].
  - intros (H1 & H2 & H3 & H4). constructor; [done| | | |].
    + intros r c Hin Hn. rewrite (same_row r mark), H1 by congruence. apply list_elem_of_singleton.
    + intros r c Hin Hn. by rewrite (same_row r release), H2 by congruence.
    + intros r c Hin Hn Hc. apply (H3 (r_name r, c)). apply Hw. by exists r.
    + intros arm Harm. destruct (H4 arm Harm) as [(r & Hin & Hn & _ & Hc)%Hw Hreach]. split; [done|]. by exists r.
Qed.
End verdict.

(** C33: on a table with one row for each name the check finds no problem exactly when
    the functions it relies on are where it expects them, readers are registered and
    released only there, no function called in the window comes to the guard's take
    but the named arms of the dispatch, and each arm does. *)
Theorem self_wait_iff table :
  NoDup (map r_name table) → (∃ n, self_wait_problems table = Ok ([], n)) ↔ no_self_wait table.
Proof.
  intros Hd. unfold self_wait_problems. pose proof (undefined_nil table Hd) as Hu.
  destruct (decide (filter _ required = [])) as [Eu|Eu].
  2:{ split; [intros [n [= E _]]; by destruct Eu; apply map_eq_nil in E|]. intros [H _ _ _ _]. by destruct Eu; apply Hu. }
  pose proof (proj1 Hu Eu) as Hdef. clear Hu Eu.
  destruct (get_defined table Hd MARK SYSCALL_FILE Hdef) as (mark & Hmark & Hmn & ->); [apply (bool_decide_unpack _); by vm_compute|].
  destruct (get_defined table Hd RELEASE SYSCALL_FILE Hdef) as (release & Hrel & Hrn & ->); [apply (bool_decide_unpack _); by vm_compute|].
  destruct (window_spec table Hd) as (windows & Ew & Hw).
  { intros owner Ho. destruct (Hdef owner SYSCALL_FILE) as (r & ? & ? & _); [|by exists r].
    revert owner Ho. apply Forall_forall, (bool_decide_unpack _). by vm_compute. }
  cbn [mbind res_bind]. rewrite Ew.
  destruct (checks_spec table Hd (concat windows)) as (checked & arms & Ec & Ea & Hc & Ha). cbn [mbind res_bind]. rewrite Ec.
  cbn [mbind res_bind]. rewrite Ea. cbn [mbind res_bind].
  set (c1 := if decide (sorted_set (names (r_callers mark)) = [REGISTRAR]) then _ else _).
  assert (c1 = [] ↔ ∀ x, x ∈ names (r_callers mark) ↔ x ∈ [REGISTRAR]) as H1
    by (apply (callers_exact _ [REGISTRAR]), NoDup_singleton).
  set (c2 := if decide (_ = py_sorted str_le RELEASERS) then _ else _).
  assert (c2 = [] ↔ ∀ x, x ∈ names (r_callers release) ↔ x ∈ RELEASERS) as H2
    by (apply callers_exact, (bool_decide_unpack _); by vm_compute).
  transitivity (c1 = [] ∧ c2 = [] ∧ concat (map fst checked) = [] ∧ concat arms = []).
  { split; [by intros [n [= (? & (? & [? ?]%app_eq_nil)%app_eq_nil)%app_eq_nil _]]|].
    intros (-> & -> & -> & ->). by eexists. }
  rewrite H1, H2, Hc, Ha. symmetry. by apply verdict_parts.
Qed.

(** C22: the search for a chain of calls from a function to the guard's take always
    ends.  It answers a chain exactly when there is one, and then a shortest: it starts
    with the function, ends with the take, each name calls the next, and no chain is
    shorter. *)
Theorem chain_to_take_shortest rows start : searched rows start (chain_to_take rows start).
Proof.
  unfold chain_to_take. destruct (decide (start = TAKE)) as [->|Hst]; [|by apply search_spec].
  split_and!; [done..|]. intros m _. cbn. lia.
Qed.


(** A table: the reader count, a dispatch with the named arms and a read, and the two
    releasers. *)
Definition sample : list row :=
  [simple_row LOCK_FILE TAKE [] [];
   with_callers (fun _ => [entry REGISTRAR SYSCALL_FILE]) (simple_row SYSCALL_FILE MARK [] []);
   with_callers (fun _ => map (fun n => entry n SYSCALL_FILE) RELEASERS) (simple_row SYSCALL_FILE RELEASE [] []);
   simple_row SYSCALL_FILE REGISTRAR []
     (map (fun n => entry n SYSCALL_FILE) [MARK; $"syscall_read"; $"syscall_write_segment"; $"syscall_writev_current"]
      ++ [entry TAKE LOCK_FILE]);
   simple_row SYSCALL_FILE ($"syscall_read") [] [];
   simple_row SYSCALL_FILE ($"syscall_write_segment") [] [entry TAKE LOCK_FILE];
   simple_row SYSCALL_FILE ($"syscall_writev_current") [] [entry ($"syscall_write_segment") SYSCALL_FILE]]
  ++ map (fun n => simple_row SYSCALL_FILE n [] [entry REGISTRAR SYSCALL_FILE; entry RELEASE SYSCALL_FILE]) RELEASERS.

Lemma self_wait_iff_witness : no_self_wait sample.
Proof.
  apply (self_wait_iff sample); [|exists 7; vm_compute; reflexivity].
  apply (bool_decide_unpack _). vm_compute. exact I.
Defined.
