(* ===== verification/ReleaseLog.v ===== *)
(** * The undo log of the ext2 releases

    Model of scripts/buildcheck_ext2_release_log.py: a walk over the calls inside the
    file system's file, from the operations that release or create, that stops at the
    named writers.  No other function reached writes a block, none but a root opens an
    undo log, and each writer is reached. *)
From S2P Require Import Prelude Text Dict Sort PassLine CallGraph.

Definition FILE : str := $"kernel/fs/ext2/ext2.tkb".
Definition BLOCK_LAYER : str := $"kernel/drivers/block/memory.tkb".
Definition FENCED_WRITE : str := $"ext2_block_write".
Definition RAW_WRITE : str := $"block_write".
Definition BEGIN : str := $"ext2_undo_begin".

Definition ROOTS : list str :=
  [$"ext2_truncate_regular_file_with"; $"ext2_unlink_name_with"; $"ext2_rename_over"; $"ext2_rmdir_release";
   $"ext2_create_file_in_with"; $"ext2_create_empty_file_in_with"; $"ext2_make_directory_in_with"; $"ext2_rename_new"].

(** The keys of the dictionary; its values, the reasons, are never read. *)
Definition WRITERS : list str :=
  [$"ext2_undo_write"; $"ext2_undo_put_back"; $"ext2_release_commit"; $"ext2_walk_visit"; $"ext2_claimed_write";
   $"ext2_create_commit"].

Definition is_write (e : str) : bool :=
  bool_decide (callee_name e = FENCED_WRITE) && bool_decide (callee_file e = FILE)
  || bool_decide (callee_name e = RAW_WRITE) && bool_decide (callee_file e = BLOCK_LAYER).
Definition writes (r : row) : list str := map callee_name (filter (fun e => is_write e = true) (r_callees r)).

Definition undefined_problem (name : str) : str :=
  name ++ $" is not defined in " ++ FILE ++ $"; a rename would leave this check matching nothing".
Definition write_problem (r : row) (name : str) (found : list str) : str :=
  FILE ++ $":" ++ r_line r ++ $" " ++ name ++ $" is reached from a release and calls " ++ join ($", ") (sorted_set found) ++
  $" itself. A release or create writes through ext2_undo_save/ext2_undo_write and frees or claims its blocks in ext2_release_commit or ext2_create_commit, so a rejected write can be put back (GitHub issues #1088, #1120); route the write through the log, or name the function in WRITERS with the reason".
Definition nested_problem (r : row) (name : str) : str :=
  FILE ++ $":" ++ r_line r ++ $" " ++ name ++ $" is reached from a release and opens its own undo log (" ++ BEGIN ++
  $"), which commits outside the release's rollback (GitHub issue #1088); pass the release's log down instead".
Definition unused_problem (name : str) : str :=
  name ++ $" is allowed to write but no release reaches it: remove the entry".

Definition file_table (rows : list row) : list (str * row) :=
  foldl (fun d r => dset (r_name r) r d) [] (filter (fun r => r_file r = FILE) rows).

(** The walk's variables.  [todo] is kept with the end that [pop] takes in front. *)
Record walk := Walk { todo : list str; reached : list str; seen_writers : list str; problems : list str }.

Definition row_problems (name : str) (r : row) : list str :=
  (if decide (writes r = []) then [] else [write_problem r name (writes r)])
  ++ (if negb (mem name ROOTS) && existsb (fun e => bool_decide (callee_name e = BEGIN)) (r_callees r)
      then [nested_problem r name] else []).

Definition followed (r : row) : list str := map callee_name (filter (fun e => callee_file e = FILE) (r_callees r)).

Definition walk_body (table : list (str * row)) (w : walk) : flow walk (res walk) :=
  match todo w with
  | [] => Stop (Ok w)
  | name :: todo =>
      if mem name (reached w) then Next (Walk todo (reached w) (seen_writers w) (problems w))
      else
        let reached := reached w ++ [name] in
        if mem name WRITERS then Next (Walk todo reached (seen_writers w ++ [name]) (problems w))
        else
          match dget name table with
          | None => Stop (Err KeyError)
          | Some r => Next (Walk (reverse (followed r) ++ todo) reached (seen_writers w) (problems w ++ row_problems name r))
          end
  end.

(** Every name put on [todo] is a root or an entry of a row that is left for good. *)
Definition walk_fuel (table : list (str * row)) : nat :=
  S (length ROOTS + sum_list_with (fun nr => length (r_callees nr.2)) table).

Definition problems_in (rows : list row) : res (list str * Z) :=
  let table := file_table rows in
  let undefined := filter (fun name => dmem name table = false) (ROOTS ++ WRITERS) in
  if decide (undefined = []) then
    w ← while (walk_fuel table) (walk_body table) (Walk (reverse ROOTS) [] [] []);
    Ok (problems w ++ map unused_problem (filter (fun name => name ∉ seen_writers w) WRITERS), zlen (reached w))
  else Ok (map undefined_problem undefined, 0).

(** ** The controls *)

Fixpoint change_subject (callee : str) (rows : list row) : list row :=
  match rows with
  | [] => []
  | r :: rows =>
      if decide (r_name r = $"ext2_inode_clear_logged" ∧ r_file r = FILE)
      then with_callees (fun callees => callees ++ [callee ++ $"@" ++ FILE ++ $":1"]) r :: rows
      else r :: change_subject callee rows
  end.

Definition planted_refused (rows : list row) (callee : str) : res bool :=
  if zlen (filter (fun r => r_name r = $"ext2_inode_clear_logged" ∧ r_file r = FILE) rows) =? 1 then
    '(problems, _) ← problems_in (change_subject callee rows); Ok (bool_decide (problems ≠ []))
  else Ok false.

Definition control_refused (rows : list row) : res bool :=
  refused ← planted_refused rows FENCED_WRITE;
  if refused : bool then planted_refused rows BEGIN else Ok false.

Definition main (read_text : str → res str) (path : str) : res (Z * list str) :=
  match (text ← read_text path; parse text path) with
  | Err (Custom cls message) =>
      if bool_decide (cls = "TableError"%string) || bool_decide (cls = "OSError"%string)
      then Ok (1, [$"FAIL ext2-release-log: " ++ message]) else Err (Custom cls message)
  | Err e => Err e
  | Ok rows =>
      '(problems, reached) ← problems_in rows;
      if decide (problems = []) then
        refused ← control_refused rows;
        if refused : bool then
          line ← report_pass ($"ext2-release-log")
            (dec reached ++ $" function(s) reached from " ++ dec (zlen ROOTS) ++ $" release root(s) write only through " ++
             dec (zlen WRITERS) ++ $" named writer(s), and a planted direct write or nested log is refused")
            [($"reached_functions", reached)];
          Ok (0, [line])
        else Ok (1, [$"FAIL ext2-release-log: a negative control (a logged helper calling ext2_block_write, or opening its own log) was accepted, so this check proves nothing"])
      else Ok (1, map (fun p => $"ERROR ext2-release-log: " ++ p) problems
                  ++ [$"FAIL ext2-release-log: a release writes outside its undo log"])
  end.
