(* ===== verification/ReleaseLogFacts.v ===== *)
(** * Facts about the walk from the releases

    The walk ends, visits each function the releases come to once, and the check is
    silent exactly when those functions keep to the log. *)
From S2P Require Import Prelude Text Dict Sort PassLine CallGraph ReleaseLog.
From stdpp Require Import relations.
#[local] Open Scope Z_scope.

(** ** The walk *)

(** What is left to put on [todo]. *)
Definition weight (table : list (str * row)) (seen : list str) : nat :=
  sum_list_with (fun nr => length (r_callees nr.2)) (filter (fun nr => nr.1 ∉ seen) table).

Lemma weight_le table seen name : (weight table (seen ++ [name]) ≤ weight table seen)%nat.
Proof.
  unfold weight. induction table as [|nr t IH]; [done|]. rewrite !filter_cons.
  destruct (decide (nr.1 ∉ seen ++ [name])) as [H|H], (decide (nr.1 ∉ seen)) as [H'|H']; cbn; try lia.
  destruct H'. intros ?. apply H, elem_of_app. by left.
Qed.

Lemma weight_drop table seen name r : dget name table = Some r → name ∉ seen →
  (weight table (seen ++ [name]) + length (r_callees r) ≤ weight table seen)%nat.
Proof.
  intros Hr%dget_elem_of Hs. induction table as [|nr t IH]; [by apply not_elem_of_nil in Hr|].
  unfold weight in *. rewrite !filter_cons. apply elem_of_cons in Hr as [<-|Hr]; [|specialize (IH Hr)].
  - rewrite decide_False by (intros H; apply H, elem_of_app; right; apply list_elem_of_singleton; done).
    rewrite decide_True by done. pose proof (weight_le t seen name). unfold weight in *. cbn. lia.
  - destruct (decide (nr.1 ∉ seen ++ [name])) as [H|H], (decide (nr.1 ∉ seen)) as [H'|H']; cbn; try lia.
    destruct H'. intros ?. apply H, elem_of_app. by left.
Qed.

Section walk.
Variable table : list (str * row).

(** The calls the walk follows. *)
Definition descends (a b : str) : Prop :=
  (a ∉ WRITERS) ∧ ∃ r e, dget a table = Some r ∧ e ∈ r_callees r ∧ callee_file e = FILE ∧ callee_name e = b.

Definition comes_to (a : str) : Prop := ∃ root, root ∈ ROOTS ∧ rtc descends root a.

Lemma elem_of_followed r b : b ∈ followed r ↔ ∃ e, e ∈ r_callees r ∧ callee_file e = FILE ∧ callee_name e = b.
Proof.
  unfold followed. rewrite list_elem_of_fmap. setoid_rewrite list_elem_of_filter. split.
  - intros (e & -> & ? & ?). by exists e.
  - intros (e & ? & ? & <-). by exists e.
Qed.

Lemma descends_followed a b r : a ∉ WRITERS → dget a table = Some r → descends a b ↔ b ∈ followed r.
Proof.
  intros Ha Hr. rewrite elem_of_followed. unfold descends. rewrite Hr. split.
  - intros (_ & r' & e & [= <-] & H). by exists e.
  - intros (e & H). split; [done|]. by exists r, e.
Qed.

Record walked (w : walk) : Prop := Walked {
  w_sound : ∀ a, a ∈ todo w ∨ a ∈ reached w → comes_to a;
  w_roots : ∀ a, a ∈ ROOTS → a ∈ todo w ∨ a ∈ reached w;
  w_closed : ∀ a b, a ∈ reached w → descends a b → b ∈ todo w ∨ b ∈ reached w;
  w_once : NoDup (reached w);
  w_writers : ∀ a, a ∈ seen_writers w ↔ a ∈ reached w ∧ a ∈ WRITERS;
  w_defined : ∀ a, a ∈ reached w → a ∉ WRITERS → is_Some (dget a table);
  w_problems : problems w = [] ↔ ∀ a r, a ∈ reached w → a ∉ WRITERS → dget a table = Some r → row_problems a r = [] }.

Lemma walked_start : walked (Walk (reverse ROOTS) [] [] []).
Proof.
  constructor; cbn [todo reached seen_writers problems]; try (by intros a ?%not_elem_of_nil).
  - intros a [Ha%elem_of_reverse|Ha%not_elem_of_nil]; [|done]. exists a. by split.
  - intros a Ha. left. by apply elem_of_reverse.
  - by intros a b ?%not_elem_of_nil.
  - constructor.
  - intros a. split; [by intros ?%not_elem_of_nil|by intros [?%not_elem_of_nil _]].
  - split; [|done]. by intros _ a r ?%not_elem_of_nil.
Qed.

Lemma walked_again w name rest : todo w = name :: rest → name ∈ reached w → walked w →
  walked (Walk rest (reached w) (seen_writers w) (problems w)).
Proof.
  intros E Hin [H1 H2 H3 H4 H5 H6 H7]. rewrite E in H1, H2, H3.
  constructor; cbn [todo reached seen_writers problems]; try done.
  - intros a [Ha|Ha]; apply H1; [left; by right|by right].
  - intros a [[->|Ha]%elem_of_cons|Ha]%H2; auto.
  - intros a b Ha [[->|Hb]%elem_of_cons|Hb]%(H3 a b Ha); auto.
Qed.

Lemma walked_writer w name rest : todo w = name :: rest → name ∉ reached w → name ∈ WRITERS → walked w →
  walked (Walk rest (reached w ++ [name]) (seen_writers w ++ [name]) (problems w)).
Proof.
  intros E Hin Hw [H1 H2 H3 H4 H5 H6 H7]. rewrite E in H1, H2, H3.
  constructor; cbn [todo reached seen_writers problems]; try setoid_rewrite elem_of_app; try setoid_rewrite list_elem_of_singleton.
  - intros a [Ha|[Ha| ->]]; apply H1; [left; by right|by right|left; left].
  - intros a [[->|Ha]%elem_of_cons|Ha]%H2; auto.
  - intros a b [Ha| ->] Hd; [|by destruct Hd]. apply (H3 a b Ha) in Hd as [[->|Hb]%elem_of_cons|Hb]; auto.
  - apply NoDup_app. split_and!; [done|by intros x Hx ->%list_elem_of_singleton|apply NoDup_singleton].
  - intros a. rewrite H5. split; [intros [[? ?]| ->]; auto|]. intros [[?| ->] ?]; auto.
  - intros a [Ha| ->]; [by apply H6|done].
  - rewrite H7. split; [|intros H a r ?; apply H; by left]. intros H a r [Ha| ->]; [by apply H|done].
Qed.

Lemma walked_function w name rest r : todo w = name :: rest → name ∉ reached w → name ∉ WRITERS →
  dget name table = Some r → walked w →
  walked (Walk (reverse (followed r) ++ rest) (reached w ++ [name]) (seen_writers w) (problems w ++ row_problems name r)).
Proof.
  intros E Hin Hw Hr [H1 H2 H3 H4 H5 H6 H7]. rewrite E in H1, H2, H3.
  assert (comes_to name) as Hname by (apply H1; left; left).
  constructor; cbn [todo reached seen_writers problems]; try setoid_rewrite elem_of_app; try setoid_rewrite list_elem_of_singleton;
    try setoid_rewrite elem_of_reverse.
  - intros a [[Ha|Ha]|[Ha| ->]]; [|apply H1; left; by right|apply H1; by right|done].
    destruct Hname as (root & Hroot & Hrt). exists root. split; [done|]. eapply rtc_r; [done|]. by apply (descends_followed _ _ r).
  - intros a [[->|Ha]%elem_of_cons|Ha]%H2; auto.
  - intros a b [Ha| ->] Hd.
    + apply (H3 a b Ha) in Hd as [[->|Hb]%elem_of_cons|Hb]; auto.
    + apply (descends_followed _ _ r) in Hd; auto.
  - apply NoDup_app. split_and!; [done|by intros x Hx ->%list_elem_of_singleton|apply NoDup_singleton].
  - intros a. rewrite H5. split; [intros [? ?]; auto|]. intros [[?| ->] ?]; done.
  - intros a [Ha| ->] Hn; [by apply H6|by exists r].
  - split.
    + intros [Hp Hq]%app_eq_nil a r' [Ha| ->] Hn Hr'; [by apply (proj1 H7 Hp)|congruence].
    + intros H. rewrite (proj2 H7); [|intros a r' Ha; apply H; by left]. rewrite (H name r); auto.
Qed.

Lemma walk_spec :
  match while (walk_fuel table) (walk_body table) (Walk (reverse ROOTS) [] [] []) with
  | Ok w => walked w ∧ todo w = []
  | Err e => e = KeyError ∧ ∃ a, comes_to a ∧ (a ∉ WRITERS) ∧ dget a table = None
  end.
Proof.
  apply (while_total _ walked (fun o => match o with Ok w => walked w ∧ todo w = []
      | Err e => e = KeyError ∧ ∃ a, comes_to a ∧ (a ∉ WRITERS) ∧ dget a table = None end)
    (fun w => length (todo w) + weight table (reached w))%nat); [|apply walked_start|].
  - intros w Hw. unfold walk_body. destruct (todo w) as [|name rest] eqn:E; [done|].
    destruct (mem name (reached w)) eqn:Em; [apply mem_true in Em|apply mem_false in Em].
    { split; [by eapply walked_again|]. cbn. lia. }
    destruct (mem name WRITERS) eqn:Ew; [apply mem_true in Ew|apply mem_false in Ew].
    { split; [by eapply walked_writer|]. cbn [todo reached length].
      pose proof (weight_le table (reached w) name). lia. }
    destruct (dget name table) as [r|] eqn:Er.
    + split; [by apply walked_function|]. pose proof (weight_drop _ _ _ _ Er Em). cbn [todo reached].
      rewrite length_app, length_reverse. unfold followed. rewrite length_map.
      pose proof (length_filter (fun e => callee_file e = FILE) (r_callees r)). cbn [length]. lia.
    + split; [done|]. exists name. split_and!; try done. apply (w_sound w Hw). rewrite E. left. by left.
  - unfold walk_fuel, weight. cbn [todo reached]. rewrite length_reverse.
    assert (∀ t : list (str * row), filter (fun nr => nr.1 ∉ @nil str) t = t) as ->; [|lia].
    induction t as [|nr t IH]; [done|]. rewrite filter_cons_True, IH by apply not_elem_of_nil. done.
Qed.

Lemma reached_exact w : walked w → todo w = [] → ∀ a, a ∈ reached w ↔ comes_to a.
Proof.
  intros [H1 H2 H3 _ _ _ _] E a. rewrite E in *. split; [auto|]. intros (root & Hroot & Hrt).
  apply H2 in Hroot as [?%not_elem_of_nil|Hroot]; [done|]. induction Hrt as [|a b c Hab _ IH]; [done|].
  apply IH. by destruct (H3 a b Hroot Hab) as [?%not_elem_of_nil|].
Qed.
End walk.

(** ** What the check says of a table *)

(** The calls of the rows of the file, and the functions the releases come to. *)
Definition release_call (rows : list row) (a b : str) : Prop :=
  (a ∉ WRITERS) ∧ ∃ r e, r ∈ rows ∧ r_file r = FILE ∧ r_name r = a ∧ e ∈ r_callees r ∧ callee_file e = FILE ∧
    callee_name e = b.

Definition from_release (rows : list row) (a : str) : Prop := ∃ root, root ∈ ROOTS ∧ rtc (release_call rows) root a.

Record logged (rows : list row) : Prop := Logged {
  l_defined : ∀ name, name ∈ ROOTS ++ WRITERS → ∃ r, r ∈ rows ∧ r_file r = FILE ∧ r_name r = name;
  l_found : ∀ name, from_release rows name → name ∉ WRITERS → ∃ r, r ∈ rows ∧ r_file r = FILE ∧ r_name r = name;
  l_writes : ∀ r e, r ∈ rows → r_file r = FILE → from_release rows (r_name r) → r_name r ∉ WRITERS → e ∈ r_callees r →
    ¬ (callee_name e = FENCED_WRITE ∧ callee_file e = FILE) ∧
    ¬ (callee_name e = RAW_WRITE ∧ callee_file e = BLOCK_LAYER) ∧
    (callee_name e = BEGIN → r_name r ∈ ROOTS);
  l_used : ∀ name, name ∈ WRITERS → from_release rows name }.

Lemma is_write_true e : is_write e = true ↔
  (callee_name e = FENCED_WRITE ∧ callee_file e = FILE) ∨ (callee_name e = RAW_WRITE ∧ callee_file e = BLOCK_LAYER).
Proof. unfold is_write. by rewrite orb_true_iff, !andb_true_iff, !bool_decide_eq_true. Qed.

Lemma row_problems_nil name r : row_problems name r = [] ↔ ∀ e, e ∈ r_callees r →
  ¬ (callee_name e = FENCED_WRITE ∧ callee_file e = FILE) ∧ ¬ (callee_name e = RAW_WRITE ∧ callee_file e = BLOCK_LAYER) ∧
  (callee_name e = BEGIN → name ∈ ROOTS).
Proof.
  unfold row_problems. set (c := negb _ && _).
  assert (writes r = [] ↔ ∀ e, e ∈ r_callees r → is_write e ≠ true) as Hw by apply filter_map_nil.
  assert (c = false ↔ ∀ e, e ∈ r_callees r → callee_name e = BEGIN → name ∈ ROOTS) as Hc.
  { subst c. rewrite andb_false_iff, negb_false_iff, mem_true. split.
    - intros [Hn|Hn] e He Hb; [done|]. apply not_true_iff_false in Hn. destruct Hn. apply existsb_exists. exists e.
      split; [by apply list_elem_of_In|by apply bool_decide_eq_true].
    - intros H. destruct (decide (name ∈ ROOTS)) as [|Hn]; [by left|right]. apply not_true_iff_false.
      intros (e & He%list_elem_of_In & Hb%bool_decide_eq_true)%existsb_exists. by apply Hn, (H e). }
  transitivity (writes r = [] ∧ c = false); [by destruct (decide (writes r = [])), c; split; first [done|intros []]|].
  rewrite Hw, Hc. setoid_rewrite is_write_true. split; [intros [H1 H2] e He|intros H; split; intros e He].
  - specialize (H1 e He). specialize (H2 e He). tauto.
  - specialize (H e He). tauto.
  - by apply H.
Qed.

Section verdict.
Variable rows : list row.
Hypothesis Hd : NoDup (map r_name rows).

Lemma file_table_get name r : dget name (file_table rows) = Some r ↔ r ∈ rows ∧ r_file r = FILE ∧ r_name r = name.
Proof using Hd.
  unfold file_table. rewrite (dict_get id) by (by apply filter_names_NoDup). setoid_rewrite list_elem_of_filter. split.
  - by intros (r' & [? ?] & <- & ->).
  - intros (? & ? & <-). by exists r.
Qed.

Lemma comes_to_rows a : comes_to (file_table rows) a ↔ from_release rows a.
Proof using Hd.
  assert (∀ x y, descends (file_table rows) x y ↔ release_call rows x y) as E.
  { intros x y. unfold descends, release_call. setoid_rewrite file_table_get. split; intros [? (r & e & H)];
      (split; [done|]); exists r, e; tauto. }
  unfold comes_to, from_release. split; intros (root & ? & H); exists root; (split; [done|]); revert H;
    apply rtc_subrel; intros x y; apply E.
Qed.

Lemma file_table_defined name :
  dmem name (file_table rows) ≠ false ↔ ∃ r, r ∈ rows ∧ r_file r = FILE ∧ r_name r = name.
Proof using Hd.
  setoid_rewrite <- file_table_get. unfold dmem. destruct (dget name (file_table rows)) as [r|]; split; try done.
  - by exists r.
  - by intros [].
Qed.

Lemma logged_parts (found seen : list str) :
  (∀ name, name ∈ ROOTS ++ WRITERS → ∃ r, r ∈ rows ∧ r_file r = FILE ∧ r_name r = name) →
  (∀ a, a ∈ seen ↔ a ∈ found ∧ a ∈ WRITERS) → (∀ a, a ∈ found → a ∉ WRITERS → is_Some (dget a (file_table rows))) →
  (∀ a, a ∈ found ↔ from_release rows a) →
  logged rows ↔
    (∀ a r, a ∈ found → a ∉ WRITERS → dget a (file_table rows) = Some r → row_problems a r = []) ∧
    (∀ name, name ∈ WRITERS → ¬ (name ∉ seen)).
Proof using Hd.
  intros Hdef Hs Hsome Hf. split.
  - intros [_ _ H2 H3]. split.
    + intros a r Ha Hn (Hr & Hfile & <-)%file_table_get. apply row_problems_nil. intros e He.
      apply Hf in Ha. by apply (H2 r e).
    + intros name Hn Hx. apply Hx, Hs. split; [|done]. by apply Hf, H3.
  - intros [H1 H2]. constructor; [done| | |].
    + intros a Ha%Hf Hn. destruct (Hsome a Ha Hn) as [r Hr%file_table_get]. by exists r.
    + intros r e Hr Hfile Hrel%Hf Hn. apply row_problems_nil, H1; [done..|]. by apply file_table_get.
    + intros name Hn. apply Hf. destruct (decide (name ∈ seen)) as [Hx|Hx]; [by apply Hs in Hx as []|]. by destruct (H2 name Hn).
Qed.
End verdict.

(** C29: on a table with one row for each name the walk finds no problem exactly when
    the releases' functions, and the writers, are in the file system's file, no
    function the releases come to writes a block or opens a log of its own but the
    named writers and the roots, and the releases come to every writer. *)
Theorem release_log_iff rows :
  NoDup (map r_name rows) → (∃ n, problems_in rows = Ok ([], n)) ↔ logged rows.
Proof.
  intros Hd. unfold problems_in. pose proof (filter_map_nil id (fun name => dmem name (file_table rows) = false) (ROOTS ++ WRITERS)) as Hu.
  rewrite map_id in Hu. destruct (decide (filter _ (ROOTS ++ WRITERS) = [])) as [Eu|Eu].
  2:{ split; [intros [n [= E _]]; by destruct Eu; apply map_eq_nil in E|]. intros [H _ _ _]. destruct Eu. apply Hu.
      intros name Hn. by apply file_table_defined, H. }
  pose proof (proj1 Hu Eu) as Hdef. pose proof (walk_spec (file_table rows)) as Hs.
  destruct (while _ _ _) as [w|e]; cbn [mbind res_bind].
  2:{ destruct Hs as (-> & a & Ha & Hw & Hn). split; [by intros []|]. intros [_ H _ _].
      destruct (H a) as [r Hr]; [by apply comes_to_rows|done|]. apply file_table_get in Hr; [congruence|done]. }
  destruct Hs as [Hw E]. pose proof (reached_exact _ w Hw E) as Hr. destruct Hw as [_ _ _ _ Hwr Hwd Hp].
  transitivity (problems w = [] ∧ ∀ name, name ∈ WRITERS → ¬ (name ∉ seen_writers w)).
  { rewrite <- (filter_map_nil unused_problem). split; [by intros [n [= [? ?]%app_eq_nil _]]|]. intros [-> ->]. by eexists. }
  rewrite Hp. symmetry. apply (logged_parts rows Hd (reached w)); [|done..|].
  - intros name Hn. by apply file_table_defined, Hdef.
  - intros a. rewrite Hr. by apply comes_to_rows.
Qed.

(** A table: the functions of the file, each release with its commit and the writes of
    the log, and a helper that writes through it. *)
Definition sample : list row :=
  let fn name callees := simple_row FILE name [] (map (fun c => entry c FILE) callees) in
  map (fun root => fn root [BEGIN; $"ext2_inode_clear_logged"; $"ext2_release_commit"]) (take 4 ROOTS) ++
  map (fun root => fn root [BEGIN; $"ext2_claimed_write"; $"ext2_create_commit"; $"ext2_undo_put_back"]) (drop 4 ROOTS) ++
  [fn ($"ext2_inode_clear_logged") [$"ext2_undo_write"; $"ext2_walk_visit"]; fn BEGIN []; fn FENCED_WRITE []] ++
  map (fun w => fn w [FENCED_WRITE]) WRITERS.

Lemma release_log_iff_witness : logged sample.
Proof.
  apply (release_log_iff sample); [|exists 16; vm_compute; reflexivity].
  apply (bool_decide_unpack _). vm_compute. exact I.
Defined.

(** The walk always ends: with an answer, or with the error for a callee that the
    file's rows do not define. *)
Lemma release_walk_ends rows :
  (∃ ps n, problems_in rows = Ok (ps, n)) ∨
  (problems_in rows = Err KeyError ∧ ∃ a, comes_to (file_table rows) a ∧ dget a (file_table rows) = None).
Proof.
  unfold problems_in. destruct (decide _) as [_|_]; [|left; by do 2 eexists].
  pose proof (walk_spec (file_table rows)) as H. destruct (while _ _ _) as [w|e]; [left; by do 2 eexists|].
  right. destruct H as (-> & a & Ha & _ & Hn). split; [done|]. by exists a.
Qed.
