(* ===== verification/AllowedCallersFacts.v ===== *)
(** * Facts about the reviewed callers

    When a rule is silent, that the negative controls are always refused, and what
    holds of the list and the table when the check passes. *)
From S2P Require Import Prelude Text Dict Sort PassLine CallGraph AllowedCallers.

(** ** A rule *)

Definition names_helper (helper : str) (r : row) : Prop :=
  ∃ e, (e ∈ r_callees r ∨ e ∈ r_values r) ∧ callee_name e = helper.

Lemma uses_true helper r : uses helper r = true ↔ names_helper helper r.
Proof.
  unfold uses, names_helper. rewrite mem_true, elem_of_app, !list_elem_of_fmap. split.
  - intros [(e & -> & H)|(e & -> & H)]; exists e; auto.
  - intros (e & [H|H] & <-); [left|right]; by exists e.
Qed.

Record reviewed (u : rule) (table : list row) : Prop := Reviewed {
  only_allowed : ∀ r, r ∈ table → names_helper (u_helper u) r → place r ∈ u_allowed u;
  allowed_used : ∀ pair, pair ∈ u_allowed u → (∃ r, r ∈ table ∧ r_file r = pair.1) →
    ∃ r, r ∈ table ∧ place r = pair ∧ names_helper (u_helper u) r }.

Lemma elem_of_built u table pair :
  pair ∈ built_allowed u table ↔ pair ∈ u_allowed u ∧ ∃ r, r ∈ table ∧ r_file r = pair.1.
Proof.
  unfold built_allowed. rewrite list_elem_of_filter, list_elem_of_fmap. split.
  - intros [(r & E & Hr) ?]. split; [done|]. by exists r.
  - intros [? (r & ? & E)]. split; [|done]. by exists r.
Qed.

Lemma place_built u table r : r ∈ table → place r ∈ built_allowed u table ↔ place r ∈ u_allowed u.
Proof. intros Hr. rewrite elem_of_built. split; [by intros []|]. intros ?. split; [done|]. by exists r. Qed.

Lemma problems_nil u table : problems_in u table = [] ↔ reviewed u table.
Proof.
  unfold problems_in. set (users := filter _ table).
  assert (∀ r, r ∈ users ↔ r ∈ table ∧ names_helper (u_helper u) r) as Hu
    by (intros r; subst users; rewrite list_elem_of_filter, uses_true; tauto).
  transitivity ((∀ r, r ∈ users → ¬ (place r ∉ built_allowed u table)) ∧
                (∀ pair, pair ∈ built_allowed u table → ¬ (pair ∉ map place users))).
  { rewrite <- (filter_map_nil (use_problem u)), <- (filter_map_nil (gone_problem u)). split.
    - intros [H1 H2%map_eq_nil]%app_eq_nil. split; [done|].
      pose proof (py_sorted_perm str_pair_le (filter (fun pair => pair ∉ map place users) (built_allowed u table))) as Hp.
      rewrite H2 in Hp. apply Permutation_nil in Hp. by rewrite Hp.
    - intros [-> E%map_eq_nil]. by rewrite E. }
  split.
  - intros [H1 H2]. constructor.
    + intros r Hr Hn. apply (place_built u table r Hr), dec_stable, H1. by apply Hu.
    + intros pair Hp Hf. destruct (decide (pair ∈ map place users)) as [(r & -> & [? ?]%Hu)%list_elem_of_fmap|Hx]; [by exists r|].
      by destruct (H2 pair); [apply elem_of_built|].
  - intros [H1 H2]. split.
    + intros r [Hr Hn]%Hu Hx. by apply Hx, place_built, H1.
    + intros pair [Hp Hf]%elem_of_built Hx. destruct (H2 pair Hp Hf) as (r & Hr & <- & Hn).
      apply Hx, list_elem_of_fmap. exists r. split; [done|]. by apply Hu.
Qed.

(** A rule reports nothing exactly when every function of the table that calls the
    guarded function, or takes it as a value, is an allowed one, and every allowed one
    whose file is in the table does. *)
Theorem allowed_callers_iff u table : problems_in u table = [] ↔ reviewed u table.
Proof. apply problems_nil. Qed.

(** ** The controls *)

Lemma plant_use_spec allowed change table :
  match plant_use allowed change table with
  | None => ∀ r, r ∈ table → victim allowed r = false
  | Some (name, planted) =>
      ∃ before r after, table = before ++ r :: after ∧ planted = before ++ change r :: after ∧ victim allowed r = true
  end.
Proof.
  induction table as [|r table IH]; cbn; [by intros r ?%not_elem_of_nil|].
  destruct (victim allowed r) eqn:Ev; [by exists [], r, table|].
  destruct (plant_use allowed change table) as [[name planted]|]; cbn.
  - destruct IH as (before & r' & after & -> & -> & Hv). by exists (r :: before), r', after.
  - intros r' [->|Hr]%elem_of_cons; [done|by apply IH].
Qed.

Lemma planted_name helper : 64 ∉ helper → callee_name (helper ++ $"@-") = helper.
Proof.
  intros Hn. unfold callee_name. rewrite span_app; [done| |by intros a [= <-]].
  apply Forall_forall. intros c Hc. apply negb_true_iff, Z.eqb_neq. by intros ->.
Qed.

Lemma planted_refused u table label change :
  (∀ r, place (change r) = place r) → (∀ r, names_helper (u_helper u) (change r)) →
  match planted_control u table label change with
  | Ok failed => failed = []
  | Err e => e = StopIteration ∧ ∀ r, r ∈ table → victim (built_allowed u table) r = false
  end.
Proof.
  intros Hp Hn. unfold planted_control. pose proof (plant_use_spec (built_allowed u table) change table) as H.
  destruct (plant_use _ _ _) as [[name planted]|]; cbn; [|done]. destruct (decide _) as [E|]; [|done].
  destruct H as (before & r & after & Et & -> & [_ Hv%bool_decide_eq_true]%andb_true_iff). apply problems_nil in E as [H1 _].
  destruct Hv. apply place_built; [subst table; apply elem_of_app; right; left|]. rewrite <- Hp. apply H1; [|done].
  apply elem_of_app. right. left.
Qed.

Lemma removed_refused u table : built_allowed u table ≠ [] → problems_in u (removed_calls u (built_allowed u table) table) ≠ [].
Proof.
  intros (pair & Hp)%elem_not_nil E%problems_nil. pose proof Hp as [Ha (r & Hr & Hf)]%elem_of_built.
  unfold removed_calls in E. set (gone := fun r : row => if decide (place r ∈ _) then _ else _) in E.
  assert (∀ r, place (gone r) = place r) as Hg by (intros r'; subst gone; cbn beta; by destruct (decide _)).
  destruct E as [_ H2]. destruct (H2 pair Ha) as (g & (r' & -> & Hr')%list_elem_of_fmap & Eg & e & He & Hn).
  { exists (gone r). split; [apply list_elem_of_fmap; by exists r|]. change ((place (gone r)).1 = pair.1). by rewrite Hg. }
  rewrite Hg in Eg. subst gone. cbn beta in He. rewrite decide_True in He by by rewrite Eg.
  cbn in He. by destruct He as [[? _]%list_elem_of_filter|[? _]%list_elem_of_filter].
Qed.

(** The negative controls of a rule are always refused, so the rule that reports
    nothing passes: the only other end is a table in which every function of the
    kernel is an allowed user. *)
Theorem controls_refused u table : 64 ∉ u_helper u →
  match controls_fail u table with
  | Ok failed => failed = []
  | Err e => e = StopIteration ∧
      ∀ r, r ∈ table → startswith (r_file r) ($"kernel/") = true → place r ∈ u_allowed u
  end.
Proof.
  intros Hh. unfold controls_fail. set (use := u_helper u ++ _).
  assert (callee_name use = u_helper u) as Hu by by apply planted_name.
  assert (∀ r, r ∈ table → victim (built_allowed u table) r = false →
    startswith (r_file r) ($"kernel/") = true → place r ∈ u_allowed u) as Hv.
  { intros r Hr Hv Hs. unfold victim in Hv. rewrite Hs in Hv. apply bool_decide_eq_false, dec_stable in Hv.
    by apply place_built in Hv. }
  pose proof (planted_refused u table ($"a planted call") (with_callees (fun entries => entries ++ [use]))) as H1.
  destruct (planted_control _ _ _ _) as [f1|e]; cbn [mbind res_bind].
  2:{ destruct H1 as [-> H1]; [done| |by eauto]. intros r. exists use. split; [left|done]. apply elem_of_app. right. left. }
  rewrite H1; [|done|intros r; exists use; split; [left; apply elem_of_app; right; left|done]].
  pose proof (planted_refused u table ($"a planted function-pointer reference") (with_values (fun entries => entries ++ [use]))) as H2.
  destruct (planted_control _ _ _ _) as [f2|e]; cbn [mbind res_bind].
  2:{ destruct H2 as [-> H2]; [done| |by eauto]. intros r. exists use. split; [right|done]. apply elem_of_app. right. left. }
  rewrite H2; [|done|intros r; exists use; split; [right; apply elem_of_app; right; left|done]].
  destruct (decide (built_allowed u table = [])) as [|Hb]; [done|]. cbn.
  by rewrite decide_False by by apply removed_refused.
Qed.

Lemma controls_refused_witness :
  controls_fail (Rule ($"r") ($"page_map") [($"kernel/mm.tkb", $"map_user")] ($"#1") ($"one owner"))
    [simple_row ($"kernel/mm.tkb") ($"map_user") [] [$"page_map@kernel/mm.tkb:9"];
     simple_row ($"kernel/fs.tkb") ($"read") [] []] = Ok [].
Proof.
  pose proof (controls_refused (Rule ($"r") ($"page_map") [($"kernel/mm.tkb", $"map_user")] ($"#1") ($"one owner"))
    [simple_row ($"kernel/mm.tkb") ($"map_user") [] [$"page_map@kernel/mm.tkb:9"];
     simple_row ($"kernel/fs.tkb") ($"read") [] []]) as H.
  destruct (controls_fail _ _) as [failed|e] eqn:E.
  - f_equal. apply H. apply (bool_decide_unpack _). vm_compute. exact I.
  - exfalso. vm_compute in E. discriminate E.
Defined.

(** ** The list *)

Lemma file_function_parts caller file function :
  file_function caller = Some (file, function) ↔ caller = file ++ $":" ++ function ∧ file ≠ [] ∧ function ≠ [] ∧ (58 ∉ file).
Proof.
  unfold file_function. split.
  - destruct (span_spec (fun c => negb (c =? 58)) caller) as (E & F & H).
    destruct (span _ caller) as [[|c file'] [|d [|f function']]]; try done. cbn [fst snd] in *. intros [= <- <-].
    specialize (H d eq_refl). apply negb_false_iff, Z.eqb_eq in H as ->. split_and!; try done.
    rewrite Forall_forall in F. intros Hin. by specialize (F _ Hin).
  - intros (-> & Hf & Hn & Hc). rewrite span_app; [by destruct file, function| |by intros a [= <-]].
    apply Forall_forall. intros c Hin. apply negb_true_iff, Z.eqb_neq. by intros ->.
Qed.

Section reading.
Variable is_file : str → bool.

Lemma add_callers_ok number callers allowed allowed' :
  foldM (add_caller is_file number) allowed callers = Ok allowed' → NoDup allowed →
  NoDup allowed' ∧ (∀ pair, pair ∈ allowed' ↔ pair ∈ allowed ∨ ∃ caller, caller ∈ callers ∧ file_function caller = Some pair) ∧
  (∀ caller, caller ∈ callers → ∃ pair, file_function caller = Some pair ∧ is_file pair.1 = true).
Proof.
  revert allowed. induction callers as [|caller callers IH]; cbn; intros allowed.
  { intros [= ->] Hd. split_and!; [done| |by intros caller ?%not_elem_of_nil].
    intros pair. split; [by left|]. by intros [?|(caller & ?%not_elem_of_nil & _)]. }
  intros (allowed1 & Ha & H)%bind_Ok_inv Hd. unfold add_caller in Ha.
  destruct (file_function caller) as [[file function]|] eqn:Ef; [|done]. destruct (is_file file) eqn:Ei; [|done].
  injection Ha as <-. set (allowed1 := if decide _ then _ else _) in H.
  assert (NoDup allowed1 ∧ ∀ pair, pair ∈ allowed1 ↔ pair ∈ allowed ∨ pair = (file, function)) as [Hd1 H1].
  { subst allowed1. destruct (decide _) as [Hin|Hin]; (split; [|intros pair]).
    - done.
    - split; [by left|]. by intros [?| ->].
    - apply NoDup_app. split_and!; [done|by intros x Hx ->%list_elem_of_singleton|apply NoDup_singleton].
    - by rewrite elem_of_app, list_elem_of_singleton. }
  destruct (IH _ H Hd1) as (Hd2 & H2 & H3). split_and!; [done| |].
  - intros pair. rewrite H2, H1. setoid_rewrite elem_of_cons. split.
    + intros [[?| ->]|(c & ? & ?)]; [by left|right; exists caller; auto|right; exists c; auto].
    + intros [?|(c & [->|?] & E)]; [by left; left|left; right; congruence|right; by exists c].
  - intros c [->|Hc]%elem_of_cons; [by exists (file, function)|by apply H3].
Qed.

(** A rule of a list that is read. *)
Record good_rule (u : rule) : Prop := GoodRule {
  gr_names : strip (u_name u) ≠ [] ∧ strip (u_helper u) ≠ [] ∧ strip (u_issue u) ≠ [] ∧ strip (u_reason u) ≠ [];
  gr_callers : u_allowed u ≠ [];
  gr_files : ∀ pair, pair ∈ u_allowed u → is_file pair.1 = true;
  gr_set : NoDup (u_allowed u) }.

Lemma read_rule_ok rules number line rules' :
  read_rule is_file rules number line = Ok rules' → NoDup (map u_name rules) → Forall good_rule rules →
  NoDup (map u_name rules') ∧ Forall good_rule rules'.
Proof.
  unfold read_rule. destruct (_ || _); [by intros [= ->]|].
  destruct (split_on 9 line) as [|name [|helper [|callers [|issue [|reason []]]]]]; try done.
  destruct (forallb _ _) eqn:Ef; [|done]. intros (allowed & Ha & H)%bind_Ok_inv Hd Hg.
  destruct (decide _) as [|Hn]; [done|]. injection H as <-.
  apply add_callers_ok in Ha as (Hda & Hin & Hfile); [|constructor]. split.
  - rewrite map_app. apply NoDup_app. split_and!; [done|by intros x Hx ->%list_elem_of_singleton|apply NoDup_singleton].
  - apply Forall_app. split; [done|]. apply Forall_singleton. cbn in Ef. rewrite !andb_true_iff, !bool_decide_eq_true in Ef.
    constructor; cbn [u_name u_helper u_issue u_reason u_allowed]; [tauto| | |done].
    + destruct (split_on 44 callers) as [|c cs] eqn:Es; [by destruct (split_on_not_nil 44 callers)|].
      destruct (Hfile c) as (pair & Hp & _); [left|]. apply elem_not_nil. exists pair. apply Hin. right. exists c.
      split; [left|done].
    + intros pair Hp. apply Hin in Hp as [?%not_elem_of_nil|(c & Hc & E)]; [done|].
      destruct (Hfile c Hc) as (pair' & E' & ?). congruence.
Qed.

(** What is read as a list has rules of distinct names, each complete, with callers
    whose files exist: no rule is about nothing. *)
Lemma read_list_ok text rules : read_list is_file text = Ok rules →
  rules ≠ [] ∧ NoDup (map u_name rules) ∧ Forall good_rule rules.
Proof.
  unfold read_list. intros (rs & Hr & H)%bind_Ok_inv. destruct (decide _) as [|Hn]; [done|]. injection H as <-.
  split; [done|]. clear Hn.
  assert (∀ lines done number, read_rules is_file done number lines = Ok rs → NoDup (map u_name done) → Forall good_rule done →
    NoDup (map u_name rs) ∧ Forall good_rule rs) as Hl; [|by eapply Hl; [done|constructor|constructor]].
  clear Hr. induction lines as [|line lines IH]; cbn; intros done number; [by intros [= ->]|].
  intros (rs1 & H1 & H2)%bind_Ok_inv Hd Hg. destruct (read_rule_ok _ _ _ _ H1 Hd Hg). by eapply IH.
Qed.

(** Status 0: the list and the table are read, and every rule is kept. *)
Lemma allowed_status read_text list_path path lines :
  main is_file read_text list_path path = Ok (0, lines) →
  ∃ listed rules text table, read_text list_path = Ok listed ∧ read_list is_file listed = Ok rules ∧
    read_text path = Ok text ∧ parse text path = Ok table ∧ ∀ u, u ∈ rules → reviewed u table.
Proof.
  unfold main. destruct (_ ← read_text list_path; _) as [[rules table]|e] eqn:E.
  2:{ destruct e; try done. by destruct (_ || _). }
  apply bind_Ok_inv in E as (listed & El & (rs & Er & (text & Et & (tb & Ep & [= -> ->])%bind_Ok_inv)%bind_Ok_inv)%bind_Ok_inv).
  intros (said & Hs & H)%bind_Ok_inv. destruct (decide (concat said = [])) as [Ec|]; [|done]. clear H.
  exists listed, rules, text, table. split_and!; [done..|]. intros u Hu. apply problems_nil.
  apply mapM_res_Forall2 in Hs. clear -Hs Ec Hu. revert Ec Hu. induction Hs as [|u' s rules said Hus _ IH]; cbn; [by intros _ ?%not_elem_of_nil|].
  intros [-> Ec]%app_eq_nil [<-|Hu]%elem_of_cons; [|by apply IH]. unfold check_rule in Hus.
  destruct (decide (problems_in u table = [])); [done|]. injection Hus as Hus. by apply app_eq_nil in Hus as [_ ?].
Qed.
End reading.
