(* ===== verification/WorldStop.v ===== *)
(** * The rank of the world stop

    Model of scripts/buildcheck_world_stop_rank.py: the stop declares a lock rank below
    that of every other lock class, and its body without a rank is called only by the
    stop or by a probe.  The theorem says when the check is silent. *)
From S2P Require Import Prelude Text Dict Sort PassLine CallGraph.

Definition BEGIN : str := $"world_stop_machine_begin".
Definition UNRANKED : str := $"world_stop_machine_begin_holding_probe".
Definition FILE : str := $"kernel/lib/occupancy.tkb".

(** [RANK.match]: no digit is an underscore, so the first run of digits is the rank. *)
Definition match_rank (effect : str) : option (Z * str) :=
  match strip_prefix ($"acquires_lock_") effect with
  | None => None
  | Some rest =>
      match span is_digit rest with
      | (((_ :: _) as digits), c :: ((_ :: _) as name)) =>
          if (c =? 95) && forallb is_word name then Some (int_of_digits digits, name) else None
      | _ => None
      end
  end.

Definition declared_ranks (r : row) : list (Z * str) :=
  if decide (r_declared r = $"-" ∨ r_declared r = $"{}") then []
  else omap (fun effect => match_rank (strip effect)) (split_on 44 (r_declared r)).

Definition rank_le (a b : (Z * str) * row) : bool :=
  (a.1.1 <? b.1.1) || (a.1.1 =? b.1.1) && str_le a.1.2 b.1.2.

(** The lock classes other than the stop's, each with the first row that declares it. *)
Definition note_class (r : row) (others : list ((Z * str) * row)) (class : Z * str) : list ((Z * str) * row) :=
  if decide (class.2 = $"world_stop") then others
  else if dmem class others then others else dset class r others.
Definition other_classes (rows : list row) : list ((Z * str) * row) :=
  foldl (fun others r => foldl (note_class r) others (declared_ranks r)) [] rows.

Definition undefined_problem : str :=
  BEGIN ++ $" and " ++ UNRANKED ++ $" are not each defined once in " ++ FILE ++
  $"; a rename would leave this check matching nothing".
Definition rankless_problem : str := BEGIN ++ $" declares no acquires_lock_<rank>_world_stop (#641)".
Definition class_problem (stop_rank : Z) (class : (Z * str) * row) : str :=
  let '(rank, name, r) := class in
  r_file r ++ $":" ++ r_line r ++ $" " ++ r_name r ++ $": lock class " ++ name ++ $" has rank " ++ dec rank ++
  $", not above the world stop's " ++ dec stop_rank ++
  $": a caller holding it could begin a stop its peers cannot acknowledge (#641)".
Definition caller_problem (entry : str) : str :=
  entry ++ $": " ++ callee_name entry ++ $" calls " ++ UNRANKED ++
  $", which carries no lock rank; only a single-attempt *_probe may hold a guard across a stop (#641)".

Definition may_call (entry : str) : bool :=
  bool_decide (callee_name entry = BEGIN) && bool_decide (callee_file entry = FILE)
  || endswith (callee_name entry) ($"_probe").

Definition defined_as (name : str) (rows : list row) : list row :=
  filter (fun r => r_name r = name ∧ r_file r = FILE) rows.

Definition rank_problems (rows : list row) : list str * Z * Z :=
  match defined_as BEGIN rows, defined_as UNRANKED rows with
  | [begin], [body] =>
      match map fst (filter (fun class => class.2 = $"world_stop") (declared_ranks begin)) with
      | [stop_rank] =>
          let others := other_classes rows in
          (map (class_problem stop_rank) (filter (fun class => class.1.1 ≤ stop_rank) (py_sorted rank_le others))
           ++ map caller_problem (filter (fun entry => may_call entry = false) (r_callers body)),
           zlen (remove_dups (map (fun class => class.1.2) others)), zlen (r_callers body))
      | _ => ([rankless_problem], 0, 0)
      end
  | _, _ => ([undefined_problem], 0, 0)
  end.

(** ** The controls *)

Definition planted : list row → str → (row → row) → res (list row) := plant ($"world-stop-rank").

Definition accepted (rows : list row) (label : str) : list str :=
  if decide ((rank_problems rows).1.1 = []) then [label] else [].

Definition controls_fail (rows : list row) : res (list str) :=
  retry ← planted rows UNRANKED (with_callers (fun callers => callers ++ [$"kernel_retry@kernel/x.tkb:1"]));
  unranked ← planted rows BEGIN (with_declared (replace ($"acquires_lock_10_world_stop") ($"unsafe")));
  low ← planted rows BEGIN (with_declared (fun declared => declared ++ $",acquires_lock_5_console"));
  renamed ← planted rows BEGIN (with_name (fun _ => $"world_stop_begin_all"));
  Ok (accepted retry ($"a non-probe caller of the unranked body")
      ++ accepted unranked ($"a stop with no declared rank")
      ++ accepted low ($"a lock class ranked below the stop")
      ++ accepted renamed ($"a renamed stop")).

Definition main (read_text : str → res str) (path : str) : res (Z * list str) :=
  match (text ← read_text path; parse text path) with
  | Err (Custom cls message) =>
      if bool_decide (cls = "TableError"%string) || bool_decide (cls = "OSError"%string)
      then Ok (1, [$"FAIL world-stop-rank: " ++ message]) else Err (Custom cls message)
  | Err e => Err e
  | Ok rows =>
      let '(problems, classes, callers) := rank_problems rows in
      if decide (problems = []) then
        not_refused ← controls_fail rows;
        if decide (not_refused = []) then
          line ← report_pass ($"world-stop-rank")
            ($"the stop's rank is below " ++ dec classes ++ $" other lock class(es) and " ++ dec callers ++
             $" caller(s) of its unranked body are the stop or a probe, in " ++ path)
            [($"lock_classes", classes); ($"probe_callers", callers)];
          Ok (0, [line])
        else Ok (1, [$"FAIL world-stop-rank: negative control(s) " ++ join ($"; ") not_refused ++
                     $" were accepted, so this check proves nothing"])
      else Ok (1, map (fun p => $"ERROR world-stop-rank: " ++ p) problems
                  ++ [$"FAIL world-stop-rank: the world stop's lock rank does not cover its retry"])
  end.

(** ** Ranks in the text *)

(** The row declares the class [name] at [rank]: an effect between the commas, spaces
    around it aside. *)
Definition declares (r : row) (rank : Z) (name : str) : Prop :=
  ∃ effect digits, effect ∈ split_on 44 (r_declared r) ∧ strip effect = $"acquires_lock_" ++ digits ++ $"_" ++ name ∧
    digits ≠ [] ∧ Forall (fun c => is_digit c = true) digits ∧ name ≠ [] ∧ Forall (fun c => is_word c = true) name ∧
    rank = int_of_digits digits.

Lemma match_rank_Some effect rank name : match_rank effect = Some (rank, name) ↔
  ∃ digits, effect = $"acquires_lock_" ++ digits ++ $"_" ++ name ∧ digits ≠ [] ∧
    Forall (fun c => is_digit c = true) digits ∧ name ≠ [] ∧ Forall (fun c => is_word c = true) name ∧
    rank = int_of_digits digits.
Proof.
  unfold match_rank. split.
  - destruct (strip_prefix _ effect) as [rest|] eqn:E; [|done]. apply strip_prefix_Some in E as ->.
    destruct (span_spec is_digit rest) as (E & F & _). destruct (span is_digit rest) as [[|d digits] [|c [|n name']]]; try done.
    destruct ((c =? 95) && _) eqn:Ec; [|done]. intros [= <- <-]. apply andb_true_iff in Ec as [->%Z.eqb_eq Hw].
    cbn [fst snd] in *. exists (d :: digits). rewrite E. split_and!; try done. by apply List.Forall_forall, forallb_forall.
  - intros (digits & -> & Hd & Fd & Hn & Fn & ->). rewrite strip_prefix_app, span_app; [|done|by intros a [= <-]].
    destruct digits as [|d digits]; [done|]. destruct name as [|n name]; [done|].
    change ((if forallb is_word (n :: name) then Some (int_of_digits (d :: digits), n :: name) else None) =
            Some (int_of_digits (d :: digits), n :: name)).
    rewrite (proj2 (forallb_forall is_word (n :: name))); [done|]. by apply List.Forall_forall.
Qed.

Lemma elem_of_declared r rank name : (rank, name) ∈ declared_ranks r ↔ declares r rank name.
Proof.
  unfold declared_ranks, declares. case_decide as Hc.
  - split; [by intros ?%not_elem_of_nil|]. intros (effect & digits & He & Hs & _).
    assert (effect = r_declared r) as ->.
    { destruct Hc as [E|E]; rewrite E in He; by apply list_elem_of_singleton in He as ->. }
    by destruct Hc as [E|E]; rewrite E in Hs.
  - rewrite list_elem_of_omap. setoid_rewrite match_rank_Some. split.
    + intros (effect & He & digits & H). by exists effect, digits.
    + intros (effect & digits & He & H). exists effect. split; [done|]. by exists digits.
Qed.

Lemma note_class_keys r others class c :
  c ∈ map fst (note_class r others class) ↔ c ∈ map fst others ∨ (c = class ∧ class.2 ≠ $"world_stop").
Proof.
  unfold note_class. case_decide as Hw; [by split; [left|intros [?|[-> ?]]]|]. destruct (dmem class others) eqn:E.
  - apply dmem_true in E. split; [by left|]. by intros [?|[-> ?]].
  - rewrite dset_new; [|rewrite <- dmem_true; by rewrite E]. rewrite map_app, elem_of_app. cbn [map fst]. rewrite list_elem_of_singleton. tauto.
Qed.

Lemma note_classes_keys r classes others c :
  c ∈ map fst (foldl (note_class r) others classes) ↔ c ∈ map fst others ∨ (c ∈ classes ∧ c.2 ≠ $"world_stop").
Proof.
  revert others. induction classes as [|class classes IH]; intros others; cbn.
  - split; [by left|]. by intros [?|[?%not_elem_of_nil _]].
  - rewrite IH, note_class_keys, elem_of_cons. split; [intros [[?|[-> ?]]|[? ?]]; auto|intros [?|[[->|?] ?]]; auto].
Qed.

Lemma other_classes_keys rows c :
  c ∈ map fst (other_classes rows) ↔ c.2 ≠ $"world_stop" ∧ ∃ r, r ∈ rows ∧ c ∈ declared_ranks r.
Proof.
  unfold other_classes.
  assert (∀ others, c ∈ map fst (foldl (fun others r => foldl (note_class r) others (declared_ranks r)) others rows) ↔
    c ∈ map fst others ∨ (c.2 ≠ $"world_stop" ∧ ∃ r, r ∈ rows ∧ c ∈ declared_ranks r)) as H.
  { induction rows as [|r rows IH]; intros others; cbn.
    - split; [by left|]. by intros [?|(_ & r & ?%not_elem_of_nil & _)].
    - rewrite IH, note_classes_keys. setoid_rewrite elem_of_cons. split.
      + intros [[?|[? ?]]|(? & r' & ? & ?)]; [by left|right; split; [done|]; exists r; auto|right; split; [done|]; exists r'; auto].
      + intros [?|(? & r' & [->|?] & ?)]; [by left; left|left; right; done|right; split; [done|]; by exists r']. }
  rewrite H. split; [by intros [?%not_elem_of_nil|]|by right].
Qed.

(** What the check claims of a table. *)
Record stop_ranked (rows : list row) (begin body : row) (stop_rank : Z) : Prop := StopRanked {
  one_begin : defined_as BEGIN rows = [begin];
  one_body : defined_as UNRANKED rows = [body];
  one_rank : map fst (filter (fun class => class.2 = $"world_stop") (declared_ranks begin)) = [stop_rank];
  ranks_above : ∀ r rank name, r ∈ rows → declares r rank name → name ≠ $"world_stop" → stop_rank < rank;
  probes_only : ∀ entry, entry ∈ r_callers body →
    (callee_name entry = BEGIN ∧ callee_file entry = FILE) ∨ endswith (callee_name entry) ($"_probe") = true }.

Lemma may_call_true entry : may_call entry = true ↔
  (callee_name entry = BEGIN ∧ callee_file entry = FILE) ∨ endswith (callee_name entry) ($"_probe") = true.
Proof. unfold may_call. by rewrite orb_true_iff, andb_true_iff, !bool_decide_eq_true. Qed.

Lemma low_classes rows stop_rank :
  (∀ class, class ∈ py_sorted rank_le (other_classes rows) → ¬ (class.1.1 ≤ stop_rank)) ↔
  ∀ r rank name, r ∈ rows → declares r rank name → name ≠ $"world_stop" → stop_rank < rank.
Proof.
  setoid_rewrite elem_of_py_sorted. split.
  - intros H r rank name Hr Hd%elem_of_declared Hn.
    assert ((rank, name) ∈ map fst (other_classes rows)) as (class & E & Hin)%list_elem_of_fmap
      by (apply other_classes_keys; split; [done|by exists r]).
    specialize (H class Hin). rewrite <- E in H. cbn in H. lia.
  - intros H [[rank name] r] Hin. cbn.
    assert ((rank, name) ∈ map fst (other_classes rows)) as [Hn (r' & Hr & Hd%elem_of_declared)]%other_classes_keys
      by (apply list_elem_of_fmap; by exists (rank, name, r)).
    specialize (H r' rank name Hr Hd Hn). lia.
Qed.

(** The check finds no problem exactly when the stop and its body are each defined
    once, the stop declares one rank, every other lock class declared anywhere in the
    table has a higher one, and the body is called by the stop and by probes only. *)
Theorem world_stop_iff rows :
  (rank_problems rows).1.1 = [] ↔ ∃ begin body stop_rank, stop_ranked rows begin body stop_rank.
Proof.
  unfold rank_problems. split.
  - destruct (defined_as BEGIN rows) as [|begin []] eqn:Eb, (defined_as UNRANKED rows) as [|body []] eqn:Eu; try done.
    destruct (map fst _) as [|stop_rank []] eqn:Es; try done. cbn [fst].
    intros [H1 H2]%app_eq_nil. exists begin, body, stop_rank. constructor; try done.
    + apply low_classes. by rewrite (filter_map_nil (class_problem stop_rank)) in H1.
    + intros entry Hin. apply may_call_true. rewrite (filter_map_nil caller_problem) in H2.
      by apply not_false_iff_true, H2.
  - intros (begin & body & stop_rank & [-> -> -> H1 H2]). cbn [fst].
    rewrite (proj2 (filter_map_nil (class_problem stop_rank) _ _)) by by apply low_classes.
    apply (filter_map_nil caller_problem). intros entry Hin. rewrite not_false_iff_true. by apply may_call_true, H2.
Qed.
