(* ===== verification/NetFrame.v ===== *)
(** * Network frames

    The frames of the network tests: the Internet checksum and the Ethernet, IPv4, TCP
    and ICMP headers of scripts/eth_tcp_echo_test.py and scripts/eth_icmp_echo_test.py,
    and the ARP request of scripts/eth_arp_reply_test.py.  The theorems say that what
    is built decodes to its arguments with both checksums right, and when the
    checksum that is corrupted on purpose is wrong. *)
From S2P Require Import Prelude Bytes.

(** ** The checksum *)

(** The loop over the pairs of bytes; an odd last byte counts with a zero after it. *)
Fixpoint checksum_add (data : bytes) (s : Z) : Z :=
  match data with
  | [] => s
  | [a] => s + Z.lor (Z.shiftl a 8) 0
  | a :: b :: data => checksum_add data (s + Z.lor (Z.shiftl a 8) b)
  end.

Definition fold_body (s : Z) : flow Z (res Z) :=
  if Z.shiftr s 16 =? 0 then Stop (Ok (Z.land (Z.lnot s) 65535)) else Next (Z.land s 65535 + Z.shiftr s 16).
Definition checksum_fold (s : Z) : res Z := while (Z.to_nat (Z.log2 s) + 3) fold_body s.

Definition inet_checksum (data : bytes) : res Z := checksum_fold (checksum_add data 0).

(** ** TCP *)

Definition FLAG_FIN : Z := 1.
Definition FLAG_SYN : Z := 2.
Definition FLAG_RST : Z := 4.
Definition FLAG_PSH : Z := 8.
Definition FLAG_ACK : Z := 16.

Definition seq_add (seq n : Z) : Z := Z.land (seq + n) 4294967295.

(** The module's addresses. *)
Record addresses := Addresses { CLIENT_IP : bytes; SERVER_IP : bytes; SERVER_MAC : bytes }.

(** [4s]: cut to four bytes or filled with zeros. *)
Definition pack_4s (b : bytes) : bytes := take 4 (b ++ zeros 4).

Definition ETH_IPV4 : bytes := [8; 0].

(** The 20 fixed bytes of a TCP header: [!HHIIBBHHH]. *)
Definition pack_tcp (src dst seq ack doff flags csum : Z) : res bytes :=
  p1 ← pack_be 2 src; p2 ← pack_be 2 dst; p3 ← pack_be 4 seq; p4 ← pack_be 4 ack; p5 ← pack_be 1 doff;
  p6 ← pack_be 1 flags; p7 ← pack_be 2 65535; p8 ← pack_be 2 csum; p9 ← pack_be 2 0;
  Ok (p1 ++ p2 ++ p3 ++ p4 ++ p5 ++ p6 ++ p7 ++ p8 ++ p9).

(** The 20 bytes of an IPv4 header: [!BBHHHBBH4s4s]. *)
Definition pack_ip (total_len protocol csum : Z) (source destination : bytes) : res bytes :=
  len ← pack_be 2 total_len; c ← pack_be 2 csum; p ← pack_be 1 protocol;
  Ok ([69; 0] ++ len ++ [0; 0] ++ [0; 0] ++ [64] ++ p ++ c ++ pack_4s source ++ pack_4s destination).

Definition ip_header (total_len protocol : Z) (source destination : bytes) : res bytes :=
  ip_no_csum ← pack_ip total_len protocol 0 source destination;
  ip_csum ← inet_checksum ip_no_csum;
  pack_ip total_len protocol ip_csum source destination.

Definition pseudo_header (source destination : bytes) (len : Z) : res bytes :=
  l ← pack_be 2 len; Ok (source ++ destination ++ [0; 6] ++ l).

Definition build_frame (c : addresses) (server_port : Z) (client_mac : bytes) (client_port seq ack flags : Z)
    (data : bytes) (corrupt_tcp_checksum : bool) (options : bytes) : res bytes :=
  let doff_words := 5 + zlen options / 4 in
  header ← pack_tcp client_port server_port seq ack (Z.shiftl doff_words 4) flags 0;
  let tcp_no_csum := header ++ options ++ data in
  pseudo ← pseudo_header (CLIENT_IP c) (SERVER_IP c) (zlen tcp_no_csum);
  csum ← inet_checksum (pseudo ++ tcp_no_csum);
  let csum := if corrupt_tcp_checksum then Z.lxor csum 65535 else csum in
  header ← pack_tcp client_port server_port seq ack (Z.shiftl doff_words 4) flags csum;
  let tcp := header ++ options ++ data in
  ip ← ip_header (20 + zlen tcp) 6 (CLIENT_IP c) (SERVER_IP c);
  Ok ((SERVER_MAC c ++ client_mac ++ ETH_IPV4) ++ ip ++ tcp).

(** [struct.unpack("!HHIIBB", tcp[0:14])]. *)
Record segment := Segment { src_port : Z; dst_port : Z; s_seq : Z; s_ack : Z; doff_res : Z; s_flags : Z }.
Definition unpack_segment (b : bytes) : res segment :=
  if zlen b =? 14 then
    src ← unpack_be 2 b 0; dst ← unpack_be 2 b 2; seq ← unpack_be 4 b 4; ack ← unpack_be 4 b 8;
    doff ← unpack_be 1 b 12; flags ← unpack_be 1 b 13;
    Ok (Segment src dst seq ack doff flags)
  else Err StructError.

(** The check of a reply's TCP checksum, with the addresses of its IP header. *)
Definition verify_tcp (ip tcp : bytes) : res bool :=
  pseudo ← pseudo_header (slice ip 12 16) (slice ip 16 20) (zlen tcp);
  c ← inet_checksum (pseudo ++ tcp);
  Ok (c =? 0).

(** ** ICMP and ARP *)

Definition pack_icmp (csum ident seq : Z) : res bytes :=
  c ← pack_be 2 csum; i ← pack_be 2 ident; s ← pack_be 2 seq; Ok ([8; 0] ++ c ++ i ++ s).

Definition build_echo_request (target_mac requester_ip requester_mac dst_ip payload : bytes) (ident seq : Z)
    (corrupt_icmp_checksum : bool) : res bytes :=
  header ← pack_icmp 0 ident seq;
  csum ← inet_checksum (header ++ payload);
  let csum := if corrupt_icmp_checksum then Z.lxor csum 65535 else csum in
  header ← pack_icmp csum ident seq;
  let icmp := header ++ payload in
  ip_hdr ← ip_header (20 + zlen icmp) 1 requester_ip dst_ip;
  Ok ((target_mac ++ requester_mac ++ ETH_IPV4) ++ ip_hdr ++ icmp).

Definition ARP_ETHERTYPE : bytes := [8; 6].
Definition BROADCAST_MAC : bytes := replicate 6 255.
Definition build_arp_request (requester_ip requester_mac target_ip : bytes) : bytes :=
  (BROADCAST_MAC ++ requester_mac ++ ARP_ETHERTYPE)
  ++ ([0; 1] ++ [8; 0] ++ [6; 4] ++ [0; 1] ++ requester_mac ++ requester_ip ++ replicate 6 0 ++ target_ip).

(** ** The checksum's value *)

(** The sum of the 16-bit words in ones' complement, 0 for no bits at all. *)
Definition ones (s : Z) : Z := if s =? 0 then 0 else (s - 1) mod 65535 + 1.

Lemma ones_small s : 0 ≤ s ≤ 65535 → ones s = s.
Proof. intros Hs. unfold ones. zcase; [lia|]. rewrite Z.mod_small by lia. lia. Qed.

Lemma ones_step s : 65536 ≤ s → ones (s mod 65536 + s / 65536) = ones s.
Proof.
  intros Hs. pose proof (Z.div_mod s 65536 ltac:(lia)) as E. pose proof (Z.mod_pos_bound s 65536 ltac:(lia)).
  assert (1 ≤ s / 65536) by (apply Z.div_le_lower_bound; lia). unfold ones.
  rewrite (proj2 (Z.eqb_neq _ _)), (proj2 (Z.eqb_neq s 0)) by lia. f_equal.
  rewrite E at 3. replace (65536 * (s / 65536) + s mod 65536 - 1) with (s mod 65536 + s / 65536 - 1 + s / 65536 * 65535) by lia.
  by rewrite Z.mod_add.
Qed.

Lemma ones_range s : 0 ≤ s → 0 ≤ ones s ≤ 65535.
Proof. intros Hs. unfold ones. zcase; [lia|]. pose proof (Z.mod_pos_bound (s - 1) 65535). lia. Qed.

(** The checksum verifies when the words add up to a positive multiple of 65535. *)
Lemma ones_max s : 0 ≤ s → ones s = 65535 ↔ s ≠ 0 ∧ s mod 65535 = 0.
Proof.
  intros Hs. unfold ones. zcase; [lia|]. split.
  - intros Ho. split; [done|]. replace s with (s - 1 + 1) by lia. rewrite Z.add_mod by lia.
    replace ((s - 1) mod 65535) with 65534 by lia. done.
  - intros [_ Em]. pose proof (Z.div_mod s 65535 ltac:(lia)) as Es. rewrite Em in Es.
    replace (s - 1) with (65534 + (s / 65535 - 1) * 65535) by lia. rewrite Z.mod_add by lia. done.
Qed.

(** The rounds that are left. *)
Definition fold_rounds (s : Z) : nat :=
  if s <? 65536 then 0 else if s <? 131071 then 1 else if s =? 131071 then 2 else Z.to_nat (Z.log2 s).

Lemma fold_rounds_step s : 65536 ≤ s → (fold_rounds (s mod 65536 + s / 65536) < fold_rounds s)%nat.
Proof.
  intros Hs. pose proof (Z.div_mod s 65536 ltac:(lia)) as E. pose proof (Z.mod_pos_bound s 65536 ltac:(lia)) as Hm.
  set (q := s / 65536) in *. set (m := s mod 65536) in *. unfold fold_rounds at 2. rewrite (proj2 (Z.ltb_ge s 65536)) by lia.
  destruct (Z.ltb_spec s 131071).
  { unfold fold_rounds. rewrite (proj2 (Z.ltb_lt _ _)) by lia. lia. }
  destruct (Z.eqb_spec s 131071).
  { unfold fold_rounds. replace (m + q) with 65536 by lia. cbn. lia. }
  assert (17 ≤ Z.log2 s) by (change 17 with (Z.log2 131072); apply Z.log2_le_mono; lia).
  unfold fold_rounds. destruct (Z.ltb_spec (m + q) 65536); [lia|]. destruct (Z.ltb_spec (m + q) 131071); [lia|].
  destruct (Z.eqb_spec (m + q) 131071); [lia|]. apply Z2Nat.inj_lt; [apply Z.log2_nonneg..|].
  apply Z.log2_lt_pow2; [lia|].
  assert (2 * (m + q) ≤ s) as Hhalf by lia. pose proof (Z.log2_spec s ltac:(lia)) as [_ Hlt].
  rewrite Z.pow_succ_r in Hlt by apply Z.log2_nonneg. lia.
Qed.

Lemma checksum_fold_ones s : 0 ≤ s → checksum_fold s = Ok (65535 - ones s).
Proof.
  intros Hs. unfold checksum_fold.
  apply (while_total fold_body (fun s' => 0 ≤ s' ∧ ones s' = ones s) (fun o => o = Ok (65535 - ones s)) fold_rounds).
  - intros s' [Hs' E]. unfold fold_body. rewrite Z.shiftr_div_pow2 by lia. change (2 ^ 16) with 65536.
    change 65535 with (Z.ones 16) at 2. rewrite Z.land_ones by lia. change (2 ^ 16) with 65536.
    destruct (Z.eqb_spec (s' / 65536) 0) as [E0|E0].
    + apply Z.div_small_iff in E0; [|lia]. destruct E0; [|lia]. rewrite <- E, ones_small by lia. f_equal.
      change 65535 with (Z.ones 16) at 1. rewrite Z.land_ones by lia. change (2 ^ 16) with 65536.
      unfold Z.lnot. replace (Z.pred (- s')) with (65535 - s' + (-1) * 65536) by lia. rewrite Z.mod_add by lia.
      apply Z.mod_small. lia.
    + assert (65536 ≤ s') by (destruct (Z_lt_dec s' 65536); [by rewrite Z.div_small in E0|lia]).
      split; [|by apply fold_rounds_step]. split; [|by rewrite ones_step].
      pose proof (Z.mod_pos_bound s' 65536). pose proof (Z.div_pos s' 65536). lia.
  - done.
  - unfold fold_rounds. destruct (_ <? _); [lia|]. destruct (_ <? _); [lia|]. destruct (_ =? _); lia.
Qed.

(** ** A checksum in its field *)

Lemma checksum_add_acc data s : checksum_add data s = s + checksum_add data 0.
Proof.
  remember (length data) as n eqn:Hn. revert data s Hn. induction (lt_wf n) as [n _ IH]. intros [|a [|b data]] s ->;
    cbn [checksum_add]; [lia..|].
  rewrite (IH (length data) ltac:(cbn; lia) data (s + _) eq_refl), (IH (length data) ltac:(cbn; lia) data (0 + _) eq_refl). lia.
Qed.

Definition even_len (l : bytes) : Prop := ∃ n, length l = (2 * n)%nat.

Lemma checksum_add_app a b : even_len a → checksum_add (a ++ b) 0 = checksum_add a 0 + checksum_add b 0.
Proof.
  intros [n Hn]. revert a Hn. induction n as [|n IH]; intros a Hn; [by destruct a|].
  destruct a as [|x [|y a]]; [done|cbn in Hn; lia|]. cbn [app checksum_add].
  rewrite (checksum_add_acc (a ++ b)), (checksum_add_acc a), IH by (cbn in Hn; lia). lia.
Qed.

Lemma checksum_add_nonneg data : Forall is_byte data → 0 ≤ checksum_add data 0.
Proof.
  remember (length data) as n eqn:Hn. revert data Hn. induction (lt_wf n) as [n _ IH]. intros [|a [|b data]] -> H;
    cbn [checksum_add]; [lia|..].
  - apply Forall_cons in H as [Ha _]. rewrite Z.lor_0_r.
    assert (0 ≤ Z.shiftl a 8) by (apply Z.shiftl_nonneg; unfold is_byte in Ha; lia). lia.
  - apply Forall_cons in H as [Ha [Hb Hd]%Forall_cons]. rewrite checksum_add_acc.
    assert (0 ≤ Z.lor (Z.shiftl a 8) b) by (apply Z.lor_nonneg; rewrite Z.shiftl_nonneg; unfold is_byte in *; lia).
    specialize (IH (length data) ltac:(cbn; lia) data eq_refl Hd). lia.
Qed.

(** A word that is not zero makes the sum positive. *)
Lemma checksum_add_pos a x y b :
  even_len a → Forall is_byte (a ++ [x; y] ++ b) → 0 < x + y → checksum_add (a ++ [x; y] ++ b) 0 ≠ 0.
Proof.
  intros He Hb Hxy. rewrite checksum_add_app by done. rewrite (checksum_add_app [x; y]) by by exists 1%nat.
  apply Forall_app in Hb as [Ha [Hw Hb]%Forall_app]. apply checksum_add_nonneg in Ha, Hb.
  apply Forall_cons in Hw as [Hx [Hy _]%Forall_cons]. cbn [checksum_add].
  rewrite lor_shiftl_add by (unfold is_byte in Hy; lia). unfold is_byte in *. lia.
Qed.

Lemma be_bytes_2 c : be_bytes 2 c = [c / 256 mod 256; c mod 256].
Proof. done. Qed.

Lemma checksum_add_field pre post c : even_len pre → 0 ≤ c < 65536 →
  checksum_add (pre ++ be_bytes 2 c ++ post) 0 = checksum_add (pre ++ [0; 0] ++ post) 0 + c.
Proof.
  intros Hp Hc. rewrite !checksum_add_app, be_bytes_2 by (first [done|by exists 1%nat]). cbn [checksum_add].
  pose proof (Z.mod_pos_bound c 256 ltac:(lia)). rewrite lor_shiftl_add by lia. change (2 ^ 8) with 256.
  pose proof (Z.div_mod c 256 ltac:(lia)). rewrite (Z.mod_small (c / 256)) by (split; [apply Z.div_pos|apply Z.div_lt_upper_bound]; lia).
  change (Z.lor (Z.shiftl 0 8) 0) with 0. lia.
Qed.

Lemma inet_checksum_ones data : Forall is_byte data → inet_checksum data = Ok (65535 - ones (checksum_add data 0)).
Proof. intros H. by apply checksum_fold_ones, checksum_add_nonneg. Qed.

Lemma be_bytes_byte n z : Forall is_byte (be_bytes n z).
Proof. unfold be_bytes. by apply Forall_reverse, le_bytes_is_byte. Qed.

Lemma lxor_complement s : 0 ≤ s ≤ 65535 → Z.lxor (65535 - s) 65535 = s.
Proof.
  intros Hs. assert (Z.land (Z.lnot s) 65535 = 65535 - s) as E.
  { change 65535 with (Z.ones 16) at 1. rewrite Z.land_ones by lia. change (2 ^ 16) with 65536. unfold Z.lnot.
    replace (Z.pred (- s)) with (65535 - s + (-1) * 65536) by lia. rewrite Z.mod_add by lia. apply Z.mod_small. lia. }
  rewrite <- E. apply Z.bits_inj'. intros i Hi. rewrite Z.lxor_spec, Z.land_spec, Z.lnot_spec by lia.
  change 65535 with (Z.ones 16). destruct (Z_lt_dec i 16).
  - rewrite Z.ones_spec_low by lia. by destruct (Z.testbit s i).
  - rewrite Z.ones_spec_high by lia. destruct (decide (s = 0)) as [->|]; [by rewrite Z.bits_0|].
    rewrite (Z.bits_above_log2 s i); [done|lia|]. apply Z.log2_lt_pow2; [lia|].
    assert (2 ^ 16 ≤ 2 ^ i) by (apply Z.pow_le_mono_r; lia). lia.
Qed.

Section field.
Variables pre post : bytes.
Hypothesis Hpre : even_len pre.
Hypothesis Hbytes : Forall is_byte (pre ++ [0; 0] ++ post).
Let zeroed := checksum_add (pre ++ [0; 0] ++ post) 0.

Lemma field_bytes c : Forall is_byte (pre ++ be_bytes 2 c ++ post).
Proof using Hbytes.
  apply Forall_app in Hbytes as [? [_ ?]%Forall_app]. apply Forall_app; split; [done|]. apply Forall_app; split; [|done].
  apply be_bytes_byte.
Qed.

(** The checksum of the packet with zeros in the field, put in the field, verifies. *)
Lemma checksum_verifies csum : inet_checksum (pre ++ [0; 0] ++ post) = Ok csum → zeroed ≠ 0 →
  0 ≤ csum < 65536 ∧ inet_checksum (pre ++ be_bytes 2 csum ++ post) = Ok 0.
Proof using Hpre Hbytes.
  rewrite inet_checksum_ones by done. fold zeroed. intros [= <-] Hne.
  assert (0 ≤ zeroed) as Hz by by apply checksum_add_nonneg. pose proof (ones_range zeroed Hz). split; [lia|].
  rewrite inet_checksum_ones by apply field_bytes. f_equal. rewrite checksum_add_field by (done || lia). fold zeroed.
  assert (ones (zeroed + (65535 - ones zeroed)) = 65535); [|lia]. apply ones_max; [lia|]. split; [lia|].
  unfold ones. rewrite (proj2 (Z.eqb_neq zeroed 0)) by done.
  pose proof (Z.div_mod (zeroed - 1) 65535 ltac:(lia)) as E.
  replace (zeroed + (65535 - ((zeroed - 1) mod 65535 + 1))) with (((zeroed - 1) / 65535 + 1) * 65535) by lia.
  apply Z.mod_mul. lia.
Qed.

(** The complement of that checksum does not, unless the checksum is zero. *)
Lemma corrupted_verifies csum : inet_checksum (pre ++ [0; 0] ++ post) = Ok csum → zeroed ≠ 0 →
  0 ≤ Z.lxor csum 65535 < 65536 ∧ (inet_checksum (pre ++ be_bytes 2 (Z.lxor csum 65535) ++ post) = Ok 0 ↔ csum = 0).
Proof using Hpre Hbytes.
  rewrite inet_checksum_ones by done. fold zeroed. intros [= <-] Hne.
  assert (0 ≤ zeroed) as Hz by by apply checksum_add_nonneg. pose proof (ones_range zeroed Hz) as Hr.
  assert (Z.lxor (65535 - ones zeroed) 65535 = ones zeroed) as ->.
  { apply lxor_complement. lia. }
  split; [lia|]. rewrite inet_checksum_ones by apply field_bytes. rewrite checksum_add_field by (done || lia). fold zeroed.
  pose proof (ones_max (zeroed + ones zeroed) ltac:(lia)) as Hm. pose proof (ones_max zeroed Hz) as Hm'.
  transitivity (ones (zeroed + ones zeroed) = 65535); [split; [intros [= ?]; lia|intros ->; done]|].
  transitivity (ones zeroed = 65535); [|lia]. rewrite Hm, Hm'. assert (zeroed mod 65535 = ones zeroed mod 65535) as Eo.
  { unfold ones. rewrite (proj2 (Z.eqb_neq zeroed 0)) by done. rewrite Zplus_mod_idemp_l. f_equal. lia. }
  rewrite Z.add_mod, <- Eo by lia. pose proof (Z.mod_pos_bound zeroed 65535 ltac:(lia)).
  pose proof (Z.div_mod (zeroed mod 65535 + zeroed mod 65535) 65535 ltac:(lia)) as E2.
  split; intros [? E]; (split; [lia|]); [|by rewrite E]. rewrite E in E2. lia.
Qed.
End field.

(** ** The headers *)

Lemma even_len_app a b : even_len a → even_len b → even_len (a ++ b).
Proof. intros [n Hn] [m Hm]. exists (n + m)%nat. rewrite length_app. lia. Qed.

Lemma even_len_z l : zlen l mod 2 = 0 → even_len l.
Proof.
  intros H. exists (Z.to_nat (zlen l / 2)). pose proof (Z.div_mod (zlen l) 2 ltac:(lia)). unfold zlen in *.
  pose proof (Z.div_pos (Z.of_nat (length l)) 2). lia.
Qed.

Definition address (n : Z) (a : bytes) : Prop := zlen a = n ∧ Forall is_byte a.

Lemma pack_4s_address a : address 4 a → pack_4s a = a.
Proof. intros [Hl _]. unfold pack_4s. apply take_app_length'. unfold zlen in Hl. lia. Qed.

Lemma address_bytes n a : address n a → Forall is_byte a.
Proof. by intros []. Qed.

Create HintDb frame.
#[export] Hint Resolve be_bytes_byte address_bytes : frame.
#[export] Hint Extern 1 (Forall is_byte (_ ++ _)) => apply Forall_app; split : frame.
#[export] Hint Extern 1 (Forall is_byte (_ :: _)) => constructor; [unfold is_byte; lia|] : frame.
#[export] Hint Extern 1 (Forall is_byte []) => constructor : frame.

(** An IP header has its length, its addresses and a checksum that verifies. *)
Lemma ip_header_ok total_len protocol source destination :
  0 ≤ total_len < 65536 → 0 ≤ protocol < 256 → address 4 source → address 4 destination →
  ∃ ip, ip_header total_len protocol source destination = Ok ip ∧ zlen ip = 20 ∧ Forall is_byte ip ∧
    slice ip 2 4 = be_bytes 2 total_len ∧ slice ip 12 16 = source ∧ slice ip 16 20 = destination ∧ inet_checksum ip = Ok 0.
Proof.
  intros Ht Hp Hs Hd. unfold ip_header, pack_ip. rewrite !pack_4s_address, (pack_be_ok 2 total_len), (pack_be_ok 2 0), (pack_be_ok 1 protocol) by done.
  cbn [mbind res_bind]. set (pre := [69; 0] ++ be_bytes 2 total_len ++ [0; 0] ++ [0; 0] ++ [64] ++ be_bytes 1 protocol).
  replace ([69; 0] ++ be_bytes 2 total_len ++ [0; 0] ++ [0; 0] ++ [64] ++ be_bytes 1 protocol ++ be_bytes 2 0 ++ source ++ destination)
    with (pre ++ [0; 0] ++ source ++ destination) by (unfold pre; by rewrite <- !app_assoc).
  assert (zlen pre = 10) as Hpre by (unfold pre; rewrite !zlen_app, !zlen_be_bytes; done).
  assert (even_len pre) as He by (apply even_len_z; by rewrite Hpre).
  assert (Forall is_byte (pre ++ [0; 0] ++ source ++ destination)) as Hb by (unfold pre; eauto 20 with frame).
  assert (checksum_add (pre ++ [0; 0] ++ source ++ destination) 0 ≠ 0) as Hne
    by (unfold pre in *; rewrite <- app_assoc in *; apply (checksum_add_pos [] 69 0); [by exists 0%nat|done|lia]).
  destruct (inet_checksum (pre ++ [0; 0] ++ source ++ destination)) as [csum|e] eqn:Ec; [|by rewrite inet_checksum_ones in Ec].
  destruct (checksum_verifies pre (source ++ destination) He Hb csum Ec Hne) as [Hr Hv].
  cbn [mbind res_bind]. rewrite (pack_be_ok 2 csum) by done. cbn [mbind res_bind]. eexists. split; [done|].
  replace ([69; 0] ++ be_bytes 2 total_len ++ [0; 0] ++ [0; 0] ++ [64] ++ be_bytes 1 protocol ++ be_bytes 2 csum ++ source ++ destination)
    with (pre ++ be_bytes 2 csum ++ source ++ destination) by (unfold pre; by rewrite <- !app_assoc).
  destruct Hs as [Hsl Hsb], Hd as [Hdl Hdb]. split_and!; [|by apply field_bytes| | | |done].
  - rewrite !zlen_app, zlen_be_bytes. lia.
  - unfold pre. rewrite <- !app_assoc. by apply slice_mid; rewrite ?zlen_be_bytes.
  - rewrite (app_assoc pre). apply slice_mid; rewrite ?zlen_app, ?zlen_be_bytes; lia.
  - rewrite <- (app_nil_r destination), (app_assoc (be_bytes 2 csum)), (app_assoc pre).
    rewrite slice_mid; [by rewrite app_nil_r|rewrite !zlen_app, zlen_be_bytes; lia|lia].
Qed.

(** ** Frames *)

Record fits (c : addresses) (server_port : Z) (client_mac : bytes) (client_port seq ack flags : Z) (data options : bytes)
    : Prop := Fits {
  f_ips : address 4 (CLIENT_IP c) ∧ address 4 (SERVER_IP c);
  f_macs : address 6 (SERVER_MAC c) ∧ address 6 client_mac;
  f_ports : 0 ≤ server_port < 65536 ∧ 0 ≤ client_port < 65536;
  f_numbers : 0 ≤ seq < 4294967296 ∧ 0 ≤ ack < 4294967296 ∧ 0 ≤ flags < 256;
  f_bytes : Forall is_byte data ∧ Forall is_byte options;
  f_length : zlen options < 44 ∧ 40 + zlen options + zlen data < 65536 }.

(** The first 16 bytes of a TCP header, up to its checksum. *)
Definition tcp_prefix (src dst seq ack doff flags : Z) : bytes :=
  be_bytes 2 src ++ be_bytes 2 dst ++ be_bytes 4 seq ++ be_bytes 4 ack ++ be_bytes 1 doff ++ be_bytes 1 flags ++ be_bytes 2 65535.

Lemma pack_tcp_ok src dst seq ack doff flags csum :
  0 ≤ src < 65536 → 0 ≤ dst < 65536 → 0 ≤ seq < 4294967296 → 0 ≤ ack < 4294967296 → 0 ≤ doff < 256 → 0 ≤ flags < 256 →
  0 ≤ csum < 65536 → pack_tcp src dst seq ack doff flags csum = Ok (tcp_prefix src dst seq ack doff flags ++ be_bytes 2 csum ++ [0; 0]).
Proof.
  intros. unfold pack_tcp, tcp_prefix. rewrite !pack_be_ok by done. cbn [mbind res_bind]. by rewrite <- !app_assoc.
Qed.

Lemma zlen_tcp_prefix src dst seq ack doff flags : zlen (tcp_prefix src dst seq ack doff flags) = 16.
Proof. unfold tcp_prefix. by rewrite !zlen_app, !zlen_be_bytes. Qed.

Lemma unpack_be_at n z b pre post at_ :
  b = pre ++ be_bytes n z ++ post → 0 ≤ z < 256 ^ Z.of_nat n → at_ = zlen pre → unpack_be n b at_ = Ok z.
Proof. intros ->. apply unpack_be_app. Qed.

Lemma unpack_tcp_prefix src dst seq ack doff flags rest :
  0 ≤ src < 65536 → 0 ≤ dst < 65536 → 0 ≤ seq < 4294967296 → 0 ≤ ack < 4294967296 → 0 ≤ doff < 256 → 0 ≤ flags < 256 →
  unpack_segment (slice (tcp_prefix src dst seq ack doff flags ++ rest) 0 14) = Ok (Segment src dst seq ack doff flags).
Proof.
  intros H1 H2 H3 H4 H5 H6. unfold tcp_prefix.
  replace (_ ++ rest) with ((be_bytes 2 src ++ be_bytes 2 dst ++ be_bytes 4 seq ++ be_bytes 4 ack ++ be_bytes 1 doff ++
    be_bytes 1 flags) ++ be_bytes 2 65535 ++ rest) by (by rewrite <- !app_assoc).
  rewrite slice_app by (by rewrite !zlen_app, !zlen_be_bytes). unfold unpack_segment.
  set (b := be_bytes 2 src ++ _). assert (zlen b = 14) as -> by (unfold b; by rewrite !zlen_app, !zlen_be_bytes).
  set (p2 := be_bytes 2 src). set (p4 := p2 ++ be_bytes 2 dst). set (p8 := p4 ++ be_bytes 4 seq). set (p12 := p8 ++ be_bytes 4 ack).
  set (p13 := p12 ++ be_bytes 1 doff).
  rewrite (unpack_be_at 2 src b [] (from b 2) 0), (unpack_be_at 2 dst b p2 (from b 4) 2), (unpack_be_at 4 seq b p4 (from b 8) 4),
    (unpack_be_at 4 ack b p8 (from b 12) 8), (unpack_be_at 1 doff b p12 (from b 13) 12), (unpack_be_at 1 flags b p13 [] 13); done.
Qed.

Lemma build_frame_shape c server_port client_mac client_port seq ack flags data corrupt options :
  fits c server_port client_mac client_port seq ack flags data options →
  ∃ ip csum, 0 ≤ csum < 65536 ∧ let pre := tcp_prefix client_port server_port seq ack (16 * (5 + zlen options / 4)) flags in
    let tcp := pre ++ be_bytes 2 (if corrupt : bool then Z.lxor csum 65535 else csum) ++ [0; 0] ++ options ++ data in
    build_frame c server_port client_mac client_port seq ack flags data corrupt options =
      Ok ((SERVER_MAC c ++ client_mac ++ ETH_IPV4) ++ ip ++ tcp) ∧
    zlen ip = 20 ∧ slice ip 2 4 = be_bytes 2 (20 + zlen tcp) ∧ slice ip 12 16 = CLIENT_IP c ∧ slice ip 16 20 = SERVER_IP c ∧
    inet_checksum ip = Ok 0 ∧ verify_tcp ip tcp = Ok (negb corrupt || (csum =? 0)).
Proof.
  intros [[Hci Hsi] [Hsm Hcm] [Hsp Hcp] (Hseq & Hack & Hfl) [Hdb Hob] [Hol Hlen]].
  pose proof (zlen_nonneg options). pose proof (zlen_nonneg data).
  set (doff := 16 * (5 + zlen options / 4)).
  assert (0 ≤ zlen options / 4 < 11) as Hw by (split; [apply Z.div_pos|apply Z.div_lt_upper_bound]; lia).
  assert (Z.shiftl (5 + zlen options / 4) 4 = doff) as Ed by (rewrite Z.shiftl_mul_pow2 by lia; unfold doff; lia).
  set (pre := tcp_prefix client_port server_port seq ack doff flags). set (post := [0; 0] ++ options ++ data).
  assert (Forall is_byte pre) as Hpb by (unfold pre, tcp_prefix; eauto 20 with frame).
  set (n := 20 + zlen options + zlen data). set (pseudo := CLIENT_IP c ++ SERVER_IP c ++ [0; 6] ++ be_bytes 2 n).
  assert (zlen pre = 16) as Hpl by apply zlen_tcp_prefix.
  assert (∀ c, zlen (pre ++ be_bytes 2 c ++ post) = n) as Hn
    by (intros; unfold post; rewrite !zlen_app, zlen_be_bytes; unfold n; change (zlen [0; 0]) with 2; lia).
  assert (even_len (pseudo ++ pre)) as He.
  { apply even_len_z. unfold pseudo. rewrite !zlen_app, zlen_be_bytes, Hpl, (proj1 Hci), (proj1 Hsi). done. }
  assert (Forall is_byte ((pseudo ++ pre) ++ [0; 0] ++ post)) as Hb by (unfold pseudo, post; eauto 20 with frame).
  assert (checksum_add ((pseudo ++ pre) ++ [0; 0] ++ post) 0 ≠ 0) as Hne.
  { unfold pseudo in *. rewrite <- !app_assoc in *. rewrite (app_assoc (CLIENT_IP c)) in *. apply checksum_add_pos; [|done|lia].
    apply even_len_z. by rewrite zlen_app, (proj1 Hci), (proj1 Hsi). }
  destruct (inet_checksum ((pseudo ++ pre) ++ [0; 0] ++ post)) as [csum|e] eqn:Ec; [|by rewrite inet_checksum_ones in Ec].
  destruct (checksum_verifies _ _ He Hb csum Ec Hne) as [Hr Hv].
  destruct (corrupted_verifies _ _ He Hb csum Ec Hne) as [Hr' Hv'].
  destruct (ip_header_ok (20 + n) 6 (CLIENT_IP c) (SERVER_IP c)) as (ip & Eip & Hil & Hib & Hlf & Hs & Hd & Hic); [lia..|done|done|].
  assert (0 ≤ (if corrupt then Z.lxor csum 65535 else csum) < 65536) as Hf by by destruct corrupt.
  exists ip, csum. split; [done|]. cbv zeta. fold doff. fold pre. fold post. split_and!; [|done|by rewrite Hn|done..|].
  - unfold build_frame, pseudo_header. rewrite Ed, !pack_tcp_ok by lia. cbn [mbind res_bind]. fold pre.
    assert (∀ x, (pre ++ be_bytes 2 x ++ [0; 0]) ++ options ++ data = pre ++ be_bytes 2 x ++ post) as Ht
      by (intros; unfold post; by rewrite <- !app_assoc).
    rewrite Ht, Hn, pack_be_ok by lia. cbn [mbind res_bind]. fold pseudo.
    rewrite (app_assoc pseudo). change (be_bytes 2 0) with [0; 0]. rewrite Ec. cbn [mbind res_bind].
    rewrite pack_tcp_ok by lia. cbn [mbind res_bind]. fold pre. rewrite Ht, Hn, Eip. done.
  - unfold verify_tcp, pseudo_header. rewrite Hn, Hs, Hd, pack_be_ok by lia. cbn [mbind res_bind]. fold pseudo.
    rewrite app_assoc. destruct corrupt; cbn [negb orb]; [|by rewrite Hv].
    rewrite inet_checksum_ones in Hv' |- * by by apply field_bytes. cbn [mbind res_bind]. f_equal. apply eq_true_iff_eq. rewrite !Z.eqb_eq, <- Hv'. split; [by intros ->|by intros [= ?]].
Qed.

(** C15: a frame built from fields that fit decodes to them: addresses, ports, numbers,
    flags, length and data; the IP checksum verifies, and so does the TCP checksum of a
    frame that is not corrupted.  One that is corrupted on purpose does not verify,
    unless its checksum field came out as 0xffff: then the right checksum was zero, of
    which 0xffff is the other spelling. *)
Theorem frame_decodes c server_port client_mac client_port seq ack flags data corrupt options :
  fits c server_port client_mac client_port seq ack flags data options →
  ∃ f, build_frame c server_port client_mac client_port seq ack flags data corrupt options = Ok f ∧
    slice f 0 6 = SERVER_MAC c ∧ slice f 6 12 = client_mac ∧ slice f 12 14 = ETH_IPV4 ∧
    be_value (slice f 16 18) = zlen f - 14 ∧ slice f 26 30 = CLIENT_IP c ∧ slice f 30 34 = SERVER_IP c ∧
    unpack_segment (slice f 34 48) = Ok (Segment client_port server_port seq ack (16 * (5 + zlen options / 4)) flags) ∧
    from f (54 + zlen options) = data ∧ inet_checksum (slice f 14 34) = Ok 0 ∧
    verify_tcp (slice f 14 34) (from f 34) = Ok (negb corrupt || (be_value (slice f 50 52) =? 65535)).
Proof.
  intros H. destruct (build_frame_shape _ _ _ _ _ _ _ _ corrupt _ H) as (ip & csum & Hcs & E & Hil & Hlf & Hs & Hd & Hi & Hv).
  destruct H as [_ [[Hsm _] [Hcm _]] [? ?] (? & ? & ?) _ [Hol Hlen]]. cbv zeta in *.
  pose proof (zlen_nonneg options). pose proof (zlen_nonneg data).
  set (eth := SERVER_MAC c ++ client_mac ++ ETH_IPV4) in *. set (tcp := tcp_prefix _ _ _ _ _ _ ++ _) in *.
  assert (zlen eth = 14) as Hel by (unfold eth; by rewrite !zlen_app, Hsm, Hcm).
  assert (slice (eth ++ ip ++ tcp) 14 34 = ip) as Eip by (apply slice_mid; lia).
  assert (from (eth ++ ip ++ tcp) 34 = tcp) as Etcp by (rewrite app_assoc; apply from_app; rewrite zlen_app; lia).
  assert (∀ a b, 0 ≤ a → slice (eth ++ ip ++ tcp) (14 + a) (14 + b) = slice (ip ++ tcp) a b) as Hoff
    by (intros; rewrite <- Hel; by apply slice_skip).
  exists (eth ++ ip ++ tcp). split_and!; [done|..].
  - unfold eth. rewrite <- app_assoc. by apply slice_app.
  - unfold eth. rewrite <- !app_assoc. apply slice_mid; lia.
  - unfold eth. rewrite <- !app_assoc, app_assoc. apply slice_mid; [by rewrite zlen_app, Hsm, Hcm|done].
  - rewrite (Hoff 2 4 ltac:(lia) : slice _ 16 18 = _), slice_within, Hlf by lia. rewrite be_value_be_bytes; [rewrite !zlen_app; lia|].
    unfold tcp. rewrite !zlen_app, zlen_tcp_prefix, zlen_be_bytes. change (zlen [0; 0]) with 2. lia.
  - rewrite (Hoff 12 16 ltac:(lia) : slice _ 26 30 = _), slice_within by lia. done.
  - rewrite (Hoff 16 20 ltac:(lia) : slice _ 30 34 = _), slice_within by lia. done.
  - replace (slice (eth ++ ip ++ tcp) 34 48) with (slice tcp 0 14).
    { apply unpack_tcp_prefix; try done. assert (0 ≤ zlen options / 4 < 11); [|lia].
      split; [apply Z.div_pos|apply Z.div_lt_upper_bound]; lia. }
    rewrite (Hoff 20 34 ltac:(lia) : slice _ 34 48 = _). replace 20 with (zlen ip + 0) by lia. replace 34 with (zlen ip + 14) by lia. by rewrite slice_skip.
  - replace (54 + zlen options) with (zlen eth + (zlen ip + (20 + zlen options))) by lia.
    rewrite !from_skip by lia. unfold tcp. rewrite (app_assoc _ (be_bytes 2 _)), (app_assoc _ [0; 0]), (app_assoc _ options).
    apply from_app. rewrite !zlen_app, zlen_tcp_prefix, zlen_be_bytes. change (zlen [0; 0]) with 2. lia.
  - by rewrite Eip.
  - rewrite Eip, Etcp, Hv. destruct corrupt; [|done]. cbn [negb orb]. f_equal.
    rewrite (Hoff 36 38 ltac:(lia) : slice _ 50 52 = _). replace 36 with (zlen ip + 16) by lia. replace 38 with (zlen ip + 18) by lia.
    rewrite slice_skip by lia. unfold tcp. rewrite slice_mid by (rewrite ?zlen_tcp_prefix, ?zlen_be_bytes; done).
    assert (Z.lxor csum 65535 = 65535 - csum) as Hx by (rewrite <- (lxor_complement (65535 - csum)) by lia; f_equal; lia).
    rewrite Hx, be_value_be_bytes by lia. destruct (Z.eqb_spec csum 0); symmetry; [apply Z.eqb_eq|apply Z.eqb_neq]; lia.
Qed.

(** A corrupted frame that does not verify. *)
Lemma frame_decodes_witness :
  let c := Addresses [192; 168; 10; 55] [192; 168; 10; 2] [0; 128; 225; 0; 0; 0] in
  let mac := [2; 0; 0; 0; 0; 1] in
  ∃ f, build_frame c 7 mac 43210 501 4294967295 24 [72; 105; 33] true [] = Ok f ∧ from f 54 = [72; 105; 33] ∧
    verify_tcp (slice f 14 34) (from f 34) = Ok false.
Proof.
  intros c mac. destruct (frame_decodes c 7 mac 43210 501 4294967295 24 [72; 105; 33] true []) as (f & E & _ & _ & _ & _ & _ & _ & _ & Hd & _ & Hv).
  { constructor; apply (bool_decide_unpack _); vm_compute; exact I. }
  exists f. split; [exact E|]. split; [exact Hd|]. rewrite Hv. vm_compute in E. injection E as <-. vm_compute. reflexivity.
Defined.
