(* ===== verification/NetLink.v ===== *)
(** * A test on a network link

    What the network tests use of a raw socket and of the clock, as the class [Link],
    and the programs over it: they pass a link, the module's dictionary of sequence
    numbers and the lines printed, and can raise.  Times are integers, in nanoseconds.
    A loop that waits for a deadline has the time left as its fuel: [LinkLaws] says
    that a receive takes time, and what the tests have heard. *)
From S2P Require Import Prelude Bytes Text.

(** A frame received, and whether it is one that this host sent. *)
Record packet := Packet { p_frame : bytes; p_outgoing : bool }.

(** [recv] waits for a frame no longer than it is told to. *)
Class Link (L : Type) := {
  now : L → Z;
  send : bytes → L → L;
  recv : Z → L → option packet * L;
  open_socket : L → L;
  close_socket : L → L;
  sleep : Z → L → L }.

(** The packets received since the start, in order, which hold bytes, and the passing
    of time. *)
Class LinkLaws (L : Type) `{Link L} := {
  heard : L → list packet;
  recv_heard t l : heard (recv t l).2 = heard l ++ option_list (recv t l).1;
  send_heard f l : heard (send f l) = heard l;
  open_heard l : heard (open_socket l) = heard l;
  close_heard l : heard (close_socket l) = heard l;
  sleep_heard t l : heard (sleep t l) = heard l;
  recv_bytes t l : ∀ p, p ∈ option_list (recv t l).1 → Forall is_byte (p_frame p);
  recv_later t l : now l < now (recv t l).2;
  send_later f l : now l ≤ now (send f l) }.

Record world (L : Type) := World { w_link : L; w_isns : list (Z * Z); w_out : list str }.
Arguments World {L} _ _ _.
Arguments w_link {L} _.
Arguments w_isns {L} _.
Arguments w_out {L} _.

Definition prog (L A : Type) : Type := world L → res (A * world L).

Section programs.
Context {L : Type} `{Link L}.

Definition ret {A} (a : A) : prog L A := fun w => Ok (a, w).
Definition lift {A} (m : res A) : prog L A := fun w => a ← m; Ok (a, w).
Definition raise {A} (e : exn) : prog L A := fun _ => Err e.
#[export] Instance prog_bind : MBind (prog L) := fun A B f m w => '(a, w) ← m w; f a w.

Definition on_link {A} (f : L → A * L) : prog L A :=
  fun w => let '(a, l) := f (w_link w) in Ok (a, World l (w_isns w) (w_out w)).
Definition clock : prog L Z := fun w => Ok (now (w_link w), w).
Definition sock_send (f : bytes) : prog L unit := on_link (fun l => ((), send f l)).
Definition pause (t : Z) : prog L unit := on_link (fun l => ((), sleep t l)).
Definition new_sock : prog L unit := on_link (fun l => ((), open_socket l)).
Definition sock_close : prog L unit := on_link (fun l => ((), close_socket l)).

(** [sock.recv(2000)]: [None] when the time is up. *)
Definition sock_recvfrom (timeout : Z) : prog L (option packet) := on_link (recv timeout).
Definition cut (p : packet) : bytes := take 2000 (p_frame p).
Definition sock_recv (timeout : Z) : prog L (option bytes) :=
  o ← sock_recvfrom timeout; ret (option_map cut o).

Definition print (line : str) : prog L unit := fun w => Ok ((), World (w_link w) (w_isns w) (w_out w ++ [line])).

(** At most [p] rounds of a loop. *)
Fixpoint rounds {S A} (p : positive) (body : S → prog L (flow S A)) (s : S) : prog L (flow S A) :=
  match p with
  | xH => body s
  | xO p => r ← rounds p body s; match r with Next s => rounds p body s | Stop a => ret (Stop a) end
  | xI p =>
      r ← rounds p body s;
      match r with
      | Next s => r ← rounds p body s; match r with Next s => body s | Stop a => ret (Stop a) end
      | Stop a => ret (Stop a)
      end
  end.
Definition loop {S A} (fuel : Z) (body : S → prog L (flow S A)) (s : S) : prog L A :=
  r ← rounds (Z.to_pos fuel) body s; match r with Stop a => ret a | Next _ => raise OutOfFuel end.

(** [while time.monotonic() < deadline: body], then [after]. *)
Definition until {S A} (deadline : Z) (body : S → prog L (flow S A)) (after : S → prog L A) (s : S) : prog L A :=
  start ← clock;
  loop (Z.max 1 (deadline - start + 1))
    (fun s => t ← clock; if t <? deadline then body s else a ← after s; ret (Stop a)) s.
End programs.

(** ** Loops that end *)

Section facts.
Context {L : Type} `{LinkLaws L}.

Lemma bind_ok {A B} (m : prog L A) (f : A → prog L B) w a w' : m w = Ok (a, w') → (m ≫= f) w = f a w'.
Proof. intros E. unfold mbind, prog_bind. rewrite E. done. Qed.

(** [p] rounds of a body that raises nothing are as many steps. *)
Lemma rounds_total {S A} (body : S → prog L (flow S A)) (I : S → world L → Prop) (Q : A → world L → Prop) (μ : S → world L → Z) :
  (∀ s w, I s w → ∃ r w', body s w = Ok (r, w') ∧
     match r with Next s' => I s' w' ∧ μ s' w' < μ s w | Stop a => Q a w' end) →
  ∀ p s w, I s w → ∃ r w', rounds p body s w = Ok (r, w') ∧
    match r with Next s' => I s' w' ∧ μ s' w' ≤ μ s w - Zpos p | Stop a => Q a w' end.
Proof.
  intros Hb. induction p as [p IH|p IH|]; intros s w Hi; cbn [rounds].
  - destruct (IH s w Hi) as ([s1|a] & w1 & E1 & H1); rewrite (bind_ok _ _ _ _ _ E1); [|by exists (Stop a), w1].
    destruct H1 as [H1 Hm1]. destruct (IH s1 w1 H1) as ([s2|a] & w2 & E2 & H2); rewrite (bind_ok _ _ _ _ _ E2); [|by exists (Stop a), w2].
    destruct H2 as [H2 Hm2]. destruct (Hb s2 w2 H2) as ([s3|a] & w3 & E3 & H3); rewrite E3; [|by exists (Stop a), w3].
    exists (Next s3), w3. split; [done|]. destruct H3. split; [done|lia].
  - destruct (IH s w Hi) as ([s1|a] & w1 & E1 & H1); rewrite (bind_ok _ _ _ _ _ E1); [|by exists (Stop a), w1].
    destruct H1 as [H1 Hm1]. destruct (IH s1 w1 H1) as ([s2|a] & w2 & E2 & H2); rewrite E2; [|by exists (Stop a), w2].
    exists (Next s2), w2. split; [done|]. destruct H2. split; [done|lia].
  - destruct (Hb s w Hi) as ([s1|a] & w1 & E1 & H1); rewrite E1; [|by exists (Stop a), w1].
    exists (Next s1), w1. split; [done|]. destruct H1. split; [done|lia].
Qed.

Lemma loop_total {S A} (body : S → prog L (flow S A)) (I : S → world L → Prop) (Q : A → world L → Prop) (μ : S → world L → Z) fuel s w :
  (∀ s w, I s w → ∃ r w', body s w = Ok (r, w') ∧
     match r with Next s' => I s' w' ∧ μ s' w' < μ s w | Stop a => Q a w' end) →
  (∀ s w, I s w → 0 ≤ μ s w) → I s w → μ s w < fuel → ∃ a w', loop fuel body s w = Ok (a, w') ∧ Q a w'.
Proof.
  intros Hb Hm Hi Hf. unfold loop. destruct (rounds_total body I Q μ Hb (Z.to_pos fuel) s w Hi) as ([s1|a] & w1 & E & H1);
    rewrite (bind_ok _ _ _ _ _ E); [|by exists a, w1].
  destruct H1 as [H1 Hle]. pose proof (Hm s1 w1 H1). pose proof (Hm s w Hi). rewrite Z2Pos.id in Hle by lia. lia.
Qed.

Lemma until_total {S A} deadline (body : S → prog L (flow S A)) after (I : S → world L → Prop) (Q : A → world L → Prop) s w :
  (∀ s w, I s w → now (w_link w) < deadline → ∃ r w', body s w = Ok (r, w') ∧
     match r with Next s' => I s' w' ∧ now (w_link w) < now (w_link w') | Stop a => Q a w' end) →
  (∀ s w, I s w → deadline ≤ now (w_link w) → ∃ a w', after s w = Ok (a, w') ∧ Q a w') → I s w →
  ∃ a w', until deadline body after s w = Ok (a, w') ∧ Q a w'.
Proof.
  intros Hb Ha Hi. unfold until. rewrite (bind_ok clock _ w (now (w_link w)) w) by done.
  apply (loop_total _ I Q (fun _ w => Z.max 0 (deadline - now (w_link w)))); [|lia|done|lia].
  clear s w Hi. intros s w Hi. rewrite (bind_ok clock _ w (now (w_link w)) w) by done. destruct (Z.ltb_spec (now (w_link w)) deadline).
  - destruct (Hb s w Hi) as ([s'|a] & w' & E & Hr); [done|..]; rewrite E; [|by exists (Stop a), w'].
    exists (Next s'), w'. split; [done|]. destruct Hr. split; [done|lia].
  - destruct (Ha s w Hi) as (a & w' & E & Hq); [done|]. rewrite (bind_ok _ _ _ _ _ E). by exists (Stop a), w'.
Qed.

(** What a program hears: [new] comes in between two worlds. *)
Definition hears (w w' : world L) (new : list packet) : Prop := heard (w_link w') = heard (w_link w) ++ new.

Lemma hears_nil w : hears w w [].
Proof. unfold hears. by rewrite app_nil_r. Qed.

Lemma hears_app w w1 w2 new1 new2 : hears w w1 new1 → hears w1 w2 new2 → hears w w2 (new1 ++ new2).
Proof. unfold hears. intros H1 H2. by rewrite H2, H1, app_assoc. Qed.

(** A packet that the link can bring. *)
Definition delivered (p : packet) : Prop := ∃ t l l', recv t l = (Some p, l').

Lemma recv_step t w : ∃ o w', sock_recvfrom t w = Ok (o, w') ∧ hears w w' (option_list o) ∧ now (w_link w) < now (w_link w') ∧
  ∀ p, o = Some p → Forall is_byte (cut p) ∧ delivered p.
Proof.
  unfold sock_recvfrom, on_link, hears. pose proof (recv_heard t (w_link w)) as E. pose proof (recv_later t (w_link w)).
  pose proof (recv_bytes t (w_link w)) as Hb.
  destruct (recv t (w_link w)) as [o l] eqn:Er. cbn [fst snd] in *. exists o, (World l (w_isns w) (w_out w)). split_and!; try done.
  intros p ->. split; [apply Forall_take, Hb; left|]. by exists t, (w_link w), l.
Qed.

Lemma sock_recv_step t w : ∃ o w', sock_recv t w = Ok (option_map cut o, w') ∧ hears w w' (option_list o) ∧
  now (w_link w) < now (w_link w') ∧ ∀ p, o = Some p → Forall is_byte (cut p).
Proof.
  destruct (recv_step t w) as (o & w' & E & Hh & Hlt & Hp). exists o, w'. unfold sock_recv. rewrite (bind_ok _ _ _ _ _ E).
  split_and!; [done..|]. intros p Eo. by apply Hp.
Qed.

Lemma send_step f w : ∃ w', sock_send f w = Ok ((), w') ∧ hears w w' [].
Proof. eexists. split; [done|]. unfold hears. cbn. by rewrite send_heard, app_nil_r. Qed.

Lemma send_time_step f w : ∃ w', sock_send f w = Ok ((), w') ∧ hears w w' [] ∧ now (w_link w) ≤ now (w_link w').
Proof. destruct (send_step f w) as (w' & E & Hh). exists w'. split; [done|]. split; [done|]. injection E as <-. apply send_later. Qed.

Lemma print_step line w : ∃ w', print line w = Ok ((), w') ∧ hears w w' [].
Proof. eexists. split; [done|]. unfold hears. cbn. by rewrite app_nil_r. Qed.

Lemma open_step w : ∃ w', new_sock w = Ok ((), w') ∧ hears w w' [].
Proof. eexists. split; [done|]. unfold hears. cbn. by rewrite open_heard, app_nil_r. Qed.

Lemma close_step w : ∃ w', sock_close w = Ok ((), w') ∧ hears w w' [].
Proof. eexists. split; [done|]. unfold hears. cbn. by rewrite close_heard, app_nil_r. Qed.
End facts.

(** Runs the next command of a program whose step is known. *)
Ltac step lem :=
  let w := fresh "w" in let E := fresh "E" in let Hh := fresh "Hh" in
  destruct lem as (w & E & Hh); rewrite (bind_ok _ _ _ _ _ E); clear E.

(** ** A wire to a board

    A link to a board that answers each frame at once; the socket gives back what this
    host sends. *)
Record wire (answers : bytes → list bytes) := Wire { wire_now : Z; wire_queue : list packet; wire_heard : list packet }.
Arguments Wire {_} _ _ _.
Arguments wire_now {_} _.
Arguments wire_queue {_} _.
Arguments wire_heard {_} _.

(** Only bytes travel. *)
Definition as_packets (answers : bytes → list bytes) (f : bytes) : list packet :=
  filter (fun p => Forall is_byte (p_frame p)) (Packet f true :: map (fun r => Packet r false) (answers f)).

#[export] Instance wire_link answers : Link (wire answers) := {|
  now := wire_now;
  send f l := Wire (wire_now l) (wire_queue l ++ as_packets answers f) (wire_heard l);
  recv t l :=
    match wire_queue l with
    | [] => (None, Wire (wire_now l + Z.max 1 t) [] (wire_heard l))
    | p :: queue =>
        if decide (Forall is_byte (p_frame p)) then (Some p, Wire (wire_now l + 1) queue (wire_heard l ++ [p]))
        else (None, Wire (wire_now l + 1) queue (wire_heard l))
    end;
  open_socket l := l;
  close_socket l := l;
  sleep t l := Wire (wire_now l + t) (wire_queue l) (wire_heard l) |}.

#[export] Program Instance wire_laws answers : LinkLaws (wire answers) := {| heard := wire_heard |}.
Next Obligation. intros answers t l. cbn. destruct (wire_queue l); [by rewrite app_nil_r|]. case_decide; cbn; [done|by rewrite app_nil_r]. Qed.
Next Obligation. done. Qed.
Next Obligation. done. Qed.
Next Obligation. done. Qed.
Next Obligation. done. Qed.
Next Obligation.
  intros answers t l p. cbn. destruct (wire_queue l) as [|q queue]; cbn; [by intros ?%not_elem_of_nil|].
  case_decide; cbn; [by intros ->%list_elem_of_singleton|by intros ?%not_elem_of_nil].
Qed.
Next Obligation. intros answers t l. cbn. destruct (wire_queue l); cbn; [lia|]. case_decide; cbn; lia. Qed.
Next Obligation. intros answers f l. cbn. lia. Qed.

Definition wire_burst {answers} (l : wire answers) : Z := zlen (wire_queue l).

Lemma wire_settles answers t (l : wire answers) :
  0 ≤ wire_burst l ∧ ∀ p l', recv t l = (Some p, l') → wire_burst l' < wire_burst l.
Proof.
  unfold wire_burst. split; [apply zlen_nonneg|]. intros p l'. cbn. destruct (wire_queue l) as [|q queue]; [done|].
  case_decide; [|done]. intros [= _ <-]. cbn. rewrite zlen_cons. lia.
Qed.

(** ** A tape

    A link on which one frame comes again and again. *)
Record tape (f : bytes) := Tape { tape_now : Z; tape_heard : list packet }.
Arguments Tape {_} _ _.
Arguments tape_now {_} _.
Arguments tape_heard {_} _.

#[export] Instance tape_link f : Link (tape f) := {|
  now := tape_now;
  send _ l := l;
  recv t l :=
    if decide (Forall is_byte f) then (Some (Packet f false), Tape (tape_now l + 1000000000) (tape_heard l ++ [Packet f false]))
    else (None, Tape (tape_now l + Z.max 1 t) (tape_heard l));
  open_socket l := l;
  close_socket l := l;
  sleep t l := Tape (tape_now l + t) (tape_heard l) |}.

#[export] Program Instance tape_laws f : LinkLaws (tape f) := {| heard := tape_heard |}.
Next Obligation. intros f t l. cbn. case_decide; cbn; [done|by rewrite app_nil_r]. Qed.
Next Obligation. done. Qed.
Next Obligation. done. Qed.
Next Obligation. done. Qed.
Next Obligation. done. Qed.
Next Obligation. intros f t l p. cbn. case_decide; cbn; [by intros ->%list_elem_of_singleton|by intros ?%not_elem_of_nil]. Qed.
Next Obligation. intros f t l. cbn. case_decide; cbn; lia. Qed.
Next Obligation. done. Qed.

Lemma tape_delivers f p : delivered (L := tape f) p → p = Packet f false.
Proof. intros (t & l & l' & E). cbn in E. case_decide; [|done]. by injection E. Qed.
