(* ===== verification/ArpTest.v ===== *)
(** * The ARP test

    Model of scripts/eth_arp_reply_test.py: the board under test answers a request for
    its address, and nothing claims an address that it does not have. *)
From S2P Require Import Prelude Bytes Text NetFrame NetLink.

Definition RETRIES : nat := 20.
Definition RETRY_TIMEOUT : Z := 500000000.
Definition SILENCE_TIMEOUT : Z := 1000000000.
Definition RX_DRAIN_QUIET : Z := 50000000.

(** [bytes(l)]. *)
Definition to_bytes (l : list Z) : res bytes := foldM push [] l.

(** The addresses of a module: the subnet with a last octet. *)
Section environment.
Variable environ : str → option str.

Definition SUBNET : str := default ($"192.168.10") (environ ($"ETH_TEST_SUBNET")).
Definition subnet_octets : res (list Z) := mapM_res (py_int 10) (split_on 46 SUBNET).

Record arp_addresses := ArpAddresses { REQUESTER_IP : bytes; TARGET_IP : bytes; OTHER_IP : bytes }.

Definition arp_config : res arp_addresses :=
  octets ← subnet_octets;
  requester ← (match environ ($"ARP_TEST_REQUESTER_IP") with
               | None => to_bytes (octets ++ [55])
               | Some ip => parts ← mapM_res (py_int 10) (split_on 46 ip); to_bytes parts
               end);
  target ← to_bytes (octets ++ [2]);
  other ← to_bytes (octets ++ [200]);
  Ok (ArpAddresses requester target other).
End environment.

(** The interface's address, from the text of its file. *)
Definition read_iface_mac (text : str) : res bytes :=
  parts ← mapM_res (py_int 16) (split_on 58 (strip text)); to_bytes parts.

Definition check_reply (c : arp_addresses) (reply requester_mac : bytes) : res bool :=
  if zlen reply <? 42 then Ok false
  else
    let reply := slice reply 0 42 in
    let arp := slice reply 14 42 in
    hlen ← item arp 4; plen ← item arp 5;
    Ok (bool_decide (slice reply 0 6 = requester_mac) && bool_decide (slice reply 12 14 = ARP_ETHERTYPE) &&
        bool_decide (slice arp 0 2 = [0; 1]) && bool_decide (slice arp 2 4 = [8; 0]) && (hlen =? 6) && (plen =? 4) &&
        bool_decide (slice arp 6 8 = [0; 2]) && bool_decide (slice arp 14 18 = TARGET_IP c) &&
        bool_decide (slice arp 18 24 = requester_mac) && bool_decide (slice arp 24 28 = REQUESTER_IP c) &&
        bool_decide (slice reply 6 12 = slice arp 8 14)).

Definition claims_to_be (reply ip : bytes) : res bool :=
  if zlen reply <? 42 then Ok false
  else
    let reply := slice reply 0 42 in
    let arp := slice reply 14 42 in
    hlen ← item arp 4; plen ← item arp 5;
    Ok (bool_decide (slice reply 12 14 = ARP_ETHERTYPE) && bool_decide (slice arp 0 2 = [0; 1]) &&
        bool_decide (slice arp 2 4 = [8; 0]) && (hlen =? 6) && (plen =? 4) && bool_decide (slice arp 6 8 = [0; 2]) &&
        bool_decide (slice arp 14 18 = ip)).

(** [reply.hex()]. *)
Definition hex_text (b : bytes) : str := concat (map (fun x => [digit_char (x / 16); digit_char (x mod 16)]) b).

Section test.
Context {L : Type} `{Link L}.

(** [for _attempt in range(n)]: the first attempt that has an answer. *)
Fixpoint retry {A} (n : nat) (once : prog L (option A)) : prog L (option A) :=
  match n with
  | O => ret None
  | S n => o ← once; match o with Some a => ret (Some a) | None => retry n once end
  end.

(** A request and the wait for the answer that [check] accepts; the frame itself, which
    the socket gives back, is passed over. *)
Definition ask (frame : bytes) (check : bytes → res bool) : prog L (option unit) :=
  _ ← sock_send frame;
  t ← clock;
  until (t + RETRY_TIMEOUT)
    (fun _ : unit =>
       o ← sock_recv RETRY_TIMEOUT;
       match o with
       | None => ret (Stop None)
       | Some reply =>
           if decide (slice reply 0 (zlen frame) = frame) then ret (Next ())
           else ok ← lift (check reply); ret (if ok : bool then Stop (Some ()) else Next ())
       end)
    (fun _ => ret None) ().

Definition test_who_has_us (c : arp_addresses) (requester_mac : bytes) : prog L bool :=
  let frame := build_arp_request (REQUESTER_IP c) requester_mac (TARGET_IP c) in
  o ← retry RETRIES (ask frame (fun reply => check_reply c reply requester_mac));
  ret (bool_decide (is_Some o)).

(** The loop has no deadline: [burst] bounds the frames that come without a pause. *)
Variable burst : L → Z.
Definition drain_received_frames : prog L unit := fun w =>
  loop (burst (w_link w) + 1)
    (fun _ : unit => o ← sock_recv RX_DRAIN_QUIET; ret (match o with None => Stop () | Some _ => Next () end)) () w.

Definition test_who_has_other_stays_silent (c : arp_addresses) (requester_mac : bytes) : prog L bool :=
  _ ← drain_received_frames;
  let frame := build_arp_request (REQUESTER_IP c) requester_mac (OTHER_IP c) in
  _ ← sock_send frame;
  t ← clock;
  until (t + SILENCE_TIMEOUT)
    (fun unrelated =>
       o ← sock_recv RETRY_TIMEOUT;
       match o with
       | None => ret (Next unrelated)
       | Some reply =>
           if decide (slice reply 0 (zlen frame) = frame) then ret (Next unrelated)
           else
             claims ← lift (claims_to_be reply (OTHER_IP c));
             if claims : bool then
               _ ← print ($"  unexpected reply for a non-owned IP: " ++ hex_text reply); ret (Stop false)
             else ret (Next (unrelated + 1))
       end)
    (fun unrelated =>
       _ ← (if unrelated =? 0 then ret ()
            else print ($"  ignored " ++ dec unrelated ++ $" unrelated frame(s) during the silence window"));
       ret true) 0.

Definition dotted (ip : bytes) : str := join ($".") (map dec ip).
Definition verdict (ok : bool) : str := if ok then $"PASS" else $"FAIL".

(** [main] on the interface's address file, [None] when there is no such interface. *)
Definition main (environ : str → option str) (address : option str) : prog L Z :=
  c ← lift (arp_config environ);
  match address with
  | None => ret 1
  | Some text =>
      requester_mac ← lift (read_iface_mac text);
      _ ← new_sock;
      let ours ok := $"  who-has " ++ dotted (TARGET_IP c) ++ $" (ours):     " ++ verdict ok in
      let silent ok := $"  who-has " ++ dotted (OTHER_IP c) ++ $" (silent): " ++ verdict ok in
      if decide (environ ($"ARP_TEST_OTHER_FIRST") = Some ($"1")) then
        ok2 ← test_who_has_other_stays_silent c requester_mac; _ ← print (silent ok2);
        ok1 ← test_who_has_us c requester_mac; _ ← print (ours ok1);
        ret (if (ok1 && ok2 : bool) then 0 else 1)
      else
        ok1 ← test_who_has_us c requester_mac; _ ← print (ours ok1);
        ok2 ← test_who_has_other_stays_silent c requester_mac; _ ← print (silent ok2);
        ret (if (ok1 && ok2 : bool) then 0 else 1)
  end.
End test.
