(* ===== verification/ArpTestFacts.v ===== *)
(** * Facts about the ARP test

    The replies it accepts are the ARP replies of the board, byte for byte up to the
    padding, and a run exits 0 exactly when one came in the first test's windows and
    nothing claimed the other address in the second's. *)
From S2P Require Import Prelude Bytes Text NetFrame NetLink ArpTest.

(** ** The reply *)

Definition arp_reply (sender_ip target_mac target_ip destination responder : bytes) : bytes :=
  (destination ++ responder ++ ARP_ETHERTYPE)
  ++ [0; 1] ++ [8; 0] ++ [6; 4] ++ [0; 2] ++ responder ++ sender_ip ++ target_mac ++ target_ip.

Lemma uncons_length {A} n (l : list A) : (S n ≤ length l)%nat → ∃ x k, l = x :: k ∧ (n ≤ length k)%nat.
Proof. destruct l as [|x k]; cbn; intros; [lia|]. exists x, k. split; [done|lia]. Qed.

Ltac uncons_all :=
  repeat match goal with
  | H : (S _ ≤ length ?l)%nat |- _ =>
      let x := fresh "b" in let k := fresh "rest" in
      apply uncons_length in H as (x & k & -> & H)
  end.

Lemma explode_6 (l : bytes) : zlen l = 6 → ∃ a b c d e f, l = [a; b; c; d; e; f].
Proof.
  intros Hl. destruct l as [|a [|b [|c [|d [|e [|f [|g l]]]]]]]; unfold zlen in Hl; cbn in Hl; try lia. by repeat eexists.
Qed.

Lemma explode_4 (l : bytes) : zlen l = 4 → ∃ a b c d, l = [a; b; c; d].
Proof. intros Hl. destruct l as [|a [|b [|c [|d [|e l]]]]]; unfold zlen in Hl; cbn in Hl; try lia. by repeat eexists. Qed.

(** The test of both checks: the frame from its twelfth byte on is an ARP reply of a
    sender. *)
Definition says (reply ip : bytes) : Prop :=
  ∃ destination source sha tha tpa pad, zlen destination = 6 ∧ zlen source = 6 ∧ zlen sha = 6 ∧ zlen tha = 6 ∧ zlen tpa = 4 ∧
    reply = (destination ++ source ++ ARP_ETHERTYPE) ++ [0; 1] ++ [8; 0] ++ [6; 4] ++ [0; 2] ++ sha ++ ip ++ tha ++ tpa ++ pad.

Lemma claims_to_be_exact reply ip : zlen ip = 4 →
  ∃ b, claims_to_be reply ip = Ok b ∧ (b = true ↔ says reply ip).
Proof.
  intros Hip. unfold claims_to_be. destruct (Z.ltb_spec (zlen reply) 42) as [Hs|Hs].
  - exists false. split; [done|]. split; [done|]. intros (d & s & sha & tha & tpa & pad & H1 & H2 & H3 & H4 & H5 & ->).
    rewrite !zlen_app in Hs. change (zlen ARP_ETHERTYPE) with 2 in Hs. change (zlen [_; _]) with 2 in Hs. pose proof (zlen_nonneg pad). lia.
  - assert (42 ≤ length reply)%nat as Hl by (unfold zlen in Hs; lia). clear Hs. uncons_all.
    eexists. split; [reflexivity|]. rewrite !andb_true_iff, !bool_decide_eq_true, !Z.eqb_eq.
    apply explode_4 in Hip as (i0 & i1 & i2 & i3 & ->). unfold says. split.
    + intros H. vm_compute in H. destruct_and!. simplify_eq.
      eexists [_; _; _; _; _; _], [_; _; _; _; _; _], [_; _; _; _; _; _], [_; _; _; _; _; _], [_; _; _; _], _.
      split_and!; reflexivity.
    + intros (d & s & sha & tha & tpa & pad & H1 & H2 & H3 & H4 & H5 & E).
      apply explode_6 in H1 as (?&?&?&?&?&?&->), H2 as (?&?&?&?&?&?&->), H3 as (?&?&?&?&?&?&->), H4 as (?&?&?&?&?&?&->).
      apply explode_4 in H5 as (?&?&?&?&->). vm_compute in E. simplify_eq. vm_compute. tauto.
Qed.

Lemma check_reply_exact c reply mac : zlen mac = 6 → zlen (TARGET_IP c) = 4 → zlen (REQUESTER_IP c) = 4 →
  ∃ b, check_reply c reply mac = Ok b ∧
    (b = true ↔ ∃ responder pad, zlen responder = 6 ∧ reply = arp_reply (TARGET_IP c) mac (REQUESTER_IP c) mac responder ++ pad).
Proof.
  intros Hm Ht Hr. unfold check_reply, arp_reply, ARP_ETHERTYPE. destruct c as [rip tip oip]. cbn [TARGET_IP REQUESTER_IP] in *.
  destruct (Z.ltb_spec (zlen reply) 42) as [Hs|Hs].
  - exists false. split; [done|]. split; [done|]. intros (responder & pad & H1 & ->).
    rewrite !zlen_app in Hs. change (zlen [_; _]) with 2 in Hs. pose proof (zlen_nonneg pad). lia.
  - assert (42 ≤ length reply)%nat as Hl by (unfold zlen in Hs; lia). clear Hs. uncons_all.
    eexists. split; [reflexivity|]. rewrite !andb_true_iff, !bool_decide_eq_true, !Z.eqb_eq.
    apply explode_6 in Hm as (?&?&?&?&?&?&->). apply explode_4 in Ht as (?&?&?&?&->), Hr as (?&?&?&?&->).
    split.
    + intros H. vm_compute in H. destruct_and!. simplify_eq. eexists [_; _; _; _; _; _], _. split; reflexivity.
    + intros (responder & pad & H1 & E). apply explode_6 in H1 as (?&?&?&?&?&?&->). vm_compute in E. simplify_eq. vm_compute. tauto.
Qed.

(** A request is no reply. *)
Lemma own_request ip mac target reply x : zlen ip = 4 → zlen mac = 6 → zlen target = 4 → zlen x = 4 →
  slice reply 0 (zlen (build_arp_request ip mac target)) = build_arp_request ip mac target → ¬ says reply x.
Proof.
  intros Hi Hm Ht Hx E (d & s & sha & tha & tpa & pad & H1 & H2 & H3 & H4 & H5 & Er).
  rewrite <- (slice_from_split reply (zlen (build_arp_request ip mac target))), E in Er by apply zlen_nonneg.
  apply explode_6 in Hm as (?&?&?&?&?&?&->), H1 as (?&?&?&?&?&?&->), H2 as (?&?&?&?&?&?&->), H3 as (?&?&?&?&?&?&->), H4 as (?&?&?&?&?&?&->).
  apply explode_4 in Hi as (?&?&?&?&->), Ht as (?&?&?&?&->), Hx as (?&?&?&?&->), H5 as (?&?&?&?&->). clear E.
  revert Er. generalize (from reply (zlen (build_arp_request [x23; x24; x25; x26] [x; x0; x1; x2; x3; x4] [x27; x28; x29; x30]))).
  intros tail Er. cbn in Er. by simplify_eq.
Qed.

Lemma arp_reply_says sender target_mac target_ip destination responder pad :
  zlen target_mac = 6 → zlen target_ip = 4 → zlen destination = 6 → zlen responder = 6 →
  says (arp_reply sender target_mac target_ip destination responder ++ pad) sender.
Proof.
  intros. exists destination, responder, responder, target_mac, target_ip, pad. split_and!; try done.
  unfold arp_reply. by rewrite <- !app_assoc.
Qed.

(** ** A run *)

Section run.
Context {L : Type} `{LinkLaws L}.

(** A request is answered exactly when a reply that is asked for is heard. *)
Lemma ask_spec frame check (P : bytes → Prop) w :
  (∀ reply, Forall is_byte reply → ∃ b, check reply = Ok b ∧ (b = true ↔ P reply)) → (∀ reply, slice reply 0 (zlen frame) = frame → ¬ P reply) →
  ∃ o w' new, ask frame check w = Ok (o, w') ∧ hears w w' new ∧ (is_Some o ↔ ∃ p, p ∈ new ∧ P (cut p)).
Proof.
  intros Hc Hown. unfold ask. step (send_step frame w). rewrite (bind_ok clock _ w0 (now (w_link w0)) w0) by done.
  destruct (until_total (now (w_link w0) + RETRY_TIMEOUT)
    (fun _ : unit => o ← sock_recv RETRY_TIMEOUT;
       match o with
       | None => ret (Stop None)
       | Some reply => if decide (slice reply 0 (zlen frame) = frame) then ret (Next ())
           else ok ← lift (check reply); ret (if ok : bool then Stop (Some ()) else Next ())
       end)
    (fun _ => ret None)
    (fun _ w' => ∃ new, hears w w' new ∧ ¬ ∃ p, p ∈ new ∧ P (cut p))
    (fun o w' => ∃ new, hears w w' new ∧ (is_Some o ↔ ∃ p, p ∈ new ∧ P (cut p))) () w0) as (o & w' & E & new & Hn & Ho).
  - intros [] w1 (new & Hn & Hno) _. destruct (sock_recv_step RETRY_TIMEOUT w1) as (o & w2 & E & Hh2 & Hlt & Hby).
    rewrite (bind_ok _ _ _ _ _ E). pose proof (hears_app _ _ _ _ _ Hn Hh2) as Hh3.
    destruct o as [p|]; cbn [option_map option_list] in *.
    2:{ exists (Stop None), w2. split; [done|]. eexists. split; [done|]. rewrite app_nil_r. split; [by intros []|done]. }
    assert (∀ b : bool, (b = true ↔ P (cut p)) → ∃ r w', ret (if b then Stop (Some ()) else Next ()) w2 = Ok (r, w') ∧
      match r with Next _ => (∃ new, hears w w' new ∧ ¬ ∃ p, p ∈ new ∧ P (cut p)) ∧ now (w_link w1) < now (w_link w')
      | Stop o => ∃ new, hears w w' new ∧ (is_Some o ↔ ∃ p, p ∈ new ∧ P (cut p)) end) as Hret.
    { intros b Hb. eexists _, w2. split; [done|]. destruct b.
      - eexists. split; [done|]. split; [|done]. intros _. exists p. split; [|by apply Hb]. apply elem_of_app. right. left.
      - split; [|done]. eexists. split; [done|]. intros (q & [Hq| ->%list_elem_of_singleton]%elem_of_app & HP); [by apply Hno; exists q|].
        by apply Hb in HP. }
    destruct (decide _) as [Ef|Ef].
    + destruct (Hret false) as (r & w' & [= <- <-] & Hr); [|by exists (Next ()), w2]. split; [done|]. intros HP. by apply Hown in HP.
    + destruct (Hc (cut p) (Hby p eq_refl)) as (b & Eb & Hb). unfold lift. rewrite Eb. by apply Hret.
  - intros [] w1 (new & Hn & Hno) _. exists None, w1. split; [done|]. exists new. split; [done|]. split; [by intros []|done].
  - exists []. split; [done|]. by intros (p & ?%not_elem_of_nil & _).
  - exists o, w', new. by rewrite E.
Qed.

Lemma retry_spec {A} n (once : prog L (option A)) (P : packet → Prop) :
  (∀ w, ∃ o w' new, once w = Ok (o, w') ∧ hears w w' new ∧ (is_Some o ↔ ∃ p, p ∈ new ∧ P p)) →
  ∀ w, ∃ o w' new, retry n once w = Ok (o, w') ∧ hears w w' new ∧ (is_Some o ↔ ∃ p, p ∈ new ∧ P p).
Proof.
  intros Ho. induction n as [|n IH]; intros w; cbn [retry].
  - exists None, w, []. split; [done|]. split; [apply hears_nil|]. split; [by intros []|by intros (p & ?%not_elem_of_nil & _)].
  - destruct (Ho w) as (o & w1 & new1 & E1 & H1 & Hs1). rewrite (bind_ok _ _ _ _ _ E1). destruct o as [a|].
    { by exists (Some a), w1, new1. }
    destruct (IH w1) as (o & w2 & new2 & E2 & H2 & Hs2). exists o, w2, (new1 ++ new2).
    split; [done|]. split; [by eapply hears_app|]. rewrite Hs2. setoid_rewrite elem_of_app. split.
    + intros (p & ? & ?). exists p. auto.
    + intros (p & [Hp|Hp] & HP); [|by exists p]. assert (is_Some (@None A)) as [? ?]; [|done]. apply Hs1. by exists p.
Qed.

Variable burst : L → Z.
(** After so many frames there is a pause. *)
Hypothesis settles : ∀ l, 0 ≤ burst l ∧ ∀ p l', recv RX_DRAIN_QUIET l = (Some p, l') → burst l' < burst l.

Lemma drain_spec w : ∃ w' new, drain_received_frames burst w = Ok ((), w') ∧ hears w w' new.
Proof using settles.
  unfold drain_received_frames.
  destruct (loop_total (fun _ : unit => o ← sock_recv RX_DRAIN_QUIET; ret (match o with None => Stop () | Some _ => Next () end))
    (fun _ w' => ∃ new, hears w w' new) (fun _ w' => ∃ new, hears w w' new) (fun _ w' => burst (w_link w'))
    (burst (w_link w) + 1) () w) as ([] & w' & E & new & Hn).
  - intros [] w1 (new & Hn). pose proof (recv_heard RX_DRAIN_QUIET (w_link w1)) as Hh.
    destruct (settles (w_link w1)) as [_ Hs]. destruct (recv RX_DRAIN_QUIET (w_link w1)) as [o l] eqn:Er. cbn [fst snd] in Hh.
    assert (sock_recv RX_DRAIN_QUIET w1 = Ok (option_map cut o, World l (w_isns w1) (w_out w1))) as Ew
      by (unfold sock_recv, sock_recvfrom, on_link, mbind, prog_bind; rewrite Er; done).
    rewrite (bind_ok _ _ _ _ _ Ew). eexists _, _. split; [done|].
    assert (hears w (World l (w_isns w1) (w_out w1)) (new ++ option_list o)) by (by eapply hears_app).
    destruct o as [p|]; [|by eexists]. split; [by eexists|]. by eapply Hs.
  - intros ? w1 _. apply settles.
  - exists []. apply hears_nil.
  - lia.
  - by exists w', new.
Qed.

(** Silence: no frame that [claims] is heard. *)
Lemma silent_spec (c : arp_addresses) mac w :
  (∀ reply, slice reply 0 (zlen (build_arp_request (REQUESTER_IP c) mac (OTHER_IP c))) = build_arp_request (REQUESTER_IP c) mac (OTHER_IP c) →
     ¬ says reply (OTHER_IP c)) → zlen (OTHER_IP c) = 4 →
  ∃ b w' drained new, test_who_has_other_stays_silent burst c mac w = Ok (b, w') ∧ hears w w' (drained ++ new) ∧
    (b = true ↔ ∀ p, p ∈ new → ¬ says (cut p) (OTHER_IP c)).
Proof using settles.
  intros Hown Hip. unfold test_who_has_other_stays_silent. set (frame := build_arp_request _ _ _) in *.
  destruct (drain_spec w) as (w0 & drained & E & Hd). rewrite (bind_ok _ _ _ _ _ E). clear E.
  step (send_step frame w0). rewrite (bind_ok clock _ w1 (now (w_link w1)) w1) by done.
  match goal with |- context [until ?dl ?body ?after 0 w1] =>
    destruct (until_total dl body after
      (fun _ w' => ∃ new, hears w1 w' new ∧ ∀ p, p ∈ new → ¬ says (cut p) (OTHER_IP c))
      (fun (b : bool) w' => ∃ new, hears w1 w' new ∧ (b = true ↔ ∀ p, p ∈ new → ¬ says (cut p) (OTHER_IP c))) 0 w1)
      as (b & w' & E & new & Hn & Hb) end.
  - intros unrelated w2 (new & Hn & Hno) _. destruct (sock_recv_step RETRY_TIMEOUT w2) as (o & w3 & E & Hh3 & Hlt & _).
    rewrite (bind_ok _ _ _ _ _ E). pose proof (hears_app _ _ _ _ _ Hn Hh3) as Hh4.
    destruct o as [p|]; cbn [option_map option_list] in *.
    2:{ exists (Next unrelated), w3. split; [done|]. split; [|done]. eexists. split; [done|]. by rewrite app_nil_r. }
    assert (¬ says (cut p) (OTHER_IP c) → (∃ new, hears w1 w3 new ∧ ∀ p, p ∈ new → ¬ says (cut p) (OTHER_IP c))) as Hgo.
    { intros Hp. eexists. split; [done|]. intros q [Hq| ->%list_elem_of_singleton]%elem_of_app; auto. }
    destruct (decide _) as [Ef|Ef]; [exists (Next unrelated), w3; split; [done|]; split; [|done]; by apply Hgo, Hown|].
    destruct (claims_to_be_exact (cut p) (OTHER_IP c) Hip) as (b & Eb & Hb).
    rewrite (bind_ok _ _ w3 b w3) by (unfold lift; by rewrite Eb). destruct b.
    + step (print_step ($"  unexpected reply for a non-owned IP: " ++ hex_text (cut p)) w3). exists (Stop false), w4. split; [done|].
      exists (new ++ [p]). split; [rewrite <- (app_nil_r (new ++ [p])); by eapply hears_app|]. split; [done|].
      intros Hall. destruct (Hall p); [|by apply Hb]. apply elem_of_app. right. left.
    + exists (Next (unrelated + 1)), w3. split; [done|]. split; [|done]. apply Hgo. intros HP. by apply Hb in HP.
  - intros unrelated w2 (new & Hn & Hno). destruct (unrelated =? 0).
    + exists true, w2. split; [done|]. by exists new.
    + step (print_step ($"  ignored " ++ dec unrelated ++ $" unrelated frame(s) during the silence window") w2).
      exists true, w3. split; [done|]. exists new. split; [rewrite <- (app_nil_r new); by eapply hears_app|done].
  - exists []. split; [apply hears_nil|]. by intros p ?%not_elem_of_nil.
  - exists b, w', drained, new. rewrite E. split; [done|]. split; [|done].
    change new with ([] ++ new). eapply hears_app; [done|]. by eapply hears_app.
Qed.
End run.

(** What a reply to the first request is. *)
Definition board_reply (c : arp_addresses) (mac : bytes) (p : packet) : Prop :=
  ∃ responder pad, zlen responder = 6 ∧ cut p = arp_reply (TARGET_IP c) mac (REQUESTER_IP c) mac responder ++ pad.

Definition arp_sizes (c : arp_addresses) (mac : bytes) : Prop :=
  zlen mac = 6 ∧ zlen (TARGET_IP c) = 4 ∧ zlen (REQUESTER_IP c) = 4 ∧ zlen (OTHER_IP c) = 4.

Lemma us_spec {L} `{LinkLaws L} c mac w : arp_sizes c mac →
  ∃ b w' new, test_who_has_us c mac w = Ok (b, w') ∧ hears w w' new ∧ (b = true ↔ ∃ p, p ∈ new ∧ board_reply c mac p).
Proof.
  intros (Hm & Ht & Hr & Ho). unfold test_who_has_us.
  destruct (retry_spec RETRIES (ask (build_arp_request (REQUESTER_IP c) mac (TARGET_IP c)) (fun reply => check_reply c reply mac))
    (board_reply c mac)) with (w := w) as (o & w' & new & E & Hn & Hs).
  - intros w0. apply (ask_spec _ _ (fun reply => ∃ responder pad, zlen responder = 6 ∧
      reply = arp_reply (TARGET_IP c) mac (REQUESTER_IP c) mac responder ++ pad)).
    + intros reply _. by apply check_reply_exact.
    + intros reply E (responder & pad & Hl & ->). apply (own_request _ _ _ _ (TARGET_IP c)) in E; try done.
      by apply E, arp_reply_says.
  - rewrite (bind_ok _ _ _ _ _ E). exists (bool_decide (is_Some o)), w', new.
    split; [reflexivity|]. split; [exact Hn|]. rewrite bool_decide_eq_true. exact Hs.
Qed.

(** The run of the test on a working interface ends, and its status is 0 exactly
    when a frame heard in the first test is the board's reply, byte for byte up to
    padding, and none heard after the request for the other address is an ARP reply
    of that address. *)
Theorem arp_status {L} `{LinkLaws L} (burst : L → Z) environ c text mac w :
  (∀ l, 0 ≤ burst l ∧ ∀ p l', recv RX_DRAIN_QUIET l = (Some p, l') → burst l' < burst l) →
  arp_config environ = Ok c → read_iface_mac text = Ok mac → arp_sizes c mac → environ ($"ARP_TEST_OTHER_FIRST") = None →
  ∃ status w' first drained second, main burst environ (Some text) w = Ok (status, w') ∧
    hears w w' (first ++ drained ++ second) ∧
    (status = 0 ↔ (∃ p, p ∈ first ∧ board_reply c mac p) ∧ ∀ p, p ∈ second → ¬ says (cut p) (OTHER_IP c)).
Proof.
  intros Hb Ec Em Hz Hf. unfold main. rewrite (bind_ok _ _ w c w) by (unfold lift; by rewrite Ec).
  rewrite (bind_ok _ _ w mac w) by (unfold lift; by rewrite Em). step (open_step w). rewrite Hf, decide_False by done.
  destruct (us_spec c mac w0 Hz) as (b1 & w1 & first & E1 & H1 & Hs1). rewrite (bind_ok _ _ _ _ _ E1). clear E1.
  step (print_step ($"  who-has " ++ dotted (TARGET_IP c) ++ $" (ours):     " ++ verdict b1) w1).
  pose proof Hz as (Hm & Ht & Hr & Ho).
  destruct (silent_spec burst Hb c mac w2) as (b2 & w3 & drained & second & E2 & H2 & Hs2); [|done|].
  { intros reply. by apply own_request. }
  rewrite (bind_ok _ _ _ _ _ E2). clear E2.
  step (print_step ($"  who-has " ++ dotted (OTHER_IP c) ++ $" (silent): " ++ verdict b2) w3).
  exists (if b1 && b2 then 0 else 1), w4, first, drained, second. split; [done|]. split.
  - change (first ++ drained ++ second) with ([] ++ first ++ [] ++ drained ++ second).
    rewrite <- (app_nil_r (drained ++ second)). repeat (eapply hears_app; [done|]). done.
  - rewrite <- Hs1, <- Hs2. clear. destruct b1, b2; split; first [done|by intros []].
Qed.

(** A board at 192.168.10.2 on a wire. *)
Definition sample_addresses : arp_addresses := ArpAddresses [192; 168; 10; 55] [192; 168; 10; 2] [192; 168; 10; 200].
Definition sample_mac : bytes := [2; 0; 0; 0; 0; 1].
Definition sample_board (f : bytes) : list bytes :=
  if decide (f = build_arp_request [192; 168; 10; 55] sample_mac [192; 168; 10; 2])
  then [arp_reply [192; 168; 10; 2] sample_mac [192; 168; 10; 55] sample_mac [0; 128; 225; 0; 0; 0] ++ zeros 18] else [].

Lemma arp_status_witness : ∃ status w' first drained second,
  main wire_burst (fun _ => None) (Some ($"02:00:00:00:00:01")) (World (Wire (answers := sample_board) 0 [] []) [] []) = Ok (status, w') ∧
  hears (World (Wire 0 [] []) [] []) w' (first ++ drained ++ second) ∧
  (status = 0 ↔ (∃ p, p ∈ first ∧ board_reply sample_addresses sample_mac p) ∧
     ∀ p, p ∈ second → ¬ says (cut p) (OTHER_IP sample_addresses)).
Proof.
  apply (arp_status wire_burst (fun _ => None) sample_addresses ($"02:00:00:00:00:01") sample_mac).
  - intros l. apply wire_settles.
  - vm_compute. reflexivity.
  - vm_compute. reflexivity.
  - vm_compute. auto.
  - reflexivity.
Defined.

(** On that wire the status is 0. *)
Example arp_sample_passes :
  ∃ w', main wire_burst (fun _ => None) (Some ($"02:00:00:00:00:01")) (World (Wire (answers := sample_board) 0 [] []) [] []) = Ok (0, w').
Proof. eexists. vm_compute. reflexivity. Qed.
