(* ===== verification/IcmpTest.v ===== *)
(** * The ICMP test

    Model of scripts/eth_icmp_echo_test.py: the board under test answers an echo
    request to its address, and is silent to one for another address and to one with a
    wrong checksum.  The loops that wait are those of the ARP test. *)
From S2P Require Import Prelude Bytes Text NetFrame NetLink ArpTest.

Record icmp_addresses := IcmpAddresses {
  i_target_mac : bytes; i_requester_ip : bytes; i_target_ip : bytes; i_other_ip : bytes }.

Definition icmp_config (environ : str → option str) : res icmp_addresses :=
  octets ← subnet_octets environ;
  parts ← mapM_res (py_int 16) (split_on 58 (default ($"00:80:e1:00:00:00") (environ ($"ETH_TEST_MAC"))));
  mac ← to_bytes parts;
  requester ← to_bytes (octets ++ [55]);
  target ← to_bytes (octets ++ [2]);
  other ← to_bytes (octets ++ [200]);
  Ok (IcmpAddresses mac requester target other).

Definition check_reply (c : icmp_addresses) (reply requester_mac payload : bytes) (ident seq : Z) : res bool :=
  if zlen reply <? 34 + 8 + zlen payload then Ok false
  else
    let ip := slice reply 14 34 in
    let icmp := slice reply 34 (34 + 8 + zlen payload) in
    ip_sum ← inet_checksum ip; icmp_sum ← inet_checksum icmp;
    type ← item icmp 0; code ← item icmp 1;
    i ← pack_be 2 ident; s ← pack_be 2 seq;
    Ok (bool_decide (slice reply 0 6 = requester_mac) && bool_decide (slice reply 6 12 = i_target_mac c) &&
        bool_decide (slice reply 12 14 = ETH_IPV4) &&
        bool_decide (slice ip 12 16 = i_target_ip c) && bool_decide (slice ip 16 20 = i_requester_ip c) &&
        (ip_sum =? 0) && (type =? 0) && (code =? 0) && (icmp_sum =? 0) &&
        bool_decide (slice icmp 4 6 = i) && bool_decide (slice icmp 6 8 = s) && bool_decide (from icmp 8 = payload)).

Section test.
Context {L : Type} `{Link L}.
Variable burst : L → Z.

Definition echo_request (c : icmp_addresses) (requester_mac dst_ip payload : bytes) (ident seq : Z) (corrupt : bool) : res bytes :=
  build_echo_request (i_target_mac c) (i_requester_ip c) requester_mac dst_ip payload ident seq corrupt.

Definition test_ping_us (c : icmp_addresses) (requester_mac : bytes) : prog L bool :=
  let payload := $"hello-icmp-echo-0123456789" in
  frame ← lift (echo_request c requester_mac (i_target_ip c) payload 4660 1 false);
  o ← retry RETRIES (ask frame (fun reply => check_reply c reply requester_mac payload 4660 1));
  ret (bool_decide (is_Some o)).

(** The frame is sent and nothing but it is heard. *)
Definition stays_silent (frame : bytes) (message : str) : prog L bool :=
  _ ← sock_send frame;
  t ← clock;
  until (t + SILENCE_TIMEOUT)
    (fun _ : unit =>
       o ← sock_recv RETRY_TIMEOUT;
       match o with
       | None => ret (Next ())
       | Some reply =>
           if decide (slice reply 0 (zlen frame) = frame) then ret (Next ())
           else _ ← print (message ++ hex_text reply); ret (Stop false)
       end)
    (fun _ => ret true) ().

Definition test_ping_other_stays_silent (c : icmp_addresses) (requester_mac : bytes) : prog L bool :=
  _ ← drain_received_frames burst;
  frame ← lift (echo_request c requester_mac (i_other_ip c) ($"nobody-home") 22136 2 false);
  stays_silent frame ($"  unexpected reply for a non-owned IP: ").

Definition test_corrupted_checksum_dropped (c : icmp_addresses) (requester_mac : bytes) : prog L bool :=
  _ ← drain_received_frames burst;
  frame ← lift (echo_request c requester_mac (i_target_ip c) ($"bad-checksum") 39612 3 true);
  stays_silent frame ($"  unexpected reply to a corrupted-checksum request: ").

Definition main (environ : str → option str) (address : option str) : prog L Z :=
  c ← lift (icmp_config environ);
  match address with
  | None => ret 1
  | Some text =>
      requester_mac ← lift (read_iface_mac text);
      _ ← new_sock;
      let ours ok := $"  ping " ++ dotted (i_target_ip c) ++ $" (ours):             " ++ verdict ok in
      let silent ok := $"  ping " ++ dotted (i_other_ip c) ++ $" (silent):         " ++ verdict ok in
      let corrupted ok := $"  ping with bad ICMP checksum (silent): " ++ verdict ok in
      if decide (environ ($"ICMP_TEST_NEGATIVE_FIRST") = Some ($"1")) then
        ok2 ← test_ping_other_stays_silent c requester_mac; _ ← print (silent ok2);
        ok3 ← test_corrupted_checksum_dropped c requester_mac; _ ← print (corrupted ok3);
        ok1 ← test_ping_us c requester_mac; _ ← print (ours ok1);
        ret (if (ok1 && ok2 && ok3 : bool) then 0 else 1)
      else
        ok1 ← test_ping_us c requester_mac; _ ← print (ours ok1);
        ok2 ← test_ping_other_stays_silent c requester_mac; _ ← print (silent ok2);
        ok3 ← test_corrupted_checksum_dropped c requester_mac; _ ← print (corrupted ok3);
        ret (if (ok1 && ok2 && ok3 : bool) then 0 else 1)
  end.
End test.
