(* ===== verification/IcmpTestFacts.v ===== *)
(** * Facts about the ICMP test

    The replies accepted are the echo replies of the board; a run exits 0 exactly when
    one was heard and the two silent windows brought nothing else than the requests. *)
From S2P Require Import Prelude Bytes Text NetFrame NetLink ArpTest ArpTestFacts IcmpTest.

(** ** The request *)

(** The request is an echo request with a right IP checksum, and a right ICMP checksum
    unless it is corrupted on purpose and was not zero. *)
Lemma echo_request_shape target_mac requester_ip requester_mac dst_ip payload ident seq corrupt :
  address 4 requester_ip → address 4 dst_ip → 0 ≤ ident < 65536 → 0 ≤ seq < 65536 → Forall is_byte payload → 28 + zlen payload < 65536 →
  ∃ ip csum, let icmp := [8; 0] ++ be_bytes 2 (if corrupt : bool then Z.lxor csum 65535 else csum) ++ be_bytes 2 ident ++ be_bytes 2 seq ++ payload in
    build_echo_request target_mac requester_ip requester_mac dst_ip payload ident seq corrupt =
      Ok ((target_mac ++ requester_mac ++ ETH_IPV4) ++ ip ++ icmp) ∧
    zlen ip = 20 ∧ slice ip 12 16 = requester_ip ∧ slice ip 16 20 = dst_ip ∧ inet_checksum ip = Ok 0 ∧
    (inet_checksum icmp = Ok 0 ↔ corrupt = false ∨ csum = 0).
Proof.
  intros Hr Hd Hi Hs Hp Hlen. pose proof (zlen_nonneg payload). set (post := be_bytes 2 ident ++ be_bytes 2 seq ++ payload).
  assert (even_len [8; 0]) as He by by exists 1%nat.
  assert (Forall is_byte ([8; 0] ++ [0; 0] ++ post)) as Hb by (unfold post; eauto 20 with frame).
  assert (checksum_add ([8; 0] ++ [0; 0] ++ post) 0 ≠ 0) as Hne by (apply (checksum_add_pos [] 8 0); [by exists 0%nat|done|lia]).
  destruct (inet_checksum ([8; 0] ++ [0; 0] ++ post)) as [csum|e] eqn:Ec; [|by rewrite inet_checksum_ones in Ec].
  destruct (checksum_verifies _ _ He Hb csum Ec Hne) as [Hc Hv]. destruct (corrupted_verifies _ _ He Hb csum Ec Hne) as [Hc' Hv'].
  destruct (ip_header_ok (28 + zlen payload) 1 requester_ip dst_ip) as (ip & Eip & Hil & _ & _ & Hsrc & Hdst & Hic); [lia..|done|done|].
  assert (0 ≤ (if corrupt then Z.lxor csum 65535 else csum) < 65536) as Hf by by destruct corrupt.
  exists ip, csum. cbv zeta. fold post. split_and!; try done.
  - unfold build_echo_request, pack_icmp. rewrite (pack_be_ok 2 0), (pack_be_ok 2 ident), (pack_be_ok 2 seq) by done. cbn [mbind res_bind].
    assert (∀ x, ([8; 0] ++ be_bytes 2 x ++ be_bytes 2 ident ++ be_bytes 2 seq) ++ payload = [8; 0] ++ be_bytes 2 x ++ post) as Ht
      by (intros; unfold post; by rewrite <- !app_assoc).
    rewrite Ht. change (be_bytes 2 0) with [0; 0]. rewrite Ec. cbn [mbind res_bind]. rewrite pack_be_ok by done.
    cbn [mbind res_bind]. rewrite Ht. replace (20 + zlen ([8; 0] ++ _)) with (28 + zlen payload); [by rewrite Eip|].
    unfold post. rewrite !zlen_app, !zlen_be_bytes. change (zlen [8; 0]) with 2. lia.
  - destruct corrupt; [rewrite Hv'; split; [by right|by intros [|]]|]. split; [by left|done].
Qed.

(** ** The reply *)

Definition echo_reply (c : icmp_addresses) (mac payload : bytes) (ident seq : Z) (reply : bytes) : Prop :=
  ∃ ip csum pad, zlen ip = 20 ∧ zlen csum = 2 ∧ slice ip 12 16 = i_target_ip c ∧ slice ip 16 20 = i_requester_ip c ∧
    inet_checksum ip = Ok 0 ∧ inet_checksum ([0; 0] ++ csum ++ be_bytes 2 ident ++ be_bytes 2 seq ++ payload) = Ok 0 ∧
    reply = (mac ++ i_target_mac c ++ ETH_IPV4) ++ ip ++ ([0; 0] ++ csum ++ be_bytes 2 ident ++ be_bytes 2 seq ++ payload) ++ pad.

Lemma slice_first {A} (x y : A) l : item l 0 = Ok x → item l 1 = Ok y → slice l 0 2 = [x; y].
Proof. destruct l as [|a [|b l]]; cbn; try done. by intros [= ->] [= ->]. Qed.

Lemma icmp_parts (icmp payload : bytes) ident seq : zlen icmp = 8 + zlen payload →
  (item icmp 0 = Ok 0 ∧ item icmp 1 = Ok 0 ∧ slice icmp 4 6 = ident ∧ slice icmp 6 8 = seq ∧ from icmp 8 = payload) ↔
  zlen ident = 2 ∧ zlen seq = 2 ∧ ∃ csum, zlen csum = 2 ∧ icmp = [0; 0] ++ csum ++ ident ++ seq ++ payload.
Proof.
  intros Hl. pose proof (zlen_nonneg payload). split.
  - intros (H0 & H1 & <- & <- & Hp). split; [apply zlen_slice; lia|]. split; [apply zlen_slice; lia|].
    exists (slice icmp 2 4). split; [apply zlen_slice; lia|]. rewrite <- Hp, <- (slice_first _ _ _ H0 H1).
    repeat (rewrite app_assoc, slice_slice_app by lia). symmetry. by apply slice_from_split.
  - intros (Hi & Hs & csum & Hc & ->). split_and!; [done..| | |].
    + rewrite app_assoc. apply slice_mid; [|lia]. rewrite zlen_app, Hc. done.
    + rewrite (app_assoc csum), app_assoc. apply slice_mid; [|lia]. rewrite !zlen_app, Hc, Hi. done.
    + rewrite (app_assoc ident), (app_assoc csum), app_assoc. apply from_app. rewrite !zlen_app, Hc, Hi, Hs. done.
Qed.

Lemma frame_parts (reply : bytes) m dst src type : 34 ≤ m ≤ zlen reply → zlen dst = 6 → zlen src = 6 → zlen type = 2 →
  (slice reply 0 6 = dst ∧ slice reply 6 12 = src ∧ slice reply 12 14 = type) ↔
  ∃ pad, reply = (dst ++ src ++ type) ++ slice reply 14 34 ++ slice reply 34 m ++ pad.
Proof.
  intros Hm Hd Hs Ht. split.
  - intros (<- & <- & <-). exists (from reply m). rewrite <- !app_assoc. repeat (rewrite app_assoc, slice_slice_app by lia).
    symmetry. apply slice_from_split. lia.
  - intros (pad & E). split_and!; rewrite E, <- !app_assoc.
    + by apply slice_app.
    + apply slice_mid; lia.
    + rewrite app_assoc. apply slice_mid; rewrite ?zlen_app; lia.
Qed.

Record icmp_sizes (c : icmp_addresses) (mac : bytes) : Prop := IcmpSizes {
  z_macs : address 6 mac ∧ address 6 (i_target_mac c);
  z_ips : address 4 (i_requester_ip c) ∧ address 4 (i_target_ip c) ∧ address 4 (i_other_ip c) }.

Lemma echo_reply_exact c reply mac payload ident seq :
  icmp_sizes c mac → 0 ≤ ident < 65536 → 0 ≤ seq < 65536 → Forall is_byte reply →
  ∃ b, check_reply c reply mac payload ident seq = Ok b ∧ (b = true ↔ echo_reply c mac payload ident seq reply).
Proof.
  intros [[[Hm _] [Ht _]] _] Hi Hs Hb. pose proof (zlen_nonneg payload). unfold check_reply, echo_reply.
  destruct (Z.ltb_spec (zlen reply) (34 + 8 + zlen payload)) as [Hlt|Hge].
  { exists false. split; [done|]. split; [done|]. intros (ip & csum & pad & Hip & Hcs & _ & _ & _ & _ & ->).
    rewrite !zlen_app, !zlen_be_bytes in Hlt. change (zlen ETH_IPV4) with 2 in Hlt. change (zlen [0; 0]) with 2 in Hlt.
    pose proof (zlen_nonneg pad). lia. }
  set (m := 34 + 8 + zlen payload) in *. set (ip := slice reply 14 34). set (icmp := slice reply 34 m).
  assert (zlen icmp = 8 + zlen payload) as Hil by (unfold icmp; rewrite zlen_slice; lia).
  destruct (item_ok icmp 0) as [t Et]; [lia|]. destruct (item_ok icmp 1) as [co Eco]; [lia|].
  rewrite (inet_checksum_ones ip), (inet_checksum_ones icmp) by by apply slice_byte.
  cbn [mbind res_bind]. rewrite Et, Eco, !pack_be_ok by done. cbn [mbind res_bind]. eexists. split; [done|].
  rewrite !andb_true_iff, !bool_decide_eq_true, !Z.eqb_eq.
  assert (∀ x, Forall is_byte x → 65535 - ones (checksum_add x 0) = 0 ↔ inet_checksum x = Ok 0) as Hsum
    by (intros x Hx; rewrite inet_checksum_ones by done; split; [by intros ->|by intros [= ->]]).
  rewrite (Hsum ip), (Hsum icmp) by by apply slice_byte.
  pose proof (frame_parts reply m mac (i_target_mac c) ETH_IPV4 ltac:(lia) Hm Ht eq_refl) as Hf.
  pose proof (icmp_parts icmp payload (be_bytes 2 ident) (be_bytes 2 seq) Hil) as Hp.
  split.
  - intros H1. destruct_and!. subst t co. destruct (proj1 Hf) as [pad Er]; [done|]. destruct (proj1 Hp) as (_ & _ & csum & Hcs & Ei); [done|].
    exists ip, csum, pad. rewrite <- Ei. split_and!; try done. unfold ip. rewrite zlen_slice; lia.
  - intros (ip' & csum & pad & Hip & Hcs & Hsrc & Hdst & Hv1 & Hv2 & Er).
    set (icmp' := [0; 0] ++ csum ++ _) in *.
    assert (zlen icmp' = 8 + zlen payload) as Hil'
      by (unfold icmp'; rewrite !zlen_app, !zlen_be_bytes; change (zlen [0; 0]) with 2; lia).
    set (eth := mac ++ i_target_mac c ++ ETH_IPV4) in *.
    assert (zlen eth = 14) as Hel by (unfold eth; by rewrite !zlen_app, Hm, Ht).
    assert (ip = ip') as Eip by (unfold ip; rewrite Er; apply slice_mid; lia).
    assert (icmp = icmp') as Ei by (unfold icmp; rewrite Er, app_assoc; apply slice_mid; rewrite ?zlen_app; lia).
    destruct (proj2 Hf) as (? & ? & ?); [exists pad; fold ip; fold icmp; by rewrite Eip, Ei|].
    destruct (proj2 Hp) as (H0' & H1' & ? & ? & ?); [split; [apply zlen_be_bytes|]; split; [apply zlen_be_bytes|]; by exists csum|].
    rewrite H0' in Et. rewrite H1' in Eco. injection Et as <-. injection Eco as <-. rewrite Eip, Ei in *. split_and!; done.
Qed.

(** A request is no reply: its type is 8. *)
Lemma own_echo c mac dst payload ident seq corrupt frame reply payload' ident' seq' :
  icmp_sizes c mac → echo_request c mac dst payload ident seq corrupt = Ok frame → address 4 dst →
  0 ≤ ident < 65536 → 0 ≤ seq < 65536 → Forall is_byte payload → 28 + zlen payload < 65536 →
  slice reply 0 (zlen frame) = frame → ¬ echo_reply c mac payload' ident' seq' reply.
Proof.
  intros [[[Hm _] [Ht _]] (Hr & _ & _)] Ef Hd Hi Hs Hb Hlen Eown (ip' & csum' & pad & Hip & _ & _ & _ & _ & _ & Er).
  destruct (echo_request_shape (i_target_mac c) (i_requester_ip c) mac dst payload ident seq corrupt) as (ip & csum & Esh & Hil & _);
    [done..|]. unfold echo_request in Ef. rewrite Esh in Ef. injection Ef as Ef.
  assert (item reply 34 = Ok 0) as E0.
  { rewrite Er, (item_app_r _ _ 34 20), (item_app_r _ _ 20 0) by (rewrite ?zlen_app, ?Hm, ?Ht; lia || done). done. }
  rewrite <- (slice_from_split reply (zlen frame)), Eown, <- Ef in E0 by apply zlen_nonneg. rewrite <- !(app_assoc (_ ++ _)), <- (app_assoc ip) in E0.
  rewrite (item_app_r _ _ 34 20), (item_app_r _ _ 20 0) in E0 by (rewrite ?zlen_app, ?Hm, ?Ht; lia || done). done.
Qed.

Section run.
Context {L : Type} `{LinkLaws L}.
Variable burst : L → Z.
Hypothesis settles : ∀ l, 0 ≤ burst l ∧ ∀ p l', recv RX_DRAIN_QUIET l = (Some p, l') → burst l' < burst l.

(** The frame comes back, and nothing else. *)
Definition only_own (frame : bytes) (p : packet) : Prop := slice (cut p) 0 (zlen frame) = frame.

Lemma stays_silent_spec frame message w :
  ∃ b w' new, stays_silent frame message w = Ok (b, w') ∧ hears w w' new ∧ (b = true ↔ ∀ p, p ∈ new → only_own frame p).
Proof.
  unfold stays_silent. step (send_step frame w). rewrite (bind_ok clock _ w0 (now (w_link w0)) w0) by done.
  match goal with |- context [until ?dl ?body ?after () w0] =>
    destruct (until_total dl body after
      (fun _ w' => ∃ new, hears w w' new ∧ ∀ p, p ∈ new → only_own frame p)
      (fun (b : bool) w' => ∃ new, hears w w' new ∧ (b = true ↔ ∀ p, p ∈ new → only_own frame p)) () w0)
      as (b & w' & E & new & Hn & Hb) end.
  - intros [] w2 (new & Hn & Hno) _. destruct (sock_recv_step RETRY_TIMEOUT w2) as (o & w3 & E & Hh3 & Hlt & _).
    rewrite (bind_ok _ _ _ _ _ E). pose proof (hears_app _ _ _ _ _ Hn Hh3) as Hh4.
    destruct o as [p|]; cbn [option_map option_list] in *.
    2:{ exists (Next ()), w3. split; [done|]. split; [|done]. eexists. split; [done|]. by rewrite app_nil_r. }
    destruct (decide _) as [Ef|Ef].
    + exists (Next ()), w3. split; [done|]. split; [|done]. eexists. split; [done|].
      intros q [Hq| ->%list_elem_of_singleton]%elem_of_app; auto.
    + step (print_step (message ++ hex_text (cut p)) w3). exists (Stop false), w1. split; [done|]. exists (new ++ [p]).
      split; [rewrite <- (app_nil_r (new ++ [p])); by eapply hears_app|]. split; [done|].
      intros Hall. destruct Ef. apply (Hall p), elem_of_app. right. left.
  - intros [] w2 (new & Hn & Hno) _. exists true, w2. split; [done|]. by exists new.
  - exists []. split; [done|]. by intros p ?%not_elem_of_nil.
  - by exists b, w', new.
Qed.

Lemma quiet_test_spec c mac dst payload ident seq corrupt message w :
  icmp_sizes c mac → address 4 dst → 0 ≤ ident < 65536 → 0 ≤ seq < 65536 → Forall is_byte payload → 28 + zlen payload < 65536 →
  ∃ frame b w' drained new, echo_request c mac dst payload ident seq corrupt = Ok frame ∧
    (_ ← drain_received_frames burst; frame ← lift (echo_request c mac dst payload ident seq corrupt); stays_silent frame message) w
      = Ok (b, w') ∧ hears w w' (drained ++ new) ∧ (b = true ↔ ∀ p, p ∈ new → only_own frame p).
Proof using settles.
  intros [_ (Hr & _ & _)] Hd Hi Hs Hb Hlen.
  destruct (echo_request_shape (i_target_mac c) (i_requester_ip c) mac dst payload ident seq corrupt) as (ip & csum & Esh & _); [done..|].
  unfold echo_request. rewrite Esh. set (frame := _ ++ _). destruct (drain_spec burst settles w) as (w1 & drained & E1 & H1).
  rewrite (bind_ok _ _ _ _ _ E1). rewrite (bind_ok _ _ w1 frame w1) by done.
  destruct (stays_silent_spec frame message w1) as (b & w2 & new & E2 & H2 & Hb2).
  exists frame, b, w2, drained, new. split_and!; [done..| |done]. by eapply hears_app.
Qed.

Lemma ping_us_spec c mac w : icmp_sizes c mac →
  ∃ b w' new, test_ping_us c mac w = Ok (b, w') ∧ hears w w' new ∧
    (b = true ↔ ∃ p, p ∈ new ∧ echo_reply c mac ($"hello-icmp-echo-0123456789") 4660 1 (cut p)).
Proof.
  intros Hz. pose proof Hz as [_ (Hr & Ht & _)]. unfold test_ping_us. set (payload := $"hello-icmp-echo-0123456789").
  assert (Forall is_byte payload ∧ 28 + zlen payload < 65536) as [Hb Hl] by (apply (bool_decide_unpack _); by vm_compute).
  destruct (echo_request c mac (i_target_ip c) payload 4660 1 false) as [frame|e] eqn:Ef.
  2:{ unfold echo_request in Ef. edestruct echo_request_shape as (ip & csum & Esh & _); [exact Hr|exact Ht| | |exact Hb|exact Hl|];
        [| |rewrite Esh in Ef; discriminate Ef]; lia. }
  rewrite (bind_ok _ _ w frame w) by done.
  destruct (retry_spec RETRIES (ask frame (fun reply => check_reply c reply mac payload 4660 1))
    (fun p => echo_reply c mac payload 4660 1 (cut p))) with (w := w) as (o & w' & new & E & Hn & Hs).
  - intros w0. apply (ask_spec _ _ (echo_reply c mac payload 4660 1)).
    + intros reply Hby. apply echo_reply_exact; [done|lia..|done].
    + intros reply. eapply own_echo; [done|exact Ef|done|lia..|done|done].
  - rewrite (bind_ok _ _ _ _ _ E). exists (bool_decide (is_Some o)), w', new.
    split; [reflexivity|]. split; [exact Hn|]. rewrite bool_decide_eq_true. exact Hs.
Qed.
End run.

(** The run of the test on a working interface ends, and its status is 0 exactly
    when a frame heard in the first test is the board's echo reply, with both
    checksums right, and in the windows after the request to another address and the
    corrupted one nothing is heard but these requests themselves. *)
Theorem icmp_status {L} `{LinkLaws L} (burst : L → Z) environ c text mac w :
  (∀ l, 0 ≤ burst l ∧ ∀ p l', recv RX_DRAIN_QUIET l = (Some p, l') → burst l' < burst l) →
  icmp_config environ = Ok c → read_iface_mac text = Ok mac → icmp_sizes c mac → environ ($"ICMP_TEST_NEGATIVE_FIRST") = None →
  ∃ other corrupted status w' first drained second drained' third,
    echo_request c mac (i_other_ip c) ($"nobody-home") 22136 2 false = Ok other ∧
    echo_request c mac (i_target_ip c) ($"bad-checksum") 39612 3 true = Ok corrupted ∧
    main burst environ (Some text) w = Ok (status, w') ∧ hears w w' (first ++ (drained ++ second) ++ (drained' ++ third)) ∧
    (status = 0 ↔ (∃ p, p ∈ first ∧ echo_reply c mac ($"hello-icmp-echo-0123456789") 4660 1 (cut p)) ∧
       (∀ p, p ∈ second → only_own other p) ∧ ∀ p, p ∈ third → only_own corrupted p).
Proof.
  intros Hb Ec Em Hz Hf. unfold main. rewrite (bind_ok _ _ w c w) by (unfold lift; by rewrite Ec).
  rewrite (bind_ok _ _ w mac w) by (unfold lift; by rewrite Em). step (open_step w). rewrite Hf, decide_False by done.
  destruct (ping_us_spec c mac w0 Hz) as (b1 & w1 & first & E1 & H1 & Hs1). rewrite (bind_ok _ _ _ _ _ E1). clear E1.
  match goal with |- context [print ?line ≫= _] => step (print_step line w1) end.
  pose proof Hz as [_ (Hr & Ht & Ho)].
  assert (Forall is_byte ($"nobody-home") ∧ 28 + zlen ($"nobody-home") < 65536 ∧
    Forall is_byte ($"bad-checksum") ∧ 28 + zlen ($"bad-checksum") < 65536) as (Hp1 & Hp2 & Hp3 & Hp4)
    by (apply (bool_decide_unpack _); by vm_compute).
  destruct (quiet_test_spec burst Hb c mac (i_other_ip c) ($"nobody-home") 22136 2 false ($"  unexpected reply for a non-owned IP: ") w2)
    as (other & b2 & w3 & drained & second & Ef2 & E2 & H2 & Hs2); [done|done|lia|lia|done|done|].
  rewrite (bind_ok (test_ping_other_stays_silent burst c mac) _ w2 b2 w3 E2). clear E2.
  match goal with |- context [print ?line ≫= _] => step (print_step line w3) end.
  destruct (quiet_test_spec burst Hb c mac (i_target_ip c) ($"bad-checksum") 39612 3 true ($"  unexpected reply to a corrupted-checksum request: ") w4)
    as (corrupted & b3 & w5 & drained' & third & Ef3 & E3 & H3 & Hs3); [done|done|lia|lia|done|done|].
  rewrite (bind_ok (test_corrupted_checksum_dropped burst c mac) _ w4 b3 w5 E3). clear E3.
  match goal with |- context [print ?line ≫= _] => step (print_step line w5) end.
  exists other, corrupted, (if b1 && b2 && b3 then 0 else 1), w6, first, drained, second, drained', third. split_and!; [done..| |].
  - change (first ++ (drained ++ second) ++ drained' ++ third) with ([] ++ first ++ [] ++ (drained ++ second) ++ [] ++ drained' ++ third).
    rewrite <- (app_nil_r (drained' ++ third)). repeat (eapply hears_app; [eassumption|]). done.
  - rewrite <- Hs1, <- Hs2, <- Hs3. clear. destruct b1, b2, b3; split; first [done|by intros (?&?&?)].
Qed.

(** A board at 192.168.10.2 that answers the first request. *)
Definition sample_c : icmp_addresses :=
  IcmpAddresses [0; 128; 225; 0; 0; 0] [192; 168; 10; 55] [192; 168; 10; 2] [192; 168; 10; 200].
Definition sample_pong : bytes :=
  match build_echo_request sample_mac [192; 168; 10; 2] [0; 128; 225; 0; 0; 0] [192; 168; 10; 55] ($"hello-icmp-echo-0123456789") 4660 1 false with
  | Ok f => slice f 0 34 ++ [0; 0] ++ be_bytes 2 (be_value (slice f 36 38) + 2048) ++ from f 38
  | Err _ => []
  end.
Definition sample_board (f : bytes) : list bytes :=
  if decide (slice f 30 34 = [192; 168; 10; 2] ∧ slice f 38 42 = [18; 52; 0; 1]) then [sample_pong] else [].

Lemma icmp_status_witness : ∃ other corrupted status w' first drained second drained' third,
    echo_request sample_c sample_mac (i_other_ip sample_c) ($"nobody-home") 22136 2 false = Ok other ∧
    echo_request sample_c sample_mac (i_target_ip sample_c) ($"bad-checksum") 39612 3 true = Ok corrupted ∧
    main wire_burst (fun _ => None) (Some ($"02:00:00:00:00:01")) (World (Wire (answers := sample_board) 0 [] []) [] []) = Ok (status, w') ∧
    hears (World (Wire 0 [] []) [] []) w' (first ++ (drained ++ second) ++ (drained' ++ third)) ∧
    (status = 0 ↔ (∃ p, p ∈ first ∧ echo_reply sample_c sample_mac ($"hello-icmp-echo-0123456789") 4660 1 (cut p)) ∧
       (∀ p, p ∈ second → only_own other p) ∧ ∀ p, p ∈ third → only_own corrupted p).
Proof.
  apply (icmp_status wire_burst (fun _ => None) sample_c ($"02:00:00:00:00:01") sample_mac).
  - intros l. apply wire_settles.
  - vm_compute. reflexivity.
  - vm_compute. reflexivity.
  - constructor; apply (bool_decide_unpack _); vm_compute; exact I.
  - reflexivity.
Defined.

(** On that wire the status is 0. *)
Example icmp_sample_passes :
  ∃ w', main wire_burst (fun _ => None) (Some ($"02:00:00:00:00:01")) (World (Wire (answers := sample_board) 0 [] []) [] []) = Ok (0, w').
Proof. eexists. vm_compute. reflexivity. Qed.
