(* ===== verification/TcpEcho.v ===== *)
(** * The TCP test

    Model of scripts/eth_tcp_echo_test.py: a TCP client in raw frames, with the tests of
    an echo server (silence to wrong frames, handshake, echo, close, reconnect), of two
    overlapping connections, and of a concurrent web server. *)
From S2P Require Import Prelude Bytes Text Dict NetFrame NetLink ArpTest.

Definition HANDSHAKE_CLIENT_PORT : Z := 43210.
Definition HANDSHAKE_CLIENT_ISN : Z := 500.
Definition RECONNECT_CLIENT_PORT : Z := 43211.
Definition RECONNECT_CLIENT_ISN : Z := 900.
Definition DATA_ECHO_PAYLOAD : bytes := $"Hello, TCP echo!".
Definition CRLF : bytes := [13; 10].
Definition CONNECTED_RESPONSE_PAYLOAD : bytes := $"HTTP/1.0 200 OK" ++ CRLF ++ CRLF.

(** [bytes.fromhex]: pairs of digits, with spaces between them. *)
Fixpoint from_hex (s : str) : res bytes :=
  match s with
  | [] => Ok []
  | a :: s' =>
      if is_space a && is_ascii [a] then from_hex s'
      else match s' with
           | b :: s'' => if is_hex_digit a && is_hex_digit b
                         then rest ← from_hex s''; Ok (16 * digit_val a + digit_val b :: rest) else Err ValueError
           | [] => Err ValueError
           end
  end.

Definition tcp_config (environ : str → option str) : res (addresses * Z) :=
  octets ← subnet_octets environ;
  mac ← from_hex (replace ($":") [] (default ($"00:80:e1:00:00:00") (environ ($"ETH_TEST_MAC"))));
  client ← to_bytes (octets ++ [55]);
  server ← to_bytes (octets ++ [2]);
  port ← py_int 10 (default ($"7") (environ ($"TCP_TEST_PORT")));
  Ok (Addresses client server mac, port).

Section test.
Context {L : Type} `{Link L}.
Variable c : addresses.

(** [build_frame] with the data and no options. *)
Definition frame_of (server_port : Z) (client_mac : bytes) (client_port seq ack flags : Z) (data : bytes) : res bytes :=
  build_frame c server_port client_mac client_port seq ack flags data false [].

(** Frames of this host, short ones and other traffic are passed over. *)
Definition from_server (client_mac : bytes) (p : packet) : bool :=
  let reply := cut p in
  negb (p_outgoing p) && negb (zlen reply <? 14) && bool_decide (slice reply 0 6 = client_mac) &&
  bool_decide (slice reply 6 12 = SERVER_MAC c) && bool_decide (slice reply 12 14 = ETH_IPV4).

Definition recv_reply (sent_frame : bytes) (timeout : Z) : prog L (option bytes) :=
  t ← clock;
  let deadline := t + timeout in
  until deadline
    (fun _ : unit =>
       t ← clock;
       o ← sock_recvfrom (Z.max (deadline - t) 1000000);
       ret (match o with
            | None => Stop None
            | Some p => if from_server (slice sent_frame 6 12) p then Stop (Some (cut p)) else Next ()
            end))
    (fun _ => ret None) ().

Definition send_and_wait (frame : bytes) : prog L (option bytes) :=
  retry RETRIES (_ ← sock_send frame; recv_reply frame RETRY_TIMEOUT).

Definition expect_silence (frame : bytes) : prog L bool :=
  _ ← sock_send frame;
  reply ← recv_reply frame SILENCE_TIMEOUT;
  match reply with
  | Some reply => _ ← print ($"  unexpected reply: " ++ hex_text reply); ret false
  | None => ret true
  end.

Definition isns : prog L (list (Z * Z)) := fun w => Ok (w_isns w, w).
Definition set_isn (client_port seq : Z) : prog L unit :=
  fun w => Ok ((), World (w_link w) (dset client_port seq (w_isns w)) (w_out w)).
Definition server_isn (client_port : Z) : prog L Z := d ← isns; lift (dget_or_raise client_port d).

(** [0x%02x]. *)
Definition hex2 (n : Z) : str := $"0x" ++ (if n <? 16 then $"0" else []) ++ show_nat 16 n.

(** A socket around a test. *)
Definition with_sock {A} (m : prog L A) : prog L A := _ ← new_sock; a ← m; _ ← sock_close; ret a.

Definition test_syn_wrong_port_silent (client_mac : bytes) : prog L bool :=
  with_sock (frame ← lift (frame_of 9999 client_mac 40001 100 0 FLAG_SYN []); expect_silence frame).

Definition test_syn_bad_checksum_silent (server_port : Z) (client_mac : bytes) : prog L bool :=
  with_sock (frame ← lift (build_frame c server_port client_mac 40002 200 0 FLAG_SYN [] true []); expect_silence frame).

Definition test_syn_with_options_accepted (server_port : Z) (client_mac : bytes) : prog L bool :=
  with_sock (
    syn ← lift (build_frame c server_port client_mac 40003 300 0 FLAG_SYN [] false [2; 4; 5; 180]);
    reply ← send_and_wait syn;
    match reply with
    | None => _ ← print ($"  no SYN-ACK reply to a SYN carrying a TCP option"); ret false
    | Some reply =>
        s ← lift (unpack_segment (slice (slice reply 34 54) 0 14));
        known ← isns;
        let ok := (src_port s =? server_port) && (dst_port s =? 40003) && (s_flags s =? Z.lor FLAG_SYN FLAG_ACK) &&
                  (s_ack s =? 301) && bool_decide (s_seq s ∉ map snd known) in
        _ ← (if ok : bool then ret ()
             else print ($"  bad SYN-ACK for options-bearing SYN: src_port=" ++ dec (src_port s) ++ $" dst_port=" ++
                         dec (dst_port s) ++ $" seq=" ++ dec (s_seq s) ++ $" ack=" ++ dec (s_ack s) ++ $" flags=" ++
                         hex2 (s_flags s)));
        rst ← lift (frame_of server_port client_mac 40003 301 0 FLAG_RST []);
        _ ← sock_send rst;
        ret ok
    end).

(** The parts of a reply that the checks read; [len] bytes of TCP, without the padding
    of a short frame. *)
Record received := Received {
  eth_dst : bytes; eth_src : bytes; ethertype : bytes; r_segment : segment; r_data : bytes; ip_ok : bool; tcp_ok : bool }.
Definition read_reply (reply : bytes) (len : Z) : res received :=
  let ip := slice reply 14 34 in
  let tcp := slice reply 34 (34 + len) in
  s ← unpack_segment (slice tcp 0 14);
  ip_sum ← inet_checksum ip;
  tcp_right ← verify_tcp ip tcp;
  Ok (Received (slice reply 0 6) (slice reply 6 12) (slice reply 12 14) s (from tcp 20) (ip_sum =? 0) tcp_right).

(** What every reply of a connection has. *)
Definition belongs (server_port : Z) (client_mac : bytes) (client_port : Z) (r : received) : bool :=
  bool_decide (eth_dst r = client_mac) && bool_decide (eth_src r = SERVER_MAC c) && bool_decide (ethertype r = ETH_IPV4) &&
  (src_port (r_segment r) =? server_port) && (dst_port (r_segment r) =? client_port).

Definition show_ports (s : segment) : str := $"src_port=" ++ dec (src_port s) ++ $" dst_port=" ++ dec (dst_port s) ++ $" ".
Definition show_numbers (s : segment) : str := $"seq=" ++ dec (s_seq s) ++ $" ack=" ++ dec (s_ack s) ++ $" flags=" ++ hex2 (s_flags s).

Definition do_handshake (server_port : Z) (client_mac : bytes) (client_port client_isn : Z) : prog L bool :=
  syn ← lift (frame_of server_port client_mac client_port client_isn 0 FLAG_SYN []);
  reply ← send_and_wait syn;
  match reply with
  | None => _ ← print ($"  no SYN-ACK reply"); ret false
  | Some reply =>
      r ← lift (read_reply reply 20);
      known ← isns;
      let s := r_segment r in
      if belongs server_port client_mac client_port r && (s_flags s =? Z.lor FLAG_SYN FLAG_ACK) && (s_ack s =? client_isn + 1) &&
         bool_decide (s_seq s ∉ map snd known) && ip_ok r && tcp_ok r
      then
        _ ← set_isn client_port (s_seq s);
        ack_frame ← lift (frame_of server_port client_mac client_port (client_isn + 1) (seq_add (s_seq s) 1) FLAG_ACK []);
        silent ← expect_silence ack_frame;
        _ ← (if silent : bool then ret () else print ($"  server replied to the final ACK (should stay silent)"));
        ret silent
      else _ ← print ($"  bad SYN-ACK: " ++ show_ports s ++ show_numbers s); ret false
  end.

Definition test_handshake_only (server_port : Z) (client_mac : bytes) : prog L bool :=
  with_sock (do_handshake server_port client_mac HANDSHAKE_CLIENT_PORT HANDSHAKE_CLIENT_ISN).

Definition test_data_echo (server_port : Z) (client_mac : bytes) : prog L bool :=
  _ ← new_sock;
  let seq := HANDSHAKE_CLIENT_ISN + 1 in
  isn ← server_isn HANDSHAKE_CLIENT_PORT;
  let ack := seq_add isn 1 in
  frame ← lift (frame_of server_port client_mac HANDSHAKE_CLIENT_PORT seq ack (Z.lor FLAG_ACK FLAG_PSH) DATA_ECHO_PAYLOAD);
  reply ← send_and_wait frame;
  _ ← sock_close;
  match reply with
  | None => _ ← print ($"  no echo reply"); ret false
  | Some reply =>
      r ← lift (read_reply reply (20 + zlen DATA_ECHO_PAYLOAD));
      let s := r_segment r in
      let ok := belongs server_port client_mac HANDSHAKE_CLIENT_PORT r && (s_flags s =? Z.lor FLAG_ACK FLAG_PSH) &&
                (s_seq s =? ack) && (s_ack s =? seq + zlen DATA_ECHO_PAYLOAD) && bool_decide (r_data r = DATA_ECHO_PAYLOAD) &&
                ip_ok r && tcp_ok r in
      _ ← (if ok : bool then ret ()
           else print ($"  bad echo reply: " ++ show_numbers s ++ $" data=" ++ bytes_repr (r_data r)));
      ret ok
  end.

Definition test_close (server_port : Z) (client_mac : bytes) : prog L bool :=
  with_sock (
    let client_seq := HANDSHAKE_CLIENT_ISN + 1 + zlen DATA_ECHO_PAYLOAD in
    isn ← server_isn HANDSHAKE_CLIENT_PORT;
    let server_seq := seq_add isn (1 + zlen DATA_ECHO_PAYLOAD) in
    fin ← lift (frame_of server_port client_mac HANDSHAKE_CLIENT_PORT client_seq server_seq (Z.lor FLAG_FIN FLAG_ACK) []);
    reply ← send_and_wait fin;
    match reply with
    | None => _ ← print ($"  no FIN-ACK reply"); ret false
    | Some reply =>
        r ← lift (read_reply reply 20);
        let s := r_segment r in
        if belongs server_port client_mac HANDSHAKE_CLIENT_PORT r && (s_flags s =? Z.lor FLAG_FIN FLAG_ACK) &&
           (s_seq s =? server_seq) && (s_ack s =? client_seq + 1) && ip_ok r && tcp_ok r
        then
          final_ack ← lift (frame_of server_port client_mac HANDSHAKE_CLIENT_PORT (client_seq + 1) (seq_add server_seq 1) FLAG_ACK []);
          silent ← expect_silence final_ack;
          _ ← (if silent : bool then ret () else print ($"  server replied to the final closing ACK (should stay silent)"));
          ret silent
        else _ ← print ($"  bad FIN-ACK: " ++ show_numbers s); ret false
    end).

Definition test_reconnect_after_close (server_port : Z) (client_mac : bytes) : prog L bool :=
  with_sock (do_handshake server_port client_mac RECONNECT_CLIENT_PORT RECONNECT_CLIENT_ISN).

(** ** Two overlapping connections *)

Definition CONNECTED_LARGE_RESPONSE : bytes := CONNECTED_RESPONSE_PAYLOAD ++ replicate 1460 90 ++ [90].
Definition second_payload : bytes := $"second-B".
Definition second_response : bytes := $"conn-B" ++ nl ++ $"!".
Definition rx_stale_long : bytes := replicate 1000 76.
Definition rx_stale_short : bytes := replicate 10 115.
Definition want : Z := zlen CONNECTED_LARGE_RESPONSE.

(** The loop's variables. *)
Record large := Large {
  collected : bytes; client_seq : Z; server_seq : Z; second_client_seq : Z; second_server_seq : Z;
  fin_acked : bool; second_response_ok : bool; second_fin_acked : bool; rx_stale_ready_ok : bool; unread_ok : bool;
  fin_sent_b : bool; reset_sent_a : bool }.

Definition unfinished (st : large) : bool :=
  (zlen (collected st) <? want) || negb (second_response_ok st) || negb (rx_stale_ready_ok st) || negb (unread_ok st) ||
  negb (fin_sent_b st) || negb (reset_sent_a st) || negb (second_fin_acked st).

Section connected.
Variable server_port : Z.
Variable client_mac : bytes.

(** A frame on connection A or B. *)
Definition on_a (seq ack flags : Z) (data : bytes) : res bytes :=
  frame_of server_port client_mac HANDSHAKE_CLIENT_PORT seq ack flags data.
Definition on_b (seq ack flags : Z) (data : bytes) : res bytes :=
  frame_of server_port client_mac RECONNECT_CLIENT_PORT seq ack flags data.
Definition ACK_PSH : Z := Z.lor FLAG_ACK FLAG_PSH.

(** A segment on connection B: the new state and the frames sent. *)
Definition segment_b (st : large) (s : segment) (payload_len : Z) (payload : bytes) : res (large * list bytes) :=
  let '(Large col ca sa cb sb fin resp finb rx unread fsent rsent) := st in
  if (0 <? payload_len) && negb resp then
    if (s_seq s =? sb) && (s_ack s =? cb) && bool_decide (payload = second_response) then
      let sb := seq_add sb payload_len in
      ack ← on_b cb sb FLAG_ACK [];
      long ← on_b cb sb ACK_PSH rx_stale_long;
      Ok (Large col ca sa (cb + zlen rx_stale_long) sb fin true finb rx unread fsent rsent, [ack; long])
    else Ok (st, [])
  else if (0 <? payload_len) && negb rx then
    if (s_seq s =? sb) && bool_decide (payload = $"k") then
      let sb := sb + payload_len in
      short ← on_b cb sb ACK_PSH rx_stale_short;
      Ok (Large col ca sa (cb + zlen rx_stale_short) sb fin resp finb true unread fsent rsent, [short])
    else Ok (st, [])
  else if (0 <? payload_len) && negb fsent then
    if (s_seq s =? sb) && bool_decide (payload = $"y") then
      let sb := sb + payload_len in
      f ← on_b cb sb (Z.lor FLAG_FIN FLAG_ACK) [];
      Ok (Large col ca sa (cb + 1) sb fin resp finb rx unread true rsent, [f])
    else Ok (st, [])
  else if negb (Z.land (s_flags s) FLAG_FIN =? 0) && negb finb && (s_seq s =? sb) then
    let sb := sb + 1 in
    ack ← on_b cb sb FLAG_ACK [];
    Ok (Large col ca sa cb sb fin resp true rx unread fsent rsent, [ack])
  else Ok (st, []).

(** A segment on connection A. *)
Definition segment_a (st : large) (s : segment) (payload_len : Z) (payload : bytes) : res (large * list bytes) :=
  let '(Large col ca sa cb sb fin resp finb rx unread fsent rsent) := st in
  if (zlen col <? want) && (0 <? payload_len) then
    if negb (s_seq s =? sa) then
      dup_ack ← on_a ca sa FLAG_ACK []; Ok (st, [dup_ack])
    else
      let col := col ++ payload in
      let sa := sa + payload_len in
      ack ← on_a ca sa FLAG_ACK [];
      if want <=? zlen col then
        r ← on_a ca sa ACK_PSH ($"r");
        Ok (Large col (ca + 1) sa cb sb fin resp finb rx unread fsent rsent, [ack; r])
      else Ok (Large col ca sa cb sb fin resp finb rx unread fsent rsent, [ack])
  else if (want <=? zlen col) && (0 <? payload_len) then
    if negb unread && (s_seq s =? sa) && bool_decide (payload = $"p") then
      let sa := sa + payload_len in
      q ← on_b cb sb ACK_PSH ($"q");
      ack ← on_a ca sa FLAG_ACK [];
      Ok (Large col ca sa (cb + 1) sb fin resp finb rx true fsent rsent, [q; ack])
    else if unread && fsent && negb rsent && (s_seq s =? sa) && bool_decide (payload = $"z") then
      let sa := sa + payload_len in
      rst ← on_a ca sa (Z.lor FLAG_RST FLAG_ACK) [];
      Ok (Large col ca sa cb sb fin resp finb rx unread fsent true, [rst])
    else ack ← on_a ca sa FLAG_ACK []; Ok (st, [ack])
  else if negb (Z.land (s_flags s) FLAG_FIN =? 0) && negb fin && (s_seq s =? sa) then
    let sa := sa + 1 in
    fin_ack ← on_a ca sa FLAG_ACK [];
    Ok (Large col ca sa cb sb true resp finb rx unread fsent rsent, [fin_ack])
  else Ok (st, []).

Definition on_reply (st : large) (reply : bytes) : res (large * list bytes) :=
  if zlen reply <? 54 then Ok (st, [])
  else
    let ip := slice reply 14 34 in
    let tcp_hdr := slice reply 34 54 in
    s ← unpack_segment (slice tcp_hdr 0 14);
    if negb (src_port s =? server_port) || negb (bool_decide (dst_port s ∈ [HANDSHAKE_CLIENT_PORT; RECONNECT_CLIENT_PORT]))
    then Ok (st, [])
    else if Z.land (s_flags s) FLAG_ACK =? 0 then Ok (st, [])
    else
      total_len ← unpack_be 2 ip 2;
      let payload_len := total_len - 40 in
      let payload := slice reply 54 (54 + payload_len) in
      if dst_port s =? RECONNECT_CLIENT_PORT then segment_b st s payload_len payload else segment_a st s payload_len payload.

Fixpoint send_all (frames : list bytes) : prog L unit :=
  match frames with [] => ret () | f :: frames => _ ← sock_send f; send_all frames end.

Fixpoint first_difference (i : Z) (got expected : bytes) : option (Z * Z * Z) :=
  match got, expected with
  | g :: got, e :: expected => if g =? e then first_difference (i + 1) got expected else Some (i, g, e)
  | _, _ => None
  end.

(** The complaints in the order of the checks; none means that the test passes. *)
Definition large_problem (st : large) : list str :=
  if negb (bool_decide (collected st = CONNECTED_LARGE_RESPONSE)) then
    ($"  connected large response mismatch: got " ++ dec (zlen (collected st)) ++ $" bytes, want " ++ dec want)
    :: match first_difference 0 (collected st) CONNECTED_LARGE_RESPONSE with
       | Some (i, g, e) => [$"    first difference at byte " ++ dec i ++ $": got " ++ hex2 g ++ $" want " ++ hex2 e]
       | None => []
       end
  else if negb (second_response_ok st) then [$"  second overlapping connection response mismatch"]
  else if negb (rx_stale_ready_ok st) then [$"  second connection never answered the long segment"]
  else if negb (unread_ok st) then [$"  connection A's unread byte never arrived (#846)"]
  else if negb (fin_sent_b st) then [$"  connection B's FIN trigger byte never arrived (#1121)"]
  else if negb (reset_sent_a st) then [$"  connection A's reset trigger byte never arrived (#1121)"]
  else if negb (second_fin_acked st) then [$"  second overlapping connection FIN was never acknowledged"]
  else if fin_acked st then [$"  connection A sent a FIN after the peer reset it (#1121)"]
  else [].

Fixpoint print_all (lines : list str) : prog L unit :=
  match lines with [] => ret () | l :: lines => _ ← print l; print_all lines end.

Definition large_start (isn_a isn_b : Z) : large :=
  Large [] (HANDSHAKE_CLIENT_ISN + 1 + zlen DATA_ECHO_PAYLOAD) (seq_add isn_a 1)
    (RECONNECT_CLIENT_ISN + 1 + zlen second_payload) (seq_add isn_b 1) false false false false false false false.

Definition connected_loop (req : bytes) (st : large) : prog L large :=
  t ← clock;
  until (t + 10000000000)
    (fun st =>
       if unfinished st then
         reply ← recv_reply req 2000000000;
         match reply with
         | None => ret (Next st)
         | Some reply => '(st, frames) ← lift (on_reply st reply); _ ← send_all frames; ret (Next st)
         end
       else ret (Stop st))
    ret st.

Definition test_connected_large_response : prog L bool :=
  _ ← new_sock;
  ok_a ← do_handshake server_port client_mac HANDSHAKE_CLIENT_PORT HANDSHAKE_CLIENT_ISN;
  if negb ok_a then _ ← sock_close; ret false else
  ok_b ← do_handshake server_port client_mac RECONNECT_CLIENT_PORT RECONNECT_CLIENT_ISN;
  if negb ok_b then _ ← sock_close; ret false else
  isn_a ← server_isn HANDSHAKE_CLIENT_PORT;
  isn_b ← server_isn RECONNECT_CLIENT_PORT;
  let st := large_start isn_a isn_b in
  second_req ← lift (on_b (RECONNECT_CLIENT_ISN + 1) (second_server_seq st) ACK_PSH second_payload);
  _ ← sock_send second_req;
  _ ← pause 50000000;
  req ← lift (on_a (HANDSHAKE_CLIENT_ISN + 1) (server_seq st) ACK_PSH DATA_ECHO_PAYLOAD);
  _ ← sock_send req;
  st ← connected_loop req st;
  _ ← sock_close;
  let complaints := large_problem st in
  _ ← print_all complaints;
  ret (bool_decide (complaints = [])).
End connected.

(** ** A concurrent web server *)

Definition HTTPD_CLIENTS : list (Z * Z) := [(43320, 5000); (43321, 6000)].
Definition HTTPD_PORT : Z := 8080.
Definition request : bytes := $"GET / HTTP/1.0" ++ CRLF ++ $"Host: 192.168.20.2" ++ CRLF ++ CRLF.

(** [header.split("\r\n")]. *)
Fixpoint split_crlf (s : str) : list str :=
  match s with
  | [] => [[]]
  | ch :: s' =>
      match s' with
      | d :: s'' =>
          if (ch =? 13) && (d =? 10) then [] :: split_crlf s''
          else match split_crlf s' with [] => [[ch]] | p :: ps => (ch :: p) :: ps end
      | [] => [[ch]]
      end
  end.

(** The state of a client, by its port. *)
Record peer := Peer {
  pe_client_seq : Z; pe_server_next : Z; pe_body : bytes; pe_fin : bool; pe_syn : bytes; pe_request_seq : Z; pe_acked : bool; pe_sent_at : Z;
  pe_retransmits : Z }.

Section httpd.
Variable client_mac : bytes.

Definition to_httpd (client_port seq ack flags : Z) (data : bytes) : res bytes :=
  frame_of HTTPD_PORT client_mac client_port seq ack flags data.

(** One wait for the SYN-ACK of [client_port]; another client's SYN-ACK, sent again, is
    acknowledged again. *)
Definition await_syn_ack (peers : list (Z * peer)) (client_port : Z) (syn : bytes) : prog L (option bytes) :=
  _ ← sock_send syn;
  t ← clock;
  let attempt_deadline := t + RETRY_TIMEOUT in
  until attempt_deadline
    (fun _ : unit =>
       t ← clock;
       o ← recv_reply syn (Z.max 1000000 (attempt_deadline - t));
       match o with
       | None => ret (Stop None)
       | Some candidate =>
           if zlen candidate <? 54 then ret (Stop None) else
           other_src ← lift (unpack_be 2 (slice candidate 34 38) 0);
           other_dst ← lift (unpack_be 2 (slice candidate 34 38) 2);
           if (other_src =? HTTPD_PORT) && (other_dst =? client_port) then ret (Stop (Some candidate))
           else
             _ ← (match (if other_src =? HTTPD_PORT then dget other_dst peers else None) with
                  | Some earlier =>
                      f ← lift (to_httpd other_dst (pe_client_seq earlier) (pe_server_next earlier) FLAG_ACK []); sock_send f
                  | None => ret ()
                  end);
             ret (Next ())
       end)
    (fun _ => ret None) ().

Definition connect_peer (peers : list (Z * peer)) (client_port client_isn : Z) : prog L (option (list (Z * peer))) :=
  syn ← lift (to_httpd client_port client_isn 0 FLAG_SYN []);
  reply ← retry RETRIES (await_syn_ack peers client_port syn);
  match reply with
  | None => _ ← print ($"  no HTTPd SYN-ACK on client port " ++ dec client_port); ret None
  | Some reply =>
      s ← lift (unpack_segment (slice reply 34 48));
      if negb (src_port s =? HTTPD_PORT) || negb (dst_port s =? client_port) ||
         negb (s_flags s =? Z.lor FLAG_SYN FLAG_ACK) || negb (s_ack s =? client_isn + 1)
      then _ ← print ($"  bad HTTPd SYN-ACK on client port " ++ dec client_port); ret None
      else
        let peers := dset client_port (Peer (client_isn + 1) (s_seq s + 1) [] false syn 0 false 0 0) peers in
        f ← lift (to_httpd client_port (client_isn + 1) (s_seq s + 1) FLAG_ACK []);
        _ ← sock_send f;
        _ ← pause 250000000;
        ret (Some peers)
  end.

Fixpoint connect_peers (clients : list (Z * Z)) (peers : list (Z * peer)) : prog L (option (list (Z * peer))) :=
  match clients with
  | [] => ret (Some peers)
  | (client_port, client_isn) :: clients =>
      o ← connect_peer peers client_port client_isn;
      match o with None => ret None | Some peers => connect_peers clients peers end
  end.

Definition send_request (client_port : Z) (peers : list (Z * peer)) : prog L (list (Z * peer)) :=
  p ← lift (dget_or_raise client_port peers);
  t ← clock;
  f ← lift (to_httpd client_port (pe_client_seq p) (pe_server_next p) ACK_PSH request);
  _ ← sock_send f;
  ret (dset client_port (Peer (pe_client_seq p + zlen request) (pe_server_next p) (pe_body p) (pe_fin p) (pe_syn p) (pe_client_seq p) false t
                           (pe_retransmits p)) peers).

(** The requests not acknowledged in half a second are sent again. *)
Fixpoint retransmit (t : Z) (todo : list (Z * peer)) : prog L (list (Z * peer)) :=
  match todo with
  | [] => ret []
  | (port, p) :: todo =>
      p ← (if negb (pe_acked p) && negb (pe_fin p) && (500000000 <=? t - pe_sent_at p) then
             f ← lift (to_httpd port (pe_request_seq p) (pe_server_next p) ACK_PSH request);
             _ ← sock_send f;
             ret (Peer (pe_client_seq p) (pe_server_next p) (pe_body p) (pe_fin p) (pe_syn p) (pe_request_seq p) (pe_acked p) t
                    (pe_retransmits p + 1))
           else ret p);
      rest ← retransmit t todo;
      ret ((port, p) :: rest)
  end.

(** A segment for a client: its new state, and whether it is acknowledged. *)
Definition take_segment (p : peer) (s : segment) (payload : bytes) : peer * bool :=
  let acked := if negb (Z.land (s_flags s) FLAG_ACK =? 0) && (s_ack s =? pe_client_seq p) then true else pe_acked p in
  let in_order := s_seq s =? pe_server_next p in
  let has_fin := negb (Z.land (s_flags s) FLAG_FIN =? 0) in
  let body := if in_order then pe_body p ++ payload else pe_body p in
  let next := if in_order then pe_server_next p + zlen payload else pe_server_next p in
  let next := if has_fin && in_order then next + 1 else next in
  (Peer (pe_client_seq p) next body (if has_fin && in_order then true else pe_fin p) (pe_syn p) (pe_request_seq p) acked
     (pe_sent_at p) (pe_retransmits p),
   bool_decide (payload ≠ []) || has_fin).

Definition httpd_frame (peers : list (Z * peer)) (frame : bytes) : res (list (Z * peer) * list bytes) :=
  if zlen frame <? 54 then Ok (peers, []) else
  total_len ← unpack_be 2 (slice frame 16 18) 0;
  let tcp_end := 14 + total_len in
  if (total_len <? 40) || (zlen frame <? tcp_end) then Ok (peers, []) else
  let tcp := slice frame 34 tcp_end in
  s ← unpack_segment (slice tcp 0 14);
  match dget (dst_port s) peers with
  | Some p =>
      if src_port s =? HTTPD_PORT then
        doff ← item tcp 12;
        let payload := from tcp (Z.shiftr doff 4 * 4) in
        let '(p, reply) := take_segment p s payload in
        let peers := dset (dst_port s) p peers in
        if reply : bool then
          ack ← to_httpd (dst_port s) (pe_client_seq p) (pe_server_next p) FLAG_ACK []; Ok (peers, [ack])
        else Ok (peers, [])
      else Ok (peers, [])
  | None => Ok (peers, [])
  end.

Definition httpd_loop (peers : list (Z * peer)) : prog L (list (Z * peer)) :=
  t ← clock;
  let deadline := t + 10000000000 in
  until deadline
    (fun peers =>
       if forallb (fun p => pe_fin p.2) peers then ret (Stop peers) else
       t ← clock;
       peers ← retransmit t peers;
       first ← lift (dget_or_raise 43320 peers);
       t ← clock;
       o ← recv_reply (pe_syn first) (Z.min 250000000 (Z.max 1000000 (deadline - t)));
       match o with
       | None => ret (Next peers)
       | Some frame => '(peers, frames) ← lift (httpd_frame peers frame); _ ← send_all frames; ret (Next peers)
       end)
    ret peers.

(** [lower] on the characters of ISO 8859-1. *)
Definition lower_latin (s : str) : str :=
  map (fun ch => if in_range 192 222 ch && negb (ch =? 215) then ch + 32 else lower_char ch) s.

(** The first [content-type] of a header. *)
Definition content_type (header : str) : str :=
  match filter (fun line => startswith (lower_latin line) ($"content-type:") = true) (split_crlf header) with
  | line :: _ => lower_latin (strip (tail (span (fun ch => negb (ch =? 58)) line).2))
  | [] => []
  end.

Definition response_parts (response : bytes) : str * bytes :=
  match find (CRLF ++ CRLF) response with
  | Some separator => (slice response 0 separator, from response (separator + 4))
  | None => ([], [])
  end.

Definition httpd_passed (expected_body : bytes) (p : peer) : bool :=
  let '(header, body) := response_parts (pe_body p) in
  pe_fin p && startswith header ($"HTTP/1.") && contains ($" 200 ") (default [] (head (split_crlf header))) &&
  bool_decide (body = expected_body) && bool_decide (content_type header = $"text/html").

Definition ljust5 (s : str) : str := s ++ replicate (5 - length s) 32.
Definition show_bool (b : bool) : str := if b then $"True" else $"False".

Definition httpd_lines (expected_body : bytes) (client : Z * peer) : list str :=
  let '(port, p) := client in
  let passed := httpd_passed expected_body p in
  ($"  concurrent HTTPd client " ++ ljust5 (dec port) ++ $": " ++ verdict passed)
  :: (if passed then [] else
      [$"    response bytes=" ++ dec (zlen (pe_body p)) ++ $" fin=" ++ show_bool (pe_fin p) ++ $" type=" ++
       content_type (response_parts (pe_body p)).1 ++ $" retransmits=" ++ dec (pe_retransmits p)]).

Definition test_httpd_concurrent_accept_read (expected_body : bytes) : prog L bool :=
  _ ← new_sock;
  o ← connect_peers HTTPD_CLIENTS [];
  ok ← (match o with
        | None => ret false
        | Some peers =>
            peers ← send_request 43321 peers;
            _ ← pause 50000000;
            peers ← send_request 43320 peers;
            peers ← httpd_loop peers;
            _ ← print_all (concat (map (httpd_lines expected_body) peers));
            ret (forallb (fun p => httpd_passed expected_body p.2) peers)
        end);
  _ ← sock_close;
  ret ok.
End httpd.
End test.

(** ** The run *)

Section main.
Context {L : Type} `{Link L}.

(** [ok and test()]. *)
Definition and_then (ok : bool) (test : prog L bool) : prog L bool := if ok then test else ret false.

Definition echo_suite (c : addresses) (port : Z) (client_mac : bytes) : prog L Z :=
  ok1 ← test_syn_wrong_port_silent c client_mac; _ ← print ($"  SYN to wrong port (silent):        " ++ verdict ok1);
  ok2 ← test_syn_bad_checksum_silent c port client_mac; _ ← print ($"  SYN with bad TCP checksum (silent): " ++ verdict ok2);
  ok2b ← test_syn_with_options_accepted c port client_mac; _ ← print ($"  SYN with TCP options accepted:     " ++ verdict ok2b);
  ok3 ← test_handshake_only c port client_mac; _ ← print ($"  three-way handshake:               " ++ verdict ok3);
  ok4 ← and_then ok3 (test_data_echo c port client_mac); _ ← print ($"  data echo:                         " ++ verdict ok4);
  ok5 ← and_then ok4 (test_close c port client_mac); _ ← print ($"  connection close:                  " ++ verdict ok5);
  ok6 ← and_then ok5 (test_reconnect_after_close c port client_mac); _ ← print ($"  reconnect after close:             " ++ verdict ok6);
  ret (if (ok1 && ok2 && ok2b && ok3 && ok4 && ok5 && ok6 : bool) then 0 else 1).

Definition main (environ : str → option str) (address : option str) (index_html : bytes) : prog L Z :=
  '(c, port) ← lift (tcp_config environ);
  match address with
  | None => ret 1
  | Some text =>
      client_mac ← lift (read_iface_mac text);
      if decide (environ ($"TCP_TEST_HTTPD_CONCURRENCY") = Some ($"1")) then
        ok ← test_httpd_concurrent_accept_read c client_mac index_html;
        _ ← print ($"  HTTPd concurrent accept/read routing: " ++ verdict ok);
        ret (if ok : bool then 0 else 1)
      else if decide (environ ($"TCP_TEST_CONNECTED_IO") = Some ($"1")) then
        io_ok ← test_connected_large_response c port client_mac;
        _ ← print ($"  userspace overlapping accepts (fd 5 + fd 6): " ++ verdict io_ok);
        _ ← print ($"  userspace connected generated response (" ++ dec want ++ $" bytes, incl. mid-response drop recovery): " ++
                   verdict io_ok);
        ret (if io_ok : bool then 0 else 1)
      else echo_suite c port client_mac
  end.
End main.
