(* ===== verification/TcpEchoFacts.v ===== *)
(** * Facts about the TCP test

    The receiving side of the client: whatever is lost, repeated or out of order, the
    bytes taken from a connection are a prefix of what the server sent on it, nothing
    else is acknowledged, and the loops end.  The test of two connections and the test
    of the web server pass only when the streams are the expected ones. *)
From S2P Require Import Prelude Bytes Text Dict NetFrame NetLink ArpTest ArpTestFacts TcpEcho.

(** ** A stream received in order *)

Definition b2z (b : bool) : Z := if b then 1 else 0.
Definition has_fin (s : segment) : bool := negb (Z.land (s_flags s) FLAG_FIN =? 0).

(** A segment of a server that sends [stream] from the number [start] on: nothing, or a
    part of the stream at its place; a FIN comes after the last byte. *)
Definition carries (start : Z) (stream : bytes) (s : segment) (payload : bytes) : Prop :=
  payload = [] ∧ has_fin s = false ∨
  ∃ k, 0 ≤ k ∧ s_seq s = start + k ∧ payload `prefix_of` drop (Z.to_nat k) stream ∧
    (has_fin s = true → k + zlen payload = zlen stream).

(** [got] has been taken, and the end when [fin]; [next] is the number expected. *)
Definition in_step (start : Z) (stream got : bytes) (fin : bool) (next : Z) : Prop :=
  got `prefix_of` stream ∧ next = start + zlen got + b2z fin ∧ (fin = true → got = stream).

Lemma prefix_zlen (l k : bytes) : l `prefix_of` k → zlen l ≤ zlen k.
Proof. intros H%prefix_length. unfold zlen. lia. Qed.

Lemma in_step_range start stream got fin next :
  in_step start stream got fin next → start ≤ next ≤ start + zlen stream + 1.
Proof. intros (Hp%prefix_zlen & -> & _). pose proof (zlen_nonneg got). destruct fin; cbn; lia. Qed.

(** A segment with the number expected extends what has been taken. *)
Lemma in_step_data start stream s payload got fin next :
  carries start stream s payload → in_step start stream got fin next → s_seq s = next → payload ≠ [] →
  fin = false ∧ in_step start stream (got ++ payload) false (next + zlen payload) ∧
  (has_fin s = true → got ++ payload = stream).
Proof.
  intros [[-> _]|(k & Hk & Es & Hpre & Hfin)] (Hg & Hn & Hf) E Hne; [done|]. pose proof (prefix_zlen _ _ Hpre) as Hl.
  unfold zlen in Hl. rewrite length_drop in Hl. apply zlen_pos in Hne.
  pose proof (prefix_zlen _ _ Hg). assert (k = zlen got + b2z fin) as Ek by lia.
  assert (fin = false) as ->.
  { destruct fin; [|done]. rewrite (Hf eq_refl) in Ek. cbn in Ek. unfold zlen in *. lia. }
  split; [done|]. cbn in Ek, Hn. destruct Hg as [rest ->]. unfold zlen in Ek. rewrite Ek, Z.add_0_r, Nat2Z.id, drop_app_length in Hpre.
  assert (in_step start (got ++ rest) (got ++ payload) false (next + zlen payload)) as Hs.
  { split; [by apply prefix_app|]. rewrite zlen_app. cbn. split; [lia|done]. }
  split; [done|]. intros Hx. specialize (Hfin Hx). destruct Hpre as [more ->]. rewrite !zlen_app in Hfin.
  assert (zlen more = 0) by (unfold zlen in *; lia). destruct more; [by rewrite app_nil_r|unfold zlen in *; cbn in *; lia].
Qed.

(** A FIN with the number expected is the end of the stream. *)
Lemma in_step_fin start stream s got fin next :
  carries start stream s [] → in_step start stream got fin next → s_seq s = next → has_fin s = true →
  fin = false ∧ in_step start stream got true (next + 1).
Proof.
  intros [[_ Hx]|(k & Hk & Es & _ & Hfin)] (Hg & Hn & Hf) E Hfl; [by rewrite Hx in Hfl|]. specialize (Hfin Hfl).
  change (zlen (@nil Z)) with 0 in Hfin. pose proof (prefix_zlen _ _ Hg).
  assert (fin = false) as -> by (destruct fin; [rewrite (Hf eq_refl) in *; cbn in *; lia|done]). cbn in Hn.
  split; [done|]. split; [done|]. cbn. split; [lia|]. intros _. destruct Hg as [rest ->]. rewrite zlen_app in *.
  assert (zlen rest = 0) by lia. destruct rest; [by rewrite app_nil_r|unfold zlen in *; cbn in *; lia].
Qed.

(** ** Waiting for a reply *)

Section replies.
Context {L : Type} `{LinkLaws L}.
Variable c : addresses.

Lemma recv_reply_spec sent timeout w : 0 < timeout →
  ∃ o w' new, recv_reply c sent timeout w = Ok (o, w') ∧ hears w w' new ∧ now (w_link w) < now (w_link w') ∧
    Forall delivered new ∧ option_list o = map cut (filter (fun p => from_server c (slice sent 6 12) p = true) new).
Proof.
  intros Ht. unfold recv_reply. rewrite (bind_ok clock _ w (now (w_link w)) w) by done.
  set (mine := fun p => from_server c (slice sent 6 12) p = true).
  match goal with |- context [until ?dl ?body ?after () w] =>
    destruct (until_total dl body after
      (fun _ w' => (w' = w ∨ now (w_link w) < now (w_link w')) ∧ ∃ new, hears w w' new ∧ Forall delivered new ∧ filter mine new = [])
      (fun o w' => now (w_link w) < now (w_link w') ∧ ∃ new, hears w w' new ∧ Forall delivered new ∧
         option_list o = map cut (filter mine new)) () w)
      as (o & w' & E & Hlt & new & Hn & Hd & Ho) end.
  - intros [] w1 (Hw & new & Hn & Hd & Hno) _. rewrite (bind_ok clock _ w1 (now (w_link w1)) w1) by done.
    match goal with |- context [sock_recvfrom ?t] => destruct (recv_step t w1) as (o & w2 & E & Hh & Hlt & Hp) end.
    rewrite (bind_ok _ _ _ _ _ E). pose proof (hears_app _ _ _ _ _ Hn Hh) as Hh2.
    assert (now (w_link w) < now (w_link w2)) by (destruct Hw as [->|]; lia).
    destruct o as [p|]; cbn [option_list] in Hh2.
    2:{ exists (Stop None), w2. split; [done|]. split; [done|]. exists (new ++ []). rewrite app_nil_r in *. by rewrite Hno. }
    destruct (Hp p eq_refl) as [_ Hdp]. assert (Forall delivered (new ++ [p])) by (apply Forall_app; by repeat constructor).
    assert (filter mine (new ++ [p]) = filter mine [p]) as Ef by by rewrite filter_app, Hno.
    destruct (from_server c (slice sent 6 12) p) eqn:Em.
    + exists (Stop (Some (cut p))), w2. split; [done|]. split; [done|]. exists (new ++ [p]). split_and!; [done..|].
      rewrite Ef, filter_cons_True by done. done.
    + exists (Next ()), w2. split; [done|]. split; [|done]. split; [by right|]. exists (new ++ [p]). split_and!; [done..|].
      rewrite Ef, filter_cons_False; [done|]. unfold mine. by rewrite Em.
  - intros [] w1 (Hw & new & Hn & Hd & Hno) Hdl. exists None, w1. split; [done|]. split; [destruct Hw as [->|]; lia|].
    exists new. by rewrite Hno.
  - split; [by left|]. exists []. by split; [apply hears_nil|].
  - by exists o, w', new.
Qed.

Lemma send_all_step fs w :
  ∃ w', send_all fs w = Ok ((), w') ∧ hears w w' [] ∧ now (w_link w) ≤ now (w_link w').
Proof.
  revert w. induction fs as [|f fs IH]; intros w; cbn [send_all].
  { exists w. split; [done|]. split; [apply hears_nil|lia]. }
  destruct (send_time_step f w) as (w1 & E & Hh & Hle1).
  rewrite (bind_ok _ _ _ _ _ E). destruct (IH w1) as (w2 & E2 & Hh2 & Hle). exists w2. split; [done|].
  split; [by apply (hears_app _ _ _ [] [] Hh)|lia].
Qed.
End replies.

(** ** Two overlapping connections *)

(** What can be sent. *)
Record sendable (c : addresses) (server_port : Z) (client_mac : bytes) : Prop := Sendable {
  sd_ips : address 4 (CLIENT_IP c) ∧ address 4 (SERVER_IP c);
  sd_macs : address 6 (SERVER_MAC c) ∧ address 6 client_mac;
  sd_port : 0 ≤ server_port < 65536 }.

Lemma frame_of_ok c server_port client_mac client_port seq ack flags data :
  sendable c server_port client_mac → 0 ≤ client_port < 65536 → 0 ≤ seq < 4294967296 → 0 ≤ ack < 4294967296 →
  0 ≤ flags < 256 → Forall is_byte data → zlen data ≤ 1000 →
  ∃ f, frame_of c server_port client_mac client_port seq ack flags data = Ok f.
Proof.
  intros [] Hp Hs Ha Hf Hb Hl. destruct (build_frame_shape c server_port client_mac client_port seq ack flags data false [])
    as (ip & csum & _ & E & _); [|by eexists].
  constructor; [done..|split; [done|constructor]|]. change (zlen (@nil Z)) with 0. lia.
Qed.

(** A number that does not fit in 32 bits raises. *)
Lemma frame_of_wraps c server_port client_mac client_port seq ack flags data :
  sendable c server_port client_mac → 0 ≤ client_port < 65536 → 0 ≤ seq < 4294967296 → 4294967296 ≤ ack →
  frame_of c server_port client_mac client_port seq ack flags data = Err StructError.
Proof.
  intros [_ _ Hp] Hc Hs Ha. unfold frame_of, build_frame, pack_tcp. rewrite (pack_be_ok 2 client_port), (pack_be_ok 2 server_port), (pack_be_ok 4 seq) by done.
  cbn [mbind res_bind]. assert (pack_be 4 ack = Err StructError) as ->; [|done].
  unfold pack_be. change (256 ^ Z.of_nat 4) with 4294967296. by rewrite (proj2 (Z.ltb_ge ack 4294967296)), andb_false_r by lia.
Qed.

Definition got_a (st : large) : bytes :=
  collected st ++ (if unread_ok st then $"p" else []) ++ (if reset_sent_a st then $"z" else []).
Definition got_b (st : large) : bytes :=
  (if second_response_ok st then second_response else []) ++ (if rx_stale_ready_ok st then $"k" else []) ++
  (if fin_sent_b st then $"y" else []).

Section connected.
Variable c : addresses.
Variable server_port : Z.
Variable client_mac : bytes.
Hypothesis Hsend : sendable c server_port client_mac.
Variables start_a start_b : Z.
Variables stream_a stream_b : bytes.
Hypothesis Hstart : 0 ≤ start_a ∧ 0 ≤ start_b.
Hypothesis Hnowrap : start_a + zlen stream_a + 1 < 4294967296 ∧ start_b + zlen stream_b + 1 < 4294967296.

Record tracks (st : large) : Prop := Tracks {
  t_a : in_step start_a stream_a (got_a st) (fin_acked st) (server_seq st);
  t_b : in_step start_b stream_b (got_b st) (second_fin_acked st) (second_server_seq st);
  t_client : client_seq st = 517 + b2z (want <=? zlen (collected st));
  t_client_b : second_client_seq st = 909 + 1000 * b2z (second_response_ok st) + 10 * b2z (rx_stale_ready_ok st) +
    b2z (fin_sent_b st) + b2z (unread_ok st);
  t_order : (unread_ok st = true → want ≤ zlen (collected st)) ∧ (reset_sent_a st = true → unread_ok st = true) ∧
    (rx_stale_ready_ok st = true → second_response_ok st = true) ∧ (fin_sent_b st = true → rx_stale_ready_ok st = true) }.

(** A frame that acknowledges no more than has been taken. *)
Definition acknowledges (st : large) (f : bytes) : Prop :=
  ∃ seq ack flags data,
    start_a ≤ ack ≤ server_seq st ∧ seq + zlen data ≤ client_seq st ∧ on_a c server_port client_mac seq ack flags data = Ok f ∨
    start_b ≤ ack ≤ second_server_seq st ∧ seq + zlen data ≤ second_client_seq st ∧
      on_b c server_port client_mac seq ack flags data = Ok f.

Lemma tracks_start isn_a isn_b : seq_add isn_a 1 = start_a → seq_add isn_b 1 = start_b → tracks (large_start isn_a isn_b).
Proof.
  intros Ea Eb. unfold large_start. rewrite Ea, Eb. constructor; cbn; try done.
  - split; [apply prefix_nil|]. split; [change (zlen []) with 0; cbn; lia|done].
  - split; [apply prefix_nil|]. split; [change (zlen []) with 0; cbn; lia|done].
Qed.

Lemma ack_a st seq flags data :
  tracks st → 0 ≤ seq → seq + zlen data ≤ client_seq st → 0 ≤ flags < 256 → Forall is_byte data → zlen data ≤ 1000 →
  ∃ f, on_a c server_port client_mac seq (server_seq st) flags data = Ok f ∧ acknowledges st f.
Proof using Hsend Hstart Hnowrap.
  intros [Ha _ Hc _ _] H0 H1 H2 H3 H4. pose proof (in_step_range _ _ _ _ _ Ha). pose proof (zlen_nonneg data).
  assert (b2z (want <=? zlen (collected st)) ≤ 1) by (destruct (_ <=? _); cbn; lia).
  destruct (frame_of_ok c server_port client_mac HANDSHAKE_CLIENT_PORT seq (server_seq st) flags data) as [f E];
    [done|unfold HANDSHAKE_CLIENT_PORT; lia|lia|lia|done..|].
  exists f. split; [done|]. exists seq, (server_seq st), flags, data. left. split; [lia|done].
Qed.

Lemma ack_b st seq flags data :
  tracks st → 0 ≤ seq → seq + zlen data ≤ second_client_seq st → 0 ≤ flags < 256 → Forall is_byte data → zlen data ≤ 1000 →
  ∃ f, on_b c server_port client_mac seq (second_server_seq st) flags data = Ok f ∧ acknowledges st f.
Proof using Hsend Hstart Hnowrap.
  intros [_ Hb _ Hc _] H0 H1 H2 H3 H4. pose proof (in_step_range _ _ _ _ _ Hb). pose proof (zlen_nonneg data).
  assert (∀ b, b2z b ≤ 1) as Hb2 by (intros []; cbn; lia).
  pose proof (Hb2 (second_response_ok st)). pose proof (Hb2 (rx_stale_ready_ok st)). pose proof (Hb2 (fin_sent_b st)).
  pose proof (Hb2 (unread_ok st)).
  destruct (frame_of_ok c server_port client_mac RECONNECT_CLIENT_PORT seq (second_server_seq st) flags data) as [f E];
    [done|unfold RECONNECT_CLIENT_PORT; lia|lia|lia|done..|].
  exists f. split; [done|]. exists seq, (second_server_seq st), flags, data. right. split; [lia|done].
Qed.

(** The numbers only grow. *)
Definition advances (st st' : large) : Prop :=
  server_seq st ≤ server_seq st' ∧ second_server_seq st ≤ second_server_seq st' ∧ client_seq st ≤ client_seq st' ∧
  second_client_seq st ≤ second_client_seq st'.

Lemma acknowledges_later st st' f : advances st st' → acknowledges st f → acknowledges st' f.
Proof.
  intros (? & ? & ? & ?) (seq & ack & flags & data & [(? & ? & ?)|(? & ? & ?)]); exists seq, ack, flags, data; [left|right];
    (split_and!; [lia..|done]).
Qed.

(** A round: the new state, and the frames it sends. *)
Definition round (st : large) (r : res (large * list bytes)) : Prop :=
  ∃ st' fs, r = Ok (st', fs) ∧ tracks st' ∧ advances st st' ∧ Forall (acknowledges st') fs.

Lemma round_idle st : tracks st → round st (Ok (st, [])).
Proof. intros Ht. exists st, []. split_and!; try done; unfold advances; lia. Qed.

Section a.
Variables (col : bytes) (ca sa cb sb : Z) (fin resp finb rx unread fsent rsent : bool).
Let st := Large col ca sa cb sb fin resp finb rx unread fsent rsent.
Hypothesis Ht : tracks st.
Variables (s : segment) (payload : bytes).
Hypothesis Hc : carries start_a stream_a s payload.

Lemma take_data_a : zlen col < want → s_seq s = sa → payload ≠ [] →
  tracks (Large (col ++ payload) (if want <=? zlen (col ++ payload) then ca + 1 else ca) (sa + zlen payload) cb sb fin resp finb rx unread fsent rsent).
Proof using Ht Hc.
  destruct Ht as [Ha Hb H1 H2 (O1 & O2 & O3 & O4)]. cbn in *.
  intros Hw Es Hne. destruct (in_step_data _ _ _ _ _ _ _ Hc Ha Es Hne) as (Ef & Hs & _).
  assert (unread = false) as Eu by (destruct unread; [specialize (O1 eq_refl); lia|done]).
  assert (rsent = false) as Er by (destruct rsent; [by rewrite O2 in Eu|done]).
  constructor; cbn; [|done| |done|].
  - unfold got_a in *. cbn in *. subst. by rewrite !app_nil_r in *.
  - rewrite (proj2 (Z.leb_gt want (zlen col))) in H1 by lia. cbn in H1. destruct (want <=? _); cbn; lia.
  - subst. done.
Qed.

Lemma take_unread : want ≤ zlen col → unread = false → s_seq s = sa → payload = $"p" →
  tracks (Large col ca (sa + zlen payload) (cb + 1) sb fin resp finb rx true fsent rsent).
Proof using Ht Hc.
  destruct Ht as [Ha Hb H1 H2 (O1 & O2 & O3 & O4)]. cbn in *. intros Hw Eu Es Ep.
  destruct (in_step_data _ _ _ _ _ _ _ Hc Ha Es) as (Ef & Hs & _); [by rewrite Ep|].
  assert (rsent = false) as Er by (destruct rsent; [by rewrite O2 in Eu|done]).
  constructor; cbn; [|done|done| |].
  - unfold got_a in *. cbn in *. subst. by rewrite !app_nil_r in *.
  - subst. cbn in *. lia.
  - by subst.
Qed.

Lemma take_reset : unread = true → rsent = false → s_seq s = sa → payload = $"z" →
  tracks (Large col ca (sa + zlen payload) cb sb fin resp finb rx unread fsent true).
Proof using Ht Hc.
  destruct Ht as [Ha Hb H1 H2 (O1 & O2 & O3 & O4)]. cbn in *. intros Eu Er Es Ep.
  destruct (in_step_data _ _ _ _ _ _ _ Hc Ha Es) as (Ef & Hs & _); [by rewrite Ep|].
  constructor; cbn; try done. unfold got_a in *. cbn in *. subst. by rewrite <- app_assoc in *.
Qed.

Lemma take_fin_a : has_fin s = true → s_seq s = sa → payload = [] →
  tracks (Large col ca (sa + 1) cb sb true resp finb rx unread fsent rsent).
Proof using Ht Hc.
  destruct Ht as [Ha Hb H1 H2 Ho]. cbn in *. intros Hf Es Ep. rewrite Ep in Hc.
  destruct (in_step_fin _ _ _ _ _ _ Hc Ha Es Hf) as [_ Hs]. by constructor.
Qed.
End a.

Section b.
Variables (col : bytes) (ca sa cb sb : Z) (fin resp finb rx unread fsent rsent : bool).
Let st := Large col ca sa cb sb fin resp finb rx unread fsent rsent.
Hypothesis Ht : tracks st.
Variables (s : segment) (payload : bytes).
Hypothesis Hc : carries start_b stream_b s payload.

Lemma take_response : resp = false → s_seq s = sb → payload = second_response →
  tracks (Large col ca sa (cb + 1000) (sb + zlen payload) fin true finb rx unread fsent rsent).
Proof using Ht Hc.
  destruct Ht as [Ha Hb H1 H2 (O1 & O2 & O3 & O4)]. cbn -[second_response] in *. intros Eu Es Ep.
  destruct (in_step_data _ _ _ _ _ _ _ Hc Hb Es) as (Ef & Hs & _); [by rewrite Ep|].
  assert (rx = false) as Er by (destruct rx; [by rewrite O3 in Eu|done]).
  assert (fsent = false) as Et by (destruct fsent; [by rewrite O4 in Er|done]).
  constructor; cbn -[second_response]; [done| |done| |by subst].
  - unfold got_b in *. cbn -[second_response] in *. subst. by rewrite !app_nil_r in *.
  - subst. cbn in *. lia.
Qed.

Lemma take_ready : resp = true → rx = false → s_seq s = sb → payload = $"k" →
  tracks (Large col ca sa (cb + 10) (sb + zlen payload) fin resp finb true unread fsent rsent).
Proof using Ht Hc.
  destruct Ht as [Ha Hb H1 H2 (O1 & O2 & O3 & O4)]. cbn -[second_response] in *. intros Eu Er Es Ep.
  destruct (in_step_data _ _ _ _ _ _ _ Hc Hb Es) as (Ef & Hs & _); [by rewrite Ep|].
  assert (fsent = false) as Et by (destruct fsent; [by rewrite O4 in Er|done]).
  constructor; cbn -[second_response]; [done| |done| |by subst].
  - unfold got_b in *. cbn -[second_response] in *. subst. by rewrite !app_nil_r in *.
  - subst. cbn in *. lia.
Qed.

Lemma take_trigger : rx = true → fsent = false → s_seq s = sb → payload = $"y" →
  tracks (Large col ca sa (cb + 1) (sb + zlen payload) fin resp finb rx unread true rsent).
Proof using Ht Hc.
  destruct Ht as [Ha Hb H1 H2 (O1 & O2 & O3 & O4)]. cbn -[second_response] in *. intros Eu Er Es Ep.
  destruct (in_step_data _ _ _ _ _ _ _ Hc Hb Es) as (Ef & Hs & _); [by rewrite Ep|].
  constructor; cbn -[second_response]; [done| |done| |by subst].
  - unfold got_b in *. cbn -[second_response] in *. subst. by rewrite !app_nil_r, <- ?app_assoc in *.
  - subst. cbn in *. lia.
Qed.

Lemma take_fin_b : has_fin s = true → s_seq s = sb → payload = [] →
  tracks (Large col ca sa cb (sb + 1) fin resp true rx unread fsent rsent).
Proof using Ht Hc.
  destruct Ht as [Ha Hb H1 H2 Ho]. cbn in *. intros Hf Es Ep. rewrite Ep in Hc.
  destruct (in_step_fin _ _ _ _ _ _ Hc Hb Es Hf) as [_ Hs]. by constructor.
Qed.
End b.

Lemma round_1 st st' (m : res bytes) :
  tracks st' → advances st st' → (tracks st' → ∃ f, m = Ok f ∧ acknowledges st' f) → round st (f ← m; Ok (st', [f])).
Proof. intros Ht Ha (f & -> & Hf); [done|]. exists st', [f]. split_and!; [done..|]. by constructor. Qed.

Lemma round_2 st st' (m1 m2 : res bytes) :
  tracks st' → advances st st' → (tracks st' → ∃ f, m1 = Ok f ∧ acknowledges st' f) →
  (tracks st' → ∃ f, m2 = Ok f ∧ acknowledges st' f) → round st (f ← m1; g ← m2; Ok (st', [f; g])).
Proof. intros Ht Ha (f & -> & Hf) (g & -> & Hg); [done..|]. exists st', [f; g]. split_and!; [done..|]. by repeat constructor. Qed.

(** Reads the tests of a branch. *)
Ltac branch :=
  match goal with |- round _ (if ?b then _ else _) =>
    let E := fresh "E" in destruct b eqn:E;
    rewrite ?andb_true_iff, ?negb_true_iff, ?negb_false_iff, ?Z.eqb_eq, ?Z.eqb_neq, ?bool_decide_eq_true, ?Z.ltb_lt, ?Z.leb_le, ?zlen_pos in E
  end.
Ltac nums := unfold advances; cbn -[zlen]; change (zlen []) with 0; change (zlen [_]) with 1; lia.
Ltac ack lem := intros ?; apply lem; [done|nums|nums|done|repeat constructor; done|done].

Lemma segment_a_round st s payload : tracks st → carries start_a stream_a s payload → (has_fin s = true → payload = []) →
  round st (segment_a c server_port client_mac st s (zlen payload) payload).
Proof using Hsend Hstart Hnowrap.
  intros Ht Hc Hf. pose proof Ht as [_ _ Hcl Hcb _]. pose proof (zlen_nonneg payload) as Hl.
  destruct st as [col ca sa cb sb fin resp finb rx unread fsent rsent]. cbn -[zlen want] in Hcl, Hcb.
  assert (0 ≤ ca) by (destruct (want <=? _) in Hcl; cbn in Hcl; lia). 
  assert (0 ≤ cb) by (destruct resp, rx, fsent, unread; cbn in Hcb; lia). clear Hcl Hcb.
  unfold segment_a. branch.
  - destruct E as [E1 E2]. branch; [apply round_1; [done|nums|ack (ack_a (Large col ca sa cb sb fin resp finb rx unread fsent rsent))]|].
    pose proof (take_data_a _ _ _ _ _ _ _ _ _ _ _ _ Ht _ _ Hc E1 E E2) as Ht'. cbv zeta.
    destruct (want <=? zlen (col ++ payload)).
    + apply round_2; [done|nums|ack (ack_a (Large (col ++ payload) (ca + 1) (sa + zlen payload) cb sb fin resp finb rx unread fsent rsent))..].
    + apply round_1; [done|nums|ack (ack_a (Large (col ++ payload) ca (sa + zlen payload) cb sb fin resp finb rx unread fsent rsent))].
  - branch.
    + destruct E0 as [E1 E2]. branch; [|branch].
      * destruct E0 as ((-> & E3) & E4). pose proof (take_unread _ _ _ _ _ _ _ _ _ _ _ _ Ht _ _ Hc E1 eq_refl E3 E4) as Ht'.
        apply round_2; [done|nums|ack (ack_b (Large col ca (sa + zlen payload) (cb + 1) sb fin resp finb rx true fsent rsent))|
          ack (ack_a (Large col ca (sa + zlen payload) (cb + 1) sb fin resp finb rx true fsent rsent))].
      * destruct E3 as ((((-> & _) & ->) & E3) & E4). pose proof (take_reset _ _ _ _ _ _ _ _ _ _ _ _ Ht _ _ Hc eq_refl eq_refl E3 E4) as Ht'.
        apply round_1; [done|nums|ack (ack_a (Large col ca (sa + zlen payload) cb sb fin resp finb rx true fsent true))].
      * apply round_1; [done|nums|ack (ack_a (Large col ca sa cb sb fin resp finb rx unread fsent rsent))].
    + branch; [|by apply round_idle]. destruct E1 as ((E1 & ->) & E2). assert (has_fin s = true) as Hfs by (unfold has_fin; by rewrite (proj2 (Z.eqb_neq _ _))).
      pose proof (take_fin_a _ _ _ _ _ _ _ _ _ _ _ _ Ht _ _ Hc Hfs E2 (Hf Hfs)) as Ht'.
      apply round_1; [done|nums|ack (ack_a (Large col ca (sa + 1) cb sb true resp finb rx unread fsent rsent))].
Qed.

Lemma seq_add_small x n : 0 ≤ x + n < 4294967296 → seq_add x n = x + n.
Proof. intros H. unfold seq_add. change 4294967295 with (Z.ones 32). rewrite Z.land_ones by lia. by apply Z.mod_small. Qed.

Lemma long_bytes : Forall is_byte rx_stale_long ∧ Forall is_byte rx_stale_short.
Proof. split; (apply Forall_replicate; unfold is_byte; lia). Qed.

Lemma segment_b_round st s payload : tracks st → carries start_b stream_b s payload → (has_fin s = true → payload = []) →
  round st (segment_b c server_port client_mac st s (zlen payload) payload).
Proof using Hsend Hstart Hnowrap.
  intros Ht Hc Hf. pose proof Ht as [_ _ Hcl Hcb (_ & _ & O3 & O4)]. pose proof (zlen_nonneg payload) as Hl. destruct long_bytes as [Hb1 Hb2].
  destruct st as [col ca sa cb sb fin resp finb rx unread fsent rsent]. cbn -[zlen want] in Hcl, Hcb, O3, O4.
  assert (0 ≤ cb) by (destruct resp, rx, fsent, unread; cbn in Hcb; lia). clear Hcl Hcb.
  assert (zlen rx_stale_long = 1000 ∧ zlen rx_stale_short = 10) as [El Es] by done. unfold segment_b. rewrite El, Es.
  generalize dependent rx_stale_long. generalize dependent rx_stale_short. intros short Es Hb2 long El Hb1. branch.
  { destruct E as [_ ->]. branch; [|by apply round_idle]. destruct E as ((E1 & _) & E2).
    pose proof (take_response _ _ _ _ _ _ _ _ _ _ _ _ Ht _ _ Hc eq_refl E1 E2) as Ht'.
    pose proof (in_step_range _ _ _ _ _ (t_b _ Ht')) as Hr. cbn -[zlen] in Hr. rewrite seq_add_small by lia. cbv zeta.
    match type of Ht' with tracks ?x => set (st' := x) in * end.
    apply round_2; [done|nums|ack (ack_b st')|]. intros _. apply (ack_b st'); [done|lia|cbn -[zlen]; lia|done|done|lia]. }
  branch.
  { destruct E0 as [Ep ->]. branch; [|by apply round_idle]. destruct E0 as (E1 & E2).
    assert (resp = true) as Er by (destruct resp; [done|]; by rewrite (proj2 (Z.ltb_lt _ _) (proj2 (zlen_pos _) Ep)) in E).
    pose proof (take_ready _ _ _ _ _ _ _ _ _ _ _ _ Ht _ _ Hc Er eq_refl E1 E2) as Ht'. cbv zeta.
    match type of Ht' with tracks ?x => set (st' := x) in * end.
    apply round_1; [done|nums|]. intros _. apply (ack_b st'); [done|lia|cbn -[zlen]; lia|done|done|lia]. }
  branch.
  { destruct E1 as [Ep ->]. branch; [|by apply round_idle]. destruct E1 as (E1 & E2).
    assert (rx = true) as Er by (destruct rx; [done|]; by rewrite (proj2 (Z.ltb_lt _ _) (proj2 (zlen_pos _) Ep)) in E0).
    pose proof (take_trigger _ _ _ _ _ _ _ _ _ _ _ _ Ht _ _ Hc Er eq_refl E1 E2) as Ht'. cbv zeta.
    match type of Ht' with tracks ?x => set (st' := x) in * end. apply round_1; [done|nums|ack (ack_b st')]. }
  branch; [|by apply round_idle]. destruct E2 as ((E2 & ->) & E3).
  assert (has_fin s = true) as Hfs by (unfold has_fin; by rewrite (proj2 (Z.eqb_neq _ _))).
  pose proof (take_fin_b _ _ _ _ _ _ _ _ _ _ _ _ Ht _ _ Hc Hfs E3 (Hf Hfs)) as Ht'.
  apply round_1; [done|nums|ack (ack_b (Large col ca sa cb (sb + 1) fin resp true rx unread fsent rsent))].
Qed.

(** ** The loop *)

(** What the frames of the server are: whole, and each a part of its stream. *)
Definition honest (reply : bytes) : Prop :=
  54 ≤ zlen reply → ∀ s total, unpack_segment (slice reply 34 48) = Ok s → total = be_value (slice reply 16 18) → src_port s = server_port →
    40 ≤ total ∧ 14 + total ≤ zlen reply ∧ (has_fin s = true → total = 40) ∧
    (dst_port s = HANDSHAKE_CLIENT_PORT → carries start_a stream_a s (slice reply 54 (14 + total))) ∧
    (dst_port s = RECONNECT_CLIENT_PORT → carries start_b stream_b s (slice reply 54 (14 + total))).

Lemma on_reply_segment st reply s :
  54 ≤ zlen reply → unpack_segment (slice reply 34 48) = Ok s → src_port s = server_port →
  dst_port s ∈ [HANDSHAKE_CLIENT_PORT; RECONNECT_CLIENT_PORT] → Z.land (s_flags s) FLAG_ACK ≠ 0 →
  on_reply c server_port client_mac st reply =
    let total := be_value (slice reply 16 18) in
    (if dst_port s =? RECONNECT_CLIENT_PORT then segment_b else segment_a) c server_port client_mac st s (total - 40) (slice reply 54 (14 + total)).
Proof.
  intros Hl Eu E1 E2 E3. unfold on_reply. rewrite (proj2 (Z.ltb_ge _ _)) by lia.
  rewrite slice_slice by lia. change (34 + 0) with 34. change (34 + 14) with 48. rewrite Eu. cbn [mbind res_bind].
  rewrite (proj2 (Z.eqb_eq _ _) E1), (bool_decide_eq_true_2 _ E2), (proj2 (Z.eqb_neq _ _) E3). cbn [negb orb].
  unfold unpack_be. rewrite zlen_slice by lia. rewrite slice_slice by lia. change (14 + 2) with 16. change (14 + (2 + Z.of_nat 2)) with 18.
  change (2 + Z.of_nat 2 <=? 34 - 14) with true. cbn [mbind res_bind]. cbv zeta.
  replace (54 + (be_value (slice reply 16 18) - 40)) with (14 + be_value (slice reply 16 18)) by lia. by destruct (_ =? _).
Qed.

Lemma unpack_segment_ok b : zlen b = 14 → ∃ s, unpack_segment b = Ok s.
Proof. intros Hb. unfold unpack_segment, unpack_be. rewrite Hb. cbn. by eexists. Qed.

Lemma on_reply_round st reply : tracks st → honest reply → round st (on_reply c server_port client_mac st reply).
Proof using Hsend Hstart Hnowrap.
  intros Ht Hh. destruct (Z_lt_dec (zlen reply) 54) as [Hs|Hl].
  { unfold on_reply. rewrite (proj2 (Z.ltb_lt _ _)) by lia. by apply round_idle. }
  apply Z.nlt_ge in Hl. specialize (Hh Hl). destruct (unpack_segment_ok (slice reply 34 48)) as [s Eu]; [rewrite zlen_slice; lia|].
  destruct (decide (src_port s = server_port ∧ dst_port s ∈ [HANDSHAKE_CLIENT_PORT; RECONNECT_CLIENT_PORT] ∧ Z.land (s_flags s) FLAG_ACK ≠ 0))
    as [(E1 & E2 & E3)|Hno].
  - rewrite (on_reply_segment st reply s) by done. cbv zeta. set (total := be_value (slice reply 16 18)) in *.
    destruct (Hh s total Eu eq_refl E1) as (H1 & H2 & H3 & Ha & Hb). set (payload := slice reply 54 (14 + total)) in *.
    assert (total - 40 = zlen payload) as -> by (unfold payload; rewrite zlen_slice; lia).
    assert (has_fin s = true → payload = []) as Hf by (intros Hx; unfold payload; by rewrite (H3 Hx)).
    destruct (Z.eqb_spec (dst_port s) RECONNECT_CLIENT_PORT); [by apply segment_b_round; auto|].
    apply segment_a_round; [done| |done]. apply Ha. by apply elem_of_cons in E2 as [|[E2|[]%elem_of_nil]%elem_of_cons].
  - unfold on_reply. rewrite (proj2 (Z.ltb_ge _ _)) by lia. rewrite slice_slice by lia. change (34 + 0) with 34. change (34 + 14) with 48.
    rewrite Eu. cbn [mbind res_bind]. branch; [by apply round_idle|].
    apply orb_false_iff in E as [E1%negb_false_iff%Z.eqb_eq E2%negb_false_iff%bool_decide_eq_true].
    branch; [by apply round_idle|]. by destruct Hno.
Qed.

(** The replies taken one after the other. *)
Fixpoint absorb (st : large) (replies : list bytes) : res (large * list bytes) :=
  match replies with
  | [] => Ok (st, [])
  | reply :: replies =>
      '(st, fs) ← on_reply c server_port client_mac st reply; '(st, gs) ← absorb st replies; Ok (st, fs ++ gs)
  end.

Lemma advances_trans st st1 st2 : advances st st1 → advances st1 st2 → advances st st2.
Proof. unfold advances. lia. Qed.

Lemma absorb_round st replies : tracks st → Forall honest replies → round st (absorb st replies).
Proof using Hsend Hstart Hnowrap.
  intros Ht Hh. revert st Ht. induction Hh as [|reply replies Hr _ IH]; intros st Ht; cbn [absorb]; [by apply round_idle|].
  destruct (on_reply_round st reply Ht Hr) as (st1 & fs & -> & Ht1 & Ha1 & Hf1). cbn [mbind res_bind].
  destruct (IH st1 Ht1) as (st2 & gs & -> & Ht2 & Ha2 & Hf2). exists st2, (fs ++ gs). split_and!; [done..| |].
  - by eapply advances_trans.
  - apply Forall_app. split; [|done]. eapply Forall_impl; [exact Hf1|]. intros f. by apply acknowledges_later.
Qed.

Lemma absorb_snoc st replies reply st' fs : absorb st replies = Ok (st', fs) →
  absorb st (replies ++ [reply]) = ('(st2, gs) ← on_reply c server_port client_mac st' reply; Ok (st2, fs ++ gs)).
Proof.
  revert st fs. induction replies as [|r replies IH]; intros st fs; cbn [absorb app].
  - intros [= <- <-]. destruct (on_reply _ _ _ st reply) as [[st2 gs]|e]; [|done]. cbn. by rewrite app_nil_r.
  - destruct (on_reply _ _ _ st r) as [[st1 fs1]|e]; [|done]. cbn [mbind res_bind]. intros E.
    destruct (absorb st1 replies) as [[st2 gs]|e] eqn:Ea; [|done]. injection E as -> <-. rewrite (IH _ _ Ea).
    destruct (on_reply _ _ _ st' reply) as [[st3 hs]|e]; [|done]. cbn. by rewrite app_assoc.
Qed.

Section loop.
Context {L : Type} `{LinkLaws L}.
Hypothesis Hlink : ∀ p, delivered p → from_server c client_mac p = true → honest (cut p).

Definition accepted (new : list packet) : list bytes := map cut (filter (fun p => from_server c client_mac p = true) new).

Lemma accepted_honest new : Forall delivered new → Forall honest (accepted new).
Proof using Hlink.
  intros Hd. unfold accepted. apply Forall_fmap, Forall_forall. intros p [Hp Hin]%list_elem_of_filter.
  rewrite Forall_forall in Hd. by apply Hlink; [apply Hd|].
Qed.

Lemma accepted_app new1 new2 : accepted (new1 ++ new2) = accepted new1 ++ accepted new2.
Proof. unfold accepted. by rewrite filter_app, map_app. Qed.

Lemma connected_loop_spec req st w : tracks st → slice req 6 12 = client_mac →
  ∃ st' w' new frames, connected_loop c server_port client_mac req st w = Ok (st', w') ∧ hears w w' new ∧ Forall delivered new ∧
    absorb st (accepted new) = Ok (st', frames).
Proof using Hsend Hstart Hnowrap Hlink.
  intros Ht Hreq. unfold connected_loop. rewrite (bind_ok clock _ w (now (w_link w)) w) by done.
  match goal with |- context [until ?dl ?body ?after st w] =>
    destruct (until_total dl body after
      (fun st' w' => ∃ new frames, hears w w' new ∧ Forall delivered new ∧ absorb st (accepted new) = Ok (st', frames))
      (fun st' w' => ∃ new frames, hears w w' new ∧ Forall delivered new ∧ absorb st (accepted new) = Ok (st', frames)) st w)
      as (st' & w' & E & new & frames & Hrest) end.
  - intros st1 w1 (new & frames & Hn & Hd & Ea) _. destruct (unfinished st1).
    2:{ exists (Stop st1), w1. split; [done|]. by exists new, frames. }
    destruct (recv_reply_spec c req 2000000000 w1) as (o & w2 & new2 & E2 & Hn2 & Hlt & Hd2 & Ho); [lia|].
    rewrite (bind_ok _ _ _ _ _ E2), Hreq in *. fold (accepted new2) in Ho. pose proof (hears_app _ _ _ _ _ Hn Hn2) as Hn3.
    assert (Forall delivered (new ++ new2)) as Hd3 by by apply Forall_app.
    destruct o as [reply|]; cbn in Ho.
    2:{ exists (Next st1), w2. split; [done|]. split; [|done]. exists (new ++ new2), frames. split_and!; [done..|].
        by rewrite accepted_app, <- Ho, app_nil_r. }
    destruct (absorb_round st (accepted new) Ht (accepted_honest _ Hd)) as (st1' & fs' & E1 & Ht1 & _). rewrite Ea in E1.
    injection E1 as <- <-. pose proof (accepted_honest _ Hd2) as Hh2. rewrite <- Ho in Hh2. apply Forall_cons in Hh2 as [Hh2 _].
    destruct (on_reply_round st1 reply Ht1 Hh2) as (st2 & gs & E3 & Ht2 & _).
    pose proof (absorb_snoc st (accepted new) reply st1 frames Ea) as Es. rewrite E3 in Es. cbn [mbind res_bind] in Es.
    rewrite (bind_ok (lift _) _ w2 (st2, gs) w2) by (unfold lift; by rewrite E3).
    destruct (send_all_step gs w2) as (w3 & E4 & Hn4 & Hle). rewrite (bind_ok _ _ _ _ _ E4).
    exists (Next st2), w3. split; [done|]. split; [|lia]. exists (new ++ new2), (frames ++ gs). split_and!; [|done|].
    + rewrite <- (app_nil_r (new ++ new2)). by eapply hears_app.
    + by rewrite accepted_app, <- Ho.
  - intros st1 w1 (new & frames & Hn & Hd & Ea) _. exists st1, w1. split; [done|]. by exists new, frames.
  - exists [], []. split; [apply hears_nil|]. by split.
  - exists st', w', new, frames. split; [done|]. exact Hrest.
Qed.
End loop.
End connected.

(** ** The test of two connections *)

Lemma seq_add_nonneg x n : 0 ≤ seq_add x n.
Proof. unfold seq_add. apply Z.land_nonneg. right. lia. Qed.

Lemma large_problem_none st : large_problem st = [] →
  got_a st = CONNECTED_LARGE_RESPONSE ++ $"pz" ∧ got_b st = second_response ++ $"ky" ∧ second_fin_acked st = true ∧ fin_acked st = false.
Proof.
  unfold large_problem, got_a, got_b. destruct (bool_decide_reflect (collected st = CONNECTED_LARGE_RESPONSE)) as [->|]; cbn [negb]; [|done].
  destruct (second_response_ok st); [|done]. destruct (rx_stale_ready_ok st); [|done]. destruct (unread_ok st); [|done].
  destruct (fin_sent_b st); [|done]. destruct (reset_sent_a st); [|done]. destruct (second_fin_acked st); [|done].
  by destruct (fin_acked st).
Qed.


(** C38: while the response on connection A is being collected, in whatever state of the
    loop, a segment in order and whole whose end passes 2^32 makes the test raise: the
    sum is not reduced, and does not fit in the acknowledgement. *)
Theorem sequence_wrap_raises c server_port client_mac st reply s :
  sendable c server_port client_mac → zlen (collected st) < want → 0 ≤ client_seq st < 4294967296 →
  54 ≤ zlen reply → unpack_segment (slice reply 34 48) = Ok s →
  src_port s = server_port → dst_port s = HANDSHAKE_CLIENT_PORT → Z.land (s_flags s) FLAG_ACK ≠ 0 →
  s_seq s = server_seq st → 40 < be_value (slice reply 16 18) →
  4294967296 ≤ server_seq st + (be_value (slice reply 16 18) - 40) →
  on_reply c server_port client_mac st reply = Err StructError.
Proof.
  intros Hs Hcol Hcl Hl Eu E1 E2 E3 E4 Ht Hw. rewrite (on_reply_segment c server_port client_mac _ reply s); [|done..| |done].
  2:{ rewrite E2. left. }
  rewrite E2. cbv zeta. change (HANDSHAKE_CLIENT_PORT =? RECONNECT_CLIENT_PORT) with false. cbv iota.
  destruct st as [col ca sa cb sb fin resp finb rx unread fsent rsent]. cbn [collected client_seq server_seq] in *. unfold segment_a.
  rewrite (proj2 (Z.ltb_lt (zlen col) want)), (proj2 (Z.ltb_lt 0 _)) by lia. rewrite E4, Z.eqb_refl. cbn [andb negb]. cbv zeta.
  unfold on_a. rewrite (frame_of_wraps _ _ _ _ _ _ FLAG_ACK []); [done|done|unfold HANDSHAKE_CLIENT_PORT; lia|done|done].
Qed.

Definition sample_peer : addresses := Addresses [192; 168; 10; 55] [192; 168; 10; 2] [0; 128; 225; 0; 0; 0].
Definition sample_segment (seq : Z) : bytes :=
  match build_frame (Addresses [192; 168; 10; 2] [192; 168; 10; 55] [2; 0; 0; 0; 0; 1]) HANDSHAKE_CLIENT_PORT [0; 128; 225; 0; 0; 0] 7
    seq 517 ACK_PSH ($"HTTP") false [] with Ok f => f | Err _ => [] end.

(** Part of the response has been collected, and the next segment ends at 2^32. *)
Definition collecting : large :=
  Large ($"HTTP") (HANDSHAKE_CLIENT_ISN + 1 + zlen DATA_ECHO_PAYLOAD) 4294967292 909 20001 false false false false false false false.

Lemma sequence_wrap_raises_witness :
  on_reply sample_peer 7 sample_mac collecting (sample_segment 4294967292) = Err StructError.
Proof.
  apply (sequence_wrap_raises _ _ _ _ _ (Segment 7 43210 4294967292 517 80 24)).
  - constructor; apply (bool_decide_unpack _); vm_compute; exact I.
  - vm_compute. reflexivity.
  - split; [vm_compute; discriminate|vm_compute; reflexivity].
  - vm_compute. discriminate.
  - vm_compute. reflexivity.
  - reflexivity.
  - reflexivity.
  - vm_compute. discriminate.
  - reflexivity.
  - vm_compute. reflexivity.
  - vm_compute. discriminate.
Defined.

Lemma sample_segment_honest p :
  delivered (L := tape (sample_segment 10001)) p → from_server sample_peer sample_mac p = true →
  honest 7 (seq_add 10000 1) (seq_add 20000 1) ($"HTTP") ($"B") (cut p).
Proof.
  intros Hd _. rewrite (tape_delivers _ _ Hd). intros _ s total Es -> Ep. vm_compute in Es. injection Es as <-. cbn [dst_port has_fin].
  split; [by vm_compute|]. split; [by vm_compute|]. split; [by vm_compute|]. split; [|done]. intros _. right. exists 0.
  split; [lia|]. split; [done|]. split; [exists []; by vm_compute|]. by vm_compute.
Qed.

Definition sample_req : bytes :=
  match on_a sample_peer 7 sample_mac 501 10001 ACK_PSH DATA_ECHO_PAYLOAD with Ok f => f | Err _ => [] end.


(** On it the segment is taken once. *)
Example connected_sample_takes :
  connected_loop sample_peer 7 sample_mac sample_req (large_start 10000 20000) (World (Tape (f := sample_segment 10001) 0 []) [] [])
    ≫= (fun r => Ok (got_a r.1, server_seq r.1)) = Ok ($"HTTP", 10005).
Proof. vm_compute. reflexivity. Qed.
