(* ===== verification/HttpdFacts.v ===== *)
(** * Facts about the test of the web server

    The second half of the TCP test: the loop over the two clients ends, takes from each
    a prefix of the server's response, and a client passes only with the whole response,
    which is a 200 with the expected page. *)
From S2P Require Import Prelude Bytes Text Dict NetFrame NetLink ArpTest ArpTestFacts TcpEcho TcpEchoFacts.

Section httpd.
Variable c : addresses.
Variable client_mac : bytes.
Hypothesis Hsend : sendable c HTTPD_PORT client_mac.
(** By the client's port. *)
Variable start : Z → Z.
Variable stream : Z → bytes.
Hypothesis Hstart : ∀ port, 0 ≤ start port ∧ start port + zlen (stream port) + 1 < 4294967296.

Definition peer_ok (client : Z * peer) : Prop :=
  let '(port, p) := client in
  0 ≤ port < 65536 ∧ in_step (start port) (stream port) (pe_body p) (pe_fin p) (pe_server_next p) ∧
  0 ≤ pe_request_seq p < 100000 ∧ 0 ≤ pe_client_seq p < 100000.

Lemma to_httpd_ok port p seq flags data :
  peer_ok (port, p) → 0 ≤ seq < 100000 → 0 ≤ flags < 256 → Forall is_byte data → zlen data ≤ 1000 →
  ∃ f, to_httpd c client_mac port seq (pe_server_next p) flags data = Ok f.
Proof using Hsend Hstart.
  intros (Hp & Hi & _) Hs Hf Hb Hl. pose proof (in_step_range _ _ _ _ _ Hi). pose proof (Hstart port).
  apply frame_of_ok; [done|done|lia|lia|done..].
Qed.

Lemma take_segment_ok port p s payload :
  peer_ok (port, p) → carries (start port) (stream port) s payload → peer_ok (port, (take_segment p s payload).1).
Proof.
  intros (Hp & Hi & Hr & Hq) Hc. unfold take_segment. fold (has_fin s). split; [done|]. cbn [fst pe_body pe_fin pe_server_next pe_request_seq pe_client_seq].
  split; [|done]. destruct (Z.eqb_spec (s_seq s) (pe_server_next p)) as [E|E]; [|by rewrite andb_false_r].
  rewrite andb_true_r. destruct (decide (payload = [])) as [->|Hne].
  - rewrite app_nil_r. change (zlen []) with 0. rewrite Z.add_0_r. destruct (has_fin s) eqn:Ef; [|done].
    by apply (in_step_fin _ _ _ _ _ _ Hc Hi).
  - destruct (in_step_data _ _ _ _ _ _ _ Hc Hi E Hne) as (-> & Hs & Hx). destruct (has_fin s); [|done].
    destruct Hs as (Hg & -> & _). split; [done|]. split; [cbn; lia|]. intros _. by apply Hx.
Qed.

(** A frame of the server is whole or ignored, and a part of a stream. *)
Definition honest_response (frame : bytes) : Prop :=
  ∀ s doff, let tcp := slice frame 34 (14 + be_value (slice frame 16 18)) in
    40 ≤ be_value (slice frame 16 18) → 14 + be_value (slice frame 16 18) ≤ zlen frame →
    unpack_segment (slice tcp 0 14) = Ok s → item tcp 12 = Ok doff → src_port s = HTTPD_PORT →
    carries (start (dst_port s)) (stream (dst_port s)) s (from tcp (Z.shiftr doff 4 * 4)).

Definition peers_ok (peers : list (Z * peer)) : Prop := Forall peer_ok peers.

(** The clients, and the frames that the loop takes the address from. *)
Definition syns (peers : list (Z * peer)) : list (Z * bytes) := map (fun client => (client.1, pe_syn client.2)) peers.

Lemma syns_dset port p p' peers : dget port peers = Some p → pe_syn p' = pe_syn p → syns (dset port p' peers) = syns peers.
Proof.
  intros Hg Hs. induction peers as [|[k v] peers IH]; [done|]. cbn in *. case_decide; cbn.
  - injection Hg as ->. by rewrite Hs.
  - f_equal. by apply IH.
Qed.

Lemma httpd_frame_ok peers frame : peers_ok peers → honest_response frame →
  ∃ peers' fs, httpd_frame c client_mac peers frame = Ok (peers', fs) ∧ peers_ok peers' ∧ syns peers' = syns peers.
Proof using Hsend Hstart.
  intros Hp Hh. unfold httpd_frame. assert (∃ peers' fs, Ok (peers, []) = Ok (peers', fs) ∧ peers_ok peers' ∧ syns peers' = syns peers) as Hidle
    by by exists peers, (@nil bytes).
  destruct (Z.ltb_spec (zlen frame) 54); [done|]. unfold unpack_be at 1. rewrite zlen_slice by lia. change (0 + Z.of_nat 2 <=? 18 - 16) with true.
  cbn [mbind res_bind]. rewrite slice_slice by lia. change (16 + 0) with 16. change (16 + (0 + Z.of_nat 2)) with 18.
  unfold honest_response in Hh. set (total := be_value (slice frame 16 18)) in *.
  destruct (Z.ltb_spec total 40); [done|]. destruct (Z.ltb_spec (zlen frame) (14 + total)); [done|]. cbn [orb].
  set (tcp := slice frame 34 (14 + total)) in *. assert (zlen tcp = total - 20) as Hl by (unfold tcp; rewrite zlen_slice; lia).
  destruct (unpack_segment_ok (slice tcp 0 14)) as [s Es]; [rewrite zlen_slice; lia|]. rewrite Es. cbn [mbind res_bind].
  destruct (dget (dst_port s) peers) as [p|] eqn:Ep; [|done]. destruct (Z.eqb_spec (src_port s) HTTPD_PORT) as [E|]; [|done].
  destruct (item_ok tcp 12) as [doff Ed]; [lia|]. rewrite Ed. cbn [mbind res_bind]. set (payload := from tcp _) in *.
  assert (peer_ok (dst_port s, p)) as Hpo.
  { apply dget_elem_of in Ep. unfold peers_ok in Hp. rewrite Forall_forall in Hp. by apply Hp. }
  assert (carries (start (dst_port s)) (stream (dst_port s)) s payload) as Hc by (apply Hh; done || lia).
  pose proof (take_segment_ok _ _ _ _ Hpo Hc) as Hpo'. destruct (take_segment p s payload) as [p' reply] eqn:Et. cbn [fst] in Hpo'.
  assert (peers_ok (dset (dst_port s) p' peers)) as Hp'.
  { apply Forall_forall. intros [k v] [[-> ->]|Hin]%dset_elem_of; [done|]. unfold peers_ok in Hp. rewrite Forall_forall in Hp. by apply Hp. }
  assert (syns (dset (dst_port s) p' peers) = syns peers) as Hk by (apply (syns_dset _ p); [done|]; by injection Et as <- _).
  destruct reply; [|by eexists _, _].
  destruct (to_httpd_ok (dst_port s) p' (pe_client_seq p') FLAG_ACK []) as [f ->]; [done|apply Hpo'|done|constructor|done|].
  cbn [mbind res_bind]. by eexists _, _.
Qed.

Lemma request_bytes : Forall is_byte request ∧ zlen request ≤ 1000.
Proof. apply (bool_decide_unpack _). by vm_compute. Qed.

Section loop.
Context {L : Type} `{HL : Link L} `{HLL : LinkLaws L}.
Hypothesis Hlink : ∀ p, delivered p → from_server c client_mac p = true → honest_response (cut p).

Lemma retransmit_ok t peers w : peers_ok peers →
  ∃ peers' w', retransmit c client_mac t peers w = Ok (peers', w') ∧ hears w w' [] ∧ now (w_link w) ≤ now (w_link w') ∧
    peers_ok peers' ∧ syns peers' = syns peers.
Proof using Hsend Hstart.
  revert w. induction peers as [|[port p] peers IH]; intros w Hp; cbn [retransmit].
  { exists [], w. split_and!; try done. apply hears_nil. }
  apply Forall_cons in Hp as [Hp Hps].
  assert (∃ p' w1, (if negb (pe_acked p) && negb (pe_fin p) && (500000000 <=? t - pe_sent_at p) then
      f ← lift (to_httpd c client_mac port (pe_request_seq p) (pe_server_next p) ACK_PSH request); _ ← sock_send f;
      ret (Peer (pe_client_seq p) (pe_server_next p) (pe_body p) (pe_fin p) (pe_syn p) (pe_request_seq p) (pe_acked p) t (pe_retransmits p + 1))
      else ret p) w = Ok (p', w1) ∧ hears w w1 [] ∧ now (w_link w) ≤ now (w_link w1) ∧ peer_ok (port, p') ∧ pe_syn p' = pe_syn p)
    as (p' & w1 & E & Hh & Hle & Hp' & Hsyn).
  { destruct (_ && _ && _); [|exists p, w; split_and!; [done|apply hears_nil|lia|done..]].
    destruct (to_httpd_ok port p (pe_request_seq p) ACK_PSH request) as [f Ef]; [done|by destruct Hp as (?&?&?&?)|done|apply request_bytes..|].
    rewrite (bind_ok _ _ w f w) by (unfold lift; by rewrite Ef). destruct (send_time_step f w) as (w1 & E1 & Hh & Hle).
    rewrite (bind_ok _ _ _ _ _ E1).
    eexists _, w1. split; [done|]. by split_and!. }
  rewrite (bind_ok _ _ _ _ _ E). destruct (IH w1 Hps) as (peers' & w2 & E2 & Hh2 & Hle2 & Hps' & Hk).
  rewrite (bind_ok _ _ _ _ _ E2). exists ((port, p') :: peers'), w2. split_and!; [done|by apply (hears_app _ _ _ [] [] Hh)|lia|by constructor|].
  unfold syns in *. cbn [map fst snd]. by rewrite Hsyn, Hk.
Qed.

Lemma httpd_loop_ok peers syn w : peers_ok peers → dget 43320 (syns peers) = Some syn → slice syn 6 12 = client_mac →
  ∃ peers' w', httpd_loop c client_mac peers w = Ok (peers', w') ∧ peers_ok peers' ∧ syns peers' = syns peers.
Proof using HLL Hsend Hstart Hlink.
  intros Hp Hd Hm. unfold httpd_loop. rewrite (bind_ok clock _ w (now (w_link w)) w) by done.
  match goal with |- context [until ?dl ?body ?after peers w] =>
    destruct (until_total dl body after (fun peers' _ => peers_ok peers' ∧ syns peers' = syns peers)
      (fun peers' _ => peers_ok peers' ∧ syns peers' = syns peers) peers w) as (peers' & w' & E & Hrest) end.
  - intros peers1 w1 [Hp1 Hs1] _. destruct (forallb _ peers1); [by exists (Stop peers1), w1|].
    rewrite (bind_ok clock _ w1 (now (w_link w1)) w1) by done.
    destruct (retransmit_ok (now (w_link w1)) peers1 w1 Hp1) as (peers2 & w2 & E2 & _ & Hle2 & Hp2 & Hs2). rewrite (bind_ok _ _ _ _ _ E2).
    destruct (dget 43320 peers2) as [p|] eqn:Ep.
    2:{ apply dget_None in Ep. assert (dget 43320 (syns peers2) = None) as E3; [|by rewrite Hs2, Hs1, Hd in E3].
        apply dget_None. unfold syns. rewrite map_map. exact Ep. }
    assert (pe_syn p = syn) as Esyn.
    { assert (dget 43320 (syns peers2) = Some (pe_syn p)) as E3; [|by rewrite Hs2, Hs1, Hd in E3; injection E3].
      unfold syns. by rewrite (dget_map pe_syn), Ep. }
    rewrite (bind_ok _ _ w2 p w2) by (unfold lift, dget_or_raise; by rewrite Ep).
    rewrite (bind_ok clock _ w2 (now (w_link w2)) w2) by done.
    match goal with |- context [recv_reply c _ ?t] =>
      destruct (recv_reply_spec c (pe_syn p) t w2) as (o & w3 & new & E3 & _ & Hlt & Hdel & Ho); [lia|] end.
    rewrite (bind_ok _ _ _ _ _ E3). rewrite Esyn, Hm in Ho. destruct o as [frame|]; cbn in Ho.
    2:{ exists (Next peers2), w3. split; [done|]. split; [|lia]. by rewrite Hs2. }
    assert (honest_response frame) as Hh.
    { assert (frame ∈ map cut (filter (fun p => from_server c client_mac p = true) new)) as Hin by (rewrite <- Ho; left).
      apply list_elem_of_fmap in Hin as (q & -> & [Hq Hin]%list_elem_of_filter). rewrite Forall_forall in Hdel. by apply Hlink; [apply Hdel|]. }
    destruct (httpd_frame_ok peers2 frame Hp2 Hh) as (peers3 & fs & E4 & Hp3 & Hs3).
    rewrite (bind_ok _ _ w3 (peers3, fs) w3) by (unfold lift; by rewrite E4).
    destruct (send_all_step fs w3) as (w4 & E5 & _ & Hle4). rewrite (bind_ok _ _ _ _ _ E5).
    exists (Next peers3), w4. split; [done|]. split; [|lia]. by rewrite Hs3, Hs2.
  - intros peers1 w1 [Hp1 Hs1] _. by exists peers1, w1.
  - done.
  - by exists peers', w'.
Qed.
End loop.
End httpd.

(** ** The verdict *)

Lemma httpd_passed_response expected p : httpd_passed expected p = true →
  pe_fin p = true ∧ ∃ header, pe_body p = header ++ (CRLF ++ CRLF) ++ expected ∧ startswith header ($"HTTP/1.") = true ∧
    contains ($" 200 ") (default [] (head (split_crlf header))) = true ∧ content_type header = $"text/html".
Proof.
  unfold httpd_passed, response_parts. destruct (find (CRLF ++ CRLF) (pe_body p)) as [i|] eqn:E; [|by rewrite !andb_false_r].
  apply find_split in E as (a & b & E & <-). rewrite E, slice_app by done.
  rewrite !andb_true_iff, !bool_decide_eq_true. intros ((((Hf & Hs) & H2) & Hb) & Hc). split; [done|]. exists a. split_and!; try done.
  rewrite app_assoc, from_app in Hb by (by rewrite zlen_app). by rewrite Hb.
Qed.

(** C34: the loop of the web server's test, on streams whose numbers stay below 2^32, the
    number of a last FIN included (the code does not reduce a number that passes it).
    The loop ends, whatever is lost, repeated or out of order, and keeps the clients; what
    a client took is a prefix of its stream, the number it expects next is the one after
    it, and it passes only when the stream, to its end, is a 200 response of HTML whose
    body is the expected page. *)
Theorem httpd_streams {L} `{LinkLaws L} c client_mac start stream peers syn w :
  sendable c HTTPD_PORT client_mac → (∀ port, 0 ≤ start port ∧ start port + zlen (stream port) + 1 < 4294967296) →
  (∀ p, delivered p → from_server c client_mac p = true → honest_response start stream (cut p)) →
  Forall (peer_ok start stream) peers → dget 43320 (syns peers) = Some syn → slice syn 6 12 = client_mac →
  ∃ peers' w', httpd_loop c client_mac peers w = Ok (peers', w') ∧ map fst peers' = map fst peers ∧
    ∀ port p, (port, p) ∈ peers' → pe_body p `prefix_of` stream port ∧
      pe_server_next p = start port + zlen (pe_body p) + b2z (pe_fin p) ∧
      ∀ expected, httpd_passed expected p = true →
        ∃ header, stream port = header ++ (CRLF ++ CRLF) ++ expected ∧ startswith header ($"HTTP/1.") = true ∧
          contains ($" 200 ") (default [] (head (split_crlf header))) = true ∧ content_type header = $"text/html".
Proof.
  intros Hs Hst Hlink Hp Hd Hm. destruct (httpd_loop_ok c client_mac Hs start stream Hst Hlink peers syn w Hp Hd Hm) as (peers' & w' & E & Hp' & Hk).
  exists peers', w'. split; [done|]. split.
  - apply (f_equal (map fst)) in Hk. unfold syns in Hk. by rewrite !map_map in Hk.
  - intros port p Hin. unfold peers_ok in Hp'. rewrite Forall_forall in Hp'. destruct (Hp' _ Hin) as (_ & (Hg & Hn & Hf) & _).
    split; [done|]. split; [done|]. intros expected (Hfin & header & Eb & Hrest)%httpd_passed_response.
    exists header. split; [|done]. by rewrite <- Eb, (Hf Hfin).
Qed.

(** A server that sends one response again and again. *)
Definition sample_response : bytes := $"HTTP/1.0 200 OK" ++ CRLF ++ $"Content-Type: text/html" ++ CRLF ++ CRLF ++ $"<p>".
Definition sample_stream (port : Z) : bytes := if port =? 43320 then sample_response else [].
Definition sample_packet : bytes :=
  match build_frame (Addresses [192; 168; 10; 2] [192; 168; 10; 55] [2; 0; 0; 0; 0; 1]) 43320 [0; 128; 225; 0; 0; 0] HTTPD_PORT
    1000 5001 (Z.lor FLAG_FIN FLAG_ACK) sample_response false [] with Ok f => f | Err _ => [] end.
Definition sample_syn : bytes := match to_httpd sample_peer sample_mac 43320 5000 0 FLAG_SYN [] with Ok f => f | Err _ => [] end.
Definition sample_peers : list (Z * peer) := [(43320, Peer 5039 1000 [] false sample_syn 5001 false 0 0)].

Lemma sample_response_honest p :
  delivered (L := tape sample_packet) p → from_server sample_peer sample_mac p = true → honest_response (fun _ => 1000) sample_stream (cut p).
Proof.
  intros Hd _. rewrite (tape_delivers _ _ Hd). intros s doff tcp H1 H2 Es Ed Ep. unfold tcp in *.
  vm_compute in Es, Ed. injection Es as <-. injection Ed as <-. right. exists 0. cbn [dst_port s_seq].
  split; [lia|]. split; [done|]. split; [exists []; by vm_compute|]. by vm_compute.
Qed.

Lemma httpd_streams_witness :
  ∃ peers' w', httpd_loop sample_peer sample_mac sample_peers (World (Tape (f := sample_packet) 0 []) [] []) = Ok (peers', w') ∧
    map fst peers' = map fst sample_peers ∧
    ∀ port p, (port, p) ∈ peers' → pe_body p `prefix_of` sample_stream port ∧
      pe_server_next p = 1000 + zlen (pe_body p) + b2z (pe_fin p) ∧
      ∀ expected, httpd_passed expected p = true →
        ∃ header, sample_stream port = header ++ (CRLF ++ CRLF) ++ expected ∧ startswith header ($"HTTP/1.") = true ∧
          contains ($" 200 ") (default [] (head (split_crlf header))) = true ∧ content_type header = $"text/html".
Proof.
  apply (httpd_streams sample_peer sample_mac (fun _ => 1000) sample_stream sample_peers sample_syn).
  - constructor; apply (bool_decide_unpack _); vm_compute; exact I.
  - intros port. unfold sample_stream. destruct (port =? 43320); vm_compute; split; discriminate || reflexivity.
  - intros p. apply sample_response_honest.
  - constructor; [|constructor]. split; [lia|]. split; [|cbn; lia]. split; [apply prefix_nil|]. split; [reflexivity|discriminate].
  - vm_compute. reflexivity.
  - vm_compute. reflexivity.
Defined.

(** On it the client passes. *)
Example httpd_sample_passes :
  (peers ← httpd_loop sample_peer sample_mac sample_peers; ret (map (fun client => httpd_passed ($"<p>") client.2) peers))
    (World (Tape (f := sample_packet) 0 []) [] []) ≫= (fun r => Ok r.1) = Ok [true].
Proof. vm_compute. reflexivity. Qed.
