(* ===== verification/GlobalProtection.v ===== *)
(** * The global protection ratchet

    Model of scripts/buildcheck_global_protection.py: the tables of globals that the
    compiler writes are checked against the list of the unprotected ones, and the
    list is edited with [--drop] and [--prune].  The files are arguments. *)
From S2P Require Import Prelude Text Dict Sort PassLine.

Definition ALLOWLIST_NAME : str := $"global_protection_allowlist.tsv".
Definition FORMAT : Z := 3.
Definition USES_MARK : str := $"# uses".
Definition WRITE_KINDS : list str := [$"write"; $"atomic_store"].
Definition HEADER : str := $"# takibi globals, format ".
Definition COLUMNS : list str :=
  [$"file"; $"line"; $"name"; $"visibility"; $"qualifier"; $"type"; $"protection"].
Definition PROTECTED : list str :=
  [$"atomic"; $"lock"; $"per_cpu"; $"region"; $"place"; $"dma_fixed"; $"protocol"; $"boot_once"; $"composite"; $"slot_owned"].
Definition UNPROTECTED : list str := [$"none"].

Definition TableError (message : str) : exn := Custom "TableError" message.

(** ** The tables *)

Record row := Row {
  g_file : str; g_line : str; g_name : str; g_visibility : str; g_qualifier : str; g_type : str; g_protection : str }.

Definition columns_repr : str := $"(" ++ join ($", ") (map py_repr COLUMNS) ++ $")".

Definition parse_row (origin : str) (number : Z) (line : str) : res row :=
  let cells := split_on 9 line in
  match cells with
  | [file; line; name; visibility; qualifier; type; protection] =>
      if decide (protection ∈ PROTECTED ++ UNPROTECTED) then Ok (Row file line name visibility qualifier type protection)
      else Err (TableError (origin ++ $":" ++ dec number ++ $": unknown protection " ++ py_repr protection))
  | _ => Err (TableError (origin ++ $":" ++ dec number ++ $": " ++ dec (zlen cells) ++ $" cells, not " ++ dec (zlen COLUMNS)))
  end.

(** The rows up to the table of uses. *)
Fixpoint parse_rows (origin : str) (number : Z) (lines : list str) : res (list row) :=
  match lines with
  | [] => Ok []
  | line :: lines =>
      if decide (line = USES_MARK) then Ok []
      else r ← parse_row origin number line; rs ← parse_rows origin (number + 1) lines; Ok (r :: rs)
  end.

Definition parse_table (text origin : str) : res (list row) :=
  match splitlines text with
  | [] => Err (TableError (origin ++ $": not a takibi globals table"))
  | first :: rest =>
      match strip_prefix HEADER first with
      | None => Err (TableError (origin ++ $": not a takibi globals table"))
      | Some version =>
          let version := (span (fun c => negb (c =? 59)) version).1 in
          if decide (version = dec FORMAT) then
            match rest with
            | columns :: lines =>
                if decide (split_on 9 columns = COLUMNS) then
                  rows ← parse_rows origin 3 lines;
                  if decide (rows = []) then Err (TableError (origin ++ $": no rows")) else Ok rows
                else Err (TableError (origin ++ $": column header is not " ++ columns_repr))
            | [] => Err (TableError (origin ++ $": column header is not " ++ columns_repr))
            end
          else Err (TableError (origin ++ $": format " ++ version ++ $", this reader knows " ++ dec FORMAT))
      end
  end.

(** [readers[k].add(f)]; a set is the list of its members. *)
Definition add_reader (name function : str) (readers : list (str * list str)) : list (str * list str) :=
  let had := default [] (dget name readers) in
  dset name (if decide (function ∈ had) then had else had ++ [function]) readers.

Definition note_use (readers : list (str * list str)) (line : str) : list (str * list str) :=
  match split_on 9 line with
  | [_; _; name; kind; function] => if decide (kind ∈ WRITE_KINDS) then readers else add_reader name function readers
  | _ => readers
  end.

(** The lines after the mark and the header of its columns. *)
Fixpoint uses_lines (lines : list str) : list str :=
  match lines with
  | [] => []
  | line :: lines => if decide (line = USES_MARK) then tail lines else uses_lines lines
  end.

Definition parse_uses (text : str) : list (str * list str) := foldl note_use [] (uses_lines (splitlines text)).

(** [PurePosixPath(file).parts]. *)
Definition path_parts (file : str) : list str :=
  let names := filter (fun part => part ≠ [] ∧ part ≠ $".") (split_on 47 file) in
  match file with
  | 47 :: 47 :: 47 :: _ => $"/" :: names
  | 47 :: 47 :: _ => $"//" :: names
  | 47 :: _ => $"/" :: names
  | _ => names
  end.

Definition production (file : str) : bool :=
  match path_parts file with
  | first :: second :: _ => bool_decide (first = $"kernel") && bool_decide (second ∉ [$"tests"; $"models"])
  | _ => false
  end.

Definition unprotected (r : row) : bool := bool_decide (g_protection r ∈ UNPROTECTED) || bool_decide (g_qualifier r = $"scratch").

Abbreviation key := (str * str)%type.

Definition add_global (found : list (key * row)) (r : row) : list (key * row) :=
  if production (g_file r) then
    match dget (g_file r, g_name r) found with Some _ => found | None => dset (g_file r, g_name r) r found end
  else found.

Definition globals_of (tables : list (str * str)) : res (list (key * row)) :=
  found ← foldM (fun found '(origin, text) => rows ← parse_table text origin; Ok (foldl add_global found rows)) [] tables;
  if decide (found = []) then Err (TableError ($"no production globals in the tables")) else Ok found.

(** ** The list *)

(** A line that is not blank and no comment. *)
Definition is_entry (line : str) : bool := bool_decide (strip line ≠ []) && negb (startswith line ($"#")).

Definition read_entry (origin : str) (number : Z) (line : str) (rows : list (key * str)) : list (key * str) * list str :=
  match split_on 9 line with
  | [file; name; reader] =>
      if decide (strip reader = []) then (rows, [origin ++ $":" ++ dec number ++ $": want file<TAB>name<TAB>reader"])
      else
        let errors := if decide ((file, name) ∈ map fst rows)
                      then [origin ++ $":" ++ dec number ++ $": duplicate row " ++ file ++ $" " ++ name] else [] in
        (dset (file, name) reader rows, errors)
  | _ => (rows, [origin ++ $":" ++ dec number ++ $": want file<TAB>name<TAB>reader"])
  end.

Fixpoint read_entries (origin : str) (number : Z) (lines : list str) (rows : list (key * str)) : list (key * str) * list str :=
  match lines with
  | [] => (rows, [])
  | line :: lines =>
      if is_entry line then
        let '(rows, errors) := read_entry origin number line rows in
        let '(rows, more) := read_entries origin (number + 1) lines rows in
        (rows, errors ++ more)
      else read_entries origin (number + 1) lines rows
  end.

Definition parse_allowlist (origin text : str) : list (key * str) * list str := read_entries origin 1 (splitlines text) [].

(** ** The check *)

Definition open_rows (found : list (key * row)) : list key := map fst (filter (fun kr => unprotected kr.2 = true) found).

Definition unlisted_error (r : row) : str :=
  g_file r ++ $":" ++ g_line r ++ $": global '" ++ g_name r ++ $": " ++ g_type r ++ $"' shows no protection in its type (AtomicWord, LockedCell, RegionPool, Place, per_cpu, region, dma_fixed, protocol, BootOnce, or a struct of those); give it one, or list it in scripts/global_protection_allowlist.tsv with its reader (#1012)".

Definition stale_error (found : list (key * row)) (k : key) : str :=
  let why := if dmem k found then $"is now protected" else $"is no longer a production global" in
  ALLOWLIST_NAME ++ $": stale row " ++ k.1 ++ $" " ++ k.2 ++ $": " ++ why ++ $"; delete the row".

(** [set(allowed) - open_rows]. *)
Definition stale_keys (found : list (key * row)) (allowed : list (key * str)) : list key :=
  filter (fun k => k ∉ open_rows found) (map fst allowed).

Definition check (found : list (key * row)) (allowed : list (key * str)) : res (list str) :=
  unlisted ← mapM_res (fun k => r ← dget_or_raise k found; Ok (unlisted_error r))
               (py_sorted str_pair_le (filter (fun k => k ∉ map fst allowed) (open_rows found)));
  Ok (unlisted ++ map (stale_error found) (py_sorted str_pair_le (stale_keys found allowed))).

(** [read-by NAME[,NAME...]: why] at the head of a cell: the names. *)
Definition name_char (c : Z) : bool := negb (is_space c) && negb (c =? 58) && negb (c =? 44).
Fixpoint reader_names (fuel : nat) (s : str) : option (list str * str) :=
  match fuel with
  | O => None
  | S fuel =>
      match span name_char s with
      | ([], _) => None
      | (name, 44 :: rest) =>
          match reader_names fuel rest with
          | Some (names, rest) => Some (name :: names, rest)
          | None => Some ([name], 44 :: rest)
          end
      | (name, rest) => Some ([name], rest)
      end
  end.
Definition READ_BY (cell : str) : option (list str) :=
  rest ← strip_prefix ($"read-by ") cell;
  '(names, rest) ← reader_names (S (length rest)) rest;
  rest ← strip_prefix ($": ") rest;
  match rest with c :: _ => if is_space c then None else Some names | [] => None end.

Section readers.
(** The text of a file under the root of the repository, when there is one. *)
Variable file_text : str → option str.

Definition reader_error (readers : list (str * list str)) (k : key) (reader : str) : list str :=
  if contains ($"/") reader then
    match file_text reader with
    | Some text => if has_word [k.2] None text then [] else
        [ALLOWLIST_NAME ++ $": " ++ k.1 ++ $" " ++ k.2 ++ $": " ++ reader ++ $" does not exist or does not name the global"]
    | None => [ALLOWLIST_NAME ++ $": " ++ k.1 ++ $" " ++ k.2 ++ $": " ++ reader ++ $" does not exist or does not name the global"]
    end
  else if decide (reader ∈ default [] (dget k.2 readers)) then []
  else [ALLOWLIST_NAME ++ $": " ++ k.1 ++ $" " ++ k.2 ++ $": " ++ reader ++ $" has no use of the global other than a write"].

Definition cell_errors (readers : list (str * list str)) (entry : key * str) : list str :=
  let '(k, cell) := entry in
  if startswith cell ($"unreviewed") then []
  else match READ_BY cell with
       | None => [ALLOWLIST_NAME ++ $": " ++ k.1 ++ $" " ++ k.2 ++ $": reader is neither unreviewed nor 'read-by NAME[,NAME...]: why'"]
       | Some names => concat (map (reader_error readers k) names)
       end.

Definition reader_errors (allowed : list (key * str)) (readers : list (str * list str)) : list str :=
  concat (map (cell_errors readers) (py_sorted (fun a b => str_pair_le a.1 b.1) allowed)).
End readers.

Definition unreviewed_count (allowed : list (key * str)) : Z :=
  zlen (filter (fun kc => startswith kc.2 ($"unreviewed") = true) allowed).

(** ** Editing the list *)

(** [name.rsplit(":", 1)] of a name with a colon. *)
Definition rsplit_colon (name : str) : str * str :=
  let '(bare, file) := span (fun c => negb (c =? 58)) (reverse name) in (reverse (tail file), reverse bare).

Definition named (allowed : list (key * str)) (name : str) : list key :=
  if contains ($":") name then filter (fun k => k = rsplit_colon name) (map fst allowed)
  else filter (fun k => k.2 = name) (map fst allowed).

Definition drop_one (found : list (key * row)) (allowed : list (key * str)) (name : str) : list key * list str :=
  let stale := stale_keys found allowed in
  let matches := named allowed name in
  let absent := if decide (matches = []) then [$"--drop " ++ name ++ $": no row of " ++ ALLOWLIST_NAME ++ $" names it"] else [] in
  let still := map (fun k => $"--drop " ++ name ++ $": " ++ k.1 ++ $" " ++ k.2 ++ $" is still an unprotected global; protect it before dropping its row")
                 (py_sorted str_pair_le (filter (fun k => k ∉ stale) matches)) in
  (filter (fun k => k ∈ stale) matches, absent ++ still).

(** The union of sets. *)
Definition union_keys (a b : list key) : list key := a ++ filter (fun k => k ∉ a) b.

Fixpoint drop_keys (found : list (key * row)) (allowed : list (key * str)) (names : list str) (keys : list key) : list key * list str :=
  match names with
  | [] => (keys, [])
  | name :: names =>
      let '(more, errors) := drop_one found allowed name in
      let '(keys, rest) := drop_keys found allowed names (union_keys keys more) in
      (keys, errors ++ rest)
  end.

(** Whether a line, with its end, is a row to remove. *)
Definition is_removed (removed : list key) (line : str) : bool :=
  is_entry line &&
  match split_on 9 (rstrip_by (fun c => c =? 10) line) with
  | [file; name; _] => bool_decide ((file, name) ∈ removed)
  | _ => false
  end.

Definition keep_lines (removed : list key) (text : str) : str :=
  concat (filter (fun line => is_removed removed line = false) (splitlines_keep text)).

Definition same_keys (a b : list key) : bool := forallb (fun k => bool_decide (k ∈ b)) a && forallb (fun k => bool_decide (k ∈ a)) b.

Definition rewrite_allowlist (origin text : str) (found : list (key * row)) (removed : list key) : res str :=
  let result := keep_lines removed text in
  let '(before, before_errors) := parse_allowlist origin text in
  let '(after, after_errors) := parse_allowlist origin result in
  if decide (before_errors ++ after_errors ≠ []) then
    Err (TableError ($"the allow-list is malformed; fix it by hand first: " ++ join ($"; ") (before_errors ++ after_errors)))
  else
    let lost := filter (fun k => k ∉ map fst after) (open_rows found) in
    if decide (lost ≠ []) then
      Err (TableError ($"refusing to write: rows for still-unprotected globals would be lost: " ++
                       join ($", ") (map (fun k => k.1 ++ $" " ++ k.2) (py_sorted str_pair_le lost))))
    else if negb (same_keys (filter (fun k => k ∉ map fst after) (map fst before)) removed) ||
            bool_decide (filter (fun k => k ∉ map fst before) (map fst after) ≠ []) then
      Err (TableError ($"refusing to write: the rewrite changed rows other than the ones removed"))
    else if existsb (fun kc => negb (bool_decide (dget kc.1 before = Some kc.2))) after then
      Err (TableError ($"refusing to write: a kept row's reader changed"))
    else Ok result.

(** ** The command *)

Definition class_of (r : row) : str := if decide (g_qualifier r = $"scratch") then $"scratch" else g_protection r.
Definition count_class (counts : list (str * Z)) (kr : key * row) : list (str * Z) :=
  dset (class_of kr.2) (default 0 (dget (class_of kr.2) counts) + 1) counts.
Definition summary (found : list (key * row)) : str :=
  join ($", ") (map (fun kv => kv.1 ++ $" " ++ dec kv.2)
                  (py_sorted (fun a b => str_le a.1 b.1) (foldl count_class [] found))).

(** The exit status, the lines printed, and the list when it is written. *)
Record outcome := Outcome { o_status : Z; o_lines : list str; o_written : option str }.
Definition say (line : str) : str := $"global-protection: " ++ line.

Definition edit (origin text : str) (found : list (key * row)) (drops : list str) (prune : bool) : res outcome :=
  let '(allowed, errors) := parse_allowlist origin text in
  if decide (errors ≠ []) then Ok (Outcome 1 (map say errors) None) else
  let '(removed, errors) := drop_keys found allowed drops [] in
  let removed := if prune then union_keys removed (stale_keys found allowed) else removed in
  if decide (errors ≠ []) then Ok (Outcome 1 (map say errors) None) else
  match rewrite_allowlist origin text found removed with
  | Err (Custom cls message) => if decide (cls = "TableError"%string) then Ok (Outcome 1 [say message] None) else Err (Custom cls message)
  | Err e => Err e
  | Ok result =>
      Ok (Outcome 0 (map (fun k => say ($"dropped " ++ k.1 ++ $" " ++ k.2)) (py_sorted str_pair_le removed)
                     ++ [say (dec (zlen allowed) ++ $" -> " ++ dec (zlen allowed - zlen removed) ++ $" rows")]) (Some result))
  end.

(** The arguments: the names to drop and the paths; [None] when [--drop] is last. *)
Fixpoint arguments (argv : list str) : option (list str * list str) :=
  match argv with
  | [] => Some ([], [])
  | arg :: rest =>
      if decide (arg = $"--drop") then
        match rest with
        | [] => None
        | name :: rest => '(drops, paths) ← arguments rest; Some (name :: drops, paths)
        end
      else
        '(drops, paths) ← arguments rest;
        Some (drops, if decide (arg ∈ [$"--summary"; $"--prune"]) then paths else arg :: paths)
  end.

(** [readers[name] |= functions] for every name. *)
Definition merge_readers (readers more : list (str * list str)) : list (str * list str) :=
  foldl (fun readers '(name, functions) => foldl (fun readers f => add_reader name f readers)
           (match dget name readers with Some _ => readers | None => dset name [] readers end) functions) readers more.

Section main.
Variable file_text : str → option str.
Variable read_text : str → res str.

(** The verdict on the tables and the list. *)
Definition judge (origin text : str) (tables : list (str * str)) (found : list (key * row)) : res outcome :=
  let '(allowed, errors) := parse_allowlist origin text in
  unlisted ← check found allowed;
  let readers := foldl (fun readers t => merge_readers readers (parse_uses t.2)) [] tables in
  let errors := errors ++ unlisted ++ reader_errors file_text allowed readers in
  if decide (errors ≠ []) then Ok (Outcome 1 (map say errors) None) else
  let open_count := zlen (open_rows found) in
  line ← report_pass ($"global-protection")
    (dec (zlen found) ++ $" production globals; " ++ dec open_count ++ $" unprotected, all allow-listed, " ++
     dec (unreviewed_count allowed) ++ $" of those rows unreviewed (" ++ summary found ++ $")")
    [($"globals", zlen found)];
  Ok (Outcome 0 [line] None).

(** [main] without the usage message of a call with no path. *)
Definition main (origin text : str) (argv : list str) : res outcome :=
  match arguments argv with
  | None => Ok (Outcome 2 [say ($"--drop needs a NAME")] None)
  | Some (drops, paths) =>
      if decide (paths = []) then Ok (Outcome 2 [] None) else
      match (tables ← mapM_res (fun p => text ← read_text p; Ok (p, text)) paths; found ← globals_of tables; Ok (tables, found)) with
      | Err (Custom cls message) =>
          if bool_decide (cls = "TableError"%string) || bool_decide (cls = "OSError"%string)
          then Ok (Outcome 1 [say message] None) else Err (Custom cls message)
      | Err e => Err e
      | Ok (tables, found) =>
          if decide ($"--summary" ∈ argv) then Ok (Outcome 0 [summary found] None)
          else if negb (bool_decide (drops = [])) || bool_decide ($"--prune" ∈ argv)
          then edit origin text found drops (bool_decide ($"--prune" ∈ argv))
          else judge origin text tables found
      end
  end.
End main.
