(* ===== verification/GlobalProtectionFacts.v ===== *)
(** * Facts about the global protection ratchet

    The check passes exactly when the unprotected globals are the listed ones and the
    named readers exist; an edit of the list removes the rows it was asked to and
    nothing else, and after [--prune] no row is stale. *)
From S2P Require Import Prelude Text Dict Sort PassLine GlobalProtection.

(** ** The check *)

Lemma elem_of_open_rows found k : k ∈ open_rows found ↔ ∃ r, (k, r) ∈ found ∧ unprotected r = true.
Proof.
  unfold open_rows. rewrite list_elem_of_fmap. split.
  - intros ([k' r] & -> & [Hu Hin]%list_elem_of_filter). by exists r.
  - intros (r & Hin & Hu). exists (k, r). split; [done|]. by apply list_elem_of_filter.
Qed.

(** The rows of the list are the unprotected globals. *)
Definition listed_exactly (found : list (key * row)) (allowed : list (key * str)) : Prop :=
  ∀ k, k ∈ open_rows found ↔ k ∈ map fst allowed.

Lemma check_iff found allowed : ∃ errors, check found allowed = Ok errors ∧ (errors = [] ↔ listed_exactly found allowed).
Proof.
  unfold check. set (unlisted := filter _ (open_rows found)).
  destruct (mapM_res_Ok (fun k => r ← dget_or_raise k found; Ok (unlisted_error r)) (py_sorted str_pair_le unlisted)) as (us & -> & Hl).
  { intros k [Hk Hin]%elem_of_py_sorted%list_elem_of_filter. apply elem_of_open_rows in Hin as (r & Hin & _).
    destruct (dget_Some_in k found) as [v Ev]; [apply list_elem_of_fmap; by exists (k, r)|]. unfold dget_or_raise. rewrite Ev. by eexists. }
  cbn [mbind res_bind]. eexists. split; [done|].
  assert (us = [] ↔ unlisted = []) as Hu.
  { rewrite <- (py_sorted_nil str_pair_le unlisted), <- !length_zero_iff_nil, Hl. done. }
  assert (map (stale_error found) (py_sorted str_pair_le (stale_keys found allowed)) = [] ↔ stale_keys found allowed = []) as Hs
    by (rewrite <- (py_sorted_nil str_pair_le); split; [apply map_eq_nil|by intros ->]).
  split.
  - intros [E1%Hu E2%Hs]%app_nil k. unfold unlisted in E1. rewrite filter_empty_iff in E1. unfold stale_keys in E2. rewrite filter_empty_iff in E2.
    split; intros Hk; [by apply dec_stable, E1|by apply dec_stable, E2].
  - intros Hx. rewrite (proj2 Hu), (proj2 Hs); [done|..]; unfold stale_keys, unlisted; rewrite filter_empty_iff; intros k Hk Hn; by apply Hn, Hx.
Qed.

(** ** The rows of a list *)

Definition entry (line : str) : option (key * str) :=
  match split_on 9 line with [file; name; reader] => Some (file, name, reader) | _ => None end.
Definition entries (lines : list str) : list (key * str) := omap entry (filter (fun line => is_entry line = true) lines).

(** A line that is read: blank, a comment, or a row with a reader. *)
Definition readable (line : str) : Prop :=
  is_entry line = true → ∃ k reader, entry line = Some (k, reader) ∧ strip reader ≠ [].

Lemma entries_cons line lines : entries (line :: lines) =
  (if is_entry line then option_list (entry line) else []) ++ entries lines.
Proof.
  unfold entries. rewrite filter_cons. destruct (is_entry line); [rewrite decide_True by done|by rewrite decide_False].
  cbn [omap list_omap]. by destruct (entry line).
Qed.

Lemma read_entries_exact origin number lines rows allowed : NoDup (map fst rows) →
  read_entries origin number lines rows = (allowed, []) ↔
  Forall readable lines ∧ NoDup (map fst (rows ++ entries lines)) ∧ allowed = rows ++ entries lines.
Proof.
  revert number rows. induction lines as [|line lines IH]; intros number rows Hn; cbn [read_entries].
  { rewrite app_nil_r. split; [intros [= <-]; by split_and!|by intros (_ & _ & ->)]. }
  rewrite entries_cons. destruct (is_entry line) eqn:Ee.
  2:{ rewrite IH by done. cbn [app]. rewrite Forall_cons. unfold readable at 2. rewrite Ee. naive_solver. }
  unfold read_entry. rewrite Forall_cons. unfold readable at 1. unfold entry.
  destruct (split_on 9 line) as [|file [|name [|reader [|x l]]]] eqn:Es;
    try (destruct (read_entries origin (number + 1) lines rows); cbn; split; [by intros [=]|];
         intros ((Hr & _) & _); by destruct (Hr Ee) as (? & ? & ? & _)).
  case_decide as Er.
  { destruct (read_entries origin (number + 1) lines rows); cbn; split; [by intros [=]|].
    intros ((Hr & _) & _). by destruct (Hr Ee) as (k & r & [= <- <-] & ?). }
  cbn [option_list]. case_decide as Ed.
  - destruct (read_entries _ _ _ _); cbn; split; [by intros [=]|]. intros (_ & Hd & _). exfalso.
    rewrite map_app in Hd. apply NoDup_app in Hd as (_ & Hd & _). apply (Hd _ Ed). left.
  - rewrite (dset_new (file, name)) by done. cbn [app].
    specialize (IH (number + 1) (rows ++ [(file, name, reader)])).
    destruct (read_entries origin (number + 1) lines (rows ++ [(file, name, reader)])) as [rows' more].
    cbn [app]. rewrite IH, <- app_assoc; [|rewrite map_app; apply NoDup_app; split_and!; [done|set_solver|apply NoDup_singleton]].
    cbn [app]. split; [|tauto]. intros (H1 & H2 & H3). split_and!; try done. intros _. by eexists _, _.
Qed.

(** ** Removing rows *)

Lemma is_entry_end body b : is_linebreak b = true → is_entry (body ++ [b]) = is_entry body.
Proof.
  intros Hb. unfold is_entry. f_equal.
  - apply bool_decide_ext. rewrite !strip_nil, Forall_app, Forall_singleton. split; [intros H1 H2; apply H1; split; [done|]; by apply linebreak_space|naive_solver].
  - destruct body as [|c body]; [|done]. change ($"#") with [35]. cbn [app startswith].
    destruct (Z.eqb_spec 35 b) as [<-|]; [by vm_compute in Hb|done].
Qed.

Lemma split_on_end c b s : b ≠ c → ∃ cells l, split_on c s = cells ++ [l] ∧ split_on c (s ++ [b]) = cells ++ [l ++ [b]].
Proof.
  intros Hb. induction s as [|d s (cells & l & E1 & E2)]; cbn [app split_on].
  - rewrite (proj2 (Z.eqb_neq b c)) by done. by exists [], [].
  - destruct (d =? c).
    + exists ([] :: cells), l. by rewrite E1, E2.
    + rewrite E1, E2. destruct cells as [|x cells]; cbn; [by exists [], (d :: l)|by exists ((d :: x) :: cells), l].
Qed.

Definition row_removed (removed : list key) (line : str) : bool :=
  is_entry line && match entry line with Some (k, _) => bool_decide (k ∈ removed) | None => false end.

Lemma no_break_rstrip s : no_break s → rstrip_by (fun c => c =? 10) s = s.
Proof.
  intros Hs. destruct (decide (s = [])) as [->|(t & c & ->)%exists_last]; [done|]. apply rstrip_none.
  apply Forall_app in Hs as [_ [Hc _]%Forall_cons]. destruct (Z.eqb_spec c 10) as [->|]; done.
Qed.

Lemma is_removed_unended removed t : no_break t → is_removed removed t = row_removed removed t.
Proof.
  intros Ht. unfold is_removed, row_removed, entry. rewrite no_break_rstrip by done.
  by destruct (split_on 9 t) as [|? [|? [|? [|? ?]]]].
Qed.

Lemma is_removed_ended removed line : ended line → is_removed removed (with_end line) = row_removed removed line.1.
Proof.
  destruct line as [l b]. intros (Hn & Hb & _). unfold with_end. cbn [fst snd] in *. unfold is_removed. rewrite is_entry_end by done.
  destruct (Z.eqb_spec b 10) as [->|Hne].
  - assert (rstrip_by (fun c => c =? 10) (l ++ [10]) = l) as ->.
    { rewrite <- (no_break_rstrip l Hn) at 2. unfold rstrip_by, lstrip_by. rewrite reverse_snoc. cbn [span]. by destruct (span _ _). }
    unfold row_removed, entry. by destruct (split_on 9 l) as [|? [|? [|? [|? ?]]]].
  - rewrite rstrip_none by (by apply Z.eqb_neq). destruct (split_on_end 9 b l) as (cells & x & E1 & E2); [by intros ->|].
    unfold row_removed, entry. rewrite E1, E2. by destruct cells as [|? [|? [|? [|? ?]]]].
Qed.

Lemma filter_unended (P : str → Prop) `{∀ x, Decision (P x)} t : filter P (unended t) = unended (if decide (P t) then t else []).
Proof.
  unfold unended. destruct (decide (t = [])) as [->|]; [by destruct (decide (P []))|]. rewrite filter_cons.
  destruct (decide (P t)); [by rewrite decide_False|done].
Qed.

(** The lines that are left are the lines of the text that is left. *)
Lemma keep_lines_split removed text : 13 ∉ text →
  splitlines (keep_lines removed text) = filter (fun line => row_removed removed line = false) (splitlines text).
Proof.
  intros H13. destruct (splitlines_keep_shape text H13) as (lines & t & E & Hl & Ht & Et). unfold keep_lines. rewrite E.
  rewrite Et at 1. rewrite splitlines_ended by done. rewrite !filter_app, filter_map, filter_map, !filter_unended.
  assert (filter (fun a => is_removed removed (with_end a) = false) lines = filter (fun a => row_removed removed a.1 = false) lines) as ->.
  { clear -Hl. induction Hl as [|line lines He _ IH]; [done|]. rewrite !filter_cons, IH. by rewrite is_removed_ended. }
  assert ((if decide (is_removed removed t = false) then t else []) = (if decide (row_removed removed t = false) then t else [])) as ->
    by by rewrite is_removed_unended.
  set (kept := filter _ lines). set (last := if decide _ then t else []).
  rewrite concat_app. assert (concat (unended last) = last) as -> by (unfold unended; case_decide; cbn; rewrite ?app_nil_r; done).
  apply splitlines_ended; [apply Forall_forall; intros x [_ Hx]%list_elem_of_filter; rewrite Forall_forall in Hl; by apply Hl|]. unfold last. case_decide; [done|constructor].
Qed.

Lemma entries_kept removed lines : Forall readable lines →
  entries (filter (fun line => row_removed removed line = false) lines) = filter (fun kc => kc.1 ∉ removed) (entries lines).
Proof.
  induction 1 as [|line lines Hr _ IH]; [done|]. rewrite entries_cons, filter_app, <- IH. destruct (is_entry line) eqn:Ee.
  - destruct (Hr Ee) as (k & reader & Ek & _). rewrite Ek. change (option_list (Some (k, reader))) with [(k, reader)].
    assert (row_removed removed line = bool_decide (k ∈ removed)) as Er by (unfold row_removed; by rewrite Ee, Ek).
    destruct (decide (k ∈ removed)) as [Hk|Hk].
    + rewrite (filter_cons_False _ line) by (rewrite Er; by rewrite bool_decide_eq_true_2).
      by rewrite (filter_cons_False _ (k, reader)) by (by intros ?).
    + rewrite (filter_cons_True _ line) by (rewrite Er; by apply bool_decide_eq_false).
      rewrite (filter_cons_True _ (k, reader)) by done. by rewrite entries_cons, Ee, Ek.
  - rewrite filter_cons_True by (unfold row_removed; by rewrite Ee). by rewrite entries_cons, Ee.
Qed.

Lemma parse_kept origin text removed before : 13 ∉ text → parse_allowlist origin text = (before, []) →
  parse_allowlist origin (keep_lines removed text) = (filter (fun kc => kc.1 ∉ removed) before, []) ∧ NoDup (map fst before).
Proof.
  intros H13. unfold parse_allowlist. rewrite keep_lines_split by done.
  intros (Hr & Hn & ->)%read_entries_exact; [|constructor]. cbn [app] in *. split; [|done].
  apply read_entries_exact; [constructor|]. cbn [app]. rewrite entries_kept by done.
  split_and!; [|by apply NoDup_map_filter|done].
  apply Forall_forall. intros x [_ Hx]%list_elem_of_filter. rewrite Forall_forall in Hr. by apply Hr.
Qed.

Lemma keys_kept (removed : list key) (before : list (key * str)) k :
  k ∈ map fst (filter (fun kc => kc.1 ∉ removed) before) ↔ k ∈ map fst before ∧ k ∉ removed.
Proof.
  rewrite !list_elem_of_fmap. setoid_rewrite list_elem_of_filter. split.
  - intros (kc & -> & Hk & Hin). split; [by exists kc|done].
  - intros ((kc & -> & Hin) & Hk). by exists kc.
Qed.

Lemma same_keys_true a b : same_keys a b = true ↔ ∀ k, k ∈ a ↔ k ∈ b.
Proof.
  unfold same_keys. rewrite andb_true_iff, !forallb_forall. setoid_rewrite bool_decide_eq_true. setoid_rewrite <- list_elem_of_In.
  naive_solver.
Qed.

(** A rewrite of a list that reads well removes the rows it is given, and is refused
    exactly when an unprotected global would lose its row. *)
Lemma rewrite_exact origin text found removed before :
  13 ∉ text → parse_allowlist origin text = (before, []) → (∀ k, k ∈ removed → k ∈ map fst before) →
  (∀ k, k ∈ open_rows found → k ∈ map fst before ∧ k ∉ removed) ∧
    rewrite_allowlist origin text found removed = Ok (keep_lines removed text) ∨
  (∃ k, k ∈ open_rows found ∧ ¬ (k ∈ map fst before ∧ k ∉ removed)) ∧
    ∃ message, rewrite_allowlist origin text found removed = Err (TableError message).
Proof.
  intros H13 Hb Hr. destruct (parse_kept origin text removed before H13 Hb) as [Ha Hn]. unfold rewrite_allowlist. rewrite Hb, Ha.
  rewrite decide_False by (by intros []). set (after := filter _ before) in *.
  assert (∀ k, k ∈ map fst after ↔ k ∈ map fst before ∧ k ∉ removed) as Hk by apply keys_kept.
  case_decide as El.
  - right. split; [|by eexists]. destruct (filter _ (open_rows found)) as [|k l] eqn:Ef; [done|].
    assert (k ∈ k :: l) as Hin by left. rewrite <- Ef in Hin. apply list_elem_of_filter in Hin as [H1 H2]. exists k. by rewrite <- Hk.
  - left. rewrite filter_empty_iff in El. split.
    { intros k Hin. rewrite <- Hk. by apply dec_stable, El. }
    assert (same_keys (filter (fun k => k ∉ map fst after) (map fst before)) removed = true) as ->.
    { apply same_keys_true. intros k. rewrite list_elem_of_filter, Hk. split; [|naive_solver].
      intros [Hx Hin]. destruct (decide (k ∈ removed)); [done|]. by destruct Hx. }
    rewrite bool_decide_eq_false_2; [cbn [negb orb]|intros Hx; apply Hx, filter_empty_iff; intros k [? _]%Hk; tauto].
    assert (existsb (fun kc => negb (bool_decide (dget kc.1 before = Some kc.2))) after = false) as ->; [|done].
    apply existsb_none. intros [k cell] [_ Hin]%list_elem_of_filter. rewrite bool_decide_eq_true_2; [done|]. by apply dget_NoDup.
Qed.

Lemma reader_errors_nil file_text allowed readers : reader_errors file_text allowed readers = [] ↔
  ∀ k cell, (k, cell) ∈ allowed → startswith cell ($"unreviewed") = true ∨
    ∃ names, READ_BY cell = Some names ∧ ∀ reader, reader ∈ names → reader_error file_text readers k reader = [].
Proof.
  unfold reader_errors. rewrite concat_map_nil. setoid_rewrite elem_of_py_sorted. split.
  - intros Hall k cell Hin. specialize (Hall _ Hin). unfold cell_errors in Hall. destruct (startswith cell _); [by left|]. right.
    destruct (READ_BY cell) as [names|]; [|done]. exists names. split; [done|]. by apply concat_map_nil.
  - intros Hall [k cell] Hin. unfold cell_errors. destruct (Hall k cell Hin) as [->|(names & -> & Hn)]; [done|].
    destruct (startswith cell _); [done|]. by apply concat_map_nil.
Qed.

(** The verdict on tables that have been read. *)
Lemma judge_status file_text origin text tables found : found ≠ [] →
  ∃ o, judge file_text origin text tables found = Ok o ∧ o_written o = None ∧
    let allowed := (parse_allowlist origin text).1 in
    let readers := foldl (fun readers t => merge_readers readers (parse_uses t.2)) [] tables in
    (o_status o = 0 ↔ (parse_allowlist origin text).2 = [] ∧ listed_exactly found allowed ∧
       ∀ k cell, (k, cell) ∈ allowed → startswith cell ($"unreviewed") = true ∨
         ∃ names, READ_BY cell = Some names ∧ ∀ reader, reader ∈ names → reader_error file_text readers k reader = []) ∧
    (o_status o ≠ 0 → o_status o = 1).
Proof.
  intros Hne. unfold judge. destruct (parse_allowlist origin text) as [allowed errors]. cbn [fst snd].
  destruct (check_iff found allowed) as (unlisted & -> & Hu). cbn [mbind res_bind]. cbv zeta.
  set (readers := foldl _ _ tables). pose proof (reader_errors_nil file_text allowed readers) as Hr.
  case_decide as He.
  - eexists. split; [done|]. split; [done|]. cbn. split; [|done]. split; [done|].
    intros (-> & E1%Hu & E2%Hr). destruct He. by rewrite E1, E2.
  - apply app_nil in He as [-> [Eu Ex]%app_nil].
    destruct (report_pass _ _ _) as [line|e] eqn:Er.
    + cbn [mbind res_bind]. eexists. split; [done|]. split; [done|]. cbn. split; [|done]. split; [|done].
      intros _. split; [done|]. split; [by apply Hu|by apply Hr].
    + match type of Er with report_pass ?c ?m ?x = _ => assert (report_pass c m x = Ok ($"PASS " ++ c ++ $": " ++ m)) as E2 end.
      { apply report_pass_ok. split_and!; [done|done|]. constructor; [|constructor]. cbn. by apply zlen_pos. }
      by rewrite E2 in Er.
Qed.

(** ** What the tables say *)

(** Compiled into a kernel image, outside its tests and models. *)
Definition in_production (file : str) : Prop :=
  ∃ second rest, path_parts file = $"kernel" :: second :: rest ∧ second ≠ $"tests" ∧ second ≠ $"models".

(** The first row of a global, in the order of the tables, and a global whose type shows no
    protection there. *)
Definition first_row (rows : list row) (k : key) (r : row) : Prop :=
  ∃ before after, rows = before ++ r :: after ∧ (g_file r, g_name r) = k ∧ ∀ r', r' ∈ before → (g_file r', g_name r') ≠ k.
Definition open_global (rows : list row) (k : key) : Prop :=
  in_production k.1 ∧ ∃ r, first_row rows k r ∧ (g_protection r = $"none" ∨ g_qualifier r = $"scratch").

Lemma production_iff file : production file = true ↔ in_production file.
Proof.
  unfold production, in_production. destruct (path_parts file) as [|first [|second rest]]; [split; [done|by intros (? & ? & ? & _)]..|].
  rewrite andb_true_iff, !bool_decide_eq_true. split.
  - intros [-> Hs]. rewrite !not_elem_of_cons in Hs. exists second, rest. tauto.
  - intros (? & ? & [= -> -> ->] & ? & ?). split; [done|]. rewrite !not_elem_of_cons. split_and!; try done. apply not_elem_of_nil.
Qed.

Lemma unprotected_iff r : unprotected r = true ↔ g_protection r = $"none" ∨ g_qualifier r = $"scratch".
Proof. unfold unprotected, UNPROTECTED. rewrite orb_true_iff, !bool_decide_eq_true, list_elem_of_singleton. done. Qed.

Lemma first_row_cons r0 rows k r : first_row (r0 :: rows) k r ↔
  ((g_file r0, g_name r0) = k ∧ r = r0) ∨ ((g_file r0, g_name r0) ≠ k ∧ first_row rows k r).
Proof.
  unfold first_row. split.
  - intros ([|x before] & after & E & Hk & Hb); injection E as E1 E2; [left; by subst|]. right. subst x.
    split; [apply Hb; left|]. exists before, after. split_and!; [done..|]. intros r' Hr'. apply Hb. by right.
  - intros [[Hk ->]|(Hk & before & after & -> & Hr & Hb)].
    + exists [], rows. split_and!; [done..|]. by intros r' ?%not_elem_of_nil.
    + exists (r0 :: before), after. split_and!; [done..|]. intros r' [->|Hr']%elem_of_cons; [done|by apply Hb].
Qed.

Lemma globals_fold rows found k r : dget k (foldl add_global found rows) = Some r ↔
  dget k found = Some r ∨ dget k found = None ∧ in_production k.1 ∧ first_row rows k r.
Proof.
  revert found. induction rows as [|r0 rows IH]; intros found; cbn [foldl].
  { split; [by left|]. intros [?|(_ & _ & before & after & E & _)]; [done|]. by destruct before. }
  rewrite IH, first_row_cons. unfold add_global. destruct (production (g_file r0)) eqn:Ep.
  - apply production_iff in Ep. destruct (decide ((g_file r0, g_name r0) = k)) as [<-|Hne].
    + destruct (dget (g_file r0, g_name r0) found) as [v|] eqn:Ev; [rewrite Ev|rewrite dget_dset]; naive_solver.
    + destruct (dget (g_file r0, g_name r0) found) as [v|]; [|rewrite dget_dset_ne by done]; naive_solver.
  - assert ((g_file r0, g_name r0) = k → ¬ in_production k.1) as Hno by (intros <-; rewrite <- production_iff; cbn; by rewrite Ep). naive_solver.
Qed.

Lemma globals_NoDup rows found : NoDup (map fst found) → NoDup (map fst (foldl add_global found rows)).
Proof.
  revert found. induction rows as [|r rows IH]; intros found Hd; [done|]. cbn [foldl]. apply IH. unfold add_global.
  destruct (production _); [|done]. destruct (dget _ found); [done|]. by apply dset_NoDup.
Qed.

Lemma open_rows_global rows k : k ∈ open_rows (foldl add_global [] rows) ↔ open_global rows k.
Proof.
  rewrite elem_of_open_rows. unfold open_global. setoid_rewrite unprotected_iff. split.
  - intros (r & Hin & Hu). apply dget_NoDup in Hin; [|apply globals_NoDup; constructor].
    apply globals_fold in Hin as [?|(_ & Hp & Hf)]; [done|]. split; [done|]. by exists r.
  - intros (Hp & r & Hf & Hu). exists r. split; [|done]. apply dget_elem_of, globals_fold. by right.
Qed.

Lemma globals_of_iff tables found : globals_of tables = Ok found ↔
  ∃ rows, Forall2 (fun t rs => parse_table t.2 t.1 = Ok rs) tables rows ∧ found = foldl add_global [] (concat rows) ∧ found ≠ [].
Proof.
  unfold globals_of. assert (∀ tables acc out, foldM (fun found '(origin, text) => rows ← parse_table text origin; Ok (foldl add_global found rows)) acc tables = Ok out ↔
    ∃ rows, Forall2 (fun t rs => parse_table t.2 t.1 = Ok rs) tables rows ∧ out = foldl add_global acc (concat rows)) as Hf.
  { clear. induction tables as [|[o t] tables IH]; intros acc out; cbn [foldM].
    - split; [intros [= <-]; exists []; by split|]. intros (rows & H & ->). by inversion H.
    - split.
      + intros (acc' & (rs & Hp & [= <-])%bind_Ok_inv & H)%bind_Ok_inv. apply IH in H as (rows & H & ->). exists (rs :: rows).
        split; [by constructor|]. cbn [concat]. by rewrite foldl_app.
      + intros (rows & H & ->). apply Forall2_cons_inv_l in H as (rs & rows' & Hp & H & ->). cbn [fst snd] in Hp. rewrite Hp. cbn [mbind res_bind concat].
        rewrite foldl_app. apply IH. by exists rows'. }
  split.
  - intros (out & (rows & H & ->)%Hf & Ho)%bind_Ok_inv. case_decide; [done|]. injection Ho as <-. by exists rows.
  - intros (rows & H & -> & Hne). rewrite (proj2 (Hf _ _ (foldl add_global [] (concat rows)))) by by exists rows.
    cbn [mbind res_bind]. by rewrite decide_False.
Qed.

Lemma globals_found rows : foldl add_global [] rows ≠ [] ↔ ∃ r, r ∈ rows ∧ in_production (g_file r).
Proof.
  split.
  - intros Hne. destruct (foldl add_global [] rows) as [|[k r] l] eqn:E; [done|].
    assert (dget k (foldl add_global [] rows) = Some r) as H by (rewrite E; cbn; by rewrite decide_True).
    apply globals_fold in H as [?|(_ & Hp & before & after & -> & <- & _)]; [done|]. exists r. rewrite elem_of_app, elem_of_cons. tauto.
  - intros (r & Hr & Hp) E. assert (∃ r', first_row rows (g_file r, g_name r) r') as (r' & Hf).
    { clear E. induction rows as [|r0 rows IH]; [by apply not_elem_of_nil in Hr|]. setoid_rewrite first_row_cons.
      destruct (decide ((g_file r0, g_name r0) = (g_file r, g_name r))); [exists r0; by left|].
      apply elem_of_cons in Hr as [->|Hr]; [done|]. destruct (IH Hr) as [r' ?]. exists r'. by right. }
    assert (dget (g_file r, g_name r) (foldl add_global [] rows) = Some r') as H by (apply globals_fold; by right). by rewrite E in H.
Qed.

(** ** Who reads a global *)

(** A line of the uses table of one of the tables: the function has a use of the global that
    is no write. *)
Definition reads (tables : list (str * str)) (name function : str) : Prop :=
  ∃ origin text before header rest line file number kind,
    (origin, text) ∈ tables ∧ splitlines text = before ++ USES_MARK :: header :: rest ∧ (USES_MARK ∉ before) ∧
    line ∈ rest ∧ split_on 9 line = [file; number; name; kind; function] ∧ kind ≠ $"write" ∧ kind ≠ $"atomic_store".

Definition readers_of (readers : list (str * list str)) (name : str) : list str := default [] (dget name readers).

Lemma readers_dset readers name fs n : readers_of (dset name fs readers) n = if decide (n = name) then fs else readers_of readers n.
Proof. unfold readers_of. case_decide as E; [by rewrite E, dget_dset|by rewrite dget_dset_ne]. Qed.

Lemma add_reader_spec readers name f n x : x ∈ readers_of (add_reader name f readers) n ↔ n = name ∧ x = f ∨ x ∈ readers_of readers n.
Proof.
  unfold add_reader. rewrite readers_dset. fold (readers_of readers name). case_decide as En; [subst n|naive_solver].
  case_decide; [naive_solver|]. rewrite elem_of_app, list_elem_of_singleton. naive_solver.
Qed.

Definition use_line (line name function : str) : Prop :=
  ∃ file number kind, split_on 9 line = [file; number; name; kind; function] ∧ kind ≠ $"write" ∧ kind ≠ $"atomic_store".

Lemma note_use_spec readers line n x : x ∈ readers_of (note_use readers line) n ↔ use_line line n x ∨ x ∈ readers_of readers n.
Proof.
  unfold note_use, use_line. destruct (split_on 9 line) as [|a [|b [|name [|kind [|f [|? ?]]]]]]; try naive_solver.
  case_decide as Ek.
  - unfold WRITE_KINDS in Ek. rewrite !elem_of_cons, elem_of_nil in Ek. naive_solver.
  - unfold WRITE_KINDS in Ek. rewrite !elem_of_cons, elem_of_nil in Ek. rewrite add_reader_spec. naive_solver.
Qed.

Lemma notes_spec lines readers n x : x ∈ readers_of (foldl note_use readers lines) n ↔ (∃ line, line ∈ lines ∧ use_line line n x) ∨ x ∈ readers_of readers n.
Proof.
  revert readers. induction lines as [|line lines IH]; intros readers; cbn [foldl].
  { split; [by right|]. by intros [(? & ?%not_elem_of_nil & _)|?]. }
  rewrite IH, note_use_spec. setoid_rewrite elem_of_cons. naive_solver.
Qed.

Lemma notes_NoDup lines readers : NoDup (map fst readers) → NoDup (map fst (foldl note_use readers lines)).
Proof.
  revert readers. induction lines as [|line lines IH]; intros readers Hd; [done|]. cbn [foldl]. apply IH. unfold note_use, add_reader.
  destruct (split_on 9 line) as [|? [|? [|? [|? [|? [|? ?]]]]]]; try done. case_decide; [done|]. by apply dset_NoDup.
Qed.

Lemma merge_spec more readers n x : NoDup (map fst more) →
  x ∈ readers_of (merge_readers readers more) n ↔ x ∈ readers_of readers n ∨ x ∈ readers_of more n.
Proof.
  unfold merge_readers. revert readers. induction more as [|[name fs] more IH]; intros readers Hd; cbn [foldl].
  { split; [by left|]. by intros [?|?%not_elem_of_nil]. }
  apply NoDup_cons in Hd as [Hn Hd]. rewrite IH by done.
  assert (∀ fs readers, x ∈ readers_of (foldl (fun readers f => add_reader name f readers) readers fs) n ↔ n = name ∧ x ∈ fs ∨ x ∈ readers_of readers n) as Hf.
  { clear. induction fs as [|f fs IH]; intros readers; cbn [foldl]; [rewrite elem_of_nil; tauto|]. rewrite IH, add_reader_spec, elem_of_cons. tauto. }
  rewrite Hf. assert (∀ n, readers_of (match dget name readers with Some _ => readers | None => dset name [] readers end) n = readers_of readers n) as Hsame.
  { intros m. destruct (dget name readers) eqn:E; [done|]. rewrite readers_dset. case_decide as Em; [|done]. subst m. unfold readers_of. by rewrite E. }
  rewrite Hsame. unfold readers_of at 4. cbn [dget]. case_decide as En.
  - subst n. assert (readers_of more name = []) as -> by (unfold readers_of; by rewrite (proj2 (dget_None name more))). rewrite elem_of_nil. cbn. tauto.
  - fold (readers_of more n). naive_solver.
Qed.

Lemma uses_lines_spec lines line : line ∈ uses_lines lines ↔
  ∃ before header rest, lines = before ++ USES_MARK :: header :: rest ∧ (USES_MARK ∉ before) ∧ line ∈ rest.
Proof.
  induction lines as [|l lines IH]; cbn [uses_lines].
  { split; [by intros ?%not_elem_of_nil|]. intros ([|? ?] & ? & ? & ? & _); done. }
  case_decide as El.
  - subst l. split.
    + intros H. destruct lines as [|header rest]; [by apply not_elem_of_nil in H|]. exists [], header, rest. split_and!; [done|apply not_elem_of_nil|done].
    + intros ([|x before] & header & rest & E & Hb & Hl); [by injection E as ->|]. injection E as <- _. destruct Hb. by left.
  - rewrite IH. split.
    + intros (before & header & rest & -> & Hb & Hl). exists (l :: before), header, rest. split_and!; [done| |done]. by apply not_elem_of_cons.
    + intros ([|x before] & header & rest & E & Hb & Hl); [by injection E as ->|]. injection E as <- ->. exists before, header, rest.
      split_and!; [done| |done]. by apply not_elem_of_cons in Hb as [_ ?].
Qed.

Lemma readers_spec tables name x :
  x ∈ readers_of (foldl (fun readers (t : str * str) => merge_readers readers (parse_uses t.2)) [] tables) name ↔ reads tables name x.
Proof.
  assert (∀ tables readers, x ∈ readers_of (foldl (fun readers (t : str * str) => merge_readers readers (parse_uses t.2)) readers tables) name ↔
    x ∈ readers_of readers name ∨ ∃ (t : str * str) line, t ∈ tables ∧ line ∈ uses_lines (splitlines t.2) ∧ use_line line name x) as Hf.
  { clear. induction tables as [|t tables IH]; intros readers; cbn [foldl].
    - split; [by left|]. by intros [?|(? & ? & ?%not_elem_of_nil & _)].
    - rewrite IH, merge_spec by (apply notes_NoDup; constructor). unfold parse_uses. rewrite notes_spec.
      setoid_rewrite elem_of_cons. assert (x ∉ readers_of [] name) by apply not_elem_of_nil. naive_solver. }
  rewrite Hf. assert (x ∉ readers_of [] name) as Hno by apply not_elem_of_nil. unfold reads, use_line. setoid_rewrite uses_lines_spec. split.
  - intros [?|([origin text] & line & Hin & (before & header & rest & E & Hb & Hl) & file & number & kind & Hs & Hk)]; [done|].
    by exists origin, text, before, header, rest, line, file, number, kind.
  - intros (origin & text & before & header & rest & line & file & number & kind & Hin & E & Hb & Hl & Hs & Hk). right.
    exists (origin, text), line. split; [done|]. split; [by exists before, header, rest|]. by exists file, number, kind.
Qed.

(** ** The readers a row names *)

Definition reader_name (n : str) : Prop := n ≠ [] ∧ Forall (fun c => is_space c = false ∧ c ≠ 58 ∧ c ≠ 44) n.

Lemma name_char_iff c : name_char c = true ↔ is_space c = false ∧ c ≠ 58 ∧ c ≠ 44.
Proof. unfold name_char. rewrite !andb_true_iff, !negb_true_iff, !Z.eqb_neq. tauto. Qed.

Lemma reader_name_chars n : reader_name n ↔ n ≠ [] ∧ Forall (fun c => name_char c = true) n.
Proof.
  unfold reader_name. split; intros [Hn Hc]; (split; [done|]); (eapply Forall_impl; [exact Hc|]); intros c; apply name_char_iff.
Qed.

(** A list of names, up to the character after it. *)
Lemma reader_names_sound fuel s names rest : reader_names fuel s = Some (names, rest) →
  s = join ($",") names ++ rest ∧ names ≠ [] ∧ Forall reader_name names.
Proof.
  revert s names rest. induction fuel as [|fuel IH]; intros s names rest; cbn [reader_names]; [done|].
  destruct (span_spec name_char s) as (E & Hn & _). destruct (span name_char s) as [name r]. cbn [fst snd] in *. destruct name as [|c name]; [done|].
  assert (reader_name (c :: name)) as Hname by by apply reader_name_chars.
  assert (∀ r', s = (c :: name) ++ r' → s = join ($",") [c :: name] ++ r' ∧ [c :: name] ≠ [] ∧ Forall reader_name [c :: name]) as H1
    by (intros r' ->; split_and!; [done|done|by constructor]).
  destruct r as [|d r]; [intros [= <- <-]; by apply H1|]. destruct (Z.eqb_spec d 44) as [->|Hd].
  - destruct (reader_names fuel r) as [[names' rest']|] eqn:Er; [|intros [= <- <-]; by apply H1].
    intros [= <- <-]. apply IH in Er as (-> & Hne & Hf). rewrite E. split_and!; [|done|by constructor].
    destruct names' as [|n' names']; [done|]. change (join ($",") ((c :: name) :: n' :: names')) with ((c :: name) ++ [44] ++ join ($",") (n' :: names')).
    by rewrite <- !app_assoc.
  - intros H. assert (Some ([c :: name], d :: r) = Some (names, rest)) as [= <- <-]; [|by apply H1].
    rewrite <- H. clear -Hd. destruct d as [|q|]; try done. do 6 (destruct q as [q|q|]; try done).
Qed.

Lemma reader_names_complete names rest fuel : names ≠ [] → Forall reader_name names → (∀ c, head rest = Some c → name_char c = false ∧ c ≠ 44) →
  (length names ≤ fuel)%nat → reader_names fuel (join ($",") names ++ rest) = Some (names, rest).
Proof.
  intros Hne Hf Hr. revert fuel. induction Hf as [|n names Hn Hf IH]; [done|]. intros fuel Hl. destruct fuel as [|fuel]; [cbn in Hl; lia|].
  apply reader_name_chars in Hn as [Hn0 Hc]. cbn [reader_names]. destruct names as [|n' names].
  - cbn [join]. rewrite span_app; [|done|intros c Hh; by apply Hr]. destruct n as [|c n]; [done|].
    destruct rest as [|d rest]; [done|]. destruct (Hr d eq_refl) as [_ Hd]. destruct d as [|q|]; try done. do 6 (destruct q as [q|q|]; try done).
  - change (join ($",") (n :: n' :: names) ++ rest) with ((n ++ [44] ++ join ($",") (n' :: names)) ++ rest). rewrite <- !app_assoc.
    rewrite span_app; [|done|by intros c [= <-]]. destruct n as [|c n]; [done|]. cbn [app]. rewrite IH; [done|done|cbn in *; lia].
Qed.

Lemma READ_BY_iff cell names : READ_BY cell = Some names ↔
  ∃ c why, cell = $"read-by " ++ join ($",") names ++ $": " ++ c :: why ∧ is_space c = false ∧ names ≠ [] ∧ Forall reader_name names.
Proof.
  unfold READ_BY. split.
  - intros (s & Hs%strip_prefix_Some & ([ns r] & Hn & (t & Ht%strip_prefix_Some & H)%bind_Some)%bind_Some)%bind_Some.
    apply reader_names_sound in Hn as (-> & Hne & Hf). destruct t as [|c why]; [done|]. destruct (is_space c) eqn:Ec; [done|]. injection H as <-.
    exists c, why. by subst.
  - intros (c & why & -> & Hc & Hne & Hf). rewrite strip_prefix_app. cbn [mbind option_bind].
    rewrite reader_names_complete; [|done|done|by intros d [= <-]|].
    + cbn [mbind option_bind]. change (strip_prefix ($": ") ($": " ++ c :: why)) with (Some (c :: why)). cbn [mbind option_bind]. by rewrite Hc.
    + rewrite length_app. clear -Hf. assert (length names ≤ S (length (join ($",") names)))%nat; [|lia].
      induction Hf as [|n names [Hn _] Hf IH]; [cbn; lia|]. destruct names as [|n' names]; [cbn; lia|].
      change (join ($",") (n :: n' :: names)) with (n ++ [44] ++ join ($",") (n' :: names)). rewrite !length_app. destruct n; [done|]. cbn in *. lia.
Qed.

Lemma contains_char c s : contains [c] s = true ↔ c ∈ s.
Proof.
  split; [intros (a & b & ->)%contains_split; rewrite !elem_of_app; right; left; left|].
  unfold contains. induction s as [|d s IH]; [by intros ?%not_elem_of_nil|]. cbn [find startswith]. rewrite andb_true_r.
  destruct (Z.eqb_spec c d); [done|]. intros [?|Hs]%elem_of_cons; [done|]. specialize (IH Hs). by destruct (find [c] s).
Qed.

Section pass.
Context (file_text : str → option str) (tables : list (str * str)).

(** A reader exists: a file that names the global, or a function that uses it. *)
Definition reader_exists (k : key) (reader : str) : Prop :=
  (47 ∈ reader) ∧ (∃ text, file_text reader = Some text ∧ has_word [k.2] None text = true) ∨
  (47 ∉ reader) ∧ reads tables k.2 reader.

(** The cell of a row: not reviewed yet, or with readers that exist and a reason. *)
Definition reviewed (k : key) (cell : str) : Prop :=
  ∃ names c why, cell = $"read-by " ++ join ($",") names ++ $": " ++ c :: why ∧ is_space c = false ∧ names ≠ [] ∧
    Forall reader_name names ∧ Forall (reader_exists k) names.

Lemma reader_error_iff k reader :
  reader_error file_text (foldl (fun readers t => merge_readers readers (parse_uses t.2)) [] tables) k reader = [] ↔ reader_exists k reader.
Proof.
  unfold reader_error, reader_exists. destruct (contains ($"/") reader) eqn:Ec.
  - apply contains_char in Ec. destruct (file_text reader) as [text|]; [destruct (has_word [k.2] None text) eqn:Ew|].
    + split; [intros _; left; split; [done|by exists text]|done].
    + split; [done|intros [(_ & t & [= <-] & Hw)|[Hno _]]; [congruence|done]].
    + split; [done|intros [(_ & t & Ht & _)|[Hno _]]; done].
  - assert (47 ∉ reader) as Hno by (intros Hx%contains_char; change (contains ($"/") reader = true) in Hx; congruence). pose proof (readers_spec tables k.2 reader) as Hr. unfold readers_of in Hr.
    case_decide as Er.
    + split; [intros _; right; split; [done|by apply Hr]|done].
    + split; [done|intros [[? _]|[_ Hx]]; [done|by apply Hr in Hx]].
Qed.
End pass.

Lemma plain_arguments paths : Forall (fun a => a ∉ [$"--drop"; $"--summary"; $"--prune"]) paths → arguments paths = Some ([], paths).
Proof.
  induction 1 as [|a paths Ha _ IH]; [done|]. cbn [arguments]. rewrite !not_elem_of_cons in Ha. destruct Ha as (H1 & H2 & H3 & _).
  rewrite decide_False by done. rewrite IH. cbn [mbind option_bind]. rewrite decide_False; [done|]. rewrite !not_elem_of_cons. split_and!; try done. apply not_elem_of_nil.
Qed.

Lemma read_all_iff (read_text : str → res str) (paths : list str) (tables : list (str * str)) : mapM_res (fun p => text ← read_text p; Ok (p, text)) paths = Ok tables ↔
  Forall2 (fun p t => t.1 = p ∧ read_text p = Ok t.2) paths tables.
Proof.
  rewrite mapM_res_Forall2. split; intros H; (eapply Forall2_impl; [exact H|]); intros p [o text]; cbn [fst snd].
  - by intros (t & -> & [= <- <-])%bind_Ok_inv.
  - by intros [-> ->].
Qed.

Lemma judge_passes file_text origin text (tables : list (str * str)) rows : let listed := entries (splitlines text) in
  foldl add_global [] rows ≠ [] →
  (∃ lines, judge file_text origin text tables (foldl add_global [] rows) = Ok (Outcome 0 lines None)) ↔
  Forall readable (splitlines text) ∧ NoDup (map fst listed) ∧ (∀ k, k ∈ map fst listed ↔ open_global rows k) ∧
  (∀ k cell, (k, cell) ∈ listed → startswith cell ($"unreviewed") = true ∨ reviewed file_text tables k cell).
Proof.
  intros listed Hne. destruct (judge_status file_text origin text tables _ Hne) as ([status lines written] & Ej & Hw & Hs & _). cbn [o_status o_written] in *. subst written.
  transitivity (status = 0); [rewrite Ej; split; [by intros (? & [= -> _])|intros ->; by exists lines]|]. rewrite Hs.
  assert (∀ k, k ∈ open_rows (foldl add_global [] rows) ↔ open_global rows k) as Ho by (intros k; apply open_rows_global).
  assert (∀ k cell, (∃ names, READ_BY cell = Some names ∧ ∀ reader, reader ∈ names →
      reader_error file_text (foldl (fun readers t => merge_readers readers (parse_uses t.2)) [] tables) k reader = []) ↔ reviewed file_text tables k cell) as Hr.
  { intros k cell. setoid_rewrite READ_BY_iff. setoid_rewrite reader_error_iff. unfold reviewed. setoid_rewrite Forall_forall. naive_solver. }
  split.
  - intros (He & Hl & Hc). destruct (parse_allowlist origin text) as [allowed errors] eqn:Ep. cbn [fst snd] in *. subst errors.
    unfold parse_allowlist in Ep. apply read_entries_exact in Ep as (Hread & Hd & ->); [|constructor]. cbn [app] in *. fold listed in Hd, Hl, Hc |- *.
    split_and!; [done|done|intros k; rewrite <- Ho; symmetry; apply Hl|]. intros k cell Hin. rewrite <- Hr. by apply Hc.
  - intros (Hread & Hd & Hl & Hc). assert (parse_allowlist origin text = (listed, [])) as Ep by (apply read_entries_exact; [constructor|done]).
    rewrite Ep. cbn [fst snd]. split_and!; [done|intros k; rewrite Ho, Hl; done|]. intros k cell Hin. rewrite Hr. by apply Hc.
Qed.

(** C30: run on the tables of the kernels, the check exits 0 exactly when they all read and
    have a production global; every line of the list is blank, a comment or a row with a
    reader, and no row occurs twice; the rows are exactly the production globals whose first
    row in the tables says none or scratch; and every cell starts with unreviewed or names
    readers that exist (a file that has the global's name, a function with a use of it that
    is no write) and a reason. *)
Theorem global_protection_passes file_text read_text origin text paths :
  paths ≠ [] → Forall (fun a => a ∉ [$"--drop"; $"--summary"; $"--prune"]) paths →
  (∃ lines, main file_text read_text origin text paths = Ok (Outcome 0 lines None)) ↔
  ∃ tables tables_rows,
    Forall2 (fun p t => t.1 = p ∧ read_text p = Ok t.2) paths tables ∧
    Forall2 (fun t rs => parse_table t.2 t.1 = Ok rs) tables tables_rows ∧
    let rows := concat tables_rows in
    let listed := entries (splitlines text) in
    (∃ r, r ∈ rows ∧ in_production (g_file r)) ∧ Forall readable (splitlines text) ∧ NoDup (map fst listed) ∧
    (∀ k, k ∈ map fst listed ↔ open_global rows k) ∧
    (∀ k cell, (k, cell) ∈ listed → startswith cell ($"unreviewed") = true ∨ reviewed file_text tables k cell).
Proof.
  intros Hne Hplain. unfold main. rewrite plain_arguments, (decide_False (P := paths = [])) by done.
  assert (∀ o, o ∈ [$"--drop"; $"--summary"; $"--prune"] → o ∉ paths) as Hno by (intros o Ho Hin; rewrite Forall_forall in Hplain; by apply (Hplain o)).
  assert (∀ tables found, (if decide ($"--summary" ∈ paths) then Ok (Outcome 0 [summary found] None)
    else if negb (bool_decide ([] = [] :> list str)) || bool_decide ($"--prune" ∈ paths) then edit origin text found [] (bool_decide ($"--prune" ∈ paths))
    else judge file_text origin text tables found) = judge file_text origin text tables found) as Hj.
  { intros tables found. rewrite decide_False by (apply Hno; right; left). by rewrite (bool_decide_eq_false_2 ($"--prune" ∈ paths)) by (apply Hno; right; right; left). }
  cbn zeta. split.
  - intros (lines & H). destruct (mapM_res _ paths) as [tables|e] eqn:Er; cbn [mbind res_bind] in H; [|by repeat case_match].
    destruct (globals_of tables) as [found|e] eqn:Eg; cbn [mbind res_bind] in H; [|by repeat case_match].
    rewrite Hj in H. apply globals_of_iff in Eg as (rows & Hp & -> & Hf). exists tables, rows. split; [by apply read_all_iff|]. split; [done|].
    split; [by apply globals_found|]. apply (judge_passes file_text origin text tables _ Hf). by exists lines.
  - intros (tables & rows & Ht%read_all_iff & Hp & Hprod%globals_found & Hrest). rewrite Ht. cbn [mbind res_bind].
    rewrite (proj2 (globals_of_iff tables (foldl add_global [] (concat rows)))) by by exists rows. cbn [mbind res_bind]. rewrite Hj.
    by apply (judge_passes file_text origin text tables _ Hprod).
Qed.

Lemma union_keys_nil l : union_keys [] l = l.
Proof. unfold union_keys. cbn. induction l as [|k l IH]; [done|]. rewrite filter_cons_True by apply not_elem_of_nil. by rewrite IH. Qed.

(** C23: on a list that reads well, [--prune] either writes the list without the rows
    that name no unprotected global, all its other lines and rows as they were, after
    which the check finds nothing; or it writes nothing, because an unprotected global
    has no row. *)
Theorem prune_exact origin text found allowed :
  13 ∉ text → parse_allowlist origin text = (allowed, []) →
  ∃ o, edit origin text found [] true = Ok o ∧
    if decide (Forall (fun k => k ∈ map fst allowed) (open_rows found)) then
      ∃ result, o_status o = 0 ∧ o_written o = Some result ∧
        splitlines result = filter (fun line => row_removed (stale_keys found allowed) line = false) (splitlines text) ∧
        parse_allowlist origin result = (filter (fun kc => kc.1 ∈ open_rows found) allowed, []) ∧
        check found (filter (fun kc => kc.1 ∈ open_rows found) allowed) = Ok []
    else o_status o = 1 ∧ o_written o = None.
Proof.
  intros H13 Hp. unfold edit. rewrite Hp. rewrite decide_False by (by intros []). cbn [drop_keys]. rewrite union_keys_nil.
  rewrite decide_False by (by intros []). set (stale := stale_keys found allowed).
  assert (∀ k, k ∈ stale ↔ k ∈ map fst allowed ∧ k ∉ open_rows found) as Hst by (intros; unfold stale, stale_keys; rewrite list_elem_of_filter; tauto).
  destruct (rewrite_exact origin text found stale allowed H13 Hp) as [[Hall ->]|((k & Hk & Hno) & message & ->)];
    [intros k Hk; by apply (proj1 (Hst k))|..]; cbn [o_status o_written].
  - eexists. split; [done|]. rewrite decide_True by (apply Forall_forall; intros k Hk; by apply Hall).
    exists (keep_lines stale text). split; [done|]. split; [done|]. split; [by apply keep_lines_split|].
    destruct (parse_kept origin text stale allowed H13 Hp) as [Ha _].
    assert (filter (fun kc => kc.1 ∉ stale) allowed = filter (fun kc => kc.1 ∈ open_rows found) allowed) as Ef.
    { apply filter_ext_in. intros kc Hin. rewrite Hst. assert (kc.1 ∈ map fst allowed) by (apply list_elem_of_fmap; by exists kc).
      split; [intros Hx; apply dec_stable; tauto|tauto]. }
    rewrite <- Ef. split; [done|]. destruct (check_iff found (filter (fun kc => kc.1 ∉ stale) allowed)) as (errors & -> & He). f_equal. apply He.
    intros k. rewrite keys_kept, Hst. split; [intros Hk; split; [by apply Hall|tauto]|].
    intros [Hk Hx]. apply dec_stable. tauto.
  - unfold TableError. cbv iota beta. rewrite decide_True by done. eexists. split; [done|]. rewrite decide_False; [done|]. rewrite Forall_forall. intros Hall. apply Hno.
    split; [by apply Hall|]. rewrite Hst. tauto.
Qed.

Definition sample_row (name protection : str) : row :=
  Row ($"kernel/main.tkb") ($"3") name ($"pub") ($"-") ($"u64") protection.
Definition sample_found : list (key * row) :=
  [(($"kernel/main.tkb", $"a"), sample_row ($"a") ($"none")); (($"kernel/main.tkb", $"b"), sample_row ($"b") ($"atomic"))].
Definition sample_list : str :=
  $"# rows" ++ nl ++ $"kernel/main.tkb" ++ [9] ++ $"a" ++ [9] ++ $"unreviewed" ++ nl ++
  $"kernel/main.tkb" ++ [9] ++ $"b" ++ [9] ++ $"read-by f: counts" ++ nl.

Definition sample_table : str :=
  HEADER ++ $"3" ++ nl ++ join [9] COLUMNS ++ nl ++
  join [9] [$"kernel/main.tkb"; $"3"; $"a"; $"pub"; $"-"; $"u64"; $"none"] ++ nl ++
  join [9] [$"kernel/main.tkb"; $"4"; $"b"; $"pub"; $"scratch"; $"u64"; $"atomic"] ++ nl ++
  join [9] [$"kernel/tests/t.tkb"; $"5"; $"c"; $"pub"; $"-"; $"u64"; $"none"] ++ nl ++
  USES_MARK ++ nl ++ $"columns" ++ nl ++ join [9] [$"kernel/main.tkb"; $"9"; $"b"; $"read"; $"f"] ++ nl.
Definition sample_read (_ : str) : res str := Ok sample_table.

(** A scratch global with a reader, an unreviewed one, and one of the tests that needs no row. *)
Lemma global_protection_passes_witness :
  ∃ tables tables_rows,
    Forall2 (fun p t => t.1 = p ∧ sample_read p = Ok t.2) [$"qemu.tsv"] tables ∧
    Forall2 (fun t rs => parse_table t.2 t.1 = Ok rs) tables tables_rows ∧
    let rows := concat tables_rows in
    let listed := entries (splitlines sample_list) in
    (∃ r, r ∈ rows ∧ in_production (g_file r)) ∧ Forall readable (splitlines sample_list) ∧ NoDup (map fst listed) ∧
    (∀ k, k ∈ map fst listed ↔ open_global rows k) ∧
    (∀ k cell, (k, cell) ∈ listed → startswith cell ($"unreviewed") = true ∨ reviewed (fun _ => None) tables k cell).
Proof.
  refine (proj1 (global_protection_passes (fun _ => None) sample_read ($"list") sample_list [$"qemu.tsv"] _ _) _).
  - discriminate.
  - apply (bool_decide_unpack _). vm_compute. exact I.
  - eexists. vm_compute. reflexivity.
Defined.

Definition sample_allowed : list (key * str) := (parse_allowlist ($"list") sample_list).1.

Lemma prune_exact_witness :
  ∃ o, edit ($"list") sample_list sample_found [] true = Ok o ∧
    if decide (Forall (fun k => k ∈ map fst sample_allowed) (open_rows sample_found)) then
      ∃ result, o_status o = 0 ∧ o_written o = Some result ∧
        splitlines result = filter (fun line => row_removed (stale_keys sample_found sample_allowed) line = false) (splitlines sample_list) ∧
        parse_allowlist ($"list") result = (filter (fun kc => kc.1 ∈ open_rows sample_found) sample_allowed, []) ∧
        check sample_found (filter (fun kc => kc.1 ∈ open_rows sample_found) sample_allowed) = Ok []
    else o_status o = 1 ∧ o_written o = None.
Proof.
  apply (prune_exact ($"list") sample_list sample_found sample_allowed).
  - apply (bool_decide_unpack _). vm_compute. exact I.
  - vm_compute. reflexivity.
Defined.
