(* ===== verification/MemoryMap.v ===== *)
(** * The memory map

    Model of scripts/buildcheck_kernel_memory_map.py: the tables of
    kernel/MEMORY_MAP.md against the symbols of the two linked kernels and the
    constants of the sources, the refresh of the tables, and the page counts of the
    boot expectations.  The document, the files and the output of nm are arguments,
    the same every time they are read, so the symbols are read once; the exit in
    [fail] is an exception with the line it prints. *)
From S2P Require Import Prelude Text Dict Sort PassLine.

Definition DOC_NAME : str := $"MEMORY_MAP.md".
Definition QEMU_RAM_BASE : Z := 0x40000000.
Definition QEMU_RAM_END : Z := 0x80000000.
Definition QEMU_LOW_RAM_END : Z := 0x48000000.
Definition QEMU_HOLE_FIRST_END : Z := 0x50000000.
Definition QEMU_HOLE_SECOND_START : Z := 0x60000000.
Definition RPI5_MANAGED_RAM_BASE : Z := 0x80000.
Definition RPI5_MANAGED_RAM_END : Z := 0x3FC00000.
Definition PAGE_SIZE : Z := 4096.
Definition STACK_REGION_BYTES : Z := 0x8000.
Definition STACK_GUARD_SHIFT : Z := 14.
Definition OFFSET_ANCHOR : str := $"boot_stack_run_bottom".
Definition ORDERED_BOUNDARIES : list str := [$"_start"; $"__bss_start"; $"__bss_end"; OFFSET_ANCHOR; $"usable_ram_start"].
Definition NM_CANDIDATES : list str := [$"llvm-nm-19"; $"llvm-nm"; $"nm"].

Definition fail {A} (message : str) : res A := Err (Custom "SystemExit" ($"FAIL kernel/memory-map: " ++ message)).

(** ** The tables of the document *)

Definition is_conflict (line : str) : bool :=
  startswith line ($"<<<<<<<") || startswith line ($">>>>>>>") || startswith line ($"|||||||").

Fixpoint reject_from (number : Z) (lines : list str) : res unit :=
  match lines with
  | [] => Ok ()
  | line :: lines =>
      if is_conflict line then
        fail (DOC_NAME ++ $" line " ++ dec number ++ $" is a merge conflict marker: " ++ py_repr (strip line) ++ $". Resolve the conflict first -- the rows a conflict covers are not checked, so a pass here would mean nothing")
      else reject_from (number + 1) lines
  end.
Definition reject_conflict_markers (text : str) : res unit := reject_from 1 (splitlines text).

(** [s.strip("|")] and the parts between the bars. *)
Definition bar (c : Z) : bool := c =? 124.
Definition raw_cells (stripped : str) : list str := split_on 124 (strip_by bar stripped).
Definition row_cells (stripped : str) : list str := map strip (raw_cells stripped).
(** [set(c) <= set("-: ")]. *)
Definition is_rule (cell : str) : bool := forallb (fun c => bool_decide (c ∈ $"-: ")) cell.

Fixpoint collect_rows (lines : list str) (rows : list (list str)) : list (list str) :=
  match lines with
  | [] => rows
  | line :: lines =>
      let stripped := strip line in
      if startswith stripped ($"|") then
        let cells := row_cells stripped in
        if forallb is_rule cells then collect_rows lines rows else collect_rows lines (rows ++ [cells])
      else if decide (rows = []) then collect_rows lines rows else rows
  end.

Definition claimed_rows (text state_tag : str) : Z :=
  zlen (filter (fun line => startswith (lstrip line) ($"|") = true ∧ contains state_tag line = true) (splitlines text)).

Definition table_after (text marker state_tag : str) : res (list (list str)) :=
  match find marker text with
  | None => fail (DOC_NAME ++ $" has no `" ++ marker ++ $"` marker; the checked table is gone or was renamed, so nothing is being verified")
  | Some start =>
      let rows := collect_rows (splitlines (from text (start + zlen marker))) [] in
      if zlen rows <? 2 then fail ($"the table after `" ++ marker ++ $"` has no data rows")
      else
        let data := tail rows in
        let claimed := claimed_rows text state_tag in
        if claimed =? zlen data then Ok data
        else fail (DOC_NAME ++ $" has " ++ dec claimed ++ $" `" ++ state_tag ++ $"` row(s) but the table after `" ++ marker ++ $"` holds " ++ dec (zlen data) ++ $" of them; the rest sit outside it, where nothing checks them")
  end.

Definition unbacktick (cell : str) : str := strip (strip_by (fun c => c =? 96) (strip cell)).

Definition parse_int (cell : str) : option Z :=
  match py_int 0 (replace ($"_") [] (unbacktick cell)) with Ok n => Some n | Err _ => None end.

(** [f"{n:0{width}x}"]. *)
Definition hex_pad (width : nat) (n : Z) : str :=
  let digits := show_nat 16 (Z.abs n) in
  if n <? 0 then $"-" ++ replicate (width - 1 - length digits) 48 ++ digits
  else replicate (width - length digits) 48 ++ digits.

Definition cells_repr (cells : list str) : str := $"[" ++ join ($", ") (map py_repr cells) ++ $"]".

Definition check_state (cells : list str) (marker name : str) : res unit :=
  if existsb (contains ($"CHECKED")) cells then Ok ()
  else fail ($"row `" ++ name ++ $"` in the `" ++ marker ++ $"` table is not marked CHECKED. Rows in a checked table must say so; move it to a HAND table if nothing verifies it").

(** ** The symbols of a kernel *)

Abbreviation symbols := (list (str * Z)).

Definition add_symbol (found : symbols) (line : str) : res symbols :=
  match words line with
  | [address; _; name] => n ← py_int 16 address; Ok (dset name n found)
  | _ => Ok found
  end.

Section build.
(** The output of a tool on an image, when it runs without error. *)
Variable nm : str → str → option str.
Variable exists_elf : str → bool.

Fixpoint first_output (tools : list str) (elf : str) : option str :=
  match tools with
  | [] => None
  | tool :: tools => match nm tool elf with Some out => Some out | None => first_output tools elf end
  end.

Definition nm_symbols (elf : str) : res symbols :=
  if exists_elf elf then
    match first_output NM_CANDIDATES elf with
    | Some out => foldM add_symbol [] (splitlines out)
    | None => fail ($"no usable nm found (tried: " ++ join ($", ") NM_CANDIDATES ++ $")")
    end
  else fail (elf ++ $" does not exist -- build both kernels before checking the map").

(** The root of the checkout. *)
Variable repo : str.
Definition RPI5_ELF : str := repo ++ $"/kernel/build/rpi5/kernel.elf".
Definition QEMU_ELF : str := repo ++ $"/kernel/build/qemu/kernel.elf".
Definition QEMU_DEBUG_ELF : str := repo ++ $"/kernel/build/qemu/kernel-debug.elf".

(** The symbols by platform, in the order of [ELFS]. *)
Definition both_symbols : res (list (str * symbols)) :=
  r ← nm_symbols RPI5_ELF; q ← nm_symbols QEMU_ELF; Ok [($"RPi5", r); ($"QEMU", q)].
End build.

(** ** Refreshing the rows *)

Definition tagged (tag : str) (cells : list str) : bool := existsb (contains tag) cells.

(** [cells[i] = cell]. *)
Definition put (i : nat) (cell : str) (cells : list str) : list str := <[i := cell]> cells.

Definition refreshed (builds : list (str * symbols)) (cells : list str) : res (option (list str)) :=
  let name := unbacktick (default [] (head cells)) in
  let known := forallb (fun b => dmem name b.2) builds in
  if (3 <=? zlen cells) && tagged ($"CHECKED (ELF)") cells && known then
    r ← dget_or_raise ($"RPi5") builds; q ← dget_or_raise ($"QEMU") builds;
    a ← dget_or_raise name r; b ← dget_or_raise name q;
    Ok (Some (put 2 ($"`0x" ++ hex_pad 8 b ++ $"`") (put 1 ($"`0x" ++ hex_pad 8 a ++ $"`") cells)))
  else if (2 <=? zlen cells) && tagged ($"CHECKED (ELF offset)") cells && known then
    offsets ← mapM_res (fun b => a ← dget_or_raise name b.2; anchor ← dget_or_raise OFFSET_ANCHOR b.2; Ok (a - anchor)) builds;
    Ok (match remove_dups offsets with
        | [offset] => Some (put 1 ($"`+0x" ++ hex_pad 5 offset ++ $"`") cells)
        | _ => None
        end)
  else Ok None.

Definition row_line (indent : str) (cells : list str) : str := indent ++ $"| " ++ join ($" | ") cells ++ $" |" ++ nl.

Definition refresh_line (builds : list (str * symbols)) (line : str) : res str :=
  let stripped := strip line in
  if startswith stripped ($"|") && negb (forallb is_rule (raw_cells stripped)) then
    o ← refreshed builds (row_cells stripped);
    match o with
    | Some cells => Ok (row_line (slice line 0 (zlen line - zlen (lstrip line))) cells)
    | None => Ok line
    end
  else Ok line.

Definition update_elf_symbols (builds : list (str * symbols)) (text : str) : res str :=
  lines ← mapM_res (refresh_line builds) (splitlines_keep text); Ok (concat lines).

(** ** The checks *)

Definition SYMBOLS_MARK : str := $"<!-- checked: elf-symbols -->".
Definition OFFSETS_MARK : str := $"<!-- checked: elf-offsets -->".
Definition CEILING_MARK : str := $"<!-- checked: elf-ceiling -->".
Definition CONSTS_MARK : str := $"<!-- checked: consts -->".

Definition malformed {A} (marker : str) (cells : list str) : res A :=
  fail ($"malformed row in the `" ++ marker ++ $"` table: " ++ cells_repr cells).

(** A cell of a symbol's row against one build. *)
Definition check_cell (symbol platform cell : str) (found : symbols) : res (list str) :=
  match parse_int cell with
  | None => fail ($"`" ++ symbol ++ $"`'s " ++ platform ++ $" cell is not a number: " ++ py_repr cell)
  | Some documented =>
      Ok (match dget symbol found with
          | None => [$"`" ++ symbol ++ $"` is documented but absent from the " ++ platform ++ $" build"]
          | Some actual =>
              if actual =? documented then []
              else [$"`" ++ symbol ++ $"` on " ++ platform ++ $": document says 0x" ++ hex_pad 8 documented ++ $", build says 0x" ++ hex_pad 8 actual]
          end)
  end.

Definition check_symbol_row (builds : list (str * symbols)) (cells : list str) : res (list str) :=
  match cells with
  | first :: rpi5 :: qemu :: _ =>
      let symbol := unbacktick first in
      _ ← check_state cells SYMBOLS_MARK symbol;
      r ← dget_or_raise ($"RPi5") builds; p1 ← check_cell symbol ($"RPi5") rpi5 r;
      q ← dget_or_raise ($"QEMU") builds; p2 ← check_cell symbol ($"QEMU") qemu q;
      Ok (p1 ++ p2)
  | _ => malformed SYMBOLS_MARK cells
  end.

Definition check_elf_symbols (builds : list (str * symbols)) (text : str) : res (list str) :=
  rows ← table_after text SYMBOLS_MARK ($"CHECKED (ELF)");
  problems ← mapM_res (check_symbol_row builds) rows; Ok (concat problems).

(** The offsets of a symbol on the platforms that have it. *)
Definition offsets_of (builds : list (str * symbols)) (symbol : str) : res (list (str * Z)) :=
  mapM_res (fun b => a ← dget_or_raise symbol b.2; anchor ← dget_or_raise OFFSET_ANCHOR b.2; Ok (b.1, a - anchor))
    (filter (fun b => dmem symbol b.2 = true) builds).

Definition check_offset_row (builds : list (str * symbols)) (cells : list str) : res (list str) :=
  match cells with
  | first :: cell :: _ =>
      let symbol := unbacktick first in
      _ ← check_state cells OFFSETS_MARK symbol;
      match parse_int cell with
      | None => fail ($"`" ++ symbol ++ $"`'s offset cell is not a number: " ++ py_repr cell)
      | Some documented =>
          let absent := map (fun b => $"`" ++ symbol ++ $"` is documented but absent from the " ++ b.1 ++ $" build")
                          (filter (fun b => dmem symbol b.2 = false) builds) in
          actual ← offsets_of builds symbol;
          if 1 <? zlen (remove_dups (map snd actual)) then
            let shown := join ($", ") (map (fun po => po.1 ++ $" +0x" ++ hex po.2) (py_sorted (fun a b => str_le a.1 b.1) actual)) in
            Ok (absent ++ [$"`" ++ symbol ++ $"` is at a different offset on each platform (" ++ shown ++ $"), so the shared-shape column can no longer state it -- decide whether the linker scripts should diverge here"])
          else
            Ok (absent ++ map (fun po => $"`" ++ symbol ++ $"` on " ++ po.1 ++ $": document says " ++ OFFSET_ANCHOR ++ $"+0x" ++ hex documented ++ $", build says " ++ OFFSET_ANCHOR ++ $"+0x" ++ hex po.2)
                            (filter (fun po => po.2 ≠ documented) actual))
      end
  | _ => malformed OFFSETS_MARK cells
  end.

Definition check_anchor (b : str * symbols) : res unit :=
  if dmem OFFSET_ANCHOR b.2 then Ok ()
  else fail (OFFSET_ANCHOR ++ $", which every offset row is measured from, is absent from the " ++ b.1 ++ $" build").

Definition check_elf_offsets (builds : list (str * symbols)) (text : str) : res (list str) :=
  _ ← mapM_res check_anchor builds;
  rows ← table_after text OFFSETS_MARK ($"CHECKED (ELF offset)");
  let anchor_row := unbacktick (default [] (head (default [] (head rows)))) in
  if decide (anchor_row = OFFSET_ANCHOR) then
    problems ← mapM_res (check_offset_row builds) rows; Ok (concat problems)
  else fail ($"the `" ++ OFFSETS_MARK ++ $"` table must open with `" ++ OFFSET_ANCHOR ++ $"`, the anchor its offsets are measured from; it opens with `" ++ anchor_row ++ $"`").

(** [f"{n / 1048576:.2f}"], where the quotient is exact (numbers below 2^53); a tie goes
    to the even digit. *)
Definition hundredths (n : Z) : Z :=
  let q := 100 * n / 1048576 in
  let r := 100 * n mod 1048576 in
  if (524288 <? r) || ((r =? 524288) && Z.odd q) then q + 1 else q.
Definition mib (n : Z) : str :=
  let h := hundredths (Z.abs n) in
  (if n <? 0 then $"-" else []) ++ dec (h / 100) ++ $"." ++ (if h mod 100 <? 10 then $"0" else []) ++ dec (h mod 100).

Definition get_or_absent (b : str * symbols) (symbol : str) : res Z :=
  match dget symbol b.2 with Some n => Ok n | None => fail (symbol ++ $" is absent from the " ++ b.1 ++ $" build") end.

Definition ceiling_advice : str :=
  $"This is the row --update will not raise for you: ordinary growth is expected to arrive here eventually, so decide that it is ordinary, then raise it by hand. Look at what grew. .bss and .stack are NOBITS, and OpenOCD's load_image writes only file bytes, so growth there costs no transfer time. Growth in file bytes is not free: those go to the board over SWD at about 187 KiB/s, so each added MiB costs roughly 5.5 s on every RPi5 lane run, inside the stretch where make allcheck is waiting on that lane alone. Most of the file is the embedded ext2 rootfs, so if what grew is rootfs CONTENT rather than kernel code, the cheaper answer may be to stop embedding it: the board already writes that same filesystem to USB mass storage at about 29 MB/s during the boot this check guards.".

Definition check_size (ceiling : Z) (b : str * symbols) : res (list str) :=
  start ← get_or_absent b ($"_start"); usable ← get_or_absent b ($"usable_ram_start");
  let size := usable - start in
  Ok (if ceiling <=? size then
        [b.1 ++ $": the kernel image is 0x" ++ hex size ++ $" bytes (" ++ mib size ++ $" MiB) and reached the recorded ceiling of 0x" ++ hex ceiling ++ $" (" ++ mib ceiling ++ $" MiB). " ++ ceiling_advice]
      else []).

Definition check_image_ceiling (builds : list (str * symbols)) (text : str) : res (list str) :=
  rows ← table_after text CEILING_MARK ($"CHECKED (ELF ceiling)");
  match rows with
  | [cells] =>
      match cells with
      | _ :: cell :: _ =>
          _ ← check_state cells CEILING_MARK ($"the image ceiling");
          match parse_int cell with
          | None => fail ($"the image ceiling is not a number: " ++ py_repr cell)
          | Some ceiling => problems ← mapM_res (check_size ceiling) builds; Ok (concat problems)
          end
      | _ => malformed CEILING_MARK cells
      end
  | _ => fail ($"the `" ++ CEILING_MARK ++ $"` table must hold exactly one row, the image ceiling; it holds " ++ dec (zlen rows))
  end.

Definition check_layout (b : str * symbols) : res (list str) :=
  let '(platform, found) := b in
  let missing := filter (fun s => dmem s found = false) ORDERED_BOUNDARIES in
  if decide (missing ≠ []) then fail ($"the " ++ platform ++ $" build is missing " ++ join ($", ") missing)
  else
    start ← dget_or_raise ($"_start") found; bss_start ← dget_or_raise ($"__bss_start") found;
    bss_end ← dget_or_raise ($"__bss_end") found; anchor ← dget_or_raise OFFSET_ANCHOR found;
    usable ← dget_or_raise ($"usable_ram_start") found;
    let shown := join ($", ") (map (fun sv => sv.1 ++ $" 0x" ++ hex sv.2)
                   (combine ORDERED_BOUNDARIES [start; bss_start; bss_end; anchor; usable])) in
    let order := if (start <? bss_start) && (bss_start <=? bss_end) && (bss_end <=? anchor) && (anchor <? usable) then []
                 else [platform ++ $": the image is out of order -- " ++ shown] in
    let aligned symbol value := if value mod PAGE_SIZE =? 0 then []
                                else [platform ++ $": " ++ symbol ++ $" 0x" ++ hex value ++ $" is not page-aligned"] in
    let stack := if anchor mod STACK_REGION_BYTES =? 0 then []
                 else [platform ++ $": " ++ OFFSET_ANCHOR ++ $" 0x" ++ hex anchor ++ $" is not 0x" ++ hex STACK_REGION_BYTES ++ $"-aligned, so bit " ++ dec STACK_GUARD_SHIFT ++ $" no longer says which half of a stack region an address is in"] in
    Ok (order ++ aligned ($"__bss_start") bss_start ++ aligned ($"usable_ram_start") usable ++ stack).

Definition check_layout_invariants (builds : list (str * symbols)) : res (list str) :=
  problems ← mapM_res check_layout builds; Ok (concat problems).

(** ** The constants of the sources *)

Definition const_char (c : Z) : bool := is_hex_digit c || (c =? 120) || (c =? 88) || (c =? 95).

(** The regular expression of a declaration at the head of a text: [const], white space,
    the name, a colon, a word, an equals sign, a literal (kept) and a semicolon, with white
    space before every part but the name optional.  A name has no white space at its ends,
    so at most one way to match is left. *)
Definition match_const (name s : str) : option str :=
  s ← strip_prefix ($"const") (lstrip s);
  s ← (match s with c :: _ => if is_space c then Some (lstrip s) else None | [] => None end);
  s ← strip_prefix name s;
  s ← strip_prefix ($":") (lstrip s);
  s ← (match span is_word (lstrip s) with ([], _) => None | (_, s) => Some (lstrip s) end);
  s ← strip_prefix ($"=") s;
  match lstrip s with
  | d :: s =>
      if is_digit d then
        let '(digits, s) := span const_char s in
        _ ← strip_prefix ($";") (lstrip s); Some (d :: digits)
      else None
  | [] => None
  end.

(** The first match at the start of a line. *)
Fixpoint search_const (name : str) (bol : bool) (s : str) : option str :=
  match (if bol then match_const name s else None) with
  | Some digits => Some digits
  | None => match s with [] => None | c :: s => search_const name (c =? 10) s end
  end.

Section files.
(** The text of the file a cell names under the root, unless there is none, and its path. *)
Variable source : str → res (option str).
Variable path_of : str → str.

Definition check_const_row (cells : list str) : res (list str) :=
  match cells with
  | first :: value :: file :: _ =>
      let name := unbacktick first in
      _ ← check_state cells CONSTS_MARK name;
      match parse_int value with
      | None => fail ($"`" ++ name ++ $"`'s value cell is not a number: " ++ py_repr value)
      | Some documented =>
          found ← source (unbacktick file);
          match found with
          | None => fail ($"`" ++ name ++ $"` names " ++ path_of (unbacktick file) ++ $", which does not exist")
          | Some text =>
              match search_const name true text with
              | None => Ok [$"`" ++ name ++ $"` is not a bare-literal const in " ++ unbacktick file ++ $" -- either it moved, or it became derived and the row belongs in the hand-maintained table"]
              | Some digits =>
                  actual ← py_int 0 (replace ($"_") [] digits);
                  Ok (if actual =? documented then []
                      else [$"`" ++ name ++ $"`: document says " ++ dec documented ++ $", " ++ unbacktick file ++ $" says " ++ dec actual])
              end
          end
      end
  | _ => malformed CONSTS_MARK cells
  end.

Definition check_consts (text : str) : res (list str) :=
  rows ← table_after text CONSTS_MARK ($"CHECKED (const)");
  problems ← mapM_res check_const_row rows; Ok (concat problems).
End files.

(** ** The boot expectations *)

Definition page_span (start end_ : Z) (label : str) : res Z :=
  if negb (start mod PAGE_SIZE =? 0) || negb (end_ mod PAGE_SIZE =? 0) || (end_ <=? start)
  then fail (label ++ $" is not a non-empty page-aligned span")
  else Ok ((end_ - start) / PAGE_SIZE).

(** The text after the last occurrence. *)
Fixpoint last_after (p s : str) : option str :=
  match s with
  | [] => strip_prefix p []
  | _ :: s' => match last_after p s' with Some rest => Some rest | None => strip_prefix p s end
  end.

(** What follows the last [allocator_pages=] of every line that begins with [memory:]:
    the group of the multiline expression, whose dots stop at the end of the line. *)
Definition memory_pages (text : str) : list str :=
  omap (fun line => rest ← strip_prefix ($"memory: ") line; last_after ($" allocator_pages=") rest) (split_on 10 text).

(** [s.count(p)] for a nonempty [p]. *)
Fixpoint count_from (skip : nat) (p s : str) : Z :=
  match s with
  | [] => 0
  | _ :: s' =>
      match skip with
      | S skip => count_from skip p s'
      | O => if startswith s p then 1 + count_from (length p - 1) p s' else count_from 0 p s'
      end
  end.

Definition TOKEN : str := $"<allocator_pages>".

Section expectations.
Variable symbols_of : str → res symbols.
(** The text of a platform's view. *)
Variable view : str → res str.

Definition linked_usable_ram_start (elf : str) (floor : Z) (platform : str) : res Z :=
  found ← symbols_of elf;
  match dget ($"usable_ram_start") found with
  | None => fail ($"usable_ram_start is absent from " ++ elf)
  | Some start => if start <? floor then fail (elf ++ $": usable_ram_start is outside " ++ platform ++ $" RAM") else Ok start
  end.

Definition render_boot_expected (platform_dir elf : str) (floor end_ : Z) (platform : str) : res str :=
  text ← view platform_dir;
  if bool_decide (memory_pages text ≠ [TOKEN]) || negb (count_from 0 TOKEN text =? 1) then
    fail ($"kernel/tests/" ++ platform_dir ++ $"/views/boot.expected must contain exactly one memory line ending in allocator_pages=" ++ TOKEN)
  else
    start ← linked_usable_ram_start elf floor platform;
    pages ← page_span start end_ (platform ++ $" managed RAM");
    Ok (replace TOKEN (dec pages) text).

Definition render_qemu_boot_expected (elf : str) : res str := render_boot_expected ($"qemu") elf QEMU_RAM_BASE QEMU_RAM_END ($"QEMU").
Definition render_rpi5_boot_expected (elf : str) : res str :=
  render_boot_expected ($"rpi5") elf RPI5_MANAGED_RAM_BASE RPI5_MANAGED_RAM_END ($"RPi5").

Definition fdt_expected_pages (qemu_start : Z) : res (list (str * Z)) :=
  multibank ← page_span qemu_start QEMU_RAM_END ($"QEMU multi-bank RAM");
  low ← page_span qemu_start QEMU_LOW_RAM_END ($"QEMU low RAM");
  first ← page_span qemu_start QEMU_HOLE_FIRST_END ($"QEMU first discontiguous extent");
  second ← page_span QEMU_HOLE_SECOND_START QEMU_RAM_END ($"QEMU second discontiguous extent");
  Ok [($"MULTIBANK_EXPECTED", multibank); ($"LOW_MEMORY_EXPECTED", low); ($"DISCONTIGUOUS_MEMORY_EXPECTED", first + second)].

Definition fdt_expected_pages_for (elf : str) : res (list (str * Z)) :=
  start ← linked_usable_ram_start elf QEMU_RAM_BASE ($"QEMU"); fdt_expected_pages start.

Definition render_allocator_expectations (repo : str) (include_debug : bool) : res Z :=
  _ ← render_rpi5_boot_expected (RPI5_ELF repo);
  _ ← render_qemu_boot_expected (QEMU_ELF repo);
  pages ← fdt_expected_pages_for (QEMU_ELF repo);
  if include_debug then _ ← render_qemu_boot_expected (QEMU_DEBUG_ELF repo); Ok (2 + zlen pages + 1)
  else Ok (2 + zlen pages).
End expectations.

(** ** The command *)

Definition advice : list str :=
  [$"  Decide first whether this layout move is intended -- a section that MOVED with its size unchanged is ordinary code growth ahead of it, a section that GREW is new state. Then refresh the rows with:";
   $"      python3 scripts/buildcheck_kernel_memory_map.py --update";
   $"  That refreshes every checked row except the image ceiling, which is left for you on purpose: reaching it is the one layout event this document still asks a person to look at."].

(** The exit status, the texts of the two streams, and the document when it is written. *)
Record outcome := Outcome { o_status : Z; o_out : str; o_err : str; o_written : option str }.
#[export] Instance outcome_eq_dec : EqDecision outcome.
Proof. solve_decision. Defined.

Section main.
Variable nm : str → str → option str.
Variable exists_elf : str → bool.
Variable repo : str.
Variable source : str → res (option str).
Variable path_of : str → str.
Variable view : str → res str.

Definition all_checks (text : str) (debug : bool) : res (list str * Z) :=
  builds ← both_symbols nm exists_elf repo;
  p1 ← check_elf_symbols builds text;
  p2 ← check_elf_offsets builds text;
  p3 ← check_image_ceiling builds text;
  p4 ← check_layout_invariants builds;
  p5 ← check_consts source path_of text;
  expectations ← render_allocator_expectations (nm_symbols nm exists_elf) view repo debug;
  Ok (p1 ++ p2 ++ p3 ++ p4 ++ p5, expectations).

(** The line of the pass; the lines of a failure are the text of the exit. *)
Definition verdict (text : str) (debug : bool) : res str :=
  '(problems, expectations) ← all_checks text debug;
  if decide (problems = []) then
    report_pass ($"kernel/memory-map")
      ($"checked rows and " ++ dec expectations ++ $" allocator expectations match the linked kernels" ++
       (if debug then $", including the debug image" else []))
      [($"allocator_expectations", expectations)]
  else Err (Custom "SystemExit" (join nl (map (fun p => $"  " ++ p) problems ++ advice ++
         [$"FAIL kernel/memory-map: " ++ dec (zlen problems) ++ $" row(s) disagree with the build"]))).

(** An exit prints its text; what was printed and written before it stays. *)
Definition exit_with (said : str) (written : option str) (m : res outcome) : res outcome :=
  match m with
  | Err (Custom cls message) =>
      if decide (cls = "SystemExit"%string) then Ok (Outcome 1 said (message ++ nl) written) else Err (Custom cls message)
  | _ => m
  end.

Definition finish (said : str) (written : option str) (text : str) (debug : bool) : res outcome :=
  exit_with said written (line ← verdict text debug; Ok (Outcome 0 (said ++ line ++ nl) [] written)).

Definition update_report (updated text : str) : str :=
  (if decide (updated = text) then $"kernel/memory-map: no ELF row needed updating"
   else $"kernel/memory-map: ELF rows refreshed from the current build") ++ nl.

Definition check_main (doc : option str) (argv : list str) : res outcome :=
  exit_with [] None (
    text ← (match doc with Some text => Ok text | None => fail (repo ++ $"/kernel/MEMORY_MAP.md does not exist") end);
    _ ← reject_conflict_markers text;
    let debug := bool_decide ($"--debug" ∈ argv) in
    if decide ($"--update" ∈ argv) then
      builds ← both_symbols nm exists_elf repo;
      updated ← update_elf_symbols builds text;
      finish (update_report updated text) (Some updated) updated debug
    else finish [] None text debug).

Definition main (doc : option str) (argv : list str) : res outcome :=
  match argv with
  | flag :: rest =>
      if decide (flag ∈ [$"--qemu-boot-expected"; $"--rpi5-boot-expected"]) then
        exit_with [] None (
          match rest with
          | [elf] =>
              text ← (if decide (flag = $"--qemu-boot-expected") then render_qemu_boot_expected (nm_symbols nm exists_elf) view elf
                      else render_rpi5_boot_expected (nm_symbols nm exists_elf) view elf);
              Ok (Outcome 0 text [] None)
          | _ => fail ($"usage: " ++ flag ++ $" ELF")
          end)
      else check_main doc argv
  | [] => check_main doc argv
  end.
End main.
