(* ===== verification/MemoryMapFacts.v ===== *)
(** * Facts about the memory map

    A refresh of the document is stable and leaves rows that agree with the build, but for
    negative offsets; the check passes exactly when every row, bound and expectation does; the page counts of
    the boot expectations are bounded and consistent. *)
From S2P Require Import Prelude Text Dict Sort PassLine MemoryMap.

(** ** Rows *)

(** A cell of a row: bare text without a bar, taken from the line. *)
Definition cell_of (s cell : str) : Prop := strip cell = cell ∧ ∀ x, x ∈ cell → x ≠ 124 ∧ x ∈ s.

Lemma row_cells_of s : Forall (cell_of s) (row_cells s).
Proof.
  unfold row_cells, raw_cells. apply Forall_map. eapply Forall_impl; [apply split_on_sub|]. intros p Hp. split.
  - apply strip_bare. by destruct (strip_split is_space p) as (_ & _ & _ & _ & _ & ?).
  - intros x Hx%strip_sub. destruct (Hp x Hx) as [? Hin]. split; [done|]. by apply strip_sub in Hin.
Qed.

Lemma row_cells_cons s : row_cells s ≠ [].
Proof. unfold row_cells, raw_cells. intros E%map_eq_nil. by apply split_on_not_nil in E. Qed.

(** The text of a row without the indent. *)
Definition row_text (cells : list str) : str := $"| " ++ join ($" | ") cells ++ $" |".

Lemma join_bars cells : cells ≠ [] → 32 :: join ($" | ") cells ++ [32] = join [124] (map (fun c => 32 :: c ++ [32]) cells).
Proof.
  intros Hne. induction cells as [|c cells IH]; [done|]. destruct cells as [|d cells]; [done|].
  change (join ($" | ") (c :: d :: cells)) with (c ++ 32 :: 124 :: 32 :: join ($" | ") (d :: cells)).
  change (join [124] (map _ (c :: d :: cells))) with ((32 :: c ++ [32]) ++ 124 :: join [124] (map (fun c => 32 :: c ++ [32]) (d :: cells))).
  rewrite <- IH by done. cbn [app]. f_equal. rewrite <- !app_assoc. done.
Qed.

Lemma row_text_raw cells : cells ≠ [] → Forall (fun c : str => 124 ∉ c) cells →
  raw_cells (row_text cells) = map (fun c => 32 :: c ++ [32]) cells.
Proof.
  intros Hne Hc. unfold raw_cells.
  assert (row_text cells = [124] ++ (32 :: join ($" | ") cells ++ [32]) ++ [124]) as ->
    by (unfold row_text; change ($"| ") with [124; 32]; change ($" |") with [32; 124]; cbn; by rewrite <- !app_assoc).
  rewrite strip_around; [|by repeat constructor..| |done].
  - rewrite join_bars by done. apply split_on_join; [by destruct cells|]. apply Forall_map. eapply Forall_impl; [exact Hc|].
    intros c Hn. apply Forall_forall. intros x [->|[Hx| ->%list_elem_of_singleton]%elem_of_app]%elem_of_cons; [done| |done]. by intros ->.
  - split; [by intros c [= <-]|]. rewrite app_comm_cons, last_snoc. by intros c [= <-].
Qed.

Lemma row_text_cells cells : cells ≠ [] → Forall (fun c : str => (124 ∉ c) ∧ strip c = c) cells → row_cells (row_text cells) = cells.
Proof.
  intros Hne Hc. unfold row_cells. rewrite row_text_raw; [|done|by eapply Forall_impl; [exact Hc|naive_solver]].
  rewrite map_map. apply list_eq_Forall2, Forall2_fmap_l, Forall_Forall2_diag. eapply Forall_impl; [exact Hc|].
  intros c [_ Es]. rewrite <- Es at 2. apply (strip_pad [32] c [32]); by repeat constructor.
Qed.

Lemma row_text_strip indent cells (e : str) : Forall (fun c => is_space c = true) indent → Forall (fun c => is_space c = true) e →
  strip (indent ++ row_text cells ++ e) = row_text cells.
Proof.
  intros Hi He. apply strip_around; [done|done| |done]. split; [by intros c [= <-]|].
  unfold row_text. change ($" |") with ([32] ++ [124]). rewrite !app_assoc, last_snoc. by intros c [= <-].
Qed.

(** ** Cells the refresh writes *)

(** Every character of a literal. *)
Ltac literal P :=
  match goal with |- Forall _ ?l => let l' := eval vm_compute in l in change l with l' end;
  repeat (apply Forall_cons_2; [unfold P; lia|]); apply Forall_nil_2.

Definition address (n : Z) : str := $"`0x" ++ hex_pad 8 n ++ $"`".
Definition offset_cell (n : Z) : str := $"`+0x" ++ hex_pad 5 n ++ $"`".

(** The characters of a written cell. *)
Definition written_char (c : Z) : Prop := c = 43 ∨ c = 45 ∨ 48 ≤ c ≤ 57 ∨ c = 96 ∨ 97 ≤ c ≤ 102 ∨ c = 120.
Definition written (cell : str) : Prop := Forall written_char cell ∧ head cell = Some 96.

Lemma show_nat_written n : Forall (fun c => 48 ≤ c ≤ 57 ∨ 97 ≤ c ≤ 102) (show_nat 16 n).
Proof.
  eapply Forall_impl; [apply show_digits_chars; [lia|constructor]|]. intros c (d & ? & ->). unfold digit_char. zcase; lia.
Qed.

Lemma hex_pad_written width n : Forall written_char (hex_pad width n).
Proof.
  assert (Forall written_char (show_nat 16 (Z.abs n))) as Hd
    by (eapply Forall_impl; [apply show_nat_written|]; unfold written_char; intros c; cbn; lia).
  assert (∀ k, Forall written_char (replicate k 48)) as Hr by (intros k; apply Forall_replicate; unfold written_char; lia).
  unfold hex_pad. destruct (n <? 0); rewrite !Forall_app; [|done]. split_and!; [literal written_char|done..].
Qed.

Lemma address_written n : written (address n).
Proof. split; [|done]. unfold address. rewrite !Forall_app. split_and!; [literal written_char|apply hex_pad_written|literal written_char]. Qed.

Lemma offset_written n : written (offset_cell n).
Proof. split; [|done]. unfold offset_cell. rewrite !Forall_app. split_and!; [literal written_char|apply hex_pad_written|literal written_char]. Qed.

Lemma written_space c : written_char c → is_space c = false.
Proof. unfold written_char, is_space, in_range. intros Hc. apply not_true_is_false. rewrite !orb_true_iff, !andb_true_iff, !Z.leb_le, !Z.eqb_eq. lia. Qed.

Lemma written_cell cell : written cell → (124 ∉ cell) ∧ strip cell = cell ∧ no_break cell ∧ is_rule (32 :: cell ++ [32]) = false.
Proof.
  intros [Hw Hh]. split_and!.
  - intros Hin. rewrite Forall_forall in Hw. specialize (Hw _ Hin). unfold written_char in Hw. lia.
  - apply strip_by_none. eapply Forall_impl; [exact Hw|apply written_space].
  - eapply Forall_impl; [exact Hw|]. intros c Hc%written_space. by apply space_break.
  - destruct cell as [|c cell]; [done|]. injection Hh as ->. done.
Qed.

Lemma written_untagged cell tag : written cell → 67 ∈ tag → contains tag cell = false.
Proof.
  intros [Hw _] Ht. destruct (contains tag cell) eqn:E; [|done]. apply contains_split in E as (a & b & ->).
  rewrite !Forall_app, !Forall_forall in Hw. destruct Hw as (_ & Hw & _). specialize (Hw _ Ht). unfold written_char in Hw. lia.
Qed.

(** ** Refreshed rows *)

Section refresh.
(** The symbols of the two builds. *)
Context (r q : symbols).
Definition builds_of : list (str * symbols) := [($"RPi5", r); ($"QEMU", q)].

Definition ELF_TAG : str := $"CHECKED (ELF)".
Definition OFFSET_TAG : str := $"CHECKED (ELF offset)".

(** A row that is refreshed: its name, what stands before and after the written cells,
    and the cells that are written. *)
Inductive refreshes : list str → list str → Prop :=
  | refreshes_symbol c0 c1 c2 rest a b :
      dget (unbacktick c0) r = Some a → dget (unbacktick c0) q = Some b → tagged ELF_TAG (c0 :: c1 :: c2 :: rest) = true →
      refreshes (c0 :: c1 :: c2 :: rest) (c0 :: address a :: address b :: rest)
  | refreshes_offset c0 c1 rest a a0 b b0 :
      dget (unbacktick c0) r = Some a → dget (unbacktick c0) q = Some b → dget OFFSET_ANCHOR r = Some a0 → dget OFFSET_ANCHOR q = Some b0 →
      a - a0 = b - b0 → tagged OFFSET_TAG (c0 :: c1 :: rest) = true → (3 ≤ zlen (c0 :: c1 :: rest) → tagged ELF_TAG (c0 :: c1 :: rest) = false) →
      refreshes (c0 :: c1 :: rest) (c0 :: offset_cell (a - a0) :: rest).

Lemma remove_two (x y : Z) : remove_dups [x; y] = if decide (x = y) then [y] else [x; y].
Proof.
  destruct (decide (x = y)) as [->|Hne]; cbn [remove_dups]; repeat case_decide; try done; set_solver.
Qed.

Lemma builds_platforms : dget ($"RPi5") builds_of = Some r ∧ dget ($"QEMU") builds_of = Some q.
Proof. done. Qed.

Lemma known_both name : forallb (fun b => dmem name b.2) builds_of = true ↔ ∃ a b, dget name r = Some a ∧ dget name q = Some b.
Proof.
  cbn. rewrite andb_true_r, andb_true_iff. unfold dmem. destruct (dget name r), (dget name q); naive_solver.
Qed.

Lemma refreshed_Some cells cells' : refreshed builds_of cells = Ok (Some cells') → refreshes cells cells'.
Proof.
  unfold refreshed. fold ELF_TAG OFFSET_TAG. remember (unbacktick (default [] (head cells))) as name eqn:En.
  set (known := forallb _ _). destruct ((3 <=? zlen cells) && tagged ELF_TAG cells && known) eqn:E1.
  - apply andb_true_iff in E1 as [[E1 Et]%andb_true_iff (a & b & Ea & Eb)%known_both]. zbool.
    destruct cells as [|c0 [|c1 [|c2 rest]]]; zl. unfold dget_or_raise. destruct builds_platforms as [-> ->]. cbn [of_option mbind res_bind].
    rewrite Ea, Eb. intros [= <-]. subst name. by constructor.
  - destruct ((2 <=? zlen cells) && tagged OFFSET_TAG cells && known) eqn:E2; [|done]. apply andb_true_iff in E2 as [[E2 Et]%andb_true_iff Ek].
    apply andb_false_iff in E1 as [E1|E1]; [|congruence]. apply Z.leb_le in E2. apply known_both in Ek as (a & b & Ea & Eb).
    destruct cells as [|c0 [|c1 rest]]; zl. unfold dget_or_raise. cbn [builds_of mapM_res snd]. rewrite Ea, Eb. cbn [of_option mbind res_bind].
    destruct (dget OFFSET_ANCHOR r) as [a0|] eqn:Ea0; [|done]. destruct (dget OFFSET_ANCHOR q) as [b0|] eqn:Eb0; [|done].
    cbn [of_option mbind res_bind]. rewrite remove_two. case_decide as E; [|done]. intros [= <-]. rewrite <- E. subst name.
    apply refreshes_offset with b b0; try done. intros H3. apply andb_false_iff in E1 as [E1%Z.leb_gt|]; [zl|done].
Qed.

Lemma refreshed_symbol c0 c1 c2 rest a b : dget (unbacktick c0) r = Some a → dget (unbacktick c0) q = Some b →
  tagged ELF_TAG (c0 :: c1 :: c2 :: rest) = true →
  refreshed builds_of (c0 :: c1 :: c2 :: rest) = Ok (Some (c0 :: address a :: address b :: rest)).
Proof.
  intros Ea Eb Et. unfold refreshed. fold ELF_TAG. change (unbacktick (default [] (head _))) with (unbacktick c0). rewrite Et.
  rewrite (proj2 (known_both _)) by by eexists _, _. rewrite (proj2 (Z.leb_le _ _)) by zl. cbn [andb].
  unfold dget_or_raise. destruct builds_platforms as [-> ->]. cbn [of_option mbind res_bind]. by rewrite Ea, Eb.
Qed.

Lemma refreshed_offset c0 c1 rest a a0 b b0 :
  dget (unbacktick c0) r = Some a → dget (unbacktick c0) q = Some b → dget OFFSET_ANCHOR r = Some a0 → dget OFFSET_ANCHOR q = Some b0 →
  a - a0 = b - b0 → tagged OFFSET_TAG (c0 :: c1 :: rest) = true → tagged ELF_TAG (c0 :: c1 :: rest) = false →
  refreshed builds_of (c0 :: c1 :: rest) = Ok (Some (c0 :: offset_cell (a - a0) :: rest)).
Proof.
  intros Ea Eb Ea0 Eb0 E Et Ef. unfold refreshed. fold ELF_TAG OFFSET_TAG. change (unbacktick (default [] (head _))) with (unbacktick c0).
  rewrite Et, Ef, andb_false_r. rewrite (proj2 (known_both _)) by by eexists _, _. rewrite (proj2 (Z.leb_le 2 _)) by zl. cbn [andb].
  unfold dget_or_raise. cbn [builds_of mapM_res snd]. rewrite Ea, Eb, Ea0, Eb0. cbn [of_option mbind res_bind].
  by rewrite remove_two, decide_True, <- E.
Qed.

Lemma refreshed_untagged cells : tagged ELF_TAG cells = false → tagged OFFSET_TAG cells = false → refreshed builds_of cells = Ok None.
Proof. intros E1 E2. unfold refreshed. fold ELF_TAG OFFSET_TAG. by rewrite E1, E2, !andb_false_r. Qed.

(** The state cell names one table. *)
Definition one_tag (cells : list str) : Prop := tagged ELF_TAG cells && tagged OFFSET_TAG cells = false.

Lemma tagged_written tag c0 cell rest old : written cell → 67 ∈ tag → tagged tag (c0 :: cell :: rest) = true → tagged tag (c0 :: old :: rest) = true.
Proof.
  intros Hw Ht. unfold tagged. cbn [existsb]. rewrite (written_untagged cell tag) by done. cbn [orb]. rewrite !orb_true_iff. tauto.
Qed.

Lemma tagged_written_both tag c0 x y rest c1 c2 : written x → written y → 67 ∈ tag → tagged tag (c0 :: x :: y :: rest) = true →
  tagged tag (c0 :: c1 :: c2 :: rest) = true.
Proof.
  intros Hx Hy Ht. unfold tagged. cbn [existsb]. rewrite (written_untagged x tag), (written_untagged y tag) by done. cbn [orb]. rewrite !orb_true_iff. tauto.
Qed.

Lemma tags_marked : 67 ∈ ELF_TAG ∧ 67 ∈ OFFSET_TAG.
Proof. split; by left. Qed.

Lemma refreshes_twice cells cells' : one_tag cells → refreshes cells cells' →
  refreshed builds_of cells' = Ok (Some cells') ∨ refreshed builds_of cells' = Ok None.
Proof.
  unfold one_tag. destruct tags_marked as [M1 M2]. intros Hone Hr. revert Hone.
  destruct Hr as [c0 c1 c2 rest a b Ea Eb Et|c0 c1 rest a a0 b b0 Ea Eb Ea0 Eb0 E Et _]; intros Hone.
  - pose proof (address_written a). pose proof (address_written b). rewrite Et in Hone. cbn [andb] in Hone.
    destruct (tagged ELF_TAG (c0 :: address a :: address b :: rest)) eqn:E1; [left; by apply refreshed_symbol|right].
    apply refreshed_untagged; [done|]. apply not_true_is_false. intros E2. by rewrite (tagged_written_both _ _ _ _ _ c1 c2 H H0 M2 E2) in Hone.
  - pose proof (offset_written (a - a0)) as Hw. rewrite Et, andb_true_r in Hone.
    assert (tagged ELF_TAG (c0 :: offset_cell (a - a0) :: rest) = false) as E1.
    { destruct (tagged ELF_TAG (c0 :: offset_cell _ :: rest)) eqn:E1; [|done]. by rewrite (tagged_written _ _ _ _ c1 Hw M1 E1) in Hone. }
    destruct (tagged OFFSET_TAG (c0 :: offset_cell (a - a0) :: rest)) eqn:E2; [left; by apply refreshed_offset with b b0|right].
    by apply refreshed_untagged.
Qed.

(** ** Refreshed lines *)

Definition is_row (stripped : str) : bool := startswith stripped ($"|") && negb (forallb is_rule (raw_cells stripped)).
Definition plain_cell (c : str) : Prop := (124 ∉ c) ∧ strip c = c.

Lemma refreshes_cells s cells cells' : Forall (cell_of s) cells → refreshes cells cells' →
  cells' ≠ [] ∧ Forall plain_cell cells' ∧ Forall (fun c => no_break s → no_break c) cells' ∧ is_row (row_text cells') = true.
Proof.
  assert (∀ c, cell_of s c → plain_cell c) as Hplain by (intros c [Es Hc]; split; [intros Hin; by destruct (Hc _ Hin)|done]).
  assert (∀ c, written c → plain_cell c) as Hw by (intros c Hc; destruct (written_cell c Hc) as (? & ? & _); by split).
  assert (∀ c, cell_of s c → no_break s → no_break c) as Hbreak.
  { intros c [_ Hc] Hs. unfold no_break in *. rewrite Forall_forall in *. intros x Hx. by apply Hs, Hc. }
  assert (∀ c, written c → no_break s → no_break c) as Hwb by (intros c Hc _; by apply written_cell).
  assert (∀ cs c, Forall plain_cell cs → written c → c ∈ cs → is_row (row_text cs) = true) as Hrow.
  { intros cs c Hcs Hc Hin. unfold is_row. apply andb_true_intro. split; [done|]. apply negb_true_iff.
    rewrite row_text_raw; [|by destruct cs; [apply not_elem_of_nil in Hin|]|by eapply Forall_impl; [exact Hcs|intros ? [? _]]].
    apply not_true_is_false. rewrite forallb_forall. intros Hall.
    destruct (written_cell c Hc) as (_ & _ & _ & Hr). rewrite Hall in Hr; [done|]. apply in_map_iff. exists c. split; [done|]. by apply list_elem_of_In. }
  intros Hcs Hr. revert Hcs. destruct Hr as [c0 c1 c2 rest a b _ _ _|c0 c1 rest a a0 b b0 _ _ _ _ _ _ _]; intros Hcs.
  - pose proof (address_written a) as W1. pose proof (address_written b) as W2.
    apply Forall_cons in Hcs as [H0 [_ [_ Hcs]%Forall_cons]%Forall_cons].
    assert (Forall plain_cell (c0 :: address a :: address b :: rest)) as Hp
      by (repeat (constructor; [by auto|]); eapply Forall_impl; [exact Hcs|exact Hplain]).
    split_and!; [done|done| |apply Hrow with (address a); [done|done|right; left]].
    repeat (constructor; [by auto|]). eapply Forall_impl; [exact Hcs|exact Hbreak].
  - pose proof (offset_written (a - a0)) as W1. apply Forall_cons in Hcs as [H0 [_ Hcs]%Forall_cons].
    assert (Forall plain_cell (c0 :: offset_cell (a - a0) :: rest)) as Hp
      by (repeat (constructor; [by auto|]); eapply Forall_impl; [exact Hcs|exact Hplain]).
    split_and!; [done|done| |apply Hrow with (offset_cell (a - a0)); [done|done|right; left]].
    repeat (constructor; [by auto|]). eapply Forall_impl; [exact Hcs|exact Hbreak].
Qed.

Lemma indent_of line : slice line 0 (zlen line - zlen (lstrip line)) = (span is_space line).1.
Proof.
  destruct (span_spec is_space line) as (E & _ & _). unfold lstrip, lstrip_by. rewrite E at 1 2. rewrite zlen_app.
  apply slice_app. zl.
Qed.

(** What a refresh does to a line: nothing, or a row with written cells in its place. *)
Lemma refresh_line_cases line line' : refresh_line builds_of line = Ok line' →
  (is_row (strip line) = true ∧ ∃ cells, refreshed builds_of (row_cells (strip line)) = Ok (Some cells) ∧ line' = row_line (span is_space line).1 cells) ∨
  (line' = line ∧ (is_row (strip line) = true → refreshed builds_of (row_cells (strip line)) = Ok None)).
Proof.
  unfold refresh_line. rewrite indent_of. fold (is_row (strip line)). destruct (is_row (strip line)); [|intros [= <-]; by right].
  intros (o & Eo & H)%bind_Ok_inv. destruct o as [cells|]; injection H as <-; [left|right]; eauto.
Qed.

Lemma row_line_text indent cells : row_line indent cells = indent ++ row_text cells ++ nl.
Proof. unfold row_line, row_text. by rewrite <- !app_assoc. Qed.

Lemma nl_space : Forall (fun c => is_space c = true) nl.
Proof. by repeat constructor. Qed.

Lemma refresh_row_line indent s cells cells' : Forall (fun c => is_space c = true) indent → Forall (cell_of s) cells → refreshes cells cells' →
  refresh_line builds_of (row_line indent cells') =
    (o ← refreshed builds_of cells'; Ok (match o with Some new => row_line indent new | None => row_line indent cells' end)).
Proof.
  intros Hi Hc Hr. destruct (refreshes_cells s cells cells' Hc Hr) as (Hne & Hp & _ & Hrow).
  unfold refresh_line. rewrite indent_of. rewrite (row_line_text indent cells'). rewrite row_text_strip by (done || apply nl_space).
  fold (is_row (row_text cells')). rewrite Hrow, row_text_cells by done.
  rewrite span_app by (done || by intros c [= <-]). cbn [fst]. destruct (refreshed builds_of cells') as [[new|]|]; [|done..].
  done.
Qed.

Lemma refresh_line_twice line line' : one_tag (row_cells (strip line)) → refresh_line builds_of line = Ok line' → refresh_line builds_of line' = Ok line'.
Proof.
  intros Hone H. destruct (refresh_line_cases line line' H) as [(_ & cells & Ec & ->)|[-> _]]; [|done].
  destruct (span_spec is_space line) as (_ & Hi & _). apply refreshed_Some in Ec as Hr.
  rewrite (refresh_row_line _ (strip line) (row_cells (strip line))); [|done|apply row_cells_of|done].
  by destruct (refreshes_twice _ _ Hone Hr) as [-> | ->].
Qed.

(** ** The refreshed document *)

Lemma row_line_ended s line cells cells' : no_break line → Forall (cell_of s) cells → no_break s → refreshes cells cells' →
  ∃ body, row_line (span is_space line).1 cells' = with_end (body, 10) ∧ ended (body, 10).
Proof.
  intros Hl Hc Hs Hr. destruct (refreshes_cells s cells cells' Hc Hr) as (_ & _ & Hb & _).
  exists ((span is_space line).1 ++ row_text cells'). split; [rewrite row_line_text; unfold with_end; cbn [fst snd]; by rewrite <- app_assoc|].
  split; [|done]. cbn [fst]. apply Forall_app. split.
  - destruct (span_spec is_space line) as (E & _). unfold no_break in Hl. rewrite E in Hl. by apply Forall_app in Hl as [? _].
  - unfold row_text. rewrite !Forall_app. split_and!; [by repeat constructor| |by repeat constructor].
    clear -Hb Hs. induction Hb as [|c cs Hc Hcs IH]; [constructor|]. destruct cs as [|d cs]; [by apply Hc|].
    change (join ($" | ") (c :: d :: cs)) with (c ++ $" | " ++ join ($" | ") (d :: cs)). rewrite !Forall_app.
    split_and!; [by apply Hc|by repeat constructor|by apply IH].
Qed.

Lemma span_end (l e : str) : strip l ≠ [] → (span is_space (l ++ e)).1 = (span is_space l).1.
Proof.
  intros Hne. destruct (span_spec is_space l) as (E & Hsp & Hh). destruct (span is_space l) as [sp m]. cbn [fst snd] in *. subst l.
  rewrite <- app_assoc, span_app; [done|done|]. destruct m as [|c m]; [|exact Hh].
  destruct Hne. apply strip_nil. by rewrite app_nil_r.
Qed.

Lemma strip_end line : ended line → strip (with_end line) = strip line.1.
Proof.
  destruct line as [l b]. intros (_ & Hb & _). unfold with_end. cbn [fst snd] in *.
  apply (strip_pad [] l [b]); [done|]. apply Forall_singleton. by apply linebreak_space.
Qed.

Lemma lines_strip lines t : Forall ended lines → Forall2 (fun l l' => strip l = strip l') (map with_end lines ++ unended t) (map fst lines ++ unended t).
Proof.
  intros Hl. apply Forall2_app; [|by apply Forall_Forall2_diag, Forall_true].
  apply Forall2_fmap, Forall_Forall2_diag. eapply Forall_impl; [exact Hl|apply strip_end].
Qed.

Lemma splitlines_strip text : 13 ∉ text → Forall2 (fun l l' => strip l = strip l') (splitlines_keep text) (splitlines text).
Proof.
  intros H13. destruct (splitlines_keep_shape text H13) as (lines & t & -> & Hl & Ht & ->). rewrite splitlines_ended by done. by apply lines_strip.
Qed.

Lemma is_row_cons s : is_row s = true → s ≠ [].
Proof. by intros H ->. Qed.

(** A line stays a line. *)
Lemma refresh_ended line line' : ended line → refresh_line builds_of (with_end line) = Ok line' → ∃ new, line' = with_end new ∧ ended new.
Proof.
  intros He H. destruct (refresh_line_cases _ _ H) as [(Hrow & cells & Ec & ->)|[-> _]]; [|by exists line].
  rewrite strip_end in Hrow, Ec by done. destruct line as [l b]. unfold with_end. cbn [fst snd] in *. rewrite span_end by by apply is_row_cons.
  apply refreshed_Some in Ec. destruct He as (Hn & _). edestruct (row_line_ended (strip l)) as (body & -> & ?); [exact Hn|apply row_cells_of| |done|by eexists].
  apply Forall_forall. intros c Hc%strip_sub. unfold no_break in Hn. rewrite Forall_forall in Hn. by apply Hn.
Qed.

Lemma refresh_unended t line' : no_break t → refresh_line builds_of t = Ok line' → (∃ new, line' = with_end new ∧ ended new) ∨ line' = t.
Proof.
  intros Hn H. destruct (refresh_line_cases _ _ H) as [(Hrow & cells & Ec & ->)|[-> _]]; [left|by right].
  apply refreshed_Some in Ec. edestruct (row_line_ended (strip t)) as (body & -> & ?); [exact Hn|apply row_cells_of| |done|by eexists].
  apply Forall_forall. intros c Hc%strip_sub. unfold no_break in Hn. rewrite Forall_forall in Hn. by apply Hn.
Qed.

Lemma refresh_lines_ended lines new : Forall ended lines → Forall2 (fun l l' => refresh_line builds_of l = Ok l') (map with_end lines) new →
  ∃ lines', new = map with_end lines' ∧ Forall ended lines'.
Proof.
  intros Hl. revert new. induction Hl as [|line lines He Hl IH]; intros new H; [exists []; by inversion H|].
  apply Forall2_cons_inv_l in H as (l' & new' & H1 & H2 & ->). destruct (refresh_ended _ _ He H1) as (n & -> & Hn).
  destruct (IH _ H2) as (ns & -> & Hns). exists (n :: ns). by split; [|constructor].
Qed.

(** The lines of the refreshed document are the refreshed lines. *)
Lemma update_lines text text' : 13 ∉ text → update_elf_symbols builds_of text = Ok text' →
  ∃ new, Forall2 (fun l l' => refresh_line builds_of l = Ok l') (splitlines_keep text) new ∧ splitlines_keep text' = new ∧
    Forall2 (fun l l' => strip l = strip l') new (splitlines text').
Proof.
  intros H13 (new & Hnew%mapM_res_Forall2 & [= <-])%bind_Ok_inv. exists new. split; [done|].
  destruct (splitlines_keep_shape text H13) as (lines & t & E & Hl & Ht & _). rewrite E in Hnew.
  apply Forall2_app_inv_l in Hnew as (n1 & n2 & H1 & H2 & ->). destruct (refresh_lines_ended _ _ Hl H1) as (ls & -> & Hls).
  assert (∃ ls' t', map with_end ls ++ n2 = map with_end ls' ++ unended t' ∧ Forall ended ls' ∧ no_break t') as (ls' & t' & -> & Hls' & Ht').
  { unfold unended in H2. case_decide as Et; [exists ls, []; inversion H2; by split_and!; [| |constructor]|].
    apply Forall2_cons_inv_l in H2 as (l' & n' & H2 & H3 & ->). inversion H3; subst n'.
    destruct (refresh_unended _ _ Ht H2) as [(n & -> & Hn)| ->].
    - exists (ls ++ [n]), []. rewrite map_app, app_nil_r. split_and!; [done|by apply Forall_app; split; [|constructor]|constructor].
    - exists ls, t. unfold unended. by rewrite decide_False. }
  assert (concat (map with_end ls' ++ unended t') = concat (map with_end ls') ++ t') as ->
    by (rewrite concat_app; f_equal; unfold unended; case_decide as Et; [by rewrite Et|by cbn; rewrite app_nil_r]).
  rewrite splitlines_keep_ended, splitlines_ended by done. split; [done|]. by apply lines_strip.
Qed.

(** No row of the document is tagged for two tables. *)
Definition rows_one_tag (text : str) : Prop := Forall (fun line => one_tag (row_cells (strip line))) (splitlines text).

Lemma rows_one_tag_keep text : 13 ∉ text → rows_one_tag text → Forall (fun line => one_tag (row_cells (strip line))) (splitlines_keep text).
Proof.
  intros H13 Hone. apply splitlines_strip in H13. unfold rows_one_tag in Hone. induction H13 as [|l l' ls ls' E _ IH]; [constructor|].
  apply Forall_cons in Hone as [H1 H2]. constructor; [by rewrite E|by apply IH].
Qed.

(** ** Written cells are read back *)

Lemma hex_zeros_value k s acc : digits_value 16 (replicate k 48 ++ s) acc = digits_value 16 s (acc * 16 ^ Z.of_nat k).
Proof.
  revert acc. induction k as [|k IH]; intros acc; [cbn [replicate app]; f_equal; change (16 ^ Z.of_nat 0) with 1; lia|].
  cbn [replicate app digits_value]. change (48 =? 95) with false. change (digit_val 48 <? 16) with true. cbv iota. rewrite IH. f_equal.
  change (digit_val 48) with 0. rewrite Nat2Z.inj_succ, Z.pow_succ_r by lia. ring.
Qed.

Lemma replace_absent (b s : str) c : c ∉ s → replace [c] b s = s.
Proof.
  unfold replace. generalize (S (length s)) as fuel. intros fuel. revert s. induction fuel as [|fuel IH]; intros s Hs; [done|].
  destruct s as [|d s]; [done|]. apply not_elem_of_cons in Hs as [Hd Hs]. cbn [replace_fuel strip_prefix].
  rewrite (proj2 (Z.eqb_neq c d)) by done. by rewrite IH.
Qed.

Lemma hex_pad_value width n : 0 ≤ n → digits_value 16 (hex_pad width n) 0 = Some n ∧ hex_pad width n ≠ [].
Proof.
  intros Hn. unfold hex_pad. rewrite (proj2 (Z.ltb_ge n 0)), Z.abs_eq by lia. rewrite hex_zeros_value, Z.mul_0_l, show_nat_value by lia.
  split; [done|]. destruct (show_nat_sign 16 n) as [Hne _]; [lia..|]. intros [_ ?]%app_nil. done.
Qed.

Lemma unbacktick_written (s : str) : Forall written_char s → s ≠ [] → bare (fun c => c =? 96) s → unbacktick ([96] ++ s ++ [96]) = s.
Proof.
  intros Hs Hne Hb. unfold unbacktick, strip. rewrite (strip_by_none _ ([96] ++ s ++ [96])).
  - rewrite strip_around by (done || by repeat constructor). apply strip_by_none. eapply Forall_impl; [exact Hs|apply written_space].
  - rewrite !Forall_app. split_and!; [by repeat constructor| |by repeat constructor]. eapply Forall_impl; [exact Hs|apply written_space].
Qed.

Lemma hex_pad_last width n c : last (hex_pad width n) = Some c → (c =? 96) = false.
Proof.
  intros Hc. assert (c ∈ show_nat 16 (Z.abs n)) as Hin.
  { destruct (show_nat_sign 16 (Z.abs n)) as [Hne _]; [lia..|]. destruct (exists_last Hne) as (l & d & E). unfold hex_pad in Hc. rewrite E in *.
    assert (c = d) as ->; [|apply elem_of_app; right; by left].
    revert Hc. destruct (n <? 0); rewrite !app_assoc, last_snoc; by intros [= ->]. }
  pose proof (show_nat_written (Z.abs n)) as Hw. rewrite Forall_forall in Hw. specialize (Hw _ Hin). lia.
Qed.

Lemma parse_written (p : str) width n : Forall written_char p → (∀ c, head p = Some c → (c =? 96) = false) → p ≠ [] →
  parse_int ($"`" ++ p ++ hex_pad width n ++ $"`") =
    match py_int 0 (p ++ hex_pad width n) with Ok m => Some m | Err _ => None end.
Proof.
  intros Hp Hh Hne. unfold parse_int. change ($"`") with [96]. rewrite (app_assoc p). pose proof (hex_pad_written width n) as Hw.
  assert (Forall written_char (p ++ hex_pad width n)) as Hall by by apply Forall_app.
  rewrite unbacktick_written; [|done|by destruct p| ].
  - change ($"_") with [95]. rewrite replace_absent; [done|]. intros Hin. rewrite Forall_forall in Hall. specialize (Hall _ Hin).
    unfold written_char in Hall. lia.
  - split; [by destruct p|]. intros c. rewrite last_app. destruct (last (hex_pad width n)) eqn:E; [intros [= <-]; by apply hex_pad_last in E|].
    apply last_None in E. assert (show_nat 16 (Z.abs n) = []) as E'.
    { unfold hex_pad in E. destruct (n <? 0); [done|]. by apply app_nil in E as [_ ?]. }
    destruct (show_nat_sign 16 (Z.abs n)) as [? _]; [lia..|]. done.
Qed.

Lemma py_int_hex (sign : str) width n : sign = [] ∨ sign = $"+" → 0 ≤ n → py_int 0 (sign ++ $"0x" ++ hex_pad width n) = Ok n.
Proof.
  intros Hs Hn. destruct (hex_pad_value width n Hn) as [Hv Hne].
  assert (read_unsigned 0 ($"0x" ++ hex_pad width n) = Some n) as Hr.
  { unfold read_unsigned. change (prefix_base _) with (Some (16, hex_pad width n)). cbn [Z.eqb orb]. unfold read_prefixed. by destruct (hex_pad width n). }
  assert (Forall (fun c => is_space c = false) (hex_pad width n)) as Hsp by (eapply Forall_impl; [apply hex_pad_written|apply written_space]).
  unfold py_int, strip. rewrite strip_by_none.
  - destruct Hs as [-> | ->]; cbn [app str_of]; [change ($"0x" ++ hex_pad width n) with (48 :: 120 :: hex_pad width n) in *|
      change ($"+" ++ $"0x" ++ hex_pad width n) with (43 :: $"0x" ++ hex_pad width n)]; cbn [Z.eqb]; by rewrite Hr.
  - rewrite !Forall_app. split_and!; [destruct Hs as [-> | ->]; by repeat constructor|by repeat constructor|done].
Qed.

Lemma parse_address n : 0 ≤ n → parse_int (address n) = Some n.
Proof.
  intros Hn. unfold address. change ($"`0x") with ($"`" ++ $"0x"). rewrite <- app_assoc.
  rewrite parse_written; [|literal written_char|by intros c [= <-]|done]. by assert (py_int 0 ($"0x" ++ hex_pad 8 n) = Ok n) as -> by (apply (py_int_hex []); auto).
Qed.

Lemma parse_offset n : 0 ≤ n → parse_int (offset_cell n) = Some n.
Proof.
  intros Hn. unfold offset_cell. change ($"`+0x") with ($"`" ++ $"+0x"). rewrite <- app_assoc.
  rewrite parse_written; [|literal written_char|by intros c [= <-]|done]. by assert (py_int 0 ($"+0x" ++ hex_pad 5 n) = Ok n) as -> by (apply (py_int_hex ($"+")); auto).
Qed.

(** A negative offset is written as text that is not a number. *)
Lemma parse_negative_offset n : n < 0 → parse_int (offset_cell n) = None.
Proof.
  intros Hn. unfold offset_cell. change ($"`+0x") with ($"`" ++ $"+0x"). rewrite <- app_assoc.
  rewrite parse_written; [|literal written_char|by intros c [= <-]|done].
  assert (py_int 0 ($"+0x" ++ hex_pad 5 n) = Err ValueError) as ->; [|done].
  assert (∃ s, hex_pad 5 n = 45 :: s) as [s Es].
  { unfold hex_pad. rewrite (proj2 (Z.ltb_lt n 0)) by done. by eexists. }
  pose proof (hex_pad_written 5 n) as Hw. rewrite Es in *. unfold py_int, strip. rewrite strip_by_none; [done|].
  rewrite Forall_app. split; [by repeat constructor|]. eapply Forall_impl; [exact Hw|apply written_space].
Qed.

(** ** Rows that agree with the build *)

Definition marked (cells : list str) : bool := existsb (contains ($"CHECKED")) cells.

Lemma check_state_Ok cells marker name u : check_state cells marker name = Ok u ↔ marked cells = true.
Proof. unfold check_state, marked. destruct u, (existsb _ cells); done. Qed.

(** Both addresses of the row are those of the builds. *)
Definition symbol_agrees (cells : list str) : Prop :=
  ∃ c0 c1 c2 rest a b, cells = c0 :: c1 :: c2 :: rest ∧ marked cells = true ∧ parse_int c1 = Some a ∧ parse_int c2 = Some b ∧
    dget (unbacktick c0) r = Some a ∧ dget (unbacktick c0) q = Some b.

(** The offset of the row is that of the symbol in both builds. *)
Definition offset_agrees (cells : list str) : Prop :=
  ∃ c0 c1 rest n a0 b0, cells = c0 :: c1 :: rest ∧ marked cells = true ∧ parse_int c1 = Some n ∧
    dget OFFSET_ANCHOR r = Some a0 ∧ dget OFFSET_ANCHOR q = Some b0 ∧
    dget (unbacktick c0) r = Some (a0 + n) ∧ dget (unbacktick c0) q = Some (b0 + n).

Lemma check_cell_iff symbol platform cell found : check_cell symbol platform cell found = Ok [] ↔ ∃ n, parse_int cell = Some n ∧ dget symbol found = Some n.
Proof.
  unfold check_cell. destruct (parse_int cell) as [n|]; [|split; [done|naive_solver]]. destruct (dget symbol found) as [m|]; [|split; [done|naive_solver]].
  destruct (Z.eqb_spec m n) as [->|]; [split; eauto|split; [done|]]. intros (? & [= <-] & [= <-]). done.
Qed.

Lemma check_symbol_row_iff cells : check_symbol_row builds_of cells = Ok [] ↔ symbol_agrees cells.
Proof.
  unfold symbol_agrees. destruct cells as [|c0 [|c1 [|c2 rest]]]; try (split; [done|by intros (? & ? & ? & ? & ? & ? & ? & _)]).
  unfold check_symbol_row, dget_or_raise. destruct builds_platforms as [-> ->]. cbn [of_option mbind res_bind]. split.
  - intros ([] & Hs%check_state_Ok & (p1 & H1 & (p2 & H2 & [= [-> ->]%app_nil])%bind_Ok_inv)%bind_Ok_inv)%bind_Ok_inv.
    apply check_cell_iff in H1 as (a & ? & ?), H2 as (b & ? & ?). by exists c0, c1, c2, rest, a, b.
  - intros (? & ? & ? & ? & a & b & [= <- <- <- <-] & Hs & ? & ? & ? & ?).
    rewrite (proj2 (check_state_Ok _ _ _ ()) Hs). cbn [mbind res_bind].
    rewrite (proj2 (check_cell_iff _ ($"RPi5") _ _)) by eauto. cbn [mbind res_bind].
    by rewrite (proj2 (check_cell_iff _ ($"QEMU") _ _)) by eauto.
Qed.

(** What a row says of one build: the symbol is there, at the offset. *)
Lemma offset_problems a0 b0 symbol : dget OFFSET_ANCHOR r = Some a0 → dget OFFSET_ANCHOR q = Some b0 →
  offsets_of builds_of symbol = Ok ((match dget symbol r with Some a => [($"RPi5", a - a0)] | None => [] end) ++ (match dget symbol q with Some b => [($"QEMU", b - b0)] | None => [] end)).
Proof.
  intros Ea0 Eb0. unfold offsets_of, builds_of, dmem, dget_or_raise. rewrite !filter_cons. cbn [snd].
  destruct (dget symbol r) as [a|] eqn:Ea, (dget symbol q) as [b|] eqn:Eb; repeat case_decide; try done;
    cbn [filter list_filter mapM_res fst snd]; rewrite ?Ea, ?Eb, ?Ea0, ?Eb0; done.
Qed.

Lemma absent_none symbol : filter (fun b : str * symbols => dmem symbol b.2 = false) builds_of = [] ↔ ∃ a b, dget symbol r = Some a ∧ dget symbol q = Some b.
Proof.
  rewrite filter_empty_iff. unfold builds_of, dmem. split.
  - intros H. pose proof (H ($"RPi5", r) ltac:(left)) as H1. pose proof (H ($"QEMU", q) ltac:(right; left)) as H2. cbn [snd] in *.
    destruct (dget symbol r), (dget symbol q); by eauto.
  - intros (a & b & Ea & Eb) x [->|[->|?%not_elem_of_nil]%elem_of_cons]%elem_of_cons; [cbn [snd]; by rewrite ?Ea, ?Eb..|done].
Qed.

Lemma Ok_nil (l : list str) : Ok l = Ok [] → l = [].
Proof. by intros [= ->]. Qed.

Lemma check_offset_row_iff a0 b0 cells : dget OFFSET_ANCHOR r = Some a0 → dget OFFSET_ANCHOR q = Some b0 →
  check_offset_row builds_of cells = Ok [] ↔ offset_agrees cells.
Proof.
  intros Ea0 Eb0. unfold offset_agrees. destruct cells as [|c0 [|c1 rest]]; try (split; [done|by intros (? & ? & ? & ? & ? & ? & ? & _)]).
  unfold check_offset_row. destruct (marked (c0 :: c1 :: rest)) eqn:Em.
  2:{ unfold check_state. unfold marked in Em. rewrite Em. split; [done|]. intros (? & ? & ? & ? & ? & ? & _ & ? & _). done. }
  rewrite (proj2 (check_state_Ok _ _ _ ()) Em). cbn [mbind res_bind].
  destruct (parse_int c1) as [n|] eqn:En; [|split; [done|]; intros (? & ? & ? & ? & ? & ? & [= <- <- <-] & _ & E & _); congruence].
  rewrite (offset_problems a0 b0) by done. cbn [mbind res_bind]. split.
  - intros H. assert (filter (fun b : str * symbols => dmem (unbacktick c0) b.2 = false) builds_of = []) as (a & b & Ea & Eb)%absent_none.
    { destruct (1 <? _); apply Ok_nil, app_nil in H as [H _]; by apply map_eq_nil in H. }
    rewrite Ea, Eb in H. cbn [app map snd] in H. rewrite remove_two in H. case_decide as E; [|by destruct (map _ _)].
    change (1 <? zlen [b - b0]) with false in H. apply Ok_nil, app_nil in H as [_ H%map_eq_nil]. rewrite filter_empty_iff in H.
    pose proof (H ($"QEMU", b - b0) ltac:(right; left)) as Hn%dec_stable. cbn [snd] in Hn.
    exists c0, c1, rest, n, a0, b0. split_and!; try done; rewrite ?Ea, ?Eb; f_equal; lia.
  - intros (? & ? & ? & n' & a0' & b0' & [= <- <- <-] & _ & En' & Ea' & Eb' & Ea & Eb). rewrite En in En'. rewrite Ea0 in Ea'. rewrite Eb0 in Eb'. simplify_eq.
    rewrite (proj2 (absent_none _)) by eauto. rewrite Ea, Eb. cbn [app map snd].
    replace (a0' + n' - a0') with n' by lia. replace (b0' + n' - b0') with n' by lia. rewrite remove_two, decide_True by done.
    change (1 <? zlen [n']) with false. cbv iota. by rewrite !filter_cons, !decide_False by (cbn; by intros []).
Qed.

Lemma contains_app p a b : contains p (a ++ p ++ b) = true.
Proof.
  unfold contains. assert (∃ i, find p (a ++ p ++ b) = Some i) as [i ->]; [|done].
  induction a as [|c a [i IH]].
  - exists 0. assert (startswith (p ++ b) p = true) as Hs by (induction p as [|c p IH]; [done|]; cbn; by rewrite Z.eqb_refl, IH).
    cbn [app]. destruct (p ++ b); cbn [find]; by rewrite Hs.
  - cbn [app find]. destruct (startswith _ _); [by eexists|]. rewrite IH. by eexists.
Qed.

Lemma tagged_marked tag cells : contains ($"CHECKED") tag = true → tagged tag cells = true → marked cells = true.
Proof.
  intros Ht. unfold tagged, marked. rewrite !existsb_exists. intros (c & Hin & (a & b & ->)%contains_split). exists (a ++ tag ++ b). split; [done|].
  apply contains_split in Ht as (x & y & ->). replace (a ++ (x ++ $"CHECKED" ++ y) ++ b) with ((a ++ x) ++ $"CHECKED" ++ (y ++ b)) by by rewrite <- !app_assoc.
  apply contains_app.
Qed.

(** A row of the refreshed document comes from a row with one tag: refreshed, or left
    alone because there was nothing to write. *)
Definition settled (cells cells' : list str) : Prop :=
  one_tag cells ∧ (refreshes cells cells' ∨ cells' = cells ∧ refreshed builds_of cells = Ok None).

Lemma update_row text text' line : 13 ∉ text → rows_one_tag text → update_elf_symbols builds_of text = Ok text' →
  line ∈ splitlines text' → is_row (strip line) = true → ∃ cells, settled cells (row_cells (strip line)).
Proof.
  intros H13 Hone%(rows_one_tag_keep _ H13) H Hin Hrow. destruct (update_lines _ _ H13 H) as (new & Hnew & _ & Hstrip).
  apply list_elem_of_lookup in Hin as [i Hi]. destruct (Forall2_lookup_r _ _ _ _ _ Hstrip Hi) as (l' & Hl' & Es).
  destruct (Forall2_lookup_r _ _ _ _ _ Hnew Hl') as (l & Hl & Hr). rewrite Forall_forall in Hone. specialize (Hone l (list_elem_of_lookup_2 _ _ _ Hl)).
  rewrite <- Es in *. exists (row_cells (strip l)). split; [done|]. destruct (refresh_line_cases _ _ Hr) as [(_ & cells & Ec & ->)|[-> Hnone]].
  - left. apply refreshed_Some in Ec. destruct (refreshes_cells _ _ _ (row_cells_of (strip l)) Ec) as (Hne & Hp & _ & _).
    destruct (span_spec is_space l) as (_ & Hi' & _). by rewrite row_line_text, row_text_strip, row_text_cells by (done || apply nl_space).
  - right. auto.
Qed.

Lemma settled_symbol cells c0 c1 c2 rest a b : settled cells (c0 :: c1 :: c2 :: rest) → tagged ELF_TAG (c0 :: c1 :: c2 :: rest) = true →
  dget (unbacktick c0) r = Some a → dget (unbacktick c0) q = Some b → 0 ≤ a → 0 ≤ b → symbol_agrees (c0 :: c1 :: c2 :: rest).
Proof.
  destruct tags_marked as [M1 M2]. intros [Hone [Hr|[<- Hn]]] Ht Ea Eb Ha Hb; [|by rewrite (refreshed_symbol _ _ _ _ a b) in Hn].
  apply (tagged_marked ELF_TAG) in Ht as Hm; [|done]. inversion Hr as [? ? ? ? a' b' Ea' Eb' Et|? ? ? a' a0 b' b0 Ea' Eb' Ea0 Eb0 E Et H3]; subst.
  - exists c0, (address a'), (address b'), rest, a, b. split_and!; try done; rewrite parse_address; congruence.
  - exfalso. match type of Hr with refreshes (c0 :: ?x :: _) _ => apply (tagged_written _ _ _ _ x (offset_written _) M1) in Ht end.
    rewrite H3 in Ht; [done|zl].
Qed.

(** An offset is written as a number exactly when it is not negative. *)
Lemma settled_offset cells c0 c1 rest a a0 b b0 : settled cells (c0 :: c1 :: rest) → tagged OFFSET_TAG (c0 :: c1 :: rest) = true →
  dget (unbacktick c0) r = Some a → dget (unbacktick c0) q = Some b → dget OFFSET_ANCHOR r = Some a0 → dget OFFSET_ANCHOR q = Some b0 →
  a - a0 = b - b0 → offset_agrees (c0 :: c1 :: rest) ↔ 0 ≤ a - a0.
Proof.
  destruct tags_marked as [M1 M2]. unfold settled, one_tag. intros [Hone [Hr|[<- Hn]]] Ht Ea Eb Ea0 Eb0 E.
  2:{ rewrite Ht, andb_true_r in Hone. by rewrite (refreshed_offset _ _ _ a a0 b b0) in Hn. }
  apply (tagged_marked OFFSET_TAG) in Ht as Hm; [|done]. inversion Hr as [? x y ? a' b' Ea' Eb' Et|? ? ? a' a0' b' b0' Ea' Eb' Ea0' Eb0' E' Et H3]; subst.
  { exfalso. apply (tagged_written_both _ _ _ _ _ x y (address_written _) (address_written _) M2) in Ht. by rewrite Et, Ht in Hone. }
  assert (a' = a ∧ a0' = a0) as [-> ->] by (split; congruence). split.
  - intros (c & cell & rest' & n & n0 & m0 & [= <- <- <-] & _ & Hp & _). apply dec_stable. intros Hneg.
    rewrite parse_negative_offset in Hp by lia. done.
  - intros Hp. exists c0, (offset_cell (a - a0)), rest, (a - a0), a0, b0. split_and!; try done; [|rewrite Ea; f_equal; lia|rewrite Eb; f_equal; lia].
    by apply parse_offset.
Qed.

(** [--update] is stable.  When the document has been refreshed from the builds, a
    second refresh from the same builds writes the same text, for every document without
    carriage returns (reading it translates them) in which no row is tagged for two tables. *)
Theorem update_stable text text' : 13 ∉ text → rows_one_tag text → update_elf_symbols builds_of text = Ok text' →
  update_elf_symbols builds_of text' = Ok text'.
Proof.
  intros H13 Hone H. destruct (update_lines _ _ H13 H) as (new & Hnew & E & _). unfold update_elf_symbols. rewrite E.
  apply rows_one_tag_keep in Hone; [|done].
  assert (mapM_res (refresh_line builds_of) new = Ok new) as ->.
  { apply mapM_res_Forall2. clear -Hnew Hone. induction Hnew as [|l l' ls ls' Hl _ IH]; [constructor|]. apply Forall_cons in Hone as [H1 H2].
    constructor; [by eapply refresh_line_twice|by apply IH]. }
  cbn [mbind res_bind]. by rewrite <- E, concat_splitlines_keep.
Qed.

(** C16: what [--update] writes is what the check reads, but for negative offsets.  Of a
    document without carriage returns in which no row is tagged for two tables, refreshed
    from the two builds: a row tagged [CHECKED (ELF)] whose symbol both builds have at
    nonnegative addresses passes the check of the symbol table; a row tagged [CHECKED (ELF
    offset)] whose symbol is at the same distance from the anchor in both builds passes
    the check of the offset table exactly when that distance is not negative. *)
Theorem update_agrees text text' line c0 c1 rest a b : 13 ∉ text → rows_one_tag text → update_elf_symbols builds_of text = Ok text' →
  line ∈ splitlines text' → is_row (strip line) = true → row_cells (strip line) = c0 :: c1 :: rest →
  dget (unbacktick c0) r = Some a → dget (unbacktick c0) q = Some b →
  (tagged ELF_TAG (c0 :: c1 :: rest) = true → rest ≠ [] → 0 ≤ a → 0 ≤ b → check_symbol_row builds_of (c0 :: c1 :: rest) = Ok []) ∧
  (∀ a0 b0, tagged OFFSET_TAG (c0 :: c1 :: rest) = true → dget OFFSET_ANCHOR r = Some a0 → dget OFFSET_ANCHOR q = Some b0 →
     a - a0 = b - b0 → check_offset_row builds_of (c0 :: c1 :: rest) = Ok [] ↔ 0 ≤ a - a0).
Proof.
  intros H13 Hone H Hin Hrow Ec Ea Eb. destruct (update_row _ _ _ H13 Hone H Hin Hrow) as [cells Hs]. rewrite Ec in Hs. split.
  - intros Ht Hne Ha Hb. apply check_symbol_row_iff. destruct rest as [|c2 rest]; [done|]. by apply settled_symbol with cells a b.
  - intros a0 b0 Ht Ea0 Eb0 E. rewrite (check_offset_row_iff a0 b0) by done. by apply settled_offset with cells b b0.
Qed.
End refresh.

(** ** When the check passes *)

Section pass.
Context (nm : str → str → option str) (exists_elf : str → bool) (repo : str).
Context (source : str → res (option str)) (path_of : str → str) (view : str → res str).

Definition symbol_rows_agree (r q : symbols) (text : str) : Prop :=
  ∃ rows, table_after text SYMBOLS_MARK ELF_TAG = Ok rows ∧ Forall (symbol_agrees r q) rows.

Definition offset_rows_agree (r q : symbols) (text : str) : Prop :=
  ∃ c0 cells rows, table_after text OFFSETS_MARK OFFSET_TAG = Ok ((c0 :: cells) :: rows) ∧ unbacktick c0 = OFFSET_ANCHOR ∧
    Forall (offset_agrees r q) ((c0 :: cells) :: rows).

(** The image spans less than the bound. *)
Definition image_under (ceiling : Z) (found : symbols) : Prop :=
  ∃ start usable, dget ($"_start") found = Some start ∧ dget ($"usable_ram_start") found = Some usable ∧ usable - start < ceiling.

Definition ceiling_holds (r q : symbols) (text : str) : Prop :=
  ∃ c0 c1 rest n, table_after text CEILING_MARK ($"CHECKED (ELF ceiling)") = Ok [c0 :: c1 :: rest] ∧ marked (c0 :: c1 :: rest) = true ∧
    parse_int c1 = Some n ∧ image_under n r ∧ image_under n q.

(** The boundaries are in order and aligned. *)
Definition layout_holds (found : symbols) : Prop :=
  ∃ start bss_start bss_end anchor usable, dget ($"_start") found = Some start ∧ dget ($"__bss_start") found = Some bss_start ∧
    dget ($"__bss_end") found = Some bss_end ∧ dget OFFSET_ANCHOR found = Some anchor ∧ dget ($"usable_ram_start") found = Some usable ∧
    start < bss_start ≤ bss_end ∧ bss_end ≤ anchor < usable ∧
    bss_start mod PAGE_SIZE = 0 ∧ usable mod PAGE_SIZE = 0 ∧ anchor mod STACK_REGION_BYTES = 0.

(** The constant of the row is declared in its file with its value. *)
Definition const_agrees (cells : list str) : Prop :=
  ∃ c0 c1 c2 rest n text digits, cells = c0 :: c1 :: c2 :: rest ∧ marked cells = true ∧ parse_int c1 = Some n ∧
    source (unbacktick c2) = Ok (Some text) ∧ search_const (unbacktick c0) true text = Some digits ∧ py_int 0 (replace ($"_") [] digits) = Ok n.

Definition const_rows_agree (text : str) : Prop :=
  ∃ rows, table_after text CONSTS_MARK ($"CHECKED (const)") = Ok rows ∧ Forall const_agrees rows.

Lemma check_elf_symbols_iff r q text : check_elf_symbols (builds_of r q) text = Ok [] ↔ symbol_rows_agree r q text.
Proof.
  unfold check_elf_symbols, symbol_rows_agree. fold ELF_TAG. destruct (table_after _ _ _) as [rows|]; [|split; [done|naive_solver]]. cbn [mbind res_bind].
  rewrite problems_none. setoid_rewrite check_symbol_row_iff. naive_solver.
Qed.

Lemma check_elf_offsets_iff r q text : check_elf_offsets (builds_of r q) text = Ok [] ↔ offset_rows_agree r q text.
Proof.
  unfold check_elf_offsets, offset_rows_agree. fold OFFSET_TAG. split.
  - intros (us & Hus & (rows & -> & H)%bind_Ok_inv)%bind_Ok_inv. case_decide as Ea; [|done].
    destruct rows as [|[|c0 cells] rows]; [done..|]. exists c0, cells, rows. split_and!; [done|done|].
    apply problems_none in H. unfold builds_of, check_anchor, dmem in Hus. cbn [mapM_res snd] in Hus.
    destruct (dget OFFSET_ANCHOR r) as [a0|] eqn:Ea0; [|done]. destruct (dget OFFSET_ANCHOR q) as [b0|] eqn:Eb0; [|done].
    eapply Forall_impl; [exact H|]. intros row. by apply (check_offset_row_iff r q a0 b0).
  - intros (c0 & cells & rows & -> & Ea & H). apply Forall_cons in H as H'. destruct H' as [(? & ? & ? & ? & a0 & b0 & _ & _ & _ & Ea0 & Eb0 & _) _].
    assert (mapM_res check_anchor (builds_of r q) = Ok [(); ()]) as ->
      by (unfold builds_of, check_anchor, dmem; cbn [mapM_res snd]; by rewrite Ea0, Eb0).
    cbn [mbind res_bind].
    change (unbacktick (default [] (head _))) with (unbacktick c0). rewrite decide_True by done.
    apply problems_none. eapply Forall_impl; [exact H|]. intros row. by apply (check_offset_row_iff r q a0 b0).
Qed.

Lemma check_size_iff n platform found : check_size n (platform, found) = Ok [] ↔ image_under n found.
Proof.
  unfold check_size, image_under, get_or_absent. cbn [fst snd].
  destruct (dget ($"_start") found) as [start|]; [|split; [done|naive_solver]]. cbn [mbind res_bind].
  destruct (dget ($"usable_ram_start") found) as [usable|]; [|split; [done|naive_solver]]. cbn [mbind res_bind].
  destruct (Z.leb_spec n (usable - start)); (split; [intros [=]|]); [intros (? & ? & [= <-] & [= <-] & ?); lia|eauto|done].
Qed.

Lemma check_image_ceiling_iff r q text : check_image_ceiling (builds_of r q) text = Ok [] ↔ ceiling_holds r q text.
Proof.
  unfold check_image_ceiling, ceiling_holds.
  destruct (table_after _ _ _) as [[|[|c0 [|c1 rest]] [|]]|]; try (split; [done|by intros (? & ? & ? & ? & ? & _)]). cbn [mbind res_bind]. split.
  - intros ([] & Hm%check_state_Ok & H)%bind_Ok_inv. destruct (parse_int c1) as [n|] eqn:En; [|done]. apply problems_none in H.
    unfold builds_of in H. apply Forall_cons in H as [H1 [H2 _]%Forall_cons]. rewrite check_size_iff in H1, H2. eauto 10.
  - intros (? & ? & ? & n & [= <- <- <-] & Hm & En & Hr & Hq). rewrite (proj2 (check_state_Ok _ _ _ ()) Hm). cbn [mbind res_bind]. rewrite En.
    apply problems_none. unfold builds_of. by repeat (constructor; [by apply check_size_iff|]).
Qed.

Lemma check_layout_iff platform found : check_layout (platform, found) = Ok [] ↔ layout_holds found.
Proof.
  unfold check_layout, layout_holds, ORDERED_BOUNDARIES. case_decide as Hmiss.
  - split; [done|]. intros (s & bs & be & a & u & E1 & E2 & E3 & E4 & E5 & _). destruct Hmiss. apply filter_empty_iff.
    intros x Hx. unfold dmem. repeat (apply elem_of_cons in Hx as [->|Hx]; [by rewrite ?E1, ?E2, ?E3, ?E4, ?E5|]). by apply not_elem_of_nil in Hx.
  - clear Hmiss. unfold dget_or_raise.
    destruct (dget ($"_start") found) as [s|]; [|split; [done|naive_solver]]. destruct (dget ($"__bss_start") found) as [bs|]; [|split; [done|naive_solver]].
    destruct (dget ($"__bss_end") found) as [be|]; [|split; [done|naive_solver]]. destruct (dget OFFSET_ANCHOR found) as [a|]; [|split; [done|naive_solver]].
    destruct (dget ($"usable_ram_start") found) as [u|]; [|split; [done|naive_solver]]. cbn [of_option mbind res_bind].
    destruct ((s <? bs) && (bs <=? be) && (be <=? a) && (a <? u)) eqn:E, (Z.eqb_spec (bs mod PAGE_SIZE) 0),
      (Z.eqb_spec (u mod PAGE_SIZE) 0), (Z.eqb_spec (a mod STACK_REGION_BYTES) 0); (split; [intros [=]|intros (? & ? & ? & ? & ? & [= <-] & [= <-] & [= <-] & [= <-] & [= <-] & ?)]);
      try done; zbool; try (exists s, bs, be, a, u; split_and!; done || lia); exfalso; naive_solver lia.
Qed.

Lemma check_const_row_iff cells : check_const_row source path_of cells = Ok [] ↔ const_agrees cells.
Proof.
  unfold const_agrees. destruct cells as [|c0 [|c1 [|c2 rest]]]; try (split; [done|by intros (? & ? & ? & ? & ? & ? & ? & ? & _)]). unfold check_const_row. split.
  - intros ([] & Hm%check_state_Ok & H)%bind_Ok_inv. destruct (parse_int c1) as [n|] eqn:En; [|done].
    apply bind_Ok_inv in H as ([text|] & Es & H); [|done]. destruct (search_const _ _ text) as [digits|] eqn:Ed; [|done].
    apply bind_Ok_inv in H as (m & Em & H). destruct (Z.eqb_spec m n) as [->|]; [|done]. by exists c0, c1, c2, rest, n, text, digits.
  - intros (? & ? & ? & ? & n & text & digits & [= <- <- <- <-] & Hm & En & Es & Ed & Em). rewrite (proj2 (check_state_Ok _ _ _ ()) Hm). cbn [mbind res_bind].
    rewrite En, Es. cbn [mbind res_bind]. rewrite Ed, Em. cbn [mbind res_bind]. by rewrite Z.eqb_refl.
Qed.

Lemma check_consts_iff text : check_consts source path_of text = Ok [] ↔ const_rows_agree text.
Proof.
  unfold check_consts, const_rows_agree. destruct (table_after _ _ _) as [rows|]; [|split; [done|naive_solver]]. cbn [mbind res_bind].
  rewrite problems_none. setoid_rewrite check_const_row_iff. naive_solver.
Qed.
(** Everything the check compares: the tables against the symbols and the sources, the
    layout of both images, and templates every lane can render. *)
Definition map_agrees (text : str) (debug : bool) (expectations : Z) : Prop :=
  ∃ r q, nm_symbols nm exists_elf (RPI5_ELF repo) = Ok r ∧ nm_symbols nm exists_elf (QEMU_ELF repo) = Ok q ∧
    symbol_rows_agree r q text ∧ offset_rows_agree r q text ∧ ceiling_holds r q text ∧ layout_holds r ∧ layout_holds q ∧ const_rows_agree text ∧
    render_allocator_expectations (nm_symbols nm exists_elf) view repo debug = Ok expectations.

Lemma check_layout_invariants_iff r q : check_layout_invariants (builds_of r q) = Ok [] ↔ layout_holds r ∧ layout_holds q.
Proof.
  unfold check_layout_invariants. rewrite problems_none. unfold builds_of. rewrite !Forall_cons, !check_layout_iff. split; [tauto|]. intros [? ?]. by split_and!.
Qed.

Lemma all_checks_iff text debug n : all_checks nm exists_elf repo source path_of view text debug = Ok ([], n) ↔ map_agrees text debug n.
Proof.
  unfold all_checks, both_symbols, map_agrees.
  destruct (nm_symbols nm exists_elf (RPI5_ELF repo)) as [r|]; [|split; [done|naive_solver]].
  destruct (nm_symbols nm exists_elf (QEMU_ELF repo)) as [q|]; [|split; [done|naive_solver]]. cbn [mbind res_bind]. fold (builds_of r q). split.
  - intros (p1 & H1 & (p2 & H2 & (p3 & H3 & (p4 & H4 & (p5 & H5 & (m & Hm & [= E ->])%bind_Ok_inv)%bind_Ok_inv)%bind_Ok_inv)%bind_Ok_inv)%bind_Ok_inv)%bind_Ok_inv.
    apply app_nil in E as [-> (-> & (-> & (-> & ->)%app_nil)%app_nil)%app_nil].
    apply check_elf_symbols_iff in H1. apply check_elf_offsets_iff in H2. apply check_image_ceiling_iff in H3.
    apply check_layout_invariants_iff in H4 as []. apply check_consts_iff in H5. by exists r, q.
  - intros (? & ? & [= <-] & [= <-] & H1%check_elf_symbols_iff & H2%check_elf_offsets_iff & H3%check_image_ceiling_iff & H4 & H4' & H5%check_consts_iff & Hm).
    rewrite H1, H2, H3, (proj2 (check_layout_invariants_iff r q)), H5, Hm by done. done.
Qed.

Lemma expectations_positive symbols_of debug n : render_allocator_expectations symbols_of view repo debug = Ok n → 0 < n.
Proof.
  unfold render_allocator_expectations. intros (? & _ & (? & _ & (pages & _ & H)%bind_Ok_inv)%bind_Ok_inv)%bind_Ok_inv. pose proof (zlen_nonneg pages).
  destruct debug; [apply bind_Ok_inv in H as (? & _ & H)|]; injection H as <-; lia.
Qed.

Lemma verdict_iff text debug line : verdict nm exists_elf repo source path_of view text debug = Ok line ↔
  ∃ n, map_agrees text debug n ∧
    line = $"PASS kernel/memory-map: checked rows and " ++ dec n ++ $" allocator expectations match the linked kernels" ++
           (if debug then $", including the debug image" else []).
Proof.
  unfold verdict. split.
  - intros ([problems n] & H & Hv)%bind_Ok_inv. case_decide as E; [|done]. subst problems. apply all_checks_iff in H. apply report_pass_ok in Hv as (-> & _). by exists n.
  - intros (n & H & ->). apply all_checks_iff in H as Ha. rewrite Ha. cbn [mbind res_bind]. rewrite decide_True by done. apply report_pass_ok.
    destruct H as (r & q & _ & _ & _ & _ & _ & _ & _ & _ & Hn%expectations_positive). split_and!; [done|done|by repeat constructor].
Qed.

Lemma exit_with_pass said written m o : o_status o = 0 → exit_with said written m = Ok o ↔ m = Ok o.
Proof.
  intros Ho. unfold exit_with. destruct m as [|[]]; try done. case_decide; [|done]. split; [|done]. intros [= <-]. done.
Qed.

Lemma reject_iff text : reject_conflict_markers text = Ok () ↔ Forall (fun line => is_conflict line = false) (splitlines text).
Proof.
  unfold reject_conflict_markers. generalize 1 as number. induction (splitlines text) as [|line lines IH]; intros number; cbn [reject_from]; [done|].
  rewrite Forall_cons. destruct (is_conflict line); [split; [done|by intros []]|]. rewrite IH. tauto.
Qed.

(** C10: the check passes exactly when the document and the build agree.  Without [--update]
    the exit status is 0 if and only if the document exists and has no conflict marker, every
    row of the four tables states what the linked kernels and the sources have, both images
    are under the ceiling, in order and aligned, and every boot expectation can be rendered;
    it then prints one line and writes nothing. *)
Theorem memory_map_passes doc argv o : ($"--update" ∉ argv) → o_status o = 0 →
  check_main nm exists_elf repo source path_of view doc argv = Ok o ↔
  ∃ text n, doc = Some text ∧ Forall (fun line => is_conflict line = false) (splitlines text) ∧ map_agrees text (bool_decide ($"--debug" ∈ argv)) n ∧
    o = Outcome 0 ($"PASS kernel/memory-map: checked rows and " ++ dec n ++ $" allocator expectations match the linked kernels" ++
          (if bool_decide ($"--debug" ∈ argv) then $", including the debug image" else []) ++ nl) [] None.
Proof.
  intros Hu Ho. unfold check_main. rewrite exit_with_pass by done. destruct doc as [text|]; [|split; [done|naive_solver]]. cbn [mbind res_bind]. split.
  - intros ([] & Hr%reject_iff & H)%bind_Ok_inv. rewrite decide_False in H by done. unfold finish in H. rewrite exit_with_pass in H by done.
    apply bind_Ok_inv in H as (line & (n & Hn & ->)%verdict_iff & [= <-]). exists text, n. split_and!; [done..|]. cbn [app]. by rewrite <- !app_assoc.
  - intros (? & n & [= <-] & Hr%reject_iff & Hn & ->). rewrite Hr. cbn [mbind res_bind]. rewrite decide_False by done. unfold finish.
    apply exit_with_pass; [done|]. eapply bind_Ok; [apply verdict_iff; eauto|]. cbn [app]. by rewrite <- !app_assoc.
Qed.
End pass.

(** ** Page counts *)

Lemma page_span_iff start end_ label n : page_span start end_ label = Ok n ↔
  start mod PAGE_SIZE = 0 ∧ end_ mod PAGE_SIZE = 0 ∧ start < end_ ∧ end_ = start + n * PAGE_SIZE.
Proof.
  unfold page_span, PAGE_SIZE. destruct (Z.eqb_spec (start mod 4096) 0), (Z.eqb_spec (end_ mod 4096) 0), (Z.leb_spec end_ start); cbn [negb orb];
    try (split; [done|intros (? & ? & ? & ?); lia]).
  pose proof (Z.div_mod end_ 4096 ltac:(lia)). pose proof (Z.div_mod start 4096 ltac:(lia)).
  assert ((end_ - start) / 4096 = end_ / 4096 - start / 4096) as -> by (symmetry; apply Z.div_unique_exact; lia).
  split; [intros [= <-]; lia|]. intros (_ & _ & _ & E). f_equal. lia.
Qed.

(** C36: the page counts of the FDT lane.  They are computed exactly when the first free
    address of the kernel is page-aligned and below the end of low RAM, and then the low
    memory has at least one page, the multi-bank count is the low count and the pages above
    it, the discontiguous count is the multi-bank count without the hole, and for a kernel
    linked in RAM no count exceeds the pages of RAM. *)
Theorem fdt_pages_bounds start pages : QEMU_RAM_BASE ≤ start →
  fdt_expected_pages start = Ok pages ↔
  start mod PAGE_SIZE = 0 ∧ start < QEMU_LOW_RAM_END ∧
  ∃ multi low hole, pages = [($"MULTIBANK_EXPECTED", multi); ($"LOW_MEMORY_EXPECTED", low); ($"DISCONTIGUOUS_MEMORY_EXPECTED", hole)] ∧
    low * PAGE_SIZE = QEMU_LOW_RAM_END - start ∧ multi * PAGE_SIZE = low * PAGE_SIZE + (QEMU_RAM_END - QEMU_LOW_RAM_END) ∧
    hole * PAGE_SIZE = multi * PAGE_SIZE - (QEMU_HOLE_SECOND_START - QEMU_HOLE_FIRST_END) ∧
    1 ≤ low < hole ∧ hole < multi ≤ (QEMU_RAM_END - QEMU_RAM_BASE) / PAGE_SIZE.
Proof.
  intros Hb. unfold fdt_expected_pages. split.
  - intros (multi & H1%page_span_iff & (low & H2%page_span_iff & (f & H3%page_span_iff & (s & H4%page_span_iff & [= <-])%bind_Ok_inv)%bind_Ok_inv)%bind_Ok_inv)%bind_Ok_inv.
    unfold PAGE_SIZE, QEMU_RAM_BASE, QEMU_RAM_END, QEMU_LOW_RAM_END, QEMU_HOLE_FIRST_END, QEMU_HOLE_SECOND_START in *.
    split_and!; [lia|lia|]. exists multi, low, (f + s).
    change ((0x80000000 - 0x40000000) / 4096) with 0x40000. split_and!; done || lia.
  - intros (Ha & Hl & multi & low & hole & -> & E1 & E2 & E3 & _).
    unfold PAGE_SIZE, QEMU_RAM_BASE, QEMU_RAM_END, QEMU_LOW_RAM_END, QEMU_HOLE_FIRST_END, QEMU_HOLE_SECOND_START in *.
    rewrite (proj2 (page_span_iff start 0x80000000 _ multi)) by (unfold PAGE_SIZE; split_and!; done || lia). cbn [mbind res_bind].
    rewrite (proj2 (page_span_iff start 0x48000000 _ low)) by (unfold PAGE_SIZE; split_and!; done || lia). cbn [mbind res_bind].
    rewrite (proj2 (page_span_iff start 0x50000000 _ (hole - 0x20000))) by (unfold PAGE_SIZE; split_and!; done || lia). cbn [mbind res_bind].
    rewrite (proj2 (page_span_iff _ _ _ 0x20000)) by (unfold PAGE_SIZE; split_and!; done || lia). cbn [mbind res_bind]. do 4 f_equal. f_equal. lia.
Qed.

(** ** A small map *)

Definition sample_rpi5 : symbols := [($"_start", 0x80000); ($"__bss_start", 0x90000); ($"__bss_end", 0x91000); (OFFSET_ANCHOR, 0x98000); ($"usable_ram_start", 0xa0000)].
Definition sample_qemu : symbols := map (fun sv => (sv.1, sv.2 + 0x40000000)) sample_rpi5.
Definition sample_nm (_ elf : str) : option str :=
  Some (concat (map (fun sv => hex sv.2 ++ $" T " ++ sv.1 ++ nl) (if contains ($"rpi5") elf then sample_rpi5 else sample_qemu))).
Definition sample_doc (start : str) : str := concat (map (fun line => line ++ nl)
  [SYMBOLS_MARK; $"| symbol | RPi5 | QEMU | State |"; $"|---|---|---|---|"; $"| `_start` | `" ++ start ++ $"` | `0x40080000` | CHECKED (ELF) |";
   OFFSETS_MARK; $"| symbol | offset | State |"; $"| `boot_stack_run_bottom` | `+0x00000` | CHECKED (ELF offset) |";
   $"| `usable_ram_start` | `+0x8000` | CHECKED (ELF offset) |";
   CEILING_MARK; $"| span | ceiling | State |"; $"| image | `0x40_0000` | CHECKED (ELF ceiling) |";
   CONSTS_MARK; $"| constant | value | file | State |"; $"| `PAGE` | 4096 | `k.tkb` | CHECKED (const) |"]).
Definition sample_source (_ : str) : res (option str) := Ok (Some ($"const PAGE: u64 = 0x1000;" ++ nl)).
Definition sample_view (_ : str) : res str := Ok ($"memory: ok allocator_pages=<allocator_pages>" ++ nl).

Lemma memory_map_passes_witness :
  let text := sample_doc ($"0x80000") in
  Forall (fun line => is_conflict line = false) (splitlines text) ∧ map_agrees sample_nm (fun _ => true) [] sample_source sample_view text false 5.
Proof.
  destruct (proj1 (memory_map_passes sample_nm (fun _ => true) [] sample_source (fun f => f) sample_view (Some (sample_doc ($"0x80000"))) []
    (Outcome 0 ($"PASS kernel/memory-map: checked rows and 5 allocator expectations match the linked kernels" ++ nl) [] None)
    ltac:(by_compute) eq_refl)) as (text & n & [= <-] & Hc & Ha & E).
  { by_compute. }
  split; [exact Hc|]. assert (n = 5) as <-; [|exact Ha].
  destruct Ha as (r & q & _ & _ & _ & _ & _ & _ & _ & _ & Hn). vm_compute in Hn. by injection Hn.
Defined.

(** The refreshed map: addresses in eight digits, offsets in five. *)
Definition refreshed_sample : str := Eval vm_compute in
  match update_elf_symbols (builds_of sample_rpi5 sample_qemu) (sample_doc ($"0x1")) with Ok text => text | Err _ => [] end.

Lemma sample_refreshes : update_elf_symbols (builds_of sample_rpi5 sample_qemu) (sample_doc ($"0x1")) = Ok refreshed_sample.
Proof. by_compute. Qed.

Lemma sample_tags : (13 ∉ sample_doc ($"0x1")) ∧ rows_one_tag (sample_doc ($"0x1")).
Proof. split; [by_compute|]. unfold rows_one_tag, one_tag. by_compute. Qed.

Lemma update_stable_witness : update_elf_symbols (builds_of sample_rpi5 sample_qemu) refreshed_sample = Ok refreshed_sample.
Proof.
  destruct sample_tags as [H13 Hone]. exact (update_stable sample_rpi5 sample_qemu _ _ H13 Hone sample_refreshes).
Defined.

Lemma update_agrees_witness :
  check_symbol_row (builds_of sample_rpi5 sample_qemu) [$"`_start`"; $"`0x00080000`"; $"`0x40080000`"; $"CHECKED (ELF)"] = Ok [] ∧
  check_offset_row (builds_of sample_rpi5 sample_qemu) [$"`usable_ram_start`"; $"`+0x08000`"; $"CHECKED (ELF offset)"] = Ok [].
Proof.
  destruct sample_tags as [H13 Hone]. split.
  - refine (proj1 (update_agrees sample_rpi5 sample_qemu _ _ ($"| `_start` | `0x00080000` | `0x40080000` | CHECKED (ELF) |") ($"`_start`") ($"`0x00080000`")
      [$"`0x40080000`"; $"CHECKED (ELF)"] 0x80000 0x40080000 H13 Hone sample_refreshes _ _ _ _ _) _ _ _ _); [by_compute..|done|lia|lia].
  - refine (proj2 (proj2 (update_agrees sample_rpi5 sample_qemu _ _ ($"| `usable_ram_start` | `+0x08000` | CHECKED (ELF offset) |") ($"`usable_ram_start`")
      ($"`+0x08000`") [$"CHECKED (ELF offset)"] 0xa0000 0x400a0000 H13 Hone sample_refreshes _ _ _ _ _) 0x98000 0x40098000 _ _ _ _) _); [by_compute..|lia|lia].
Defined.

Lemma fdt_pages_bounds_witness : 1 ≤ 0x7f60 < 0x2ff60 ∧
  fdt_expected_pages 0x400a0000 = Ok [($"MULTIBANK_EXPECTED", 0x3ff60); ($"LOW_MEMORY_EXPECTED", 0x7f60); ($"DISCONTIGUOUS_MEMORY_EXPECTED", 0x2ff60)].
Proof.
  split; [lia|]. apply (fdt_pages_bounds 0x400a0000); [by vm_compute|]. split_and!; [done|done|].
  exists 0x3ff60, 0x7f60, 0x2ff60. split_and!; done.
Defined.

(** ** A row nothing reads *)

(** The rows of the first table are counted against the tag, not searched for it. *)
Definition displaced_doc : str := concat (map (fun line => line ++ nl)
  [SYMBOLS_MARK; $"| symbol | RPi5 | QEMU | State |"; $"| `_start` | `0x80000` | `0x40080000` | CHECKED |"; [];
   $"| `__bss_start` | `0xdead` | `0xdead` | CHECKED (ELF) |"]).

(** A row that claims to be verified can escape the check.  The table of symbols is
    compared with the number of rows tagged [CHECKED (ELF)] in the document, not with those
    rows, so a row of the table marked only [CHECKED] makes room for a tagged row outside
    it: the check of the document reports no problem, while the check of that row would
    report two. *)
Example displaced_row_unread :
  check_elf_symbols (builds_of sample_rpi5 sample_qemu) displaced_doc = Ok [] ∧
  ∃ line cells problems, line ∈ splitlines displaced_doc ∧ row_cells (strip line) = cells ∧ tagged ELF_TAG cells = true ∧
    check_symbol_row (builds_of sample_rpi5 sample_qemu) cells = Ok problems ∧ zlen problems = 2.
Proof.
  split; [by_compute|]. exists ($"| `__bss_start` | `0xdead` | `0xdead` | CHECKED (ELF) |"). eexists _, _.
  split; [by_compute|]. split; [reflexivity|]. split; [by_compute|]. split; [vm_compute; reflexivity|done].
Qed.
