(* ===== verification/SlotPool.v ===== *)
(** * Slot pools

    Model of scripts/check_slot_pool_entries.py: the functions of the kernel's sources
    with their calls, the functions that hold a slot of a scratch pool, and the rules that
    keep an operation from holding two slots of one pool, from sleeping with one and from
    taking the pools out of order.  The source files are an argument.  A set is a list in
    which order and repetition do not matter. *)
From S2P Require Import Prelude Text Dict Sort PassLine SourceScan CallGraph.

(** The rule of a pool. *)
Inductive pool_rule : Type := Leaf | Holders.
#[export] Instance pool_rule_eq_dec : EqDecision pool_rule.
Proof. solve_decision. Defined.

Record pool := Pool { p_file : str; p_acquire : str; p_token : str; p_rule : pool_rule }.

Definition POOLS : list pool :=
  [Pool ($"kernel/fs/ext2/ext2.tkb") ($"ext2_slot_acquire") ($"Ext2Slot") Leaf;
   Pool ($"kernel/drivers/block/memory.tkb") ($"block_slot_acquire") ($"BlockSlot") Leaf;
   Pool ($"kernel/mm/process_image.tkb") ($"process_image_slot_acquire") ($"ProcessImageSlot") Leaf;
   Pool ($"kernel/kernel/syscall.tkb") ($"syscall_slot_acquire") ($"SyscallSlot") Holders;
   Pool ($"kernel/init/test_driver.tkb") ($"exec_window_slot_acquire") ($"ExecWindowSlot") Leaf].

Definition MUTATION_TAKE : str := $"ext2_mutation_take".
Definition RANK : list (str * Z) :=
  [(MUTATION_TAKE, 0); ($"syscall_slot_acquire", 1); ($"exec_window_slot_acquire", 1); ($"process_image_slot_acquire", 2);
   ($"ext2_slot_acquire", 3); ($"block_slot_acquire", 4)].
Definition INNER_GUARDS : list str := [$"BlockDeviceGuard"; $"TcpConnectionOwner"; $"XhciRingGuard"; $"MscDmaGuard"].

(** [SLEEP] on a name. *)
Definition SLEEP (name : str) : bool :=
  match strip_prefix ($"kernel_process_block_") name with
  | Some rest => bool_decide (rest ≠ []) && forallb is_word rest
  | None => false
  end || bool_decide (name = $"kernel_syscall_block_return").

(** ** The functions of a source *)

(** The names [CALL] finds: the words followed by a parenthesis.  [inside] after a
    character of a word. *)
Fixpoint calls_from (inside : bool) (s : str) : list str :=
  match s with
  | [] => []
  | c :: s' =>
      (if is_word c && negb inside
       then let '(name, rest) := span is_word s in
            match lstrip rest with 40 :: _ => [name] | _ => [] end
       else []) ++ calls_from (is_word c) s'
  end.
Definition calls (s : str) : list str := calls_from false s.

(** A call of a name: the rest after the parenthesis of the first one. *)
Fixpoint call_of (name : str) (prev : option Z) (s : str) : option str :=
  match (if boundary prev s then r ← strip_prefix name s; strip_prefix ($"(") (lstrip r) else None) with
  | Some rest => Some rest
  | None => match s with [] => None | c :: s => call_of name (Some c) s end
  end.
Definition has_call (name s : str) : bool := match call_of name None s with Some _ => true | None => false end.
Definition names_word (w s : str) : bool := has_word [w] None s.

(** [FUNCTION] at the start of a line. *)
Definition header_call (line : str) : option (str * str) :=
  '(name, s) ← header_name line;
  rest ← strip_prefix ($"(") (lstrip s);
  Some (name, rest).

Fixpoint header_starts (fuel : nat) (at_ : Z) (line_start : bool) (s : str) : list (Z * str) :=
  match fuel with
  | O => []
  | S fuel =>
      match s with
      | [] => []
      | c :: rest =>
          match (if line_start then header_call s else None) with
          | Some (name, rest) => (at_, name) :: header_starts fuel (at_ + (zlen s - zlen rest)) false rest
          | None => header_starts fuel (at_ + 1) (c =? 10) rest
          end
      end
  end.

(** A chunk up to the first brace that no exclamation mark precedes, and from it on. *)
Fixpoint split_brace (bang : bool) (s : str) : str * str :=
  match s with
  | [] => ([], [])
  | c :: s' =>
      if (c =? 123) && negb bang then ([], s)
      else let '(signature, body) := split_brace (c =? 33) s' in (c :: signature, body)
  end.

Fixpoint chunks (code : str) (starts : list (Z * str)) : list (str * (str * str)) :=
  match starts with
  | [] => []
  | (start, name) :: rest =>
      let end_ := match rest with (e, _) :: _ => e | [] => zlen code end in
      (name, split_brace false (slice code start end_)) :: chunks code rest
  end.

(** Name, and signature and body, with comments removed. *)
Definition function_rows (text : str) : list (str * (str * str)) :=
  let code := code_only text in chunks code (header_starts (length code) 0 true code).

Abbreviation table := (list (str * (str * str))).
Definition functions (text : str) : table := foldl (fun d nf => dset nf.1 nf.2 d) [] (function_rows text).

Definition callees (body : str) (known : list str) : list str := filter (fun name => name ∈ known) (remove_dups (calls body)).

(** ** Reachable functions *)

Abbreviation graph := (list (str * list str)).

Definition next (g : graph) (name : str) : list str := default [] (dget name g).

(** [todo] is kept with the end that [pop] takes in front. *)
Definition reach_body (g : graph) (st : list str * list str) : flow (list str * list str) (res (list str)) :=
  let '(seen, todo) := st in
  match todo with
  | [] => Stop (Ok seen)
  | name :: todo => if mem name seen then Next (seen, todo) else Next (seen ++ [name], reverse (next g name) ++ todo)
  end.
(** Every name put on [todo] is a callee of the start or of a name that is left for good. *)
Definition reach_fuel (g : graph) (start : str) : nat := S (length (next g start) + sum_list_with (fun e => length e.2) g).
Definition reach (start : str) (g : graph) : res (list str) :=
  while (reach_fuel g start) (reach_body g) ([], reverse (next g start)).

(** ** The rules of one pool *)

Definition holds (acquire token : str) (f : str * str) : bool := names_word token f.1 || has_call acquire f.2.
Definition holders_of (fns : table) (acquire token : str) : list str :=
  map fst (filter (fun nf => nf.1 ≠ acquire ∧ holds acquire token nf.2 = true) fns).

Definition held_problem (entry : str) : str := entry ++ $" acquires a slot while it is handed one".
Definition leaf_problem (name entry : str) : str :=
  name ++ $" calls " ++ entry ++ $", an entry point that acquires its own slot; pass the caller's slot to the internal version instead".
Definition reach_problem (holder token entry : str) : str :=
  holder ++ $" holds a " ++ token ++ $" and reaches " ++ entry ++
  $", an entry point that acquires its own slot; pass the caller's slot to the internal version instead".
Definition sleep_problem (holder token callee : str) : str :=
  holder ++ $" holds a " ++ token ++ $" and calls " ++ callee ++ $", which reaches a scheduler sleep; release the slot before the wait".
Definition return_problem (name token : str) : str :=
  name ++ $" returns a " ++ token ++ $"; a slot must be released by the function that acquired it".

Definition returns (token signature : str) : bool :=
  match find ($"->") signature with Some arrow => names_word token (from signature arrow) | None => false end.

(** The functions that call the acquire; all are keys of the table. *)
Definition entries_of (fns : table) (acquire : str) : list str := map fst (filter (fun nf => has_call acquire nf.2.2 = true) fns).
Definition row_of (fns : table) (name : str) : str * str := default ([], []) (dget name fns).

Definition leaf_problems (fns : table) (entry : str) : list str :=
  map (fun nf => leaf_problem nf.1 entry)
    (filter (fun nf => nf.1 ≠ entry ∧ names_word entry (nf.2.1 ++ nf.2.2) = true) fns).

Definition holder_problems (fns : table) (entries : list str) (g : graph) (token : str) (rule : pool_rule) (sleepers : list str)
    (holder : str) : res (list str) :=
  reached ← (if decide (rule = Holders) then reached ← reach holder g; Ok (filter (fun e => e ∈ entries) reached) else Ok []);
  Ok (map (reach_problem holder token) (py_sorted str_le reached) ++
      map (sleep_problem holder token)
        (filter (fun callee => callee ∈ sleepers ∨ SLEEP callee = true) (sorted_set (calls (row_of fns holder).2)))).

Definition problems_in (text acquire token : str) (rule : pool_rule) (sleepers : list str) : res (list str * list str) :=
  let fns := functions text in
  let entries := entries_of fns acquire in
  let g := map (fun nf => (nf.1, callees nf.2.2 (map fst fns))) fns in
  let held := map held_problem (filter (fun entry => names_word token (row_of fns entry).1 = true) (py_sorted str_le entries)) in
  let leaves := if decide (rule = Leaf) then concat (map (leaf_problems fns) (py_sorted str_le entries)) else [] in
  holding ← mapM_res (holder_problems fns entries g token rule sleepers) (py_sorted str_le (holders_of fns acquire token));
  let returned := map (fun nf => return_problem nf.1 token) (filter (fun nf => nf.1 ≠ acquire ∧ returns token nf.2.1 = true) fns) in
  Ok (entries, held ++ leaves ++ concat holding ++ returned).

(** ** The kernel's functions *)

(** [fns.setdefault(name, []).append(...)] over the functions of the files that are kept. *)
Definition add_function (d : list (str * table)) (nf : str * (str * str)) : list (str * table) :=
  dset nf.1 (default [] (dget nf.1 d) ++ [nf]) d.
Definition gather (keep : str → bool) (files : list (str * str)) : list (str * table) :=
  foldl (fun d pt => if keep pt.1 then foldl add_function d (functions pt.2) else d) [] files.

Definition in_kernel (path : str) : bool := startswith path ($"kernel/").

Definition sleep_graph (files : list (str * str)) : graph :=
  map (fun nr => (nr.1, remove_dups (concat (map (fun nf => calls nf.2.2) nr.2)))) (gather in_kernel files).

(** One pass: a function becomes a sleeper when it calls one. *)
Definition sleep_step (st : bool * list str) (e : str * list str) : bool * list str :=
  let '(changed, sleeping) := st in
  let '(name, called) := e in
  if negb (mem name sleeping) && existsb (fun c => mem c sleeping) called then (true, sleeping ++ [name]) else (changed, sleeping).
Definition sleep_body (g : graph) (sleeping : list str) : flow (list str) (res (list str)) :=
  let '(changed, sleeping) := foldl sleep_step (false, sleeping) g in
  if changed : bool then Next sleeping else Stop (Ok sleeping).
Definition sleepers_in (files : list (str * str)) : res (list str) :=
  let g := sleep_graph files in
  let sleeping := filter (fun name => SLEEP name = true) (map fst g ++ concat (map snd g)) in
  while (S (length g)) (sleep_body g) (remove_dups sleeping).

(** ** The order of the pools *)

Definition nests (path : str) : bool := in_kernel path && negb (contains ($"/tests/") path).

Definition nest_graph (fns : list (str * table)) : graph :=
  map (fun nr => (nr.1, filter (fun name => name ∈ map fst fns) (remove_dups (concat (map (fun nf => calls nf.2.2) nr.2))))) fns.

(** The calls of a function while it holds a slot: all of them when it is handed one,
    those after the acquire when it takes one. *)
Definition held_calls (acquire token : str) (f : str * str) : list str :=
  if names_word token f.1 then calls f.2
  else match call_of acquire None f.2 with Some rest => calls rest | None => [] end.

Definition outer_problem (holder token target : str) : str :=
  holder ++ $" holds a " ++ token ++ $" and reaches " ++ target ++
  $", which is outside it; with more holders than cores that is a deadlock (kernel/models/SlotPool.tla)".
Definition inner_problem (name token target : str) : str :=
  name ++ $" holds a " ++ token ++ $" and reaches " ++ target ++ $"; that lock is inside every slot pool".

Definition rank (name : str) : Z := default 0 (dget name RANK).
Definition ranked (names : list str) : list str := filter (fun name => name ∈ map fst RANK) (sorted_set names).

(** [reached_from] caches [reach]. *)
Definition pool_problems (g : graph) (p : pool) (nr : str * table) : res (list str) :=
  if decide (nr.1 = p_acquire p) then Ok [] else
  let held := concat (map (fun nf => held_calls (p_acquire p) (p_token p) nf.2) nr.2) in
  below ← mapM_res (fun callee => reach callee g) held;
  Ok (map (outer_problem nr.1 (p_token p))
        (filter (fun target => ¬ (target = p_acquire p ∨ rank (p_acquire p) < rank target)) (ranked (held ++ concat below)))).

Definition guard_problems (g : graph) (token : str) (nr : str * table) : res (list str) :=
  if existsb (fun nf => names_word token nf.2.1) nr.2 then
    reached ← reach nr.1 g; Ok (map (inner_problem nr.1 token) (ranked reached))
  else Ok [].

Definition key_le (a b : str * table) : bool := str_le a.1 b.1.

Definition nesting_problems (files : list (str * str)) : res (list str) :=
  let fns := gather nests files in
  let g := nest_graph fns in
  outer ← mapM_res (fun p => problems ← mapM_res (pool_problems g p) (py_sorted key_le fns); Ok (concat problems)) POOLS;
  inner ← mapM_res (fun token => problems ← mapM_res (guard_problems g token) (py_sorted key_le fns); Ok (concat problems)) INNER_GUARDS;
  Ok (concat outer ++ concat inner).

(** ** The controls *)

(** Whether the rules of a pool report something. *)
Definition detected (text acquire token : str) (rule : pool_rule) (sleepers : list str) : res bool :=
  '(_, problems) ← problems_in text acquire token rule sleepers; Ok (bool_decide (problems ≠ [])).
Definition nesting_detected (text : str) : res bool :=
  problems ← nesting_problems [($"kernel/x.tkb", text)]; Ok (bool_decide (problems ≠ [])).

Definition base_text (acquire token : str) : str :=
  $"private fn " ++ acquire ++ $"() -> " ++ token ++ $"[0] { }" ++ nl ++ $"fn op_a(x: usize) -> usize {" ++ nl ++
  $"    let slot: " ++ token ++ $"[0] = " ++ acquire ++ $"();" ++ nl ++ $"}" ++ nl.

(** The controls of a pool: the text, whether it must be reported, and the complaint. *)
Definition pool_controls (p : pool) : list (res bool * bool * str) :=
  let base := base_text (p_acquire p) (p_token p) in
  let case text := detected text (p_acquire p) (p_token p) Leaf [] in
  let missed label := p_token p ++ $" control '" ++ label ++ $"' was not detected" in
  [(case (base ++ $"fn op_b(slot: borrow " ++ p_token p ++ $"[0]) { op_a(1); }" ++ nl), true, missed ($"internal call of an entry"));
   (case ($"fn op_c(slot: borrow " ++ p_token p ++ $"[0]) {" ++ nl ++ $"    let s: " ++ p_token p ++ $"[0] = " ++ p_acquire p ++ $"();" ++ nl ++ $"}" ++ nl),
    true, missed ($"entry that holds a slot"));
   (case (base ++ $"fn op_b() { } // op_a(1)" ++ nl), false, $"a comment was reported as a call")].

Definition holder_base : str :=
  $"private fn syscall_slot_acquire() -> SyscallSlot[0] { }" ++ nl ++ $"fn op_a(x: usize) -> usize {" ++ nl ++
  $"    let slot: SyscallSlot[0] = syscall_slot_acquire();" ++ nl ++ $"    op_a_with(slot);" ++ nl ++ $"}" ++ nl ++
  $"fn op_a_with(slot: borrow SyscallSlot[0]) { }" ++ nl ++ $"fn dispatch() { op_a(1); }" ++ nl.

Definition holder_controls : list (res bool * bool * str) :=
  let case text sleepers := detected (holder_base ++ text) ($"syscall_slot_acquire") ($"SyscallSlot") Holders sleepers in
  let missed label := $"control '" ++ label ++ $"' was not detected" in
  [(case [] [], false, $"the dispatcher's call of an entry was reported, though it holds no slot");
   (case ($"fn helper() { op_a(2); }" ++ nl ++ $"fn op_b_with(slot: borrow SyscallSlot[0]) { helper(); }" ++ nl) [$"deep_wait"],
    true, missed ($"holder reaching an entry through a helper"));
   (case ($"fn op_c_with(slot: borrow SyscallSlot[0]) {" ++ nl ++ $"    kernel_process_block_wait4(1);" ++ nl ++ $"}" ++ nl) [$"deep_wait"],
    true, missed ($"holder calling a scheduler sleep"));
   (case ($"fn op_d_with(slot: borrow SyscallSlot[0]) {" ++ nl ++ $"    deep_wait(1);" ++ nl ++ $"}" ++ nl) [$"deep_wait"],
    true, missed ($"holder calling a function that sleeps"));
   (case ($"fn op_e() -> SyscallSlot[0] { }" ++ nl) [$"deep_wait"], true, missed ($"slot returned out of its function"));
   (sleepers ← sleepers_in [($"kernel/x.tkb", $"fn deep_wait(x: usize) { mid(x); }" ++ nl ++
                                               $"fn mid(x: usize) { kernel_process_block_net(x); }" ++ nl)];
    Ok (mem ($"deep_wait") sleepers), true, missed ($"transitive sleeper"))].

Definition nesting_controls : list (res bool * bool * str) :=
  let missed label := $"control '" ++ label ++ $"' was not detected" in
  [(nesting_detected ($"fn w(s: borrow SyscallSlot[0]) { h(); }" ++ nl ++ $"fn h() { ext2_mutation_take(); }" ++ nl ++ $"fn ext2_mutation_take() { }" ++ nl),
    true, missed ($"write holding a slot takes the mutation lock"));
   (nesting_detected ($"fn f(s: borrow Ext2Slot[0]) { process_image_slot_acquire(); }" ++ nl ++ $"fn process_image_slot_acquire() { }" ++ nl),
    true, missed ($"inner holder takes the outer pool"));
   (nesting_detected ($"fn f(g: borrow BlockDeviceGuard[x]) { block_slot_acquire(); }" ++ nl ++ $"fn block_slot_acquire() { }" ++ nl),
    true, missed ($"lock guard holder takes a pool"));
   (nesting_detected ($"fn w() { ext2_mutation_take();" ++ nl ++ $"    syscall_slot_acquire(); }" ++ nl ++ $"fn ext2_mutation_take() { }" ++ nl ++
                      $"fn syscall_slot_acquire() { }" ++ nl), false, $"the lock before the slot was reported");
   (nesting_detected ($"fn f(s: borrow SyscallSlot[0]) { ext2_slot_acquire(); }" ++ nl ++ $"fn ext2_slot_acquire() { }" ++ nl),
    false, $"the outer-to-inner order was reported")].

(** The complaint of the first control that goes wrong. *)
Fixpoint first_wrong (controls : list (res bool * bool * str)) : res (option str) :=
  match controls with
  | [] => Ok None
  | (found, expected, complaint) :: controls =>
      b ← found; if Bool.eqb b expected then first_wrong controls else Ok (Some complaint)
  end.

Definition controls : res (option str) := first_wrong (concat (map pool_controls POOLS) ++ holder_controls ++ nesting_controls).

(** ** The command *)

Definition error_line (message : str) : str := $"ERROR slot-pool-entries: " ++ message.

(** The pools in turn: the entry points in all, or the lines of the first that fails. *)
Fixpoint check_pools (files : list (str * str)) (sleepers : list str) (pools : list pool) (total : Z) : res (Z + list str) :=
  match pools with
  | [] => Ok (inl total)
  | p :: pools =>
      text ← dget_or_raise (p_file p) files;
      '(entries, problems) ← problems_in text (p_acquire p) (p_token p) (p_rule p) sleepers;
      if decide (entries = []) then
        Ok (inr [error_line ($"no function in " ++ p_file p ++ $" calls " ++ p_acquire p ++ $"; the check sees nothing")])
      else if decide (problems = []) then check_pools files sleepers pools (total + zlen entries)
      else Ok (inr (map error_line problems))
  end.

(** The exit status and the lines printed. *)
Definition main (files : list (str * str)) : res (Z * list str) :=
  wrong ← controls;
  match wrong with
  | Some complaint => Ok (1, [error_line complaint])
  | None =>
      sleepers ← sleepers_in files;
      if existsb SLEEP sleepers then
        checked ← check_pools files sleepers POOLS 0;
        match checked with
        | inr lines => Ok (1, lines)
        | inl total =>
            nesting ← nesting_problems files;
            if decide (nesting = []) then
              line ← report_pass ($"slot-pool-entries")
                (dec total ++ $" entry points across " ++ dec (zlen POOLS) ++
                 $" slot pools acquire a slot, no slot holder reaches another entry point or any of " ++ dec (zlen sleepers) ++
                 $" functions that reach a scheduler sleep, and no slot is returned (" ++ dec (zlen files) ++ $" files scanned, fourteen controls)")
                [($"entries", total); ($"files", zlen files); ($"sleepers", zlen sleepers)];
              Ok (0, [line])
            else Ok (1, map error_line nesting)
        end
      else Ok (1, [error_line ($"no kernel_process_block_* function found; the sleep rule sees nothing")])
  end.
