(* ===== verification/SlotPoolFacts.v ===== *)
(** * Facts about the slot pools

    The search finds exactly the functions a call chain comes to, the fixpoint exactly
    the functions that come to a sleep; so the check passes exactly when no holder of a
    slot comes to a sleep or an outer pool, nor inside the pool's file to an entry point,
    and then waits between pools cannot form a cycle.  Taking a second slot of one's own pool through another file
    goes unseen. *)
From S2P Require Import Prelude Text Dict Sort PassLine CallGraph MutationGuard MutationGuardFacts SourceScan SlotPool.

Lemma elem_of_concat_map {A B} (f : A → list B) l b : b ∈ concat (map f l) ↔ ∃ a, a ∈ l ∧ b ∈ f a.
Proof.
  rewrite list_elem_of_In, in_concat. setoid_rewrite in_map_iff. setoid_rewrite <- list_elem_of_In. naive_solver.
Qed.

(** ** Reachable functions *)

(** [a] calls [b] in the graph. *)
Definition edge (g : graph) (a b : str) : Prop := b ∈ next g a.

Definition outgoing (g : graph) (seen : list str) : nat := sum_list_with (fun e => length e.2) (filter (fun e => e.1 ∉ seen) g).

Lemma outgoing_le g seen name : (outgoing g (seen ++ [name]) ≤ outgoing g seen)%nat.
Proof.
  unfold outgoing. induction g as [|e g IH]; [done|]. rewrite !filter_cons.
  destruct (decide (e.1 ∉ seen ++ [name])) as [H|H], (decide (e.1 ∉ seen)) as [H'|H']; cbn; try lia.
  destruct H'. intros ?. apply H, elem_of_app. by left.
Qed.

Lemma outgoing_drop g seen name : name ∉ seen → (outgoing g (seen ++ [name]) + length (next g name) ≤ outgoing g seen)%nat.
Proof.
  intros Hs. unfold next. destruct (dget name g) as [l|] eqn:E; [|cbn; pose proof (outgoing_le g seen name); lia].
  apply dget_elem_of in E. change (default [] (Some l)) with l. induction g as [|e g IH]; [by apply not_elem_of_nil in E|].
  unfold outgoing in *. rewrite !filter_cons. apply elem_of_cons in E as [<-|E]; [|specialize (IH E)].
  - rewrite decide_False by (intros H; apply H, elem_of_app; right; by apply list_elem_of_singleton).
    rewrite decide_True by done. pose proof (outgoing_le g seen name). unfold outgoing in *. cbn. lia.
  - destruct (decide (e.1 ∉ seen ++ [name])) as [H|H], (decide (e.1 ∉ seen)) as [H'|H']; cbn; try lia.
    destruct H'. intros ?. apply H, elem_of_app. by left.
Qed.

(** What holds of the search at every turn. *)
Definition searched (g : graph) (start : str) (st : list str * list str) : Prop :=
  (∀ b, b ∈ st.1 ∨ b ∈ st.2 → tc (edge g) start b) ∧ (∀ b, edge g start b → b ∈ st.1 ∨ b ∈ st.2) ∧
  (∀ a b, a ∈ st.1 → edge g a b → b ∈ st.1 ∨ b ∈ st.2) ∧ NoDup st.1.

Lemma searched_next g start seen name todo : searched g start (seen, name :: todo) → name ∉ seen →
  searched g start (seen ++ [name], reverse (next g name) ++ todo).
Proof.
  intros (H1 & H2 & H3 & H4) Hn. unfold searched. cbn [fst snd] in *. split_and!.
  - intros b. rewrite !elem_of_app, elem_of_reverse, !list_elem_of_singleton. intros [[?| ->]|[He|?]]; [by apply H1; left|apply H1; right; left| |apply H1; right; by right].
    eapply tc_r; [apply H1; right; left|done].
  - intros b [?|[->|?]%elem_of_cons]%H2; rewrite !elem_of_app, !list_elem_of_singleton; tauto.
  - intros a b. rewrite !elem_of_app, elem_of_reverse, !list_elem_of_singleton. intros [Ha| ->] He; [|unfold edge in He; tauto].
    destruct (H3 a b Ha He) as [?|[->|?]%elem_of_cons]; [by left; left|left; by right|right; by right].
  - apply NoDup_app. split_and!; [done|intros x Hx ->%list_elem_of_singleton; done|apply NoDup_singleton].
Qed.

(** The search ends with exactly the functions that a chain of calls comes to. *)
Lemma reach_exact start g : ∃ seen, reach start g = Ok seen ∧ (∀ b, b ∈ seen ↔ tc (edge g) start b) ∧ NoDup seen.
Proof.
  unfold reach. apply (while_total _ (searched g start) (fun r => ∃ seen, r = Ok seen ∧ (∀ b, b ∈ seen ↔ tc (edge g) start b) ∧ NoDup seen)
    (fun st => length st.2 + outgoing g st.1)%nat).
  - intros [seen todo] Hs. unfold reach_body. destruct todo as [|name todo].
    + destruct Hs as (H1 & H2 & H3 & H4). cbn [fst snd] in *. exists seen. split_and!; [done| |done]. intros b. split; [auto|].
      assert (∀ a b, a ∈ seen → tc (edge g) a b → b ∈ seen) as Hc.
      { intros a c Ha Ht. induction Ht as [x y He|x y z He _ IH]; [|apply IH]; destruct (H3 x y Ha He) as [|?%not_elem_of_nil]; done. }
      intros Ht. inversion Ht as [? ? He|? y ? He Hr]; subst; destruct (H2 _ He) as [Hy|?%not_elem_of_nil]; try done. by eapply Hc.
    + destruct (mem name seen) eqn:Em; [apply mem_true in Em|apply mem_false in Em].
      * destruct Hs as (H1 & H2 & H3 & H4). cbn [fst snd] in *. split; [split_and!; cbn [fst snd]; [..|done]|cbn; lia].
        -- intros b [?|?]; apply H1; [by left|right; by right].
        -- intros b [?|[->|?]%elem_of_cons]%H2; auto.
        -- intros a b Ha [?|[->|?]%elem_of_cons]%H3; auto.
      * split; [by apply searched_next|]. cbn [fst snd]. rewrite length_app, length_reverse. pose proof (outgoing_drop g seen name Em). cbn. lia.
  - unfold searched. cbn [fst snd]. setoid_rewrite elem_of_reverse. split_and!; [| | |constructor].
    + intros b [?%not_elem_of_nil|?]; [done|by apply tc_once].
    + auto.
    + by intros a b ?%not_elem_of_nil.
  - unfold reach_fuel, outgoing. cbn [fst snd]. rewrite length_reverse.
    assert (∀ t : graph, filter (fun e => e.1 ∉ @nil str) t = t) as ->; [|lia].
    induction t as [|e t IH]; [done|]. rewrite filter_cons_True, IH by apply not_elem_of_nil. done.
Qed.

(** ** Sleepers *)

Lemma edge_pair g a b : NoDup (map fst g) → edge g a b ↔ ∃ called, (a, called) ∈ g ∧ b ∈ called.
Proof.
  intros Hd. unfold edge, next. split.
  - destruct (dget a g) as [l|] eqn:E; [|by intros ?%not_elem_of_nil]. exists l. split; [by apply dget_elem_of|done].
  - intros (called & Hin & Hb). by rewrite (dget_NoDup a called) by done.
Qed.

(** A name of the graph that comes to a sleep. *)
Definition sleeps (g : graph) (a : str) : Prop :=
  ∃ z, rtc (edge g) a z ∧ SLEEP z = true ∧ (z ∈ map fst g ∨ ∃ c, edge g c z).

Lemma sleep_loop g sleeping : NoDup (map fst g) → (∀ z, z ∈ sleeping ↔ SLEEP z = true ∧ (z ∈ map fst g ∨ ∃ c, edge g c z)) →
  ∃ s, while (S (length g)) (sleep_body g) sleeping = Ok s ∧ ∀ a, a ∈ s ↔ sleeps g a.
Proof.
  intros Hd H0. apply (while_total _ (fun s => (∀ z, z ∈ sleeping → z ∈ s) ∧ Forall (sleeps g) s) (fun r => ∃ s, r = Ok s ∧ ∀ a, a ∈ s ↔ sleeps g a)
    (fun s => length (filter (fun p => p.1 ∉ s) g))).
  - intros s [Hb Hw]. unfold sleep_body. change sleep_step with writers_step.
    pose proof (pass_inv (sleeps g) g (false, s)) as Hinv.
    destruct (foldl writers_step (false, s) g) as [grew s'] eqn:E. destruct (pass_grows _ _ _ _ _ E) as (Hm & Ht & Hf). destruct grew.
    + split; [split; [auto|]|].
      * apply Hinv; [|done]. intros n called c Hin Hc (z & Hr & Hz). exists z. split; [|done]. eapply rtc_l; [|exact Hr]. apply edge_pair; eauto.
      * destruct (Ht eq_refl) as [|(n & called & Hin & Hn & Hn')]; [done|].
        apply (filter_length_lt _ _ _ (n, called)); [|done|done|by intros []]. intros p Hp ?. by apply Hp, Hm.
    + destruct (Hf eq_refl) as [-> Hcl]. exists s. split; [done|]. intros a. split; [by rewrite Forall_forall in Hw; apply Hw|].
      intros (z & Hr & Hz). induction Hr as [x|x y z He _ IH]; [by apply Hb, H0|]. apply edge_pair in He as (called & Hin & Hc); [|done].
      eapply Hcl; [exact Hin|exact Hc|by apply IH].
  - split; [done|]. apply Forall_forall. intros z Hz%H0. exists z. by split; [apply rtc_refl|].
  - pose proof (length_filter (fun p : str * list str => p.1 ∉ sleeping) g). lia.
Qed.

(** ** The functions of the files *)

(** A kept file defines the function with this signature and body. *)
Definition defines (keep : str → bool) (files : list (str * str)) (name : str) (f : str * str) : Prop :=
  ∃ path text, (path, text) ∈ files ∧ keep path = true ∧ (name, f) ∈ functions text.

(** One of them calls [b] in its body. *)
Definition call (keep : str → bool) (files : list (str * str)) (a b : str) : Prop := ∃ f, defines keep files a f ∧ b ∈ calls f.2.

Definition held_in (d : list (str * table)) (nf : str * (str * str)) : Prop := ∃ rows, dget nf.1 d = Some rows ∧ nf ∈ rows.
(** Every key has rows, and only rows of its name. *)
Definition grouped (d : list (str * table)) : Prop :=
  NoDup (map fst d) ∧ ∀ name rows, dget name d = Some rows → rows ≠ [] ∧ Forall (fun nf => nf.1 = name) rows.

Lemma add_function_grouped d nf : grouped d → grouped (add_function d nf) ∧ ∀ x, held_in (add_function d nf) x ↔ x = nf ∨ held_in d x.
Proof.
  intros [Hd Hg]. unfold add_function, held_in. split; [split|].
  - by apply dset_NoDup.
  - intros name rows. destruct (decide (name = nf.1)) as [->|Hne].
    + rewrite dget_dset. intros [= <-]. split; [by destruct (default _ _)|]. apply Forall_app. split; [|by constructor].
      destruct (dget nf.1 d) as [rows|] eqn:E; [by apply Hg in E as [_ ?]|constructor].
    + rewrite dget_dset_ne by done. apply Hg.
  - intros x. destruct (decide (x.1 = nf.1)) as [E|Hne].
    + rewrite E, dget_dset. destruct (dget nf.1 d) as [rows|]; cbn; split.
      * intros (? & [= <-] & [Hx|Hx%list_elem_of_singleton]%elem_of_app); [right; eauto|by left].
      * intros [->|(? & [= <-] & Hx)]; eexists; (split; [done|]); apply elem_of_app; [right; by left|by left].
      * intros (? & [= <-] & Hx%list_elem_of_singleton). by left.
      * intros [->|(? & [=] & _)]. eexists. split; [done|by left].
    + rewrite dget_dset_ne by done. split; [by right|]. intros [->|]; done.
Qed.

Lemma gather_grouped keep files : grouped (gather keep files) ∧ ∀ x, held_in (gather keep files) x ↔ defines keep files x.1 x.2.
Proof.
  assert (∀ fs d, grouped d → grouped (foldl add_function d fs) ∧ ∀ x, held_in (foldl add_function d fs) x ↔ x ∈ fs ∨ held_in d x) as Hin.
  { induction fs as [|nf fs IH]; intros d Hd; cbn [foldl]; [split; [done|]; intros x; by split; [right|intros [?%not_elem_of_nil|]]|].
    destruct (add_function_grouped d nf Hd) as [Hd' Hx]. destruct (IH _ Hd') as [H1 H2]. split; [done|]. intros x. rewrite H2, Hx, elem_of_cons. tauto. }
  assert (∀ d, grouped d → grouped (foldl (fun d pt => if keep pt.1 then foldl add_function d (functions pt.2) else d) d files) ∧
    ∀ x, held_in (foldl (fun d pt => if keep pt.1 then foldl add_function d (functions pt.2) else d) d files) x ↔ defines keep files x.1 x.2 ∨ held_in d x) as Hout.
  { induction files as [|[path text] files IH]; intros d Hd; cbn [foldl fst snd].
    - split; [done|]. intros x. split; [by right|]. intros [(? & ? & ?%not_elem_of_nil & _)|]; done.
    - assert (∀ x, defines keep ((path, text) :: files) x.1 x.2 ↔ keep path = true ∧ x ∈ functions text ∨ defines keep files x.1 x.2) as Hc.
      { intros [n f]. unfold defines. cbn [fst snd]. split.
        - intros (p & t & [[= -> ->]|Hin']%elem_of_cons & Hk & Hf); [by left|right; by exists p, t].
        - intros [[Hk Hf]|(p & t & Hin' & Hk & Hf)]; [exists path, text; split; [left|done]|exists p, t; split; [by right|done]]. }
      destruct (keep path).
      + destruct (Hin (functions text) d Hd) as [Hd' Hx]. destruct (IH _ Hd') as [H1 H2]. split; [done|]. intros x. rewrite H2, Hx, Hc. tauto.
      + destruct (IH _ Hd) as [H1 H2]. split; [done|]. intros x. rewrite H2, Hc. split; [tauto|]. intros [[[? _]|]|]; [done|by left|by right]. }
  unfold gather. destruct (Hout []) as [H1 H2].
  { split; [constructor|done]. }
  split; [done|]. intros x. rewrite H2. split; [|by left]. intros [|(? & ? & _)]; done.
Qed.

Lemma gather_row keep files name rows : (name, rows) ∈ gather keep files →
  dget name (gather keep files) = Some rows ∧ rows ≠ [] ∧ ∀ nf, nf ∈ rows ↔ nf.1 = name ∧ defines keep files name nf.2.
Proof.
  intros Hin. destruct (gather_grouped keep files) as [[Hd Hg] Hx]. apply dget_NoDup in Hin; [|done].
  destruct (Hg _ _ Hin) as [Hne Hf]. split_and!; [done|done|]. intros [n f]. cbn [fst snd]. split.
  - intros Hnf. rewrite Forall_forall in Hf. pose proof (Hf _ Hnf) as E. cbn in E. subst n. split; [done|]. apply (Hx (name, f)). by exists rows.
  - intros [-> H]. apply (Hx (name, f)) in H as (rows' & E & ?). cbn in E. by simplify_eq.
Qed.

Lemma gather_key keep files name : name ∈ map fst (gather keep files) ↔ ∃ f, defines keep files name f.
Proof.
  destruct (gather_grouped keep files) as [[Hd Hg] Hx]. split.
  - intros ([n rows] & -> & Hin)%list_elem_of_fmap. apply gather_row in Hin as (_ & Hne & Hr). destruct rows as [|[n' f] rows]; [done|].
    destruct (proj1 (Hr (n', f)) ltac:(left)) as [_ ?]. by exists f.
  - intros [f Hf]. apply (Hx (name, f)) in Hf as (rows & E%dget_elem_of & _). apply list_elem_of_fmap. by exists (name, rows).
Qed.

Lemma gather_calls keep files a b : (∃ rows, (a, rows) ∈ gather keep files ∧ b ∈ concat (map (fun nf : str * (str * str) => calls nf.2.2) rows)) ↔ call keep files a b.
Proof.
  destruct (gather_grouped keep files) as [_ Hx]. unfold call. split.
  - intros (rows & Hin & (nf & Hnf & Hb)%elem_of_concat_map). apply gather_row in Hin as (_ & _ & Hr).
    apply Hr in Hnf as [_ ?]. by exists nf.2.
  - intros (f & Hf & Hb). apply (Hx (a, f)) in Hf as (rows & E%dget_elem_of & Hnf). exists rows. split; [done|]. apply elem_of_concat_map.
    by exists (a, f).
Qed.

Lemma rtc_same {A} (R R' : A → A → Prop) a b : (∀ x y, R x y ↔ R' x y) → rtc R a b ↔ rtc R' a b.
Proof. intros H. split; apply rtc_subrel; intros x y; apply H. Qed.

Lemma tc_same {A} (R R' : A → A → Prop) a b : (∀ x y, R x y ↔ R' x y) → tc R a b ↔ tc R' a b.
Proof.
  intros H. split; (induction 1 as [x y Hxy|x y z Hxy _ IH]; [apply tc_once; by apply H|eapply tc_l; [by apply H|done]]).
Qed.

Lemma graph_keys {V} (f : str * V → list str) (d : list (str * V)) : map fst (map (fun nr => (nr.1, f nr)) d) = map fst d.
Proof. rewrite map_map. done. Qed.

Lemma sleep_graph_edge files a b : edge (sleep_graph files) a b ↔ call in_kernel files a b.
Proof.
  destruct (gather_grouped in_kernel files) as [[Hd _] _]. unfold sleep_graph. rewrite edge_pair by by rewrite graph_keys.
  rewrite <- gather_calls. split.
  - intros (called & ([n rows] & [= -> ->] & Hin)%list_elem_of_fmap & Hb). rewrite elem_of_remove_dups in Hb. by exists rows.
  - intros (rows & Hin & Hb). eexists. split; [|by apply elem_of_remove_dups]. apply list_elem_of_fmap. by exists (a, rows).
Qed.

(** A function of the kernel's files, or one they call, from which a chain of calls comes
    to a scheduler sleep. *)
Definition comes_to_sleep (files : list (str * str)) (a : str) : Prop :=
  ∃ z, rtc (call in_kernel files) a z ∧ SLEEP z = true ∧ ((∃ f, defines in_kernel files z f) ∨ ∃ c, call in_kernel files c z).

Lemma sleepers_exact files : ∃ s, sleepers_in files = Ok s ∧ ∀ a, a ∈ s ↔ comes_to_sleep files a.
Proof.
  destruct (gather_grouped in_kernel files) as [[Hd _] _]. unfold sleepers_in. set (g := sleep_graph files).
  assert (map fst g = map fst (gather in_kernel files)) as Hk by apply graph_keys.
  destruct (sleep_loop g (remove_dups (filter (fun name => SLEEP name = true) (map fst g ++ concat (map snd g))))) as (s & -> & Hs).
  - by rewrite Hk.
  - intros z. rewrite elem_of_remove_dups, list_elem_of_filter, elem_of_app, elem_of_concat_map.
    assert ((∃ e, e ∈ g ∧ z ∈ e.2) ↔ ∃ c, edge g c z) as ->; [|done]. split.
    + intros ([c called] & Hin & Hz). exists c. apply edge_pair; [by rewrite Hk|]. by exists called.
    + intros (c & (called & Hin & Hz)%edge_pair); [|by rewrite Hk]. by exists (c, called).
  - exists s. split; [done|]. intros a. rewrite Hs. unfold sleeps, comes_to_sleep. rewrite Hk. setoid_rewrite gather_key.
    split; intros (z & Hr & Hz & Ho); exists z; (split_and!; [|done|]).
    + by apply (rtc_same _ _ _ _ (sleep_graph_edge files)).
    + destruct Ho as [|[c Hc]]; [by left|right; exists c; by apply sleep_graph_edge].
    + by apply (rtc_same _ _ _ _ (sleep_graph_edge files)).
    + destruct Ho as [|[c Hc]]; [by left|right; exists c; by apply sleep_graph_edge].
Qed.

(** ** The order of the pools *)

(** A call of a function that the files define too. *)
Definition nest_call (files : list (str * str)) (a b : str) : Prop := call nests files a b ∧ ∃ f, defines nests files b f.

Lemma nest_graph_edge files a b : edge (nest_graph (gather nests files)) a b ↔ nest_call files a b.
Proof.
  destruct (gather_grouped nests files) as [[Hd _] _]. unfold nest_graph, nest_call. rewrite edge_pair by by rewrite graph_keys.
  rewrite <- gather_calls, <- gather_key. split.
  - intros (called & ([n rows] & [= -> ->] & Hin)%list_elem_of_fmap & [Hk Hb]%list_elem_of_filter). rewrite elem_of_remove_dups in Hb.
    split; [by exists rows|done].
  - intros [(rows & Hin & Hb) Hk]. eexists. split; [apply list_elem_of_fmap; by exists (a, rows)|].
    apply list_elem_of_filter. split; [exact Hk|by apply elem_of_remove_dups].
Qed.

(** What a function of the files may come to while it holds a slot of the pool. *)
Definition holding_reaches (files : list (str * str)) (p : pool) (holder target : str) : Prop :=
  holder ≠ p_acquire p ∧
  ∃ f callee, defines nests files holder f ∧ callee ∈ held_calls (p_acquire p) (p_token p) f ∧ rtc (nest_call files) callee target.

Lemma elem_of_ranked x names : x ∈ ranked names ↔ x ∈ map fst RANK ∧ x ∈ names.
Proof. unfold ranked. by rewrite list_elem_of_filter, elem_of_sorted_set. Qed.

Lemma mapM_reach {A} (f : A → str) g l : ∃ below, mapM_res (fun a => reach (f a) g) l = Ok below ∧
  ∀ b, b ∈ concat below ↔ ∃ a, a ∈ l ∧ tc (edge g) (f a) b.
Proof.
  induction l as [|a l (below & E & Hb)]; [exists []; split; [done|]; intros b; split; [by intros ?%not_elem_of_nil|by intros (? & ?%not_elem_of_nil & _)]|].
  destruct (reach_exact (f a) g) as (seen & Es & Hs & _). exists (seen :: below). cbn [mapM_res]. rewrite Es, E. split; [done|].
  intros b. cbn [concat]. rewrite elem_of_app, Hs, Hb. setoid_rewrite elem_of_cons. naive_solver.
Qed.

Lemma rtc_or_tc {A} (R : A → A → Prop) a b : rtc R a b ↔ b = a ∨ tc R a b.
Proof.
  split; [intros [->|(c & Hac & Hcb)]%rtc_inv; [by left|right]|intros [->|H]; [apply rtc_refl|by apply tc_rtc]].
  clear -Hac Hcb. revert a Hac. induction Hcb as [x|x y z Hxy _ IH]; intros a Hac; [by apply tc_once|]. eapply tc_l; [exact Hac|by apply IH].
Qed.

Lemma pool_problems_iff files p name rows : (name, rows) ∈ gather nests files →
  ∃ problems, pool_problems (nest_graph (gather nests files)) p (name, rows) = Ok problems ∧
    (problems = [] ↔ ∀ target, holding_reaches files p name target → target ∈ map fst RANK → target ≠ p_acquire p → rank (p_acquire p) < rank target).
Proof.
  intros Hin. apply gather_row in Hin as (_ & _ & Hr). unfold pool_problems, holding_reaches. cbn [fst snd]. case_decide as Hacq.
  { exists []. split; [done|]. split; [by intros _ target []|done]. }
  set (held := concat _). set (g := nest_graph _). destruct (mapM_reach (fun c => c) g held) as (below & -> & Hb). cbn [mbind res_bind].
  eexists. split; [done|]. split.
  - intros E%map_eq_nil. rewrite filter_empty_iff in E. intros target (_ & f & callee & Hf & Hc & Ht) Hk Hne. apply dec_stable. intros Hlt.
    apply (E target); [apply elem_of_ranked; split; [done|]|intros [?|?]; [done|lia]]. apply elem_of_app.
    assert (callee ∈ held) as Hheld by (apply elem_of_concat_map; exists (name, f); split; [by apply Hr|done]).
    apply rtc_or_tc in Ht as [->|Ht]; [by left|right]. apply Hb. exists callee. split; [done|].
    by apply (tc_same _ _ _ _ (nest_graph_edge files)).
  - intros H. assert (∀ l : list str, map (outer_problem name (p_token p)) l = [] ↔ l = []) as -> by (intros l; split; [apply map_eq_nil|by intros ->]).
    apply filter_empty_iff. intros target [Hk Ht]%elem_of_ranked Hn. apply Hn.
    destruct (decide (target = p_acquire p)) as [|Hne]; [by left|right]. apply H; [|done|done]. split; [done|].
    assert (∃ callee, callee ∈ held ∧ rtc (nest_call files) callee target) as (callee & (nf & Hnf%Hr & Hc)%elem_of_concat_map & Hrt).
    { apply elem_of_app in Ht as [Ht|(callee & Hc & Ht)%Hb]; [exists target; split; [done|apply rtc_refl]|]. exists callee. split; [done|].
      apply tc_rtc. by apply (tc_same _ _ _ _ (nest_graph_edge files)). }
    destruct Hnf as [_ Hd]. by exists nf.2, callee.
Qed.

Lemma guard_problems_iff files token name rows : (name, rows) ∈ gather nests files →
  ∃ problems, guard_problems (nest_graph (gather nests files)) token (name, rows) = Ok problems ∧
    (problems = [] ↔ ∀ f target, defines nests files name f → names_word token f.1 = true → target ∈ map fst RANK → ¬ tc (nest_call files) name target).
Proof.
  intros Hin. apply gather_row in Hin as (_ & _ & Hr). unfold guard_problems. cbn [fst snd]. destruct (existsb _ rows) eqn:E.
  - destruct (reach_exact name (nest_graph (gather nests files))) as (seen & -> & Hs & _). cbn [mbind res_bind]. eexists. split; [done|].
    apply existsb_exists in E as (nf & Hnf%list_elem_of_In%Hr & Hw). destruct Hnf as [_ Hd]. split.
    + intros E%map_eq_nil f target _ _ Hk Ht. assert (target ∈ ranked seen) as Hin.
      { apply elem_of_ranked. split; [done|]. apply Hs. by apply (tc_same _ _ _ _ (nest_graph_edge files)). }
      rewrite E in Hin. by apply not_elem_of_nil in Hin.
    + intros H. destruct (ranked seen) as [|target l] eqn:E; [done|]. exfalso. assert (target ∈ ranked seen) as [Hk Ht%Hs]%elem_of_ranked by (rewrite E; left).
      apply (H nf.2 target Hd Hw Hk). by apply (tc_same _ _ _ _ (nest_graph_edge files)).
  - exists []. split; [done|]. split; [|done]. intros _ f target Hf Hw. exfalso.
    assert (existsb (fun nf => names_word token nf.2.1) rows = true) as E'; [|congruence].
    apply existsb_exists. exists (name, f). split; [by apply list_elem_of_In, Hr|done].
Qed.

(** Problems collected over a list. *)
Lemma collected {A} (f : A → res (list str)) (P : A → Prop) l : (∀ a, a ∈ l → ∃ ps, f a = Ok ps ∧ (ps = [] ↔ P a)) →
  ∃ ps, mapM_res f l = Ok ps ∧ (concat ps = [] ↔ ∀ a, a ∈ l → P a).
Proof.
  induction l as [|a l IH]; intros H; [exists []; split; [done|]; split; [by intros _ a ?%not_elem_of_nil|done]|].
  destruct (H a) as (p & Ep & Hp); [left|]. destruct IH as (ps & E & Hps); [intros b Hb; apply H; by right|].
  exists (p :: ps). cbn [mapM_res]. rewrite Ep, E. split; [done|]. cbn [concat]. rewrite app_nil, Hp, Hps. setoid_rewrite elem_of_cons. naive_solver.
Qed.

Lemma collected_concat {A} (f : A → res (list str)) (P : A → Prop) l : (∀ a, a ∈ l → ∃ ps, f a = Ok ps ∧ (ps = [] ↔ P a)) →
  ∃ ps, (problems ← mapM_res f l; Ok (concat problems)) = Ok ps ∧ (ps = [] ↔ ∀ a, a ∈ l → P a).
Proof. intros H. destruct (collected f P l H) as (ps & -> & Hps). eexists. by split. Qed.

(** Every other pool and lock a function comes to while it holds a slot is inside the
    slot's pool, and no function that holds the guard of an inner lock comes to any of
    them.  Nothing is said of the slot's own pool. *)
Definition ordered (files : list (str * str)) : Prop :=
  (∀ p holder target, p ∈ POOLS → holding_reaches files p holder target → target ∈ map fst RANK → target ≠ p_acquire p →
     rank (p_acquire p) < rank target) ∧
  (∀ token name f target, token ∈ INNER_GUARDS → defines nests files name f → names_word token f.1 = true → target ∈ map fst RANK →
     ¬ tc (nest_call files) name target).

Lemma nesting_iff files : ∃ problems, nesting_problems files = Ok problems ∧ (problems = [] ↔ ordered files).
Proof.
  unfold nesting_problems. set (fns := gather nests files). set (g := nest_graph fns).
  destruct (collected (fun p => problems ← mapM_res (pool_problems g p) (py_sorted key_le fns); Ok (concat problems))
    (fun p => ∀ nr, nr ∈ py_sorted key_le fns → ∀ target, holding_reaches files p nr.1 target → target ∈ map fst RANK → target ≠ p_acquire p →
       rank (p_acquire p) < rank target) POOLS) as (outer & -> & Ho).
  { intros p _. apply collected_concat. intros [n rows] Hin%elem_of_py_sorted. by apply pool_problems_iff. }
  destruct (collected (fun token => problems ← mapM_res (guard_problems g token) (py_sorted key_le fns); Ok (concat problems))
    (fun token => ∀ nr, nr ∈ py_sorted key_le fns → ∀ f target, defines nests files nr.1 f → names_word token f.1 = true → target ∈ map fst RANK →
       ¬ tc (nest_call files) nr.1 target) INNER_GUARDS) as (inner & -> & Hi).
  { intros token _. apply collected_concat. intros [n rows] Hin%elem_of_py_sorted. by apply guard_problems_iff. }
  cbn [mbind res_bind]. eexists. split; [done|]. rewrite app_nil, Ho, Hi. unfold ordered.
  assert (∀ name f, defines nests files name f → ∃ rows, (name, rows) ∈ py_sorted key_le fns) as Hdef.
  { intros name f Hf. assert (name ∈ map fst fns) as ([n rows] & -> & Hin)%list_elem_of_fmap by (apply gather_key; by exists f).
    exists rows. by apply elem_of_py_sorted. }
  split; intros [H1 H2]; split.
  - intros p holder target Hp Hr. pose proof Hr as (_ & f & _ & Hf & _). destruct (Hdef _ _ Hf) as [rows Hin]. by apply (H1 p Hp (holder, rows)).
  - intros token name f target Ht Hf. destruct (Hdef _ _ Hf) as [rows Hin]. by apply (H2 token Ht (name, rows) Hin).
  - intros p Hp [n rows] _ target. by apply H1.
  - intros token Ht [n rows] _ f target. by apply H2.
Qed.

(** ** The rules of one pool *)

Section pool.
Context (text acquire token : str).

Definition entry (e : str) : Prop := ∃ f, (e, f) ∈ functions text ∧ has_call acquire f.2 = true.
Definition holder (h : str) (f : str * str) : Prop := h ≠ acquire ∧ (h, f) ∈ functions text ∧ holds acquire token f = true.
Definition file_call (a b : str) : Prop := ∃ f, (a, f) ∈ functions text ∧ b ∈ calls f.2 ∧ b ∈ map fst (functions text).

(** The pool's rules: no entry point is handed a slot; in a file of leaves no other
    function names one, and elsewhere no holder comes to one; no holder calls a sleeper;
    no function but the acquire returns a slot. *)
Definition pool_kept (rule : pool_rule) (sleepy : str → Prop) : Prop :=
  (∀ e f, (e, f) ∈ functions text → has_call acquire f.2 = true → names_word token f.1 = false) ∧
  (rule = Leaf → ∀ e name f, entry e → (name, f) ∈ functions text → name ≠ e → names_word e (f.1 ++ f.2) = false) ∧
  (rule = Holders → ∀ h f e, holder h f → entry e → ¬ tc file_call h e) ∧
  (∀ h f callee, holder h f → callee ∈ calls f.2 → ¬ sleepy callee ∧ SLEEP callee = false) ∧
  (∀ name f, (name, f) ∈ functions text → name ≠ acquire → returns token f.1 = false).

Lemma functions_NoDup : NoDup (map fst (functions text)).
Proof.
  unfold functions. assert (∀ (l d : table), NoDup (map fst d) → NoDup (map fst (foldl (fun d nf => dset nf.1 nf.2 d) d l))) as H; [|apply H; constructor].
  induction l as [|nf l IH]; intros d Hd; [done|]. cbn [foldl]. apply IH. by apply dset_NoDup.
Qed.

Lemma row_of_function name f : (name, f) ∈ functions text → row_of (functions text) name = f.
Proof. intros Hin. unfold row_of. by rewrite (dget_NoDup name f) by (done || apply functions_NoDup). Qed.

Lemma elem_of_entries e : e ∈ entries_of (functions text) acquire ↔ entry e.
Proof.
  unfold entries_of, entry. rewrite list_elem_of_fmap. setoid_rewrite list_elem_of_filter. split.
  - intros ([n f] & -> & Hc & Hin). by exists f.
  - intros (f & Hin & Hc). by exists (e, f).
Qed.

Lemma elem_of_holders h : h ∈ holders_of (functions text) acquire token ↔ ∃ f, holder h f.
Proof.
  unfold holders_of, holder. rewrite list_elem_of_fmap. setoid_rewrite list_elem_of_filter. split.
  - intros ([n f] & -> & [Hne Hh] & Hin). by exists f.
  - intros (f & Hne & Hin & Hh). by exists (h, f).
Qed.

Lemma file_graph_edge a b : edge (map (fun nf => (nf.1, callees nf.2.2 (map fst (functions text)))) (functions text)) a b ↔ file_call a b.
Proof.
  rewrite edge_pair by (rewrite graph_keys; apply functions_NoDup). unfold file_call. split.
  - intros (called & ([n f] & [= -> ->] & Hin)%list_elem_of_fmap & [Hk Hb]%list_elem_of_filter). rewrite elem_of_remove_dups in Hb. by exists f.
  - intros (f & Hin & Hb & Hk). eexists. split; [apply list_elem_of_fmap; by exists (a, f)|]. apply list_elem_of_filter.
    split; [done|by apply elem_of_remove_dups].
Qed.

Lemma map_nil_iff {A B} (f : A → B) l : map f l = [] ↔ l = [].
Proof. split; [apply map_eq_nil|by intros ->]. Qed.

Lemma holder_problems_iff rule sleepers h f : holder h f →
  ∃ problems, holder_problems (functions text) (entries_of (functions text) acquire)
      (map (fun nf => (nf.1, callees nf.2.2 (map fst (functions text)))) (functions text)) token rule sleepers h = Ok problems ∧
    (problems = [] ↔ (rule = Holders → ∀ e, entry e → ¬ tc file_call h e) ∧ ∀ callee, callee ∈ calls f.2 → (callee ∉ sleepers) ∧ SLEEP callee = false).
Proof.
  intros (_ & Hin & _). unfold holder_problems. rewrite (row_of_function h f) by done.
  assert (∃ reached, (if decide (rule = Holders) then
      reached ← reach h (map (fun nf => (nf.1, callees nf.2.2 (map fst (functions text)))) (functions text));
      Ok (filter (fun e => e ∈ entries_of (functions text) acquire) reached) else Ok []) = Ok reached ∧
    (reached = [] ↔ (rule = Holders → ∀ e, entry e → ¬ tc file_call h e))) as (reached & -> & Hr).
  { case_decide as Hrule; [|exists []; by split].
    destruct (reach_exact h (map (fun nf => (nf.1, callees nf.2.2 (map fst (functions text)))) (functions text))) as (seen & -> & Hs & _).
    eexists. split; [done|]. rewrite filter_empty_iff. split.
    - intros H _ e He Ht. apply (H e); [|by apply elem_of_entries]. apply Hs. by apply (tc_same _ _ _ _ file_graph_edge).
    - intros H e He%Hs He'%elem_of_entries. apply (H Hrule e He'). by apply (tc_same _ _ _ _ file_graph_edge). }
  cbn [mbind res_bind]. eexists. split; [done|]. rewrite app_nil, !map_nil_iff, py_sorted_nil, Hr, filter_empty_iff.
  setoid_rewrite elem_of_sorted_set. split; intros [H1 H2]; (split; [done|]); intros callee Hc; specialize (H2 callee Hc).
  - split; [intros ?; apply H2; by left|]. apply not_true_is_false. intros ?. apply H2. by right.
  - destruct H2 as [? E]. rewrite E. by intros [|].
Qed.

Lemma leaf_problems_nil e : leaf_problems (functions text) e = [] ↔ ∀ name f, (name, f) ∈ functions text → name ≠ e → names_word e (f.1 ++ f.2) = false.
Proof.
  unfold leaf_problems. rewrite map_nil_iff, filter_empty_iff. split.
  - intros H name f Hin Hne. apply not_true_is_false. intros Hw. by apply (H (name, f) Hin).
  - intros H [name f] Hin [Hne Hw]. cbn [fst snd] in *. by rewrite (H name f Hin Hne) in Hw.
Qed.

Lemma problems_in_iff rule sleepers : ∃ problems,
  problems_in text acquire token rule sleepers = Ok (entries_of (functions text) acquire, problems) ∧
  (problems = [] ↔ pool_kept rule (fun c => c ∈ sleepers)).
Proof.
  unfold problems_in. destruct (collected (holder_problems (functions text) (entries_of (functions text) acquire)
      (map (fun nf => (nf.1, callees nf.2.2 (map fst (functions text)))) (functions text)) token rule sleepers)
    (fun h => ∀ f, holder h f → (rule = Holders → ∀ e, entry e → ¬ tc file_call h e) ∧ ∀ callee, callee ∈ calls f.2 → (callee ∉ sleepers) ∧ SLEEP callee = false)
    (py_sorted str_le (holders_of (functions text) acquire token))) as (holding & -> & Hh).
  { intros h (f & Hf)%elem_of_py_sorted%elem_of_holders. destruct (holder_problems_iff rule sleepers h f Hf) as (ps & E & Hps).
    exists ps. split; [done|]. rewrite Hps. split; [|by intros H; apply H]. intros H f' Hf'. destruct Hf as (_ & Hin & _), Hf' as (_ & Hin' & _).
    by replace f' with f by (rewrite <- (row_of_function h f), <- (row_of_function h f') by done; done). }
  cbn [mbind res_bind]. eexists. split; [done|]. rewrite !app_nil, Hh, !map_nil_iff, !filter_empty_iff. unfold pool_kept.
  setoid_rewrite elem_of_py_sorted. setoid_rewrite elem_of_holders. setoid_rewrite elem_of_entries. split.
  - intros (H1 & H2 & H3 & H4). split_and!.
    + intros e f Hin Hc. apply not_true_is_false. intros Hw. apply (H1 e); [by exists f|]. by rewrite (row_of_function e f).
    + intros Hrule e name f He. rewrite decide_True in H2 by done. apply leaf_problems_nil. rewrite concat_map_nil in H2. apply H2.
      by apply elem_of_py_sorted, elem_of_entries.
    + intros Hrule h f e Hf He. by apply (H3 h (ex_intro _ f Hf) f Hf).
    + intros h f callee Hf Hc. by apply (H3 h (ex_intro _ f Hf) f Hf).
    + intros name f Hin Hne. apply not_true_is_false. intros Hr. by apply (H4 (name, f) Hin).
  - intros (H1 & H2 & H3 & H4 & H5). split_and!.
    + intros e (f & Hin & Hc). rewrite (row_of_function e f) by done. by rewrite (H1 e f Hin Hc).
    + case_decide as Hrule; [|done]. apply concat_map_nil. intros e He%elem_of_py_sorted%elem_of_entries. apply leaf_problems_nil. intros name f. by apply H2.
    + intros h _ f Hf. split; [intros Hrule e He; by apply (H3 Hrule h f)|]. intros callee. by apply (H4 h f).
    + intros [name f] Hin [Hne Hr]. cbn [fst snd] in *. by rewrite (H5 name f Hin Hne) in Hr.
Qed.
End pool.

(** ** The command *)

(** A pool whose file is there, has an entry point and keeps the rules. *)
Definition pool_passes (files : list (str * str)) (sleepy : str → Prop) (p : pool) : Prop :=
  ∃ text, dget (p_file p) files = Some text ∧ (∃ e, entry text (p_acquire p) e) ∧ pool_kept text (p_acquire p) (p_token p) (p_rule p) sleepy.

Lemma check_pools_pass files sleepers pools total t : check_pools files sleepers pools total = Ok (inl t) →
  Forall (pool_passes files (fun c => c ∈ sleepers)) pools ∧ total + zlen pools ≤ t.
Proof.
  revert total. induction pools as [|p pools IH]; intros total; cbn [check_pools]; [intros [= <-]; split; [constructor|zl]|].
  unfold dget_or_raise. destruct (dget (p_file p) files) as [text|] eqn:Et; [|done]. cbn [of_option mbind res_bind].
  destruct (problems_in_iff text (p_acquire p) (p_token p) (p_rule p) sleepers) as (problems & -> & Hp). cbn [mbind res_bind].
  case_decide as He; [done|]. case_decide as Hn; [|done]. intros [H1 H2]%IH. split.
  - constructor; [|done]. exists text. split_and!; [done| |by apply Hp].
    destruct (entries_of (functions text) (p_acquire p)) as [|e es] eqn:Ee; [done|]. exists e. apply elem_of_entries. rewrite Ee. left.
  - apply zlen_pos in He. zl.
Qed.

Lemma check_pools_total files sleepers pools total : Forall (pool_passes files (fun c => c ∈ sleepers)) pools →
  ∃ t, check_pools files sleepers pools total = Ok (inl t).
Proof.
  intros H. revert total. induction H as [|p pools (text & Et & [e He] & Hk) _ IH]; intros total; cbn [check_pools]; [by eexists|].
  unfold dget_or_raise. rewrite Et. cbn [of_option mbind res_bind].
  destruct (problems_in_iff text (p_acquire p) (p_token p) (p_rule p) sleepers) as (problems & -> & Hp). cbn [mbind res_bind].
  rewrite decide_False by (intros E; apply elem_of_entries in He; rewrite E in He; by apply not_elem_of_nil in He).
  rewrite decide_True by by apply Hp. apply IH.
Qed.

Lemma controls_pass : controls = Ok None.
Proof. by_compute. Qed.

Lemma pool_kept_same text acquire token rule (P Q : str → Prop) : (∀ c, P c ↔ Q c) → pool_kept text acquire token rule P → pool_kept text acquire token rule Q.
Proof.
  intros H (H1 & H2 & H3 & H4 & H5). split_and!; try done. intros h f callee Hh Hc. destruct (H4 h f callee Hh Hc). split; [by rewrite <- H|done].
Qed.

(** C7: the check exits 0 exactly when the kernel's sources keep the rules of the slot pools:
    every pool's file is there with an entry point and its rules hold, a sleeping function
    being one from which a chain of calls in the kernel comes to a scheduler sleep, of which
    there is one; and along all chains of calls a holder of a slot comes to other pools and
    locks inside its own only, and a holder of an inner guard to none.  The pool's own
    acquire is exempt from that order: inside the pool's file its rule stands for it, and a
    chain that comes back to it through another file is not refused. *)
Theorem slot_pools_pass files : (∃ lines, main files = Ok (0, lines)) ↔
  (∃ z, comes_to_sleep files z ∧ SLEEP z = true) ∧ Forall (pool_passes files (comes_to_sleep files)) POOLS ∧ ordered files.
Proof.
  destruct (sleepers_exact files) as (sleepers & Es & Hs). destruct (nesting_iff files) as (nesting & En & Hn).
  assert (∀ pools, Forall (pool_passes files (comes_to_sleep files)) pools ↔ Forall (pool_passes files (fun c => c ∈ sleepers)) pools) as Hsame.
  { intros pools. split; intros H; (eapply Forall_impl; [exact H|]); intros p (text & Et & He & Hk); exists text; (split_and!; [done..|]);
      (eapply pool_kept_same; [|exact Hk]); intros c; by rewrite Hs. }
  assert (existsb SLEEP sleepers = true ↔ ∃ z, comes_to_sleep files z ∧ SLEEP z = true) as Hz.
  { rewrite existsb_exists. setoid_rewrite <- list_elem_of_In. setoid_rewrite Hs. done. }
  unfold main. rewrite controls_pass. cbn [mbind res_bind]. rewrite Es. cbn [mbind res_bind]. rewrite <- Hz, <- Hn, Hsame. split.
  - intros [lines H]. destruct (existsb SLEEP sleepers); [|done]. split; [done|]. apply bind_Ok_inv in H as ([t|] & Hp & H); [|done].
    apply check_pools_pass in Hp as [Hp _]. split; [done|]. rewrite En in H. cbn [mbind res_bind] in H. by case_decide.
  - intros (H1 & H2 & ->). rewrite H1. destruct (check_pools_total files sleepers POOLS 0 H2) as [t Et]. rewrite Et. cbn [mbind res_bind].
    rewrite En. cbn [mbind res_bind]. rewrite decide_True by done. apply check_pools_pass in Et as [_ Ht].
    assert (sleepers ≠ []) as Hne by by intros ->. apply zlen_pos in Hne.
    assert (files ≠ []) as Hnf. { intros ->. apply Forall_cons in H2 as [(? & ? & _) _]. done. }
    apply zlen_pos in Hnf. change (zlen POOLS) with 5 in Ht. eexists. eapply bind_Ok; [|reflexivity].
    apply report_pass_ok. split_and!; [reflexivity|done|]. repeat (constructor; [cbn; lia|]). constructor.
Qed.

(** ** Waits between pools *)

(** A holder of the pool taken by [a] comes to the take of another lock or pool [b]. *)
Definition waits (files : list (str * str)) (a b : str) : Prop :=
  a ≠ b ∧ b ∈ map fst RANK ∧ ∃ p holder, p ∈ POOLS ∧ p_acquire p = a ∧ holding_reaches files p holder b.

Lemma waits_rank files a b : ordered files → tc (waits files) a b → rank a < rank b.
Proof.
  intros [Ho _]. induction 1 as [a b (Hne & Hk & p & h & Hp & <- & Hr)|a b c (Hne & Hk & p & h & Hp & <- & Hr) _ IH]; [by eapply Ho|].
  etrans; [|exact IH]. by eapply Ho.
Qed.

(** C17: waits between pools form no cycle.  When the check of the order finds nothing, no
    chain in which holders of a slot come to the take of another pool leads from a pool back
    to itself, or to the mutation lock, which is outside them all. *)
Theorem slot_waits_acyclic files p : nesting_problems files = Ok [] → p ∈ POOLS →
  ¬ tc (waits files) (p_acquire p) (p_acquire p) ∧ ¬ tc (waits files) (p_acquire p) MUTATION_TAKE.
Proof.
  intros E Hp. destruct (nesting_iff files) as (problems & E' & Ho). rewrite E in E'. injection E' as <-.
  specialize (proj1 Ho eq_refl) as H. split; intros Hw%(waits_rank files _ _ H); [lia|].
  change (rank MUTATION_TAKE) with 0 in Hw. assert (Forall (fun p => 0 ≤ rank (p_acquire p)) POOLS) as Hall by by_compute.
  rewrite Forall_forall in Hall. specialize (Hall p Hp). lia.
Qed.

(** ** A second slot of one's own pool *)

Definition leaf_source (acquire token : str) : str :=
  $"private fn " ++ acquire ++ $"() -> " ++ token ++ $"[0] { }" ++ nl ++ $"fn " ++ token ++ $"_entry() { let s: " ++ token ++ $"[0] = " ++ acquire ++ $"(); }" ++ nl.
(** Sources that keep every rule, with a holder that goes out through another file. *)
Definition reentrant_files : list (str * str) :=
  map (fun p => (p_file p, leaf_source (p_acquire p) (p_token p) ++
         (if decide (p_token p = $"Ext2Slot") then $"fn ext2_inner(s: borrow Ext2Slot[0]) { outside(); }" ++ nl else []))) POOLS ++
  [($"kernel/x.tkb", $"fn outside() { Ext2Slot_entry(); }" ++ nl); ($"kernel/y.tkb", $"fn kernel_process_block_net() { }" ++ nl)].

Definition ext2_pool : pool := Pool ($"kernel/fs/ext2/ext2.tkb") ($"ext2_slot_acquire") ($"Ext2Slot") Leaf.

Lemma slot_waits_acyclic_witness :
  ¬ tc (waits reentrant_files) ($"ext2_slot_acquire") ($"ext2_slot_acquire") ∧ ¬ tc (waits reentrant_files) ($"ext2_slot_acquire") MUTATION_TAKE.
Proof. apply (slot_waits_acyclic reentrant_files ext2_pool); [by_compute|left]. Defined.

Lemma searched_reach files a b seen : reach a (nest_graph (gather nests files)) = Ok seen → b ∈ seen → rtc (nest_call files) a b.
Proof.
  intros E Hb. destruct (reach_exact a (nest_graph (gather nests files))) as (s & E' & Hs & _). rewrite E in E'. injection E' as <-.
  apply tc_rtc. apply (tc_same _ _ _ _ (nest_graph_edge files)). by apply Hs.
Qed.

(** An operation that takes a second slot of its own pool through another file is not
    seen.  The order of the pools skips the pool's own acquire and the rule of the pool looks
    at calls inside its file, so the check exits 0 on sources in which a function that holds
    an ext2 slot comes to the acquire of the ext2 pool. *)
Example own_pool_unseen : (∃ lines, main reentrant_files = Ok (0, lines)) ∧
  holding_reaches reentrant_files ext2_pool ($"ext2_inner") ($"ext2_slot_acquire").
Proof.
  split.
  - eexists. vm_compute. reflexivity.
  - split; [done|]. exists ($"fn ext2_inner(s: borrow Ext2Slot[0]) ", $"{ outside(); }" ++ nl), ($"outside"). split_and!.
    + exists ($"kernel/fs/ext2/ext2.tkb"). eexists. split; [left|]. split; by_compute.
    + by_compute.
    + eapply searched_reach; [vm_compute; reflexivity|]. by_compute.
Qed.
