(* ===== verification/FunctionMap.v ===== *)
(** * The function map of the models

    Model of scripts/buildcheck_model_function_map.py: the tables of
    kernel/models/README.md that map the actions of the TLA+ models to functions of the
    kernel, the stamp of each row's review, its refresh and the check.  The compiler's
    tables, the sources, the models and the README are arguments, and so is SHA-256, from
    a text to its hexadecimal digest. *)
From S2P Require Import Prelude Text Dict Sort PassLine SourceScan CallGraph.

Definition ACTIVITY_SET : str := $"kernel_activity_set".
Definition ACTIVITY_NAME : str := $"kernel_activity_name".

(** ** Patterns *)

Definition lower (c : Z) : bool := in_range 97 122 c.
Definition lower_word (c : Z) : bool := lower c || is_digit c || (c =? 95).
Definition dashed (c : Z) : bool := lower c || is_digit c || (c =? 45).

(** [$]: the end, or a newline there. *)
Definition at_end (s : str) : Prop := s = [] ∨ s = nl.
#[export] Instance at_end_dec s : Decision (at_end s).
Proof. apply _. Defined.

(** A name in backquotes after a literal, at the head of a text: the name and the rest. *)
Definition quoted (literal : str) (first rest : Z → bool) (s : str) : option (str * str) :=
  s ← strip_prefix literal s;
  let '(name, s) := span rest s in
  match name with
  | c :: _ => if first c then s ← strip_prefix ($"`") s; Some (name, s) else None
  | [] => None
  end.

(** [findall] of such names. *)
Fixpoint find_quoted (fuel : nat) (literal : str) (first rest : Z → bool) (s : str) : list str :=
  match fuel with
  | O => []
  | S fuel =>
      match s with
      | [] => []
      | _ :: s' =>
          match quoted literal first rest s with
          | Some (name, s) => name :: find_quoted fuel literal first rest s
          | None => find_quoted fuel literal first rest s'
          end
      end
  end.

Definition NAME_RE (s : str) : list str := find_quoted (length s) ($"`") lower lower_word s.
Definition ACTION_RE (s : str) : list str := find_quoted (length s) ($"`") is_word is_word s.
Definition GUARDS_RE (s : str) : list str := find_quoted (length s) ($"guarded: `") lower lower_word s.

Definition SECTION_RE (line : str) : option str :=
  s ← strip_prefix ($"## ") line;
  let '(name, s) := span is_word s in
  if decide (name = []) then None else
  s ← strip_prefix ($".tla") s;
  if boundary (Some 97) s then Some name else None.

Definition ELSEWHERE_RE (why : str) : option (option str * str) :=
  s ← strip_prefix ($"modelled elsewhere: `") why;
  let '(a, s) := span is_word s in
  if decide (a = []) then None else
  match strip_prefix ($".") s with
  | Some s =>
      let '(b, s) := span is_word s in
      if decide (b = []) then None else s ← strip_prefix ($"`") s; if decide (at_end s) then Some (Some a, b) else None
  | None => s ← strip_prefix ($"`") s; if decide (at_end s) then Some (None, a) else None
  end.

Definition GUARDED_RE (why : str) : option (str * str) :=
  '(function, s) ← quoted ($"guarded: `") is_word is_word why;
  '(activity, s) ← quoted ($" fail-stops with `") dashed dashed s;
  if decide (at_end s) then Some (function, activity) else None.

Definition IRRELEVANT_RE (why : str) : option str :=
  '(property, s) ← quoted ($"irrelevant to `") is_word is_word why;
  s ← strip_prefix ($": ") s;
  match s with
  | c :: s => if is_space c then None else if decide (at_end (span (fun c => negb (c =? 10)) s).2) then Some property else None
  | [] => None
  end.

(** The variants and texts of [kernel_activity_name]. *)
Definition activity_arm (s : str) : option ((str * str) * str) :=
  s ← strip_prefix ($"KernelActivity::") s;
  let '(variant, s) := span is_word s in
  if decide (variant = []) then None else
  s ← strip_prefix (str_of "=>{return" ++ [34]) s;
  let '(text, s) := span dashed s in
  if decide (text = []) then None else
  s ← strip_prefix [34] s; Some ((variant, text), s).
Fixpoint ACTIVITY_RE (fuel : nat) (s : str) : list (str * str) :=
  match fuel with
  | O => []
  | S fuel =>
      match s with
      | [] => []
      | _ :: s' => match activity_arm s with Some (arm, s) => arm :: ACTIVITY_RE fuel s | None => ACTIVITY_RE fuel s' end
      end
  end.

(** The definitions of a model: the names at the start of a line, with parameters or
    without, before two equals signs. *)
Definition definition_at (s : str) : option (str * str) :=
  let '(name, s) := span is_word s in
  if decide (name = []) then None else
  s ← (match strip_prefix ($"(") s with
       | Some r => strip_prefix ($")") (span (fun c => negb (c =? 41)) r).2
       | None => Some s
       end);
  s ← strip_prefix ($"==") (lstrip s); Some (name, s).
Fixpoint definitions_from (fuel : nat) (line_start : bool) (s : str) : list str :=
  match fuel with
  | O => []
  | S fuel =>
      match s with
      | [] => []
      | c :: s' =>
          match (if line_start then definition_at s else None) with
          | Some (name, s) => name :: definitions_from fuel false s
          | None => definitions_from fuel (c =? 10) s'
          end
      end
  end.
Definition defined_names (tla : str) : list str := definitions_from (length tla) true tla.

(** [s.split(sep)] and [s.partition(sep)] for a nonempty separator. *)
Fixpoint split_str (fuel : nat) (sep s : str) : list str :=
  match fuel with
  | O => [s]
  | S fuel => match find sep s with Some i => slice s 0 i :: split_str fuel sep (from s (i + zlen sep)) | None => [s] end
  end.
Definition split_by (sep s : str) : list str := split_str (length s) sep s.
Definition partition (sep s : str) : str * bool * str :=
  match find sep s with Some i => (slice s 0 i, true, from s (i + zlen sep)) | None => (s, false, []) end.

(** ** The compiled kernels *)

Section program.
(** The text of a file of the repository. *)
Variable read : str → res str.
(** [hashlib.sha256(...).hexdigest()] of the text in UTF-8. *)
Variable sha256 : str → str.

Definition row_key (r : row) : list str := [r_name r; r_file r; r_line r; r_body_hash r].
Definition add_definition (st : list (str * list row) * list (list str)) (r : row) : list (str * list row) * list (list str) :=
  let '(defs, seen) := st in
  if decide (r_body_hash r = $"-") then st
  else if decide (row_key r ∈ seen) then st
  else (dset (r_name r) (default [] (dget (r_name r) defs) ++ [r]) defs, seen ++ [row_key r]).

(** [Program.defs]. *)
Abbreviation program := (list (str * list row)).
Definition Program (rows : list row) : program := (foldl add_definition ([], []) rows).1.

Definition definitions (p : program) (name : str) : list row := default [] (dget name p).
Definition defined (p : program) (name : str) : bool := dmem name p.
Definition digest (p : program) (name : str) : str := join ($",") (sorted_set (map r_body_hash (definitions p name))).

(** [l[a:b]] for any bounds. *)
Definition py_slice {A} (l : list A) (a b : Z) : list A :=
  let at_ i := if i <? 0 then Z.max 0 (zlen l + i) else i in slice l (at_ a) (at_ b).

Definition code_of (r : row) : res (row * str) :=
  text ← read (r_file r);
  line ← py_int 10 (r_line r); end_line ← py_int 10 (r_end_line r);
  Ok (r, compact (join nl (py_slice (splitlines text) (line - 1) end_line))).
Definition code (p : program) (name : str) : res (list (row * str)) := mapM_res code_of (definitions p name).

Definition stamped_names (cells : list str) : list str :=
  NAME_RE (default [] (cells !! 1%nat)) ++ GUARDS_RE (default [] (cells !! 3%nat)).

Definition row_hash (names : list str) (p : program) : str :=
  slice (sha256 (concat (map (fun name => digest p name ++ [0]) names))) 0 12.

Definition activities (p : program) : res (list (str * str)) :=
  found ← code p ACTIVITY_NAME;
  Ok (foldl (fun d vt => dset vt.2 vt.1 d) [] (concat (map (fun rc => ACTIVITY_RE (length rc.2) rc.2) found))).

Definition sets_activity (p : program) (function variant : str) : res bool :=
  found ← code p function;
  Ok (bool_decide (found ≠ []) &&
      forallb (fun rc => contains (ACTIVITY_SET ++ $"(KernelActivity::" ++ variant ++ $")") rc.2 &&
                         existsb (fun c => bool_decide (callee_name c = ACTIVITY_SET)) (r_callees rc.1)) found).

(** ** The rows *)

Abbreviation models := (list (str * list str)).
Definition defs_of (tla_defs : models) (model : str) : list str := default [] (dget model tla_defs).

Definition bar (c : Z) : bool := c =? 124.
Definition table_row (st : option str * list (str * list str)) (line : str) : option str * list (str * list str) :=
  let '(model, rows) := st in
  match SECTION_RE line with
  | Some name => (Some name, rows)
  | None =>
      match model with
      | Some m => if startswith line ($"| `") then (model, rows ++ [(m, map strip (split_on 124 (strip_by bar line)))]) else st
      | None => st
      end
  end.
Definition table_rows (text : str) : list (str * list str) := (foldl table_row (None, []) (splitlines text)).2.

Definition dropped_entry (model : str) (tla_defs : models) (p : program) (entry : str) : res (list str) :=
  let '(path, sep, why) := partition ($" -- ") entry in
  if negb sep || bool_decide (path = []) then Ok [$"'" ++ entry ++ $"' has no '<path> -- <why>' form"] else
  match ELSEWHERE_RE why with
  | Some (other, action) =>
      let other := default model other in
      Ok (if decide (action ∈ defs_of tla_defs other) then []
          else [$"'" ++ path ++ $"' is modelled elsewhere in " ++ other ++ $"." ++ action ++ $", which no kernel/models/" ++ other ++ $".tla defines"])
  | None =>
      match GUARDED_RE why with
      | Some (function, activity) =>
          names ← activities p;
          if negb (defined p function) then
            Ok [$"'" ++ path ++ $"' is guarded by " ++ function ++ $", which neither compiled kernel defines"]
          else
            match dget activity names with
            | None => Ok [$"'" ++ path ++ $"' is guarded by activity " ++ activity ++ $", which " ++ ACTIVITY_NAME ++ $" never returns"]
            | Some variant =>
                sets ← sets_activity p function variant;
                Ok (if sets : bool then []
                    else [$"'" ++ path ++ $"' is guarded by " ++ function ++ $", which never sets KernelActivity::" ++ variant])
            end
      | None =>
          match IRRELEVANT_RE why with
          | Some property =>
              Ok (if decide (property ∈ defs_of tla_defs model) then []
                  else [$"'" ++ path ++ $"' is irrelevant to " ++ property ++ $", which " ++ model ++ $".tla does not define"])
          | None => Ok [$"'" ++ path ++ $"' says neither 'modelled elsewhere', 'guarded' nor 'irrelevant to'"]
          end
      end
  end.

Definition dropped_errors (model cell : str) (tla_defs : models) (p : program) : res (list str) :=
  if decide (cell = $"nothing") then Ok []
  else errors ← mapM_res (dropped_entry model tla_defs p) (split_by ($"; ") cell); Ok (concat errors).

(** [dict.fromkeys(names)]: the first of each. *)
Definition first_of_each (names : list str) : list str := foldl (fun l n => if decide (n ∈ l) then l else l ++ [n]) [] names.

Definition or_none (s : str) : str := if decide (s = []) then $"(none)" else s.
Definition moved_names (cells : list str) (p : program) (reviewed : list (str * str)) : list str :=
  map (fun name => name ++ $": " ++ or_none (default ($"(not recorded)") (dget name reviewed)) ++ $" -> " ++ or_none (digest p name))
    (filter (fun name => dget name reviewed ≠ Some (digest p name)) (first_of_each (stamped_names cells))).

(** What is wrong with a row of five cells but for its stamp. *)
Definition content_errors (model : str) (cells : list str) (tla_defs : models) (p : program) : res (list str) :=
  let cell i := default [] (cells !! i) in
  dropped ← dropped_errors model (cell 3%nat) tla_defs p;
  Ok (map (fun action => model ++ $".tla does not define action " ++ action)
        (filter (fun action => action ∉ defs_of tla_defs model) (ACTION_RE (cell 0%nat))) ++
      map (fun name => cell 0%nat ++ $" maps to " ++ name ++ $", which neither compiled kernel defines; update the row and re-read the model's action against the code that replaced it")
        (filter (fun name => defined p name = false) (NAME_RE (cell 1%nat))) ++ dropped).

Definition stamp_of (cells : list str) (p : program) : str := $"`" ++ row_hash (stamped_names cells) p ++ $"`".

Definition row_errors (model : str) (cells : list str) (tla_defs : models) (p : program) (reviewed : option (list (str * str))) : res (list str) :=
  let cell i := default [] (cells !! i) in
  if negb (zlen cells =? 5) then Ok [cell 0%nat ++ $" has " ++ dec (zlen cells) ++ $" cells, not 5"] else
  errors ← content_errors model cells tla_defs p;
  if decide (errors ≠ []) then Ok errors
  else if decide (cell 4%nat ≠ stamp_of cells p) then
    let moved := moved_names cells p (default [] reviewed) in
    let which := if decide (moved ≠ []) then join ($"; ") moved
                 else $"no function differs from kernel/models/function_map_digests.tsv, so that file is stale" in
    Ok [cell 0%nat ++ $": a function it maps changed since the row was reviewed (" ++ cell 4%nat ++ $", now " ++ stamp_of cells p ++ $"; " ++ which ++
        $"). Re-read the row and the model's action against the code, then run `make model-map-restamp`"]
  else
    match reviewed with
    | Some reviewed =>
        let moved := moved_names cells p reviewed in
        Ok (if decide (moved ≠ []) then
              [cell 0%nat ++ $": its stamp matches but kernel/models/function_map_digests.tsv disagrees (" ++ join ($"; ") moved ++
               $"); run `make model-map-restamp`"]
            else [])
    | None => Ok []
    end.

(** ** The digests and the refresh *)

Definition read_digest (d : list (str * str)) (line : str) : list (str * str) :=
  if bool_decide (line ≠ []) && negb (startswith line ($"#")) then
    let '(name, _, digest) := partition [9] line in dset name digest d
  else d.
Definition read_digests (text : str) : list (str * str) := foldl read_digest [] (splitlines text).

Definition digests_header : str :=
  $"# Written by `make model-map-restamp` (GitHub issue #1029): each" ++ nl ++
  $"# function a kernel/models/README.md row stamps, and its digest as" ++ nl ++ $"# reviewed. Do not edit by hand." ++ nl.
Definition digest_names (readme_rows : list (str * list str)) : list str :=
  sorted_set (concat (map (fun mc => if zlen mc.2 =? 5 then stamped_names mc.2 else []) readme_rows)).
Definition write_digests (readme_rows : list (str * list str)) (p : program) : str :=
  digests_header ++ concat (map (fun name => name ++ [9] ++ digest p name ++ nl) (digest_names readme_rows)).

Definition restamp_line (p : program) (line : str) : str :=
  if startswith line ($"| `") then
    match split_on 124 (strip_by bar (rstrip_by (fun c => c =? 10) line)) with
    | [c0; c1; c2; c3; c4] =>
        $"|" ++ join ($"|") [c0; c1; c2; c3; $" `" ++ row_hash (stamped_names [c0; c1; c2; c3; c4]) p ++ $"` "] ++ $"|" ++ nl
    | _ => line
    end
  else line.
Definition restamp (text : str) (p : program) : str := concat (map (restamp_line p) (splitlines_keep text)).

(** ** The controls *)

Definition with_body_hash (hash : str) (r : row) : row :=
  Row (r_file r) (r_line r) (r_end_line r) (r_name r) (r_qualifiers r) (r_declared r) (r_effects r) (r_params r)
    (r_callees r) (r_callers r) (r_values r) hash.

(** Every row of the name changed; the name must be in the table. *)
Definition changed (rows : list row) (name : str) (change : row → row) : res (list row) :=
  if existsb (fun r => bool_decide (r_name r = name)) rows then
    Ok (map (fun r => if decide (r_name r = name) then change r else r) rows)
  else Err (SystemExit ($"FAIL model-function-map: the negative control's subject " ++ name ++ $" is not in the table")).

Definition refused_rows : list (str * list str) :=
  let dispatch function dropped := [$"`Dispatch`"; function; $"x"; dropped; []] in
  [($"absent function", dispatch ($"`kernel_model_map_control_absent`") ($"nothing"));
   ($"bare drop", dispatch ($"`kernel_process_secondary_start`") ($"affinity is dropped"));
   ($"absent action", dispatch ($"`kernel_process_secondary_start`") ($"a -- modelled elsewhere: `Wait4Block.Absent`"));
   ($"absent activity", dispatch ($"`kernel_process_secondary_start`") ($"a -- guarded: `scheduled_process_start` fail-stops with `control-absent`"));
   ($"guard elsewhere", dispatch ($"`kernel_process_secondary_start`") ($"a -- guarded: `scheduled_process_start` fail-stops with `reap-on-owned-stack`"));
   ($"absent property", dispatch ($"`kernel_process_secondary_start`") ($"a -- irrelevant to `ControlAbsent`: no"))].

Definition refused_control (tla_defs : models) (p : program) (control : str * list str) : res (list str) :=
  errors ← row_errors ($"StackOwnership") control.2 tla_defs p None; Ok (if decide (errors = []) then [control.1] else []).

(** A row with the digest of its first function moved. *)
Definition moved_control (tla_defs : models) (rows : list row) (mc : str * list str) : res (list str) :=
  let '(model, cells) := mc in
  let p := Program rows in
  match (if zlen cells =? 5 then stamped_names cells else []) with
  | [] => Ok []
  | (name :: _) as names =>
      if negb (defined p name) then Ok [] else
      planted ← changed rows name (with_body_hash (replicate 32 48));
      errors ← row_errors model cells tla_defs (Program planted) (Some (foldl (fun d n => dset n (digest p n) d) [] names));
      let first := default [] (head cells) in
      Ok (if negb (existsb (contains ($"a function it maps changed")) errors) then [first ++ $" keeps its stamp when " ++ name ++ $" changes"]
          else if negb (existsb (contains (name ++ $": " ++ digest p name ++ $" -> ")) errors) then [first ++ $"'s stale stamp does not name " ++ name]
          else [])
  end.

(** [re.search(r"guarded: `(\w+)`", cell)]. *)
Fixpoint search_guard (s : str) : option str :=
  match quoted ($"guarded: `") is_word is_word s with
  | Some (name, _) => Some name
  | None => match s with [] => None | _ :: s => search_guard s end
  end.

Definition is_guarded (mc : str * list str) : bool :=
  (zlen mc.2 =? 5) && contains ($"guarded: `") (default [] (mc.2 !! 3%nat)).

(** The first guarded row with the guard's calls removed. *)
Definition guard_control (tla_defs : models) (rows : list row) (readme_rows : list (str * list str)) : res (list str) :=
  match filter (fun mc => is_guarded mc = true) readme_rows with
  | [] => Ok [$"no guarded row to plant a lost guard in"]
  | (model, cells) :: _ =>
      guard ← of_option (Custom "AttributeError" []) (search_guard (default [] (cells !! 3%nat)));
      planted ← changed rows guard (with_callees (fun _ => []));
      errors ← row_errors model cells tla_defs (Program planted) None;
      Ok (if decide (errors = []) then [guard ++ $" still guards with no kernel_activity_set call"] else [])
  end.

Definition one_row (file name hash : str) : row := Row file ($"1") ($"1") name [] [] [] [] [] [] [] hash.
Definition uart_name : str := $"uart_model_map_control".
Definition uart_row (hash : Z) : row := one_row ($"kernel/x.tkb") uart_name (replicate 32 hash).
Definition uart_cells (p : program) : list str :=
  let cells stamp := [$"`Writer`"; $"`" ++ uart_name ++ $"`"; $"one byte"; $"capacity -- irrelevant to `Writer`: bounded"; stamp] in
  cells (stamp_of (cells []) p).

Definition uart_controls : res (list str) :=
  let uart := Program [uart_row 97] in
  let cells := uart_cells uart in
  let defs := [($"Control", [$"Writer"])] in
  kept ← row_errors ($"Control") cells defs uart None;
  edited ← row_errors ($"Control") cells defs (Program [uart_row 98]) None;
  absent ← row_errors ($"Control") (<[1%nat := $"`uart_model_map_control_absent`"]> cells) defs uart None;
  twin ← row_errors ($"Control") cells defs (Program (definitions uart uart_name ++ [one_row ($"kernel/y.tkb") uart_name (replicate 32 99)])) None;
  Ok ((if decide (kept = []) then [] else [$"UART positive row refused"]) ++
      (if existsb (contains ($"a function it maps changed")) edited then [] else [$"UART body edit keeps its table stamp"]) ++
      (if existsb (contains ($"neither compiled kernel defines")) absent then [] else [$"absent UART function accepted"]) ++
      (if decide (twin = []) then [$"a second kernel's differing definition keeps the stamp"] else [])).

Definition controls_fail (tla_defs : models) (rows : list row) (readme_rows : list (str * list str)) : res (list str) :=
  refused ← mapM_res (refused_control tla_defs (Program rows)) refused_rows;
  moved ← mapM_res (moved_control tla_defs rows) readme_rows;
  guarded ← guard_control tla_defs rows readme_rows;
  uart ← uart_controls;
  Ok (concat refused ++ concat moved ++ guarded ++ uart).

(** ** The command *)

(** The exit status with the lines printed, or the exception, and the README and the
    digests when they are written. *)
Record outcome := Outcome { o_result : res (Z * list str); o_readme : option str; o_digests : option str }.
Definition USAGE : str := $"Usage: buildcheck_model_function_map.py [--restamp] <qemu main.o>.facts/callgraph.tsv".

Definition read_tables (read_table : str → res str) (paths : list str) : res (list row) :=
  rows ← mapM_res (fun path => text ← read_table path; parse text path) paths; Ok (concat rows).

Definition row_report (tla_defs : models) (p : program) (reviewed : list (str * str)) (mc : str * list str) : res (list str) :=
  errors ← row_errors mc.1 mc.2 tla_defs p (Some reviewed);
  Ok (map (fun error => $"ERROR model-function-map: kernel/models/README.md " ++ mc.1 ++ $": " ++ error) errors).

Definition count_drops (readme_rows : list (str * list str)) : Z :=
  foldl Z.add 0 (map (fun mc => let cell := default [] (mc.2 !! 3%nat) in
    if (zlen mc.2 =? 5) && negb (bool_decide (cell = $"nothing")) then zlen (split_by ($"; ") cell) else 0) readme_rows).

(** The check of a README against the tables and the digests. *)
Definition verdict (tla_defs : models) (rows : list row) (tables : Z) (readme : str) (reviewed : list (str * str)) : res (Z * list str) :=
  let readme_rows := table_rows readme in
  reports ← mapM_res (row_report tla_defs (Program rows) reviewed) readme_rows;
  if decide (concat reports ≠ []) then
    Ok (1, concat reports ++ [$"FAIL model-function-map: an action row points at nothing, drops a path without saying why that is safe, or maps code changed since its review"])
  else
    not_refused ← controls_fail tla_defs rows readme_rows;
    if decide (not_refused ≠ []) then
      Ok (1, [$"FAIL model-function-map: negative control(s) " ++ join ($", ") not_refused ++ $" were not refused, so this check proves nothing"])
    else
      let drops := count_drops readme_rows in
      line ← report_pass ($"model-function-map")
        (dec (zlen readme_rows) ++ $" action row(s) name existing actions and compiled functions in " ++ dec tables ++ $" call-graph table(s), " ++
         dec drops ++ $" dropped path(s) are each justified, every row's review stamp matches the compiler's body hashes, and an unjustified row, a moved digest per row and a guard without its activity call are refused")
        [($"action_rows", zlen readme_rows); ($"dropped_paths", drops); ($"models", zlen (remove_dups (map fst readme_rows)))];
      Ok (0, [line]).

(** The README as it is read and the digests when there are any; what [--restamp] writes is
    what is read back. *)
Definition main (read_table : str → res str) (tla : list (str * str)) (readme : str) (digests : option str) (args : list str) : outcome :=
  let restamping := bool_decide (head args = Some ($"--restamp")) in
  let tables := if restamping then tail args else args in
  if decide (tables = []) then Outcome (Ok (2, [USAGE])) None None else
  match read_tables read_table tables with
  | Err (Custom cls message) =>
      if bool_decide (cls = "TableError"%string) || bool_decide (cls = "OSError"%string)
      then Outcome (Ok (1, [$"FAIL model-function-map: " ++ message])) None None else Outcome (Err (Custom cls message)) None None
  | Err e => Outcome (Err e) None None
  | Ok rows =>
      let p := Program rows in
      let tla_defs := map (fun pt => (pt.1, defined_names pt.2)) tla in
      if restamping then
        let readme := restamp readme p in
        let digests := write_digests (table_rows readme) p in
        Outcome (verdict tla_defs rows (zlen tables) readme (read_digests digests)) (Some readme) (Some digests)
      else
        let reviewed := match digests with Some text => read_digests text | None => [] end in
        Outcome (verdict tla_defs rows (zlen tables) readme reviewed) None None
  end.
End program.
