(* ===== verification/FunctionMapFacts.v ===== *)
(** * Facts about the function map

    A stamp is kept exactly when the compiled bodies of the names it covers are; a refresh
    gives every row the stamp of the compiled kernels and leaves nothing but the errors of
    the rows' content; the check reports exactly the rows that are not justified or not
    current.  Names with a capital are not covered, and the rows the controls plant are
    refused for their empty stamp alone. *)
From S2P Require Import Prelude Text Dict Sort PassLine SourceScan CallGraph FunctionMap.

(** ** Names in backquotes *)

Section quoted.
Context (literal : str) (first rest : Z → bool).
Context (Hrest : rest 96 = false).

Lemma quoted_iff s name r : quoted literal first rest s = Some (name, r) ↔
  s = literal ++ name ++ 96 :: r ∧ Forall (fun c => rest c = true) name ∧ ∃ c, head name = Some c ∧ first c = true.
Proof.
  unfold quoted. split.
  - intros (s' & Hs%strip_prefix_Some & H)%bind_Some. destruct (span_spec rest s') as (E & Hn & _). destruct (span rest s') as [n t]. cbn [fst snd] in *.
    destruct n as [|c n]; [done|]. destruct (first c) eqn:Ef; [|done]. apply bind_Some in H as (t' & Ht%strip_prefix_Some & [= <- <-]).
    subst. split_and!; [done|done|by exists c].
  - intros (-> & Hn & c & Hc & Hf). rewrite strip_prefix_app. cbn [mbind option_bind]. rewrite span_app by (done || by intros ? [= <-]).
    destruct name as [|c' name]; [done|]. injection Hc as ->. rewrite Hf. by cbn.
Qed.

Lemma find_quoted_fuel n m s : (length s ≤ n)%nat → (length s ≤ m)%nat →
  find_quoted n literal first rest s = find_quoted m literal first rest s.
Proof.
  revert m s. induction n as [|n IH]; intros m s Hn Hm; [by destruct s; [destruct m|cbn in Hn; lia]|].
  destruct m as [|m]; [by destruct s; [|cbn in Hm; lia]|]. cbn [find_quoted]. destruct s as [|c s]; [done|].
  destruct (quoted literal first rest (c :: s)) as [[name r]|] eqn:E; [|apply IH; cbn in *; lia].
  apply quoted_iff in E as (E & _ & k & Hk & _). apply (f_equal length) in E. destruct name; [done|].
  rewrite !length_app in E. cbn in E, Hn, Hm. f_equal. apply IH; lia.
Qed.

(** White space before and after the text is not part of a match. *)
Context (Hlit : ∃ c l, literal = c :: l ∧ is_space c = false).

Lemma quoted_space c s : is_space c = true → quoted literal first rest (c :: s) = None.
Proof.
  intros Hc. destruct (quoted literal first rest (c :: s)) as [[name r]|] eqn:E; [|done].
  apply quoted_iff in E as (E & _). destruct Hlit as (d & l & El & Hd). rewrite El in E. injection E as -> _. by rewrite Hc in Hd.
Qed.

Lemma find_quoted_lead sp s : Forall (fun c => is_space c = true) sp →
  find_quoted (length (sp ++ s)) literal first rest (sp ++ s) = find_quoted (length s) literal first rest s.
Proof. induction 1 as [|c sp Hc _ IH]; [done|]. cbn [app length find_quoted]. by rewrite quoted_space. Qed.

Lemma app_spaces (s sp m r : str) : Forall (fun c => is_space c = true) sp → s ++ sp = m ++ 96 :: r →
  ∃ r', s = m ++ 96 :: r' ∧ r = r' ++ sp.
Proof.
  intros Hsp E. destruct (app_eq_inv s sp m (96 :: r) E) as [(k & -> & Ek)|(k & -> & Ek)].
  - destruct k as [|c k]; [|injection Ek as -> ->; by exists k].
    cbn in Ek. subst sp. by apply Forall_cons in Hsp as [? _].
  - subst sp. apply Forall_app in Hsp as [_ Hsp]. by apply Forall_cons in Hsp as [? _].
Qed.

Lemma quoted_trail s sp : Forall (fun c => is_space c = true) sp →
  quoted literal first rest (s ++ sp) = (fun nr => (nr.1, nr.2 ++ sp)) <$> quoted literal first rest s.
Proof.
  intros Hsp. destruct (quoted literal first rest s) as [[name r]|] eqn:E; cbn [fmap option_fmap option_map].
  - apply quoted_iff in E as (-> & Hn & Hc). apply quoted_iff. split_and!; [|done..]. by rewrite <- !app_assoc.
  - destruct (quoted literal first rest (s ++ sp)) as [[name r]|] eqn:E'; [|done]. apply quoted_iff in E' as (E' & Hn & Hc).
    rewrite app_assoc in E'. apply app_spaces in E' as (r' & -> & ->); [|done].
    assert (quoted literal first rest ((literal ++ name) ++ 96 :: r') = Some (name, r')) as Hq by (apply quoted_iff; by rewrite <- app_assoc).
    by rewrite E in Hq.
Qed.

Lemma find_quoted_trail n s sp : Forall (fun c => is_space c = true) sp → (length (s ++ sp) ≤ n)%nat →
  find_quoted n literal first rest (s ++ sp) = find_quoted n literal first rest s.
Proof.
  intros Hsp. revert s. induction n as [|n IH]; intros s Hn; [done|]. destruct s as [|c s].
  - rewrite (find_quoted_fuel _ (length (sp ++ []))) by (rewrite ?app_nil_r; cbn in *; lia). cbn [app]. rewrite <- (app_nil_r sp) at 2.
    by rewrite find_quoted_lead.
  - cbn [find_quoted app]. rewrite app_comm_cons, quoted_trail by done.
    destruct (quoted literal first rest (c :: s)) as [[name r]|] eqn:E; cbn [fmap option_fmap option_map fst snd]; [|apply IH; cbn in Hn; lia].
    f_equal. apply IH. apply quoted_iff in E as (E & _). apply (f_equal length) in E. rewrite !length_app in *. cbn in *. lia.
Qed.

Lemma find_quoted_strip s : find_quoted (length (strip s)) literal first rest (strip s) = find_quoted (length s) literal first rest s.
Proof.
  destruct (strip_split is_space s) as (a & b & E & Ha & Hb & _). change (strip_by is_space s) with (strip s) in E.
  rewrite E at 3 4. rewrite find_quoted_lead by done. rewrite find_quoted_trail by done. apply find_quoted_fuel; rewrite ?length_app; lia.
Qed.

(** What is found. *)
Lemma find_quoted_names n s name : name ∈ find_quoted n literal first rest s →
  Forall (fun c => rest c = true) name ∧ ∃ c, head name = Some c ∧ first c = true.
Proof.
  revert s. induction n as [|n IH]; intros s; cbn [find_quoted]; [by intros ?%not_elem_of_nil|]. destruct s as [|c s]; [by intros ?%not_elem_of_nil|].
  destruct (quoted literal first rest (c :: s)) as [[m r]|] eqn:E; [|apply IH].
  intros [->|H]%elem_of_cons; [|by apply IH in H]. by apply quoted_iff in E as (_ & ? & ?).
Qed.
End quoted.

Definition plain_name (name : str) : Prop := Forall (fun c => lower_word c = true) name ∧ ∃ c, head name = Some c ∧ lower c = true.

Lemma stamped_plain cells name : name ∈ stamped_names cells → plain_name name.
Proof. unfold stamped_names. intros [H|H]%elem_of_app; by eapply find_quoted_names in H. Qed.

(** The names of a row are those of its cells without the white space around them. *)
Lemma stamped_strip cells : stamped_names (map strip cells) = stamped_names cells.
Proof.
  unfold stamped_names, NAME_RE, GUARDS_RE.
  assert (∀ i, default [] (map strip cells !! i) = strip (default [] (cells !! i))) as Hi
    by (intros i; change (map strip cells) with (strip <$> cells); rewrite list_lookup_fmap; by destruct (cells !! i)).
  rewrite !Hi. f_equal; apply find_quoted_strip; done || eauto.
Qed.

(** ** The refresh *)

Section restamp.
Context (sha256 : str → str) (p : list (str * list row)).

(** A line without its end, refreshed. *)
Definition restamped (l : str) : str :=
  if startswith l ($"| `") then
    match split_on 124 (strip_by bar l) with
    | [c0; c1; c2; c3; c4] => $"|" ++ join [124] [c0; c1; c2; c3; $" `" ++ row_hash sha256 (stamped_names [c0; c1; c2; c3; c4]) p ++ $"` "] ++ $"|"
    | _ => l
    end
  else l.

Lemma startswith_snoc (l q : str) c : c ∉ q → startswith (l ++ [c]) q = startswith l q.
Proof.
  revert l. induction q as [|d q IH]; intros l Hc; [done|]. apply not_elem_of_cons in Hc as [Hd Hc]. destruct l as [|e l]; cbn.
  - by rewrite (proj2 (Z.eqb_neq d c)).
  - by rewrite IH.
Qed.

Lemma rstrip_newline (l e : str) : no_break l → e = [] ∨ e = [10] → rstrip_by (fun c => c =? 10) (l ++ e) = l.
Proof.
  intros Hl He. apply rstrip_app; [destruct He as [->| ->]; by repeat constructor|]. intros c Hc. apply last_Some in Hc as (l' & ->).
  apply Forall_app in Hl as [_ Hc]. apply Forall_cons in Hc as [Hc _]. by apply Z.eqb_neq; intros ->.
Qed.

Lemma restamp_line_ended l : no_break l → restamp_line sha256 p (l ++ [10]) = restamped l ++ [10].
Proof.
  intros Hl. unfold restamp_line, restamped. rewrite startswith_snoc by by cbn; rewrite !not_elem_of_cons; auto using not_elem_of_nil.
  destruct (startswith l _); [|done]. rewrite rstrip_newline by auto.
  destruct (split_on 124 (strip_by bar l)) as [|? [|? [|? [|? [|? [|? ?]]]]]]; try done. cbn. by rewrite <- !app_assoc.
Qed.

Lemma restamp_line_last l : no_break l →
  restamp_line sha256 p l = restamped l ++ [10] ∨ restamp_line sha256 p l = l ∧ restamped l = l.
Proof.
  intros Hl. unfold restamp_line, restamped. destruct (startswith l _); [|by right].
  rewrite <- (app_nil_r l) at 1 3. rewrite rstrip_newline by auto.
  destruct (split_on 124 (strip_by bar l)) as [|? [|? [|? [|? [|? [|? ?]]]]]]; try by right; rewrite ?app_nil_r.
  left. cbn. by rewrite <- !app_assoc.
Qed.

Lemma lstrip_keep f (a r : str) c : f c = false → lstrip_by f (r ++ c :: a) = lstrip_by f r ++ c :: a.
Proof. intros Hc. unfold lstrip_by. induction r as [|d r IH]; cbn; [by rewrite Hc|]. destruct (f d); [|done]. by destruct (span f r), (span f (r ++ c :: a)). Qed.

Lemma rstrip_keep f (a r : str) c : f c = false → rstrip_by f (a ++ c :: r) = a ++ c :: rstrip_by f r.
Proof.
  intros Hc. unfold rstrip_by. rewrite reverse_app, reverse_cons, <- app_assoc. cbn [app]. rewrite lstrip_keep by done.
  rewrite reverse_app, reverse_cons, reverse_involutive, <- app_assoc. done.
Qed.

(** The cells of a row: the first starts with a blank and a backquote. *)
Lemma row_first l : startswith l ($"| `") = true → ∃ c cells, split_on 124 (strip_by bar l) = (32 :: 96 :: c) :: cells.
Proof.
  intros (r & ->)%startswith_split. unfold strip_by. change (lstrip_by bar ($"| `" ++ r)) with ([32] ++ 96 :: r).
  rewrite rstrip_keep by done. cbn [app split_on]. change (32 =? 124) with false. change (96 =? 124) with false.
  destruct (split_on 124 (rstrip_by bar r)); eauto.
Qed.

Context (Hhex : ∀ s, Forall (fun c => is_hex_digit c = true) (sha256 s)).

Lemma row_hash_chars names : Forall (fun c => is_space c = false ∧ c ≠ 124) (row_hash sha256 names p).
Proof.
  unfold row_hash, slice. apply Forall_take, Forall_drop. eapply Forall_impl; [apply Hhex|]. intros c.
  unfold is_hex_digit, is_digit, in_range, is_space. cbn beta. intros Hc. rewrite !orb_true_iff, !andb_true_iff, !Z.leb_le in Hc.
  split; [|lia]. rewrite !orb_false_iff. unfold in_range. repeat split; lia.
Qed.

Definition stamp_cell (names : list str) : str := $" `" ++ row_hash sha256 names p ++ $"` ".

Lemma stamp_cell_strip names : strip (stamp_cell names) = $"`" ++ row_hash sha256 names p ++ $"`".
Proof.
  unfold stamp_cell. transitivity (strip_by is_space ([32] ++ ($"`" ++ row_hash sha256 names p ++ $"`") ++ [32])); [unfold strip; f_equal; cbn; by rewrite <- !app_assoc|].
  apply strip_around; [by repeat constructor..| |done]. split; intros c; [by intros [= <-]|]. rewrite app_assoc. change ($"`") with [96]. rewrite last_snoc. by intros [= <-].
Qed.

Lemma stamp_cell_chars names : Forall (fun c => is_linebreak c = false ∧ c ≠ 124) (stamp_cell names).
Proof.
  unfold stamp_cell. rewrite !Forall_app. split_and!; [by repeat constructor| |by repeat constructor].
  eapply Forall_impl; [apply row_hash_chars|]. intros c [? ?]. split; [by apply space_break|done].
Qed.

(** A refreshed line is a row where the line was, with the new last cell. *)
Lemma restamped_cases l : no_break l →
  (startswith l ($"| `") = true ∧ ∃ c0 c1 c2 c3 c4, split_on 124 (strip_by bar l) = [c0; c1; c2; c3; c4] ∧
     startswith (restamped l) ($"| `") = true ∧ no_break (restamped l) ∧
     split_on 124 (strip_by bar (restamped l)) = [c0; c1; c2; c3; stamp_cell (stamped_names [c0; c1; c2; c3; c4])]) ∨
  restamped l = l ∧ (startswith l ($"| `") = true → length (split_on 124 (strip_by bar l)) ≠ 5%nat).
Proof.
  intros Hl. unfold restamped. destruct (startswith l ($"| `")) eqn:Es; [|by right].
  destruct (row_first l Es) as (c & cells & E). pose proof (split_on_sub 124 (strip_by bar l)) as Hsub.
  destruct (split_on 124 (strip_by bar l)) as [|c0 [|c1 [|c2 [|c3 [|c4 [|? ?]]]]]] eqn:Ec; try by right. left. split; [done|].
  exists c0, c1, c2, c3, c4. split; [done|]. injection E as -> _. fold (stamp_cell (stamped_names [32 :: 96 :: c; c1; c2; c3; c4])).
  set (new := stamp_cell _). assert (Forall (fun q : str => Forall (fun x => is_linebreak x = false ∧ x ≠ 124) q) [32 :: 96 :: c; c1; c2; c3; new]) as Hq.
  { rewrite !Forall_cons in Hsub. destruct Hsub as (H0 & H1 & H2 & H3 & _).
    assert (∀ q : str, (∀ x, x ∈ q → x ≠ 124 ∧ x ∈ strip_by bar l) → Forall (fun x => is_linebreak x = false ∧ x ≠ 124) q) as Hw.
    { intros q Hq. apply Forall_forall. intros x Hx. destruct (Hq x Hx) as [? Hin%strip_sub]. split; [|done]. by apply (proj1 (Forall_forall _ _) Hl). }
    constructor; [by apply Hw|]. do 3 (constructor; [by apply Hw|]). constructor; [apply stamp_cell_chars|constructor]. }
  split_and!; [done|..].
  - unfold no_break. rewrite !Forall_app. split_and!; [by repeat constructor| |by repeat constructor].
    induction Hq as [|q qs Hq Hqs IH]; [constructor|]. assert (Forall (fun x => is_linebreak x = false) q) by (eapply Forall_impl; [exact Hq|by intros ? [? _]]).
    destruct qs as [|q' qs]; [done|]. cbn [join]. rewrite !Forall_app. split_and!; [done|by repeat constructor|exact IH].
  - rewrite strip_around; [|by repeat constructor..| |done].
    + apply split_on_join; [done|]. eapply Forall_impl; [exact Hq|]. intros q Hq'. eapply Forall_impl; [exact Hq'|by intros ? [_ ?]].
    + split; [by intros x [= <-]|]. intros x. cbn [join]. unfold new, stamp_cell. rewrite !app_assoc. change ($"` ") with ([96] ++ [32]).
      rewrite !app_assoc, last_snoc. by intros [= <-].
Qed.
Lemma restamped_break l : no_break l → no_break (restamped l).
Proof. intros Hl. destruct (restamped_cases l Hl) as [(_ & c0 & c1 & c2 & c3 & c4 & _ & _ & ? & _)|[-> _]]; done. Qed.

Lemma restamped_twice l : no_break l → restamped (restamped l) = restamped l.
Proof.
  intros Hl. destruct (restamped_cases l Hl) as [(Es & c0 & c1 & c2 & c3 & c4 & Ec & Es' & _ & Ec')|[E _]]; [|by rewrite !E].
  unfold restamped at 1. rewrite Es', Ec'. unfold restamped. by rewrite Es, Ec.
Qed.

(** A text whose lines end in newlines only, as its lines and what follows the last end. *)
Definition plain_breaks (text : str) : Prop := Forall (fun c => is_linebreak c = true → c = 10) text.
Definition closed (l : str) : str := l ++ [10].

Lemma plain_lines text : plain_breaks text → ∃ lines t, text = concat (map closed lines) ++ t ∧ Forall no_break lines ∧ no_break t.
Proof.
  induction 1 as [|c text Hc _ (lines & t & -> & Hl & Ht)]; [exists [], []; split_and!; done || constructor|]. destruct (is_linebreak c) eqn:E.
  - rewrite Hc by done. exists ([] :: lines), t. split_and!; [done|constructor; [constructor|done]|done].
  - destruct lines as [|l lines]; [exists [], (c :: t); split_and!; [done|constructor|by constructor]|].
    exists ((c :: l) :: lines), t. apply Forall_cons in Hl as [Hl Hls]. split_and!; [done| |done]. constructor; [by constructor|done].
Qed.

Lemma closed_ended lines : map closed lines = map with_end (map (fun l => (l, 10)) lines) ∧ map fst (map (fun l => (l, 10)) lines) = lines.
Proof. rewrite !map_map. split; [by apply map_ext|]. by rewrite map_id. Qed.

Lemma all_ended lines : Forall no_break lines → Forall ended (map (fun l => (l, 10)) lines).
Proof. intros H. apply Forall_map. eapply Forall_impl; [exact H|]. by intros l Hl. Qed.

Lemma closed_splitlines lines t : Forall no_break lines → no_break t →
  splitlines (concat (map closed lines) ++ t) = lines ++ unended t ∧ splitlines_keep (concat (map closed lines) ++ t) = map closed lines ++ unended t.
Proof.
  intros Hl%all_ended Ht. destruct (closed_ended lines) as [-> E].
  split; [by rewrite splitlines_ended, E by done|by apply splitlines_keep_ended].
Qed.

Lemma restamp_lines lines t : Forall no_break lines → no_break t →
  restamp sha256 (concat (map closed lines) ++ t) p = concat (map closed (map restamped lines)) ++ restamp_line sha256 p t.
Proof.
  intros Hl Ht. unfold restamp. rewrite (proj2 (closed_splitlines lines t Hl Ht)), map_app, concat_app. f_equal.
  - rewrite !map_map. f_equal. induction Hl as [|l lines Hl' _ IH]; [done|]. cbn [map]. rewrite IH. f_equal. by apply restamp_line_ended.
  - unfold unended. case_decide as E; [by rewrite E|]. cbn. by rewrite app_nil_r.
Qed.

(** The refreshed text has the refreshed lines. *)
Lemma restamp_shape text : plain_breaks text → ∃ lines t,
  Forall no_break lines ∧ no_break t ∧ restamp sha256 text p = concat (map closed lines) ++ t ∧
  splitlines (restamp sha256 text p) = map restamped (splitlines text) ∧
  Forall (fun l => restamped l = l) lines ∧ restamp_line sha256 p t = t.
Proof.
  intros (lines & t & -> & Hl & Ht)%plain_lines. rewrite restamp_lines by done. rewrite (proj1 (closed_splitlines lines t Hl Ht)), map_app.
  assert (Forall no_break (map restamped lines)) as Hr by (apply Forall_map; eapply Forall_impl; [exact Hl|]; intros l; apply restamped_break).
  assert (Forall (fun l => restamped l = l) (map restamped lines)) as Hi by (apply Forall_map; eapply Forall_impl; [exact Hl|]; intros l; apply restamped_twice).
  destruct (restamp_line_last t Ht) as [E|[E E']].
  - exists (map restamped lines ++ [restamped t]), []. rewrite E, map_app, concat_app, app_nil_r. cbn [map concat]. rewrite app_nil_r. fold (closed (restamped t)).
    split_and!; [apply Forall_app; split; [done|]; constructor; [by apply restamped_break|constructor]|constructor|done| |apply Forall_app; split; [done|]; constructor; [by apply restamped_twice|constructor]|done].
    assert (t ≠ []) as Hne by (intros ->; cbn in E; done).
    transitivity (splitlines (concat (map closed (map restamped lines ++ [restamped t])) ++ [])); [by rewrite map_app, concat_app, app_nil_r; cbn; rewrite app_nil_r|].
    rewrite (proj1 (closed_splitlines (map restamped lines ++ [restamped t]) [] ltac:(apply Forall_app; split; [done|]; constructor; [by apply restamped_break|constructor]) ltac:(constructor))).
    unfold unended. rewrite decide_True, decide_False by done. by rewrite app_nil_r.
  - exists (map restamped lines), t. rewrite E. split_and!; [done..| |done|done]. rewrite (proj1 (closed_splitlines _ t Hr Ht)).
    f_equal. unfold unended. case_decide; [done|]. cbn. by rewrite E'.
Qed.

Lemma restamp_twice text : plain_breaks text → restamp sha256 (restamp sha256 text p) p = restamp sha256 text p.
Proof.
  intros H. destruct (restamp_shape text H) as (lines & t & Hl & Ht & -> & _ & Hi & Et). rewrite restamp_lines by done. rewrite Et. do 3 f_equal.
  clear Hl. induction Hi as [|l lines E _ IH]; [done|]. cbn. by rewrite E, IH.
Qed.

(** ** The rows of a refreshed text *)

Definition restamp_cells (cells : list str) : list str := if zlen cells =? 5 then <[4%nat := stamp_of sha256 cells p]> cells else cells.
Definition restamp_row (mc : str * list str) : str * list str := (mc.1, restamp_cells mc.2).

Lemma section_bar l : startswith l ($"| `") = true → SECTION_RE l = None.
Proof. by intros (r & ->)%startswith_split. Qed.

Lemma restamp_cells_strip c0 c1 c2 c3 c4 :
  map strip [c0; c1; c2; c3; stamp_cell (stamped_names [c0; c1; c2; c3; c4])] = restamp_cells (map strip [c0; c1; c2; c3; c4]).
Proof.
  unfold restamp_cells. change (zlen (map strip [c0; c1; c2; c3; c4]) =? 5) with true. unfold stamp_of. rewrite stamped_strip.
  change (<[4%nat := ?x]> (map strip [c0; c1; c2; c3; c4])) with [strip c0; strip c1; strip c2; strip c3; x]. cbn [map]. by rewrite stamp_cell_strip.
Qed.

Lemma table_row_restamped m rows l : no_break l →
  table_row (m, map restamp_row rows) (restamped l) = let st := table_row (m, rows) l in (st.1, map restamp_row st.2).
Proof.
  intros Hl. unfold table_row. destruct (restamped_cases l Hl) as [(Es & c0 & c1 & c2 & c3 & c4 & Ec & Es' & _ & Ec')|[E Hn]].
  - rewrite !section_bar, Es, Es', Ec, Ec' by done. destruct m as [m|]; [|done]. cbn zeta. cbn [fst snd]. rewrite map_app, restamp_cells_strip. done.
  - rewrite E. destruct (SECTION_RE l); [done|]. destruct m as [m|]; [|done]. destruct (startswith l _); [|done].
    cbn zeta. cbn [fst snd]. rewrite map_app. cbn [map]. unfold restamp_row at 3, restamp_cells. cbn [fst snd].
    destruct (Z.eqb_spec (zlen (map strip (split_on 124 (strip_by bar l)))) 5) as [E5|]; [|done].
    unfold zlen in E5. rewrite length_map in E5. destruct Hn; [done|lia].
Qed.

Lemma restamp_table text : plain_breaks text → table_rows (restamp sha256 text p) = map restamp_row (table_rows text).
Proof.
  intros H. destruct (restamp_shape text H) as (_ & _ & _ & _ & _ & Es & _). unfold table_rows. rewrite Es.
  assert (Forall no_break (splitlines text)) as Hb by (destruct (plain_lines text H) as (lines & t & -> & Hl & Ht);
    rewrite (proj1 (closed_splitlines lines t Hl Ht)); apply Forall_app; split; [done|]; unfold unended; case_decide; by repeat constructor).
  assert (∀ m rows, foldl table_row (m, map restamp_row rows) (map restamped (splitlines text)) =
    let st := foldl table_row (m, rows) (splitlines text) in (st.1, map restamp_row st.2)) as Hf; [|exact (f_equal snd (Hf None []))].
  clear Es. induction Hb as [|l lines Hl _ IH]; intros m rows; [done|]. cbn [map foldl]. rewrite table_row_restamped by done. cbn zeta.
  destruct (table_row (m, rows) l) as [m' rows']. apply IH.
Qed.
End restamp.

(** ** The digests *)

Lemma partition_tab (name d : str) : 9 ∉ name → partition [9] (name ++ 9 :: d) = (name, true, d).
Proof.
  intros Hn. unfold partition. assert (find [9] (name ++ 9 :: d) = Some (zlen name)) as ->.
  { induction name as [|c name IH]; [done|]. apply not_elem_of_cons in Hn as [Hc Hn]. cbn [app find startswith].
    rewrite (proj2 (Z.eqb_neq 9 c)) by done. cbn [andb]. rewrite IH by done. cbn. unfold zlen. cbn. f_equal. lia. }
  unfold slice, from. rewrite Z.sub_0_r. change (Z.to_nat 0) with 0%nat. rewrite drop_0. unfold zlen. rewrite Nat2Z.id, take_app_length.
  replace (Z.to_nat _) with (length (name ++ [9])) by (rewrite length_app; cbn; lia).
  change (name ++ 9 :: d) with (name ++ [9] ++ d). by rewrite app_assoc, drop_app_length.
Qed.

Lemma plain_name_chars name : plain_name name → no_break name ∧ (9 ∉ name) ∧ ∃ c r, name = c :: r ∧ c ≠ 35.
Proof.
  intros (Hn & c & Hc & Hl). split_and!.
  - eapply Forall_impl; [exact Hn|]. intros x. unfold lower_word, lower, is_digit, in_range, is_linebreak. intros Hx.
    rewrite !orb_true_iff, !andb_true_iff, !Z.leb_le, Z.eqb_eq in Hx. rewrite !orb_false_iff. unfold in_range. repeat split; lia.
  - intros H9. by apply (proj1 (Forall_forall _ _) Hn) in H9.
  - destruct name as [|x name]; [done|]. injection Hc as ->. exists c, name. split; [done|]. by intros ->.
Qed.

Section digests.
Context (p : list (str * list row)) (Hp : ∀ name, no_break (digest p name)).

Definition digest_line (name : str) : str := name ++ 9 :: digest p name.

Lemma read_digest_line d name : plain_name name → read_digest d (digest_line name) = dset name (digest p name) d.
Proof.
  intros (_ & H9 & c & r & E & Hc)%plain_name_chars. unfold read_digest, digest_line. rewrite bool_decide_true by by rewrite E.
  assert (startswith (name ++ 9 :: digest p name) ($"#") = false) as ->
    by (rewrite E; change (startswith ((c :: r) ++ ?d) ($"#")) with ((35 =? c) && true); by rewrite (proj2 (Z.eqb_neq 35 c)) by done).
  cbn [andb negb]. by rewrite partition_tab.
Qed.

Lemma read_digest_lines d names name : Forall plain_name names →
  dget name (foldl read_digest d (map digest_line names)) = if decide (name ∈ names) then Some (digest p name) else dget name d.
Proof.
  intros Hn. revert d. induction Hn as [|n names Hn _ IH]; intros d; cbn [map foldl]; [by rewrite decide_False by apply not_elem_of_nil|].
  rewrite IH, read_digest_line by done. destruct (decide (name ∈ names)); [by rewrite decide_True by by right|].
  destruct (decide (name = n)) as [->|Hne]; [by rewrite decide_True, dget_dset by left|].
  rewrite decide_False by (rewrite elem_of_cons; tauto). by apply dget_dset_ne.
Qed.

Lemma digest_names_plain rows : Forall plain_name (digest_names rows).
Proof.
  apply Forall_forall. intros name. unfold digest_names. rewrite elem_of_sorted_set, list_elem_of_In, in_concat.
  intros (l & (mc & <- & _)%in_map_iff & H%list_elem_of_In). destruct (_ =? 5); [by apply stamped_plain in H|by apply not_elem_of_nil in H].
Qed.

(** What is read back of the digests. *)
Lemma digests_read rows name : dget name (read_digests (write_digests rows p)) =
  if decide (name ∈ digest_names rows) then Some (digest p name) else None.
Proof.
  unfold read_digests, write_digests. set (header := [$"# Written by `make model-map-restamp` (GitHub issue #1029): each";
    $"# function a kernel/models/README.md row stamps, and its digest as"; $"# reviewed. Do not edit by hand."]).
  assert (∀ names, digests_header ++ concat (map (fun n => n ++ [9] ++ digest p n ++ nl) names) =
    concat (map (fun l => l ++ nl) (header ++ map digest_line names))) as ->.
  { intros names. rewrite map_app, concat_app, map_map. f_equal. f_equal. apply map_ext. intros n. unfold digest_line. by rewrite <- app_assoc. }
  pose proof (digest_names_plain rows) as Hn. rewrite splitlines_lines.
  - rewrite foldl_app. by rewrite read_digest_lines.
  - apply Forall_app. split; [by repeat constructor|]. apply Forall_map. eapply Forall_impl; [exact Hn|]. intros n (Hb & _)%plain_name_chars.
    apply Forall_app. split; [done|]. constructor; [done|apply Hp].
Qed.
End digests.

Lemma elem_of_first_of_each x names : x ∈ first_of_each names ↔ x ∈ names.
Proof.
  unfold first_of_each. assert (∀ acc, x ∈ foldl (fun l n => if decide (n ∈ l) then l else l ++ [n]) acc names ↔ x ∈ acc ∨ x ∈ names) as ->.
  { induction names as [|n names IH]; intros acc; cbn [foldl]; [rewrite elem_of_nil; tauto|]. rewrite IH, elem_of_cons.
    case_decide; [|rewrite elem_of_app, list_elem_of_singleton; tauto]. split; [tauto|]. intros [?|[->|?]]; tauto. }
  rewrite elem_of_nil. tauto.
Qed.

Lemma moved_none cells p reviewed : moved_names cells p reviewed = [] ↔ ∀ name, name ∈ stamped_names cells → dget name reviewed = Some (digest p name).
Proof.
  unfold moved_names. rewrite filter_map_nil. split.
  - intros H name Hn. destruct (decide (dget name reviewed = Some (digest p name))); [done|]. exfalso. by apply (H name); [apply elem_of_first_of_each|].
  - intros H name Hn Hne. rewrite elem_of_first_of_each in Hn. by apply Hne, H.
Qed.

(** ** The rows that are accepted *)

Section rows.
Context (read : str → res str) (sha256 : str → str) (tla_defs : list (str * list str)) (p : list (str * list row)).

(** Why a dropped path is safe. *)
Definition reason (model why : str) : Prop :=
  (∃ other action, ELSEWHERE_RE why = Some (other, action) ∧ action ∈ defs_of tla_defs (default model other)) ∨
  (∃ function activity names variant, GUARDED_RE why = Some (function, activity) ∧ activities read p = Ok names ∧
     dget activity names = Some variant ∧ sets_activity read p function variant = Ok true) ∨
  (∃ property, IRRELEVANT_RE why = Some property ∧ property ∈ defs_of tla_defs model).

Definition justified (model entry : str) : Prop :=
  ∃ path why, partition ($" -- ") entry = (path, true, why) ∧ path ≠ [] ∧ reason model why.

Lemma sets_activity_defined function variant : sets_activity read p function variant = Ok true → defined p function = true.
Proof.
  unfold sets_activity, code, definitions, defined, dmem. destruct (dget function p); [done|]. by cbn.
Qed.

(** The forms of a reason exclude each other. *)
Lemma forms_exclude why :
  (∀ x, ELSEWHERE_RE why = Some x → GUARDED_RE why = None ∧ IRRELEVANT_RE why = None) ∧
  (∀ x, GUARDED_RE why = Some x → ELSEWHERE_RE why = None ∧ IRRELEVANT_RE why = None) ∧
  (∀ x, IRRELEVANT_RE why = Some x → ELSEWHERE_RE why = None ∧ GUARDED_RE why = None).
Proof.
  unfold ELSEWHERE_RE, GUARDED_RE, IRRELEVANT_RE, quoted.
  split_and!; intros x; [intros (s & E & _)%bind_Some|intros ([? ?] & (s & E & _)%bind_Some & _)%bind_Some|intros ([? ?] & (s & E & _)%bind_Some & _)%bind_Some];
    apply strip_prefix_Some in E as ->; by split.
Qed.

Lemma dropped_entry_iff model entry : dropped_entry read model tla_defs p entry = Ok [] ↔ justified model entry.
Proof.
  unfold dropped_entry, justified. destruct (partition ($" -- ") entry) as [[path sep] why] eqn:Ep.
  assert (∀ P : str → Prop, (∃ path' why', (path, sep, why) = (path', true, why') ∧ path' ≠ [] ∧ P why') ↔ sep = true ∧ path ≠ [] ∧ P why) as Hw
    by (intros P; split; [intros (? & ? & [= -> -> ->] & ? & ?); done|intros (-> & ? & ?); by exists path, why]).
  rewrite (Hw (reason model)). clear Hw. destruct sep; cbn [negb orb]; [|by split; [|intros [? _]]]. case_bool_decide as Hpath; [by split; [|intros (_ & ? & _)]|].
  transitivity (reason model why); [|tauto]. unfold reason. destruct (forms_exclude why) as (He & Hg & Hi).
  destruct (ELSEWHERE_RE why) as [[other action]|].
  { destruct (He _ eq_refl) as [-> ->]. case_decide; (split; [intros ?|]); try done; [left; eauto|]. intros [(? & ? & [= <- <-] & ?)|[(? & ? & ? & ? & ? & _)|(? & ? & _)]]; done. }
  destruct (GUARDED_RE why) as [[function activity]|].
  { destruct (Hg _ eq_refl) as [_ ->]. split.
    - intros (names & En & H)%bind_Ok_inv. destruct (defined p function); [|done]. cbn [negb] in H. destruct (dget activity names) as [variant|] eqn:Ev; [|done].
      apply bind_Ok_inv in H as ([] & Es & H); [|done]. right; left. by exists function, activity, names, variant.
    - intros [(? & ? & ? & _)|[(f & a & names & variant & [= <- <-] & -> & Ev & Es)|(? & ? & _)]]; [done| |done].
      cbn [mbind res_bind]. rewrite (sets_activity_defined _ _ Es). cbn [negb]. by rewrite Ev, Es. }
  destruct (IRRELEVANT_RE why) as [property|].
  { case_decide; (split; [intros ?|]); try done; [right; right; eauto|]. intros [(? & ? & ? & _)|[(? & ? & ? & ? & ? & _)|(? & [= <-] & ?)]]; done. }
  split; [done|]. intros [(? & ? & ? & _)|[(? & ? & ? & ? & ? & _)|(? & ? & _)]]; done.
Qed.

(** A row but for its stamp. *)
Definition content_holds (model : str) (cells : list str) : Prop :=
  (∀ action, action ∈ ACTION_RE (default [] (cells !! 0%nat)) → action ∈ defs_of tla_defs model) ∧
  (∀ name, name ∈ NAME_RE (default [] (cells !! 1%nat)) → defined p name = true) ∧
  (default [] (cells !! 3%nat) = $"nothing" ∨ Forall (justified model) (split_by ($"; ") (default [] (cells !! 3%nat)))).

Lemma dropped_errors_iff model cell : dropped_errors read model cell tla_defs p = Ok [] ↔ cell = $"nothing" ∨ Forall (justified model) (split_by ($"; ") cell).
Proof.
  unfold dropped_errors. case_decide as E; [by split; [left|]|]. rewrite problems_none.
  assert (∀ entries, Forall (fun entry => dropped_entry read model tla_defs p entry = Ok []) entries ↔ Forall (justified model) entries) as ->
    by (intros entries; split; intros H; (eapply Forall_impl; [exact H|]); intros entry; apply dropped_entry_iff). tauto.
Qed.

Lemma content_errors_iff model cells : content_errors read model cells tla_defs p = Ok [] ↔ content_holds model cells.
Proof.
  unfold content_errors, content_holds. rewrite <- dropped_errors_iff. cbn zeta. split.
  - intros (dropped & Hd & H)%bind_Ok_inv. injection H as H. apply app_eq_nil in H as [H1 [H2 H3]%app_eq_nil]. subst dropped.
    rewrite filter_map_nil in H1, H2. split_and!; [|intros name Hn; by apply not_false_iff_true, H2|done].
    intros action Ha. destruct (decide (action ∈ defs_of tla_defs model)); [done|]. by destruct (H1 action Ha).
  - intros (H1 & H2 & ->). cbn [mbind res_bind]. f_equal. rewrite app_nil_r.
    rewrite (proj2 (filter_map_nil _ (fun action => action ∉ defs_of tla_defs model) _)) by (intros a Ha Hn; by apply Hn, H1).
    rewrite (proj2 (filter_map_nil _ (fun name => defined p name = false) _)) by (intros n Hn; by rewrite H2). done.
Qed.

(** A row the check accepts: its content holds, its stamp is that of the compiled
    bodies, and the digests recorded are theirs. *)
Definition row_holds (reviewed : list (str * str)) (mc : str * list str) : Prop :=
  zlen mc.2 = 5 ∧ content_holds mc.1 mc.2 ∧ mc.2 !! 4%nat = Some (stamp_of sha256 mc.2 p) ∧
  ∀ name, name ∈ stamped_names mc.2 → dget name reviewed = Some (digest p name).

(** What is left to report of a row whose stamp and digests are current. *)
Lemma row_errors_current model cells reviewed : zlen cells = 5 → cells !! 4%nat = Some (stamp_of sha256 cells p) →
  (∀ name, name ∈ stamped_names cells → dget name reviewed = Some (digest p name)) →
  row_errors read sha256 model cells tla_defs p (Some reviewed) = content_errors read model cells tla_defs p.
Proof.
  intros H5 H4 Hr. unfold row_errors. rewrite H5. cbn [Z.eqb Pos.eqb negb]. destruct (content_errors read model cells tla_defs p) as [errors|e]; [|done].
  cbn [mbind res_bind]. case_decide as E; [done|]. subst errors. rewrite H4. rewrite decide_False by (intros Hne; by apply Hne).
  rewrite (proj2 (moved_none cells p reviewed)) by done. done.
Qed.

Lemma row_errors_iff reviewed mc : row_errors read sha256 mc.1 mc.2 tla_defs p (Some reviewed) = Ok [] ↔ row_holds reviewed mc.
Proof.
  destruct mc as [model cells]. unfold row_holds. cbn [fst snd]. split.
  - intros H. unfold row_errors in H. destruct (Z.eqb_spec (zlen cells) 5) as [H5|]; [|done]. cbn [negb] in H. apply bind_Ok_inv in H as (errors & Hc & H).
    case_decide as E; [by injection H as ->|]. subst errors. case_decide as E4; [done|].
    case_decide as Em; [done|]. split_and!; [done|by apply content_errors_iff| |by apply moved_none].
    rewrite <- E4. destruct (cells !! 4%nat) eqn:E; [done|]. apply lookup_ge_None in E. unfold zlen in H5. lia.
  - intros (H5 & Hc & H4 & Hr). rewrite row_errors_current by done. by apply content_errors_iff.
Qed.
End rows.

(** ** The compiled bodies *)

(** A body of the name in the tables. *)
Definition body (rows : list row) (name hash : str) : Prop :=
  ∃ r, r ∈ rows ∧ r_name r = name ∧ r_body_hash r = hash ∧ hash ≠ $"-".

Definition program_of (st : list (str * list row) * list (list str)) (rows : list row) : Prop :=
  (∀ name hash, hash ∈ map r_body_hash (definitions st.1 name) ↔ body rows name hash) ∧
  (∀ key, key ∈ st.2 → ∃ r, r ∈ rows ∧ row_key r = key ∧ r_body_hash r ≠ $"-").

Lemma body_snoc rows r name hash : body (rows ++ [r]) name hash ↔ body rows name hash ∨ (r_name r = name ∧ r_body_hash r = hash ∧ hash ≠ $"-").
Proof.
  unfold body. split.
  - intros (r' & [Hr| ->%list_elem_of_singleton]%elem_of_app & H); [left; eauto|by right].
  - intros [(r' & Hr & H)|H]; [exists r'|exists r]; rewrite elem_of_app, list_elem_of_singleton; tauto.
Qed.

Lemma add_definition_program st rows r : program_of st rows → program_of (add_definition st r) (rows ++ [r]).
Proof.
  destruct st as [defs seen]. intros [Hb Hk]. cbn [fst snd] in *. unfold add_definition.
  assert (∀ key, key ∈ seen → ∃ r', r' ∈ rows ++ [r] ∧ row_key r' = key ∧ r_body_hash r' ≠ $"-") as Hk'
    by (intros key (r' & Hr & H)%Hk; exists r'; rewrite elem_of_app; tauto).
  case_decide as Ed; [|case_decide as Es].
  - split; [|done]. intros name hash. cbn [fst]. rewrite body_snoc, Hb. rewrite Ed. naive_solver.
  - split; [|done]. intros name hash. cbn [fst]. rewrite body_snoc, Hb. split; [tauto|]. intros [?|(En & Eh & Hd)]; [done|].
    destruct (Hk _ Es) as (r' & Hr & Ek & _). injection Ek as En' _ _ Eh'. exists r'. split_and!; [done|congruence..|done].
  - split; cbn [fst snd].
    + intros name hash. rewrite body_snoc, <- Hb. unfold definitions. destruct (decide (name = r_name r)) as [->|Hne].
      * rewrite dget_dset. cbn [from_option id]. unfold id at 1. rewrite map_app, elem_of_app. cbn [map]. rewrite list_elem_of_singleton.
        split; [intros [?| ->]; [tauto|right; done]|]. intros [?|(_ & -> & _)]; tauto.
      * rewrite dget_dset_ne by done. split; [tauto|]. intros [?|(? & _)]; [done|congruence].
    + intros key [Hin| ->%list_elem_of_singleton]%elem_of_app; [by apply Hk'|]. exists r. rewrite elem_of_app, list_elem_of_singleton. tauto.
Qed.

Lemma program_bodies rows name hash : hash ∈ map r_body_hash (definitions (Program rows) name) ↔ body rows name hash.
Proof.
  assert (∀ st done_, program_of st done_ → program_of (foldl add_definition st rows) (done_ ++ rows)) as H.
  { induction rows as [|r rows IH]; intros st done_ Hst; [by rewrite app_nil_r|]. cbn [foldl]. change (r :: rows) with ([r] ++ rows). rewrite app_assoc.
    by apply IH, add_definition_program. }
  apply (H ([], []) []). split; cbn [fst snd]; [|by intros key ?%not_elem_of_nil].
  intros n h. cbn. rewrite elem_of_nil. split; [done|]. by intros (r & ?%not_elem_of_nil & _).
Qed.

(** The hashes of a table have neither commas nor the character zero. *)
Definition clean_hash (hash : str) : Prop := hash ≠ [] ∧ Forall (fun c => c ≠ 44 ∧ c ≠ 0) hash.

Lemma join_chars (P : Z → Prop) sep parts : Forall P sep → Forall (Forall P) parts → Forall P (join sep parts).
Proof.
  intros Hs. induction 1 as [|q parts Hq Hp IH]; [constructor|]. destruct parts; [done|]. cbn [join]. by rewrite !Forall_app.
Qed.

Lemma sorted_set_ext l k : sorted_set l = sorted_set k ↔ ∀ x, x ∈ l ↔ x ∈ k.
Proof.
  unfold sorted_set at 2. rewrite sorted_set_eq by apply NoDup_remove_dups. split; intros H x; rewrite H, elem_of_remove_dups; done.
Qed.

Lemma join_comma_inj l k : Forall clean_hash l → Forall clean_hash k → join ($",") l = join ($",") k → l = k.
Proof.
  assert (∀ l, Forall clean_hash l → l ≠ [] → join ($",") l ≠ []) as Hne.
  { intros [|x [|y l']] Hl Hn; [done|..]; apply Forall_cons in Hl as [[Hx _] _]; destruct x; done. }
  assert (∀ l, Forall clean_hash l → Forall (Forall (fun x => x ≠ 44)) l) as Hc
    by (intros l' Hl; eapply Forall_impl; [exact Hl|]; intros h [_ Hh]; eapply Forall_impl; [exact Hh|by intros c [? _]]).
  intros Hl Hk E. destruct (decide (l = [])) as [->|Hl0], (decide (k = [])) as [->|Hk0]; [done|by destruct (Hne k)|by destruct (Hne l)|].
  rewrite <- (split_on_join 44 l), <- (split_on_join 44 k) by auto. by f_equal.
Qed.

Definition clean_rows (rows : list row) : Prop := Forall (fun r => clean_hash (r_body_hash r)) rows.

Lemma clean_bodies rows name : clean_rows rows → Forall clean_hash (sorted_set (map r_body_hash (definitions (Program rows) name))).
Proof.
  intros H. apply Forall_forall. intros h. rewrite elem_of_sorted_set, program_bodies. intros (r & Hr & _ & <- & _). by apply (proj1 (Forall_forall _ _) H).
Qed.

(** The digests of a name are equal when its bodies are. *)
Lemma digest_eq rows rows' name : clean_rows rows → clean_rows rows' →
  digest (Program rows) name = digest (Program rows') name ↔ ∀ hash, body rows name hash ↔ body rows' name hash.
Proof.
  intros H H'. transitivity (sorted_set (map r_body_hash (definitions (Program rows) name)) = sorted_set (map r_body_hash (definitions (Program rows') name))).
  - unfold digest. split; [|by intros ->]. apply join_comma_inj; by apply clean_bodies.
  - rewrite sorted_set_ext. split; intros E h; [rewrite <- !program_bodies|rewrite !program_bodies]; apply E.
Qed.

(** What a stamp is the digest of. *)
Definition preimage (p : list (str * list row)) (names : list str) : str := concat (map (fun name => digest p name ++ [0]) names).

Lemma terminated_inj (a b x y : str) : (0 ∉ a) → (0 ∉ b) → a ++ 0 :: x = b ++ 0 :: y → a = b ∧ x = y.
Proof.
  revert b. induction a as [|c a IH]; intros [|d b] Ha Hb E; cbn in E.
  - by injection E as ->.
  - injection E as <- _. destruct Hb. by left.
  - injection E as -> _. destruct Ha. by left.
  - injection E as -> E. apply not_elem_of_cons in Ha as [_ Ha], Hb as [_ Hb]. by destruct (IH b Ha Hb E) as [-> ->].
Qed.

Lemma clean_digest rows name : clean_rows rows → 0 ∉ digest (Program rows) name.
Proof.
  intros H Hin. assert (Forall (fun c => c ≠ 0) (digest (Program rows) name)) as Hf; [|by apply (proj1 (Forall_forall _ _) Hf) in Hin].
  apply join_chars; [by repeat constructor|]. eapply Forall_impl; [by apply clean_bodies|]. intros h [_ Hh]. eapply Forall_impl; [exact Hh|by intros c [_ ?]].
Qed.

Lemma preimage_eq rows rows' names : clean_rows rows → clean_rows rows' →
  preimage (Program rows) names = preimage (Program rows') names ↔ ∀ name, name ∈ names → digest (Program rows) name = digest (Program rows') name.
Proof.
  intros H H'. unfold preimage. induction names as [|n names IH]; cbn [map concat]; [split; [by intros _ x ?%not_elem_of_nil|done]|].
  rewrite <- !app_assoc. cbn [app]. split.
  - intros E. apply terminated_inj in E as [En Er]; [|by apply clean_digest..]. intros x [->|Hx]%elem_of_cons; [done|]. by apply IH.
  - intros E. rewrite (E n) by left. do 2 f_equal. apply IH. intros x Hx. apply E. by right.
Qed.

(** ** The tables that are read *)

Lemma parse_rows_break origin number lines rows : Forall no_break lines → parse_rows origin number lines = Ok rows →
  Forall (fun r => no_break (r_body_hash r)) rows.
Proof.
  intros Hl. revert number rows. induction Hl as [|l lines Hl _ IH]; intros number rows; cbn [parse_rows]; [by intros [= <-]|].
  intros (r & Hr & (rs & Hrs & [= <-])%bind_Ok_inv)%bind_Ok_inv. constructor; [|by eapply IH].
  unfold parse_row in Hr. pose proof (split_on_sub 9 l) as Hs. destruct (split_on 9 l) as [|a0 [|a1 [|a2 [|a3 [|a4 [|a5 [|a6 [|a7 [|a8 [|a9 [|a10 [|a11 [|? ?]]]]]]]]]]]]]; try done.
  injection Hr as <-. cbn [r_body_hash]. rewrite !Forall_cons in Hs. destruct Hs as (_ & _ & _ & _ & _ & _ & _ & _ & _ & _ & _ & H & _).
  apply Forall_forall. intros c [_ Hc]%H. by apply (proj1 (Forall_forall _ _) Hl).
Qed.

Lemma parse_break text origin rows : parse text origin = Ok rows → Forall (fun r => no_break (r_body_hash r)) rows.
Proof.
  unfold parse. pose proof (splitlines_no_break text) as Hb. destruct (splitlines text) as [|first rest]; [done|]. apply Forall_cons in Hb as [_ Hb].
  destruct (strip_prefix HEADER first) as [version|]; [|done]. case_decide as Ev; [|done]. destruct rest as [|columns lines]; [done|]. apply Forall_cons in Hb as [_ Hb].
  case_decide as Ec; [|done]. intros (rs & Hrs & H)%bind_Ok_inv. case_decide as Er; [done|]. injection H as <-. by eapply parse_rows_break.
Qed.

Lemma digest_break read_table paths rows name : read_tables read_table paths = Ok rows → no_break (digest (Program rows) name).
Proof.
  intros (tables & Ht%mapM_res_Forall2 & [= <-])%bind_Ok_inv. apply join_chars; [by repeat constructor|]. apply Forall_forall. intros h.
  rewrite elem_of_sorted_set, program_bodies. intros (r & Hr & _ & <- & _). apply list_elem_of_In, in_concat in Hr as (t & Hin & Hr).
  induction Ht as [|path t' paths tables (text & _ & Hp%parse_break)%bind_Ok_inv _ IH]; [done|]. destruct Hin as [->|Hin]; [|by apply IH].
  apply (proj1 (Forall_forall _ _) Hp). by apply list_elem_of_In.
Qed.

(** ** The claims *)

Lemma stamped_insert cells x : stamped_names (<[4%nat := x]> cells) = stamped_names cells.
Proof. unfold stamped_names. by rewrite !list_lookup_insert_ne by done. Qed.

Lemma digest_names_elem rows mc name : mc ∈ rows → zlen mc.2 = 5 → name ∈ stamped_names mc.2 → name ∈ digest_names rows.
Proof.
  intros Hm H5 Hn. unfold digest_names. rewrite elem_of_sorted_set, list_elem_of_In, in_concat. exists (stamped_names mc.2).
  split; [|by apply list_elem_of_In]. apply in_map_iff. exists mc. rewrite H5. split; [done|by apply list_elem_of_In].
Qed.

(** A row of five cells after a refresh has the stamp of the compiled bodies. *)
Lemma restamp_cells_stamp sha256 p cells : zlen (restamp_cells sha256 p cells) = 5 →
  restamp_cells sha256 p cells !! 4%nat = Some (stamp_of sha256 (restamp_cells sha256 p cells) p).
Proof.
  unfold restamp_cells. destruct (Z.eqb_spec (zlen cells) 5) as [H5|]; [|done]. intros _. unfold stamp_of at 2. rewrite stamped_insert.
  apply list_lookup_insert_eq. unfold zlen in H5. lia.
Qed.

(** C18: A refresh changes the rows of the README in their last cell only, which becomes the
    stamp of the compiled kernels, and a second refresh changes nothing.  Of a row of five
    cells the check then reports exactly what is wrong with its content: stamp and
    recorded digests agree.  SHA-256 is any function to hexadecimal digits. *)
Theorem restamp_settles read sha256 tla_defs read_table paths rows readme :
  (∀ s, Forall (fun c => is_hex_digit c = true) (sha256 s)) → read_tables read_table paths = Ok rows → plain_breaks readme →
  let p := Program rows in
  let readme' := restamp sha256 readme p in
  let reviewed := read_digests (write_digests (table_rows readme') p) in
  table_rows readme' = map (restamp_row sha256 p) (table_rows readme) ∧ restamp sha256 readme' p = readme' ∧
  ∀ model cells, (model, cells) ∈ table_rows readme' → zlen cells = 5 →
    row_errors read sha256 model cells tla_defs p (Some reviewed) = content_errors read model cells tla_defs p.
Proof.
  intros Hhex Hrows Hplain p readme' reviewed. pose proof (restamp_table sha256 p Hhex readme Hplain) as Ht.
  split_and!; [done|by apply restamp_twice|]. intros model cells Hin H5. apply row_errors_current; [done| |].
  - change (table_rows readme' = map (restamp_row sha256 p) (table_rows readme)) in Ht. rewrite Ht in Hin.
    apply list_elem_of_In, in_map_iff in Hin as ([m c] & [= <- <-] & _). by apply restamp_cells_stamp.
  - intros name Hn. unfold reviewed. rewrite digests_read by (intros n; by eapply digest_break).
    by rewrite decide_True by by eapply (digest_names_elem _ (model, cells)).
Qed.

(** C11: A row keeps its stamp between two builds exactly when every name the stamp covers
    has the same compiled bodies in both: no change of such a body passes unseen, and
    nothing else asks for a review.  The stamp covers the lower-case names in the row's
    mapping cell and the lower-case guards of its dropped paths; a name with a capital is
    not covered.  The digests of the two builds' texts are taken not to collide in their
    first twelve digits, and the body hashes have no comma and no NUL. *)
Theorem stamp_kept_iff sha256 cells rows rows' : clean_rows rows → clean_rows rows' →
  (∀ a b, a = preimage (Program rows) (stamped_names cells) → b = preimage (Program rows') (stamped_names cells) →
    slice (sha256 a) 0 12 = slice (sha256 b) 0 12 → a = b) →
  stamp_of sha256 cells (Program rows) = stamp_of sha256 cells (Program rows') ↔
  ∀ name, name ∈ stamped_names cells → ∀ hash, body rows name hash ↔ body rows' name hash.
Proof.
  intros H H' Hc. transitivity (preimage (Program rows) (stamped_names cells) = preimage (Program rows') (stamped_names cells)).
  - unfold stamp_of, row_hash. fold (preimage (Program rows) (stamped_names cells)) (preimage (Program rows') (stamped_names cells)). split; [|by intros ->].
    intros [_ [E _]%app_inj_2]%app_inj_1; [|done..]. by apply (Hc _ _ eq_refl eq_refl).
  - rewrite preimage_eq by done. split; intros E name Hn; by apply digest_eq, E.
Qed.

Lemma report_rows_none read sha256 tla_defs p reviewed readme_rows :
  Forall (fun mc => row_report read sha256 tla_defs p reviewed mc = Ok []) readme_rows ↔ Forall (row_holds read sha256 tla_defs p reviewed) readme_rows.
Proof.
  assert (∀ mc, row_report read sha256 tla_defs p reviewed mc = Ok [] ↔ row_holds read sha256 tla_defs p reviewed mc) as Hr.
  { intros mc. rewrite <- row_errors_iff. unfold row_report. split; [|by intros ->]. intros (errors & -> & H)%bind_Ok_inv. injection H as H. by apply map_eq_nil in H as ->. }
  split; intros H; (eapply Forall_impl; [exact H|]); apply Hr.
Qed.

Lemma report_lines read sha256 tla_defs p reviewed readme_rows reports :
  mapM_res (row_report read sha256 tla_defs p reviewed) readme_rows = Ok reports →
  (concat reports = [] ↔ Forall (row_holds read sha256 tla_defs p reviewed) readme_rows) ∧
  (concat reports ≠ [] ↔ ∃ mc, mc ∈ readme_rows ∧ ¬ row_holds read sha256 tla_defs p reviewed mc) ∧
  Forall (fun line => startswith line ($"ERROR ") = true) (concat reports).
Proof.
  intros Hm. assert (concat reports = [] ↔ Forall (row_holds read sha256 tla_defs p reviewed) readme_rows) as Hnone
    by (rewrite <- report_rows_none, <- problems_none, Hm; cbn [mbind res_bind]; split; [by intros ->|by intros [= ->]]).
  apply mapM_res_Forall2 in Hm. split_and!; [done| |].
  - split; [|intros (mc & Hin & Hno) E; apply Hno; rewrite Hnone, Forall_forall in E; by apply E].
    clear Hnone. intros Hne. induction Hm as [|mc report rows reports Hr _ IH]; [done|]. destruct report as [|line report].
    + destruct (IH Hne) as (mc' & ? & ?). exists mc'. split; [by right|done].
    + exists mc. split; [left|]. rewrite <- row_errors_iff. unfold row_report in Hr. intros E. by rewrite E in Hr.
  - clear Hnone. induction Hm as [|mc report rows reports Hr _ IH]; [constructor|]. cbn [concat]. apply Forall_app. split; [|done].
    apply bind_Ok_inv in Hr as (errors & _ & [= <-]). apply Forall_forall. intros line (error & -> & _)%list_elem_of_fmap. done.
Qed.

(** The controls have a guarded row to plant a lost guard in. *)
Lemma controls_guarded read sha256 tla_defs rows readme_rows : controls_fail read sha256 tla_defs rows readme_rows = Ok [] →
  ∃ mc, mc ∈ readme_rows ∧ contains ($"guarded: `") (default [] (mc.2 !! 3%nat)) = true.
Proof.
  intros (refused & _ & (moved & _ & (guarded & Hg & (uart & _ & H)%bind_Ok_inv)%bind_Ok_inv)%bind_Ok_inv)%bind_Ok_inv.
  injection H as [_ [_ [-> _]%app_eq_nil]%app_eq_nil]%app_eq_nil. unfold guard_control in Hg.
  destruct (filter _ readme_rows) as [|mc rest] eqn:Ef; [done|]. assert (mc ∈ mc :: rest) as Hin by left. rewrite <- Ef in Hin.
  apply list_elem_of_filter in Hin as [[_ Hc]%andb_true_iff Hin]. by exists mc.
Qed.

Lemma verdict_reports read sha256 tla_defs rows tables readme reviewed status lines :
  verdict read sha256 tla_defs rows tables readme reviewed = Ok (status, lines) →
  (status = 0 ∨ status = 1) ∧
  ((∃ line, line ∈ lines ∧ startswith line ($"ERROR ") = true) ↔
   ∃ mc, mc ∈ table_rows readme ∧ ¬ row_holds read sha256 tla_defs (Program rows) reviewed mc) ∧
  (status = 0 → Forall (row_holds read sha256 tla_defs (Program rows) reviewed) (table_rows readme) ∧
    (∃ mc, mc ∈ table_rows readme ∧ contains ($"guarded: `") (default [] (mc.2 !! 3%nat)) = true) ∧ 0 < count_drops (table_rows readme)).
Proof.
  unfold verdict. intros (reports & Hm & H)%bind_Ok_inv. destruct (report_lines _ _ _ _ _ _ _ Hm) as (Hnone & Hsome & Herr). rewrite <- Hsome.
  case_decide as E.
  { injection H as <- <-. split_and!; [by right| |done]. split; [done|]. intros _. destruct (concat reports) as [|line rest]; [done|].
    exists line. split; [by left|]. by apply Forall_cons in Herr as [? _]. }
  apply bind_Ok_inv in H as (refused & Hc & H). case_decide as Ec.
  { injection H as <- <-. split_and!; [by right| |done]. split; [|done]. by intros (line & ->%list_elem_of_singleton & ?). }
  apply bind_Ok_inv in H as (line & (Hl & _ & Hp)%report_pass_ok & [= <- <-]). split_and!; [by left| |].
  - split; [|done]. by intros (? & ->%list_elem_of_singleton & ?); subst.
  - intros _. split; [by apply Hnone|]. subst refused. split; [by eapply controls_guarded|].
    apply Forall_cons in Hp as [_ Hp]. apply Forall_cons in Hp as [H2 _]. done.
Qed.

(** C24: Run without --restamp on tables that read, the check prints an ERROR line exactly when
    a row of the README fails: it has not five cells, names an action its model does not
    define or a lower-case function no kernel compiles, drops a path without a
    justification, or its stamp or the recorded digests are not those of the compiled
    bodies.  When it exits 0, every row holds, some row is guarded and some path is
    dropped. *)
Theorem function_map_passes read sha256 read_table tla readme digests args rows status lines :
  head args ≠ Some ($"--restamp") → args ≠ [] → read_tables read_table args = Ok rows →
  o_result (main read sha256 read_table tla readme digests args) = Ok (status, lines) →
  let tla_defs := map (fun pt => (pt.1, defined_names pt.2)) tla in
  let reviewed := match digests with Some text => read_digests text | None => [] end in
  let holds := row_holds read sha256 tla_defs (Program rows) reviewed in
  (status = 0 ∨ status = 1) ∧
  ((∃ line, line ∈ lines ∧ startswith line ($"ERROR ") = true) ↔ ∃ mc, mc ∈ table_rows readme ∧ ¬ holds mc) ∧
  (status = 0 → Forall holds (table_rows readme) ∧
    (∃ mc, mc ∈ table_rows readme ∧ contains ($"guarded: `") (default [] (mc.2 !! 3%nat)) = true) ∧ 0 < count_drops (table_rows readme)).
Proof.
  intros Ha Hne Hr. unfold main. rewrite bool_decide_false by done. cbn zeta. rewrite decide_False by done. rewrite Hr. cbn [o_result].
  apply verdict_reports.
Qed.

(** C39: The rows the controls plant have no stamp, and such a row is refused whatever the
    rest of it says: the control passes, unless a source cannot be read, also for a row with
    nothing else wrong.  So the six controls cannot tell whether the defect each plants is
    found. *)
Theorem planted_rows_unstamped read sha256 tla_defs p name c0 c1 c2 c3 :
  refused_control read sha256 tla_defs p (name, [c0; c1; c2; c3; []]) =
    (_ ← content_errors read ($"StackOwnership") [c0; c1; c2; c3; []] tla_defs p; Ok []) ∧
  Forall (fun control => ∃ d0 d1 d2 d3, control.2 = [d0; d1; d2; d3; []]) refused_rows.
Proof.
  split; [|repeat constructor; repeat eexists]. unfold refused_control, row_errors. cbn [snd fst].
  change (negb (zlen [c0; c1; c2; c3; []] =? 5)) with false. cbv iota. destruct (content_errors _ _ _ _ _) as [errors|e]; [|done]. cbn [mbind res_bind].
  case_decide as E; [cbn [mbind res_bind]; by rewrite decide_False|]. rewrite decide_True; [done|]. unfold stamp_of. done.
Qed.

(** ** A sample *)

Definition sample_sha (s : str) : str := dec (Z.abs (foldl (fun h c => (h * 131 + c) mod 1000003) 7 s)).

Lemma sample_sha_hex s : Forall (fun c => is_hex_digit c = true) (sample_sha s).
Proof.
  unfold sample_sha. eapply Forall_impl; [apply (dec_digits (Z.abs _)); lia|]. intros c Hc. unfold is_hex_digit. by rewrite Hc.
Qed.

Definition sample_source (_ : str) : res str := Ok (concat (map (fun line => line ++ nl)
  [$"fn uart_write() {}"; $"fn guard_stop() { kernel_activity_set(KernelActivity::Stop); }";
   $"fn kernel_activity_name(a: KernelActivity) -> str { match a { KernelActivity::Stop => { return " ++ [34] ++ $"stop" ++ [34] ++ $" } } }"])).
Definition sample_line (line name callees hash : str) : str :=
  join [9] [$"kernel/a.tkb"; line; line; name; $"-"; $"-"; $"-"; $"-"; callees; $"-"; $"-"; hash] ++ nl.
Definition sample_table (guard : str) (hash : str) (_ : str) : res str :=
  Ok (HEADER ++ $"2" ++ nl ++ join [9] COLUMNS ++ nl ++ sample_line ($"1") ($"uart_write") ($"-") ($"a1") ++
      sample_line ($"2") guard ($"kernel_activity_set@kernel/b.tkb:9") hash ++ sample_line ($"3") ACTIVITY_NAME ($"-") ($"c3")).
Definition sample_rows (guard hash : str) : list row :=
  match read_tables (sample_table guard hash) [$"qemu.tsv"] with Ok rows => rows | Err _ => [] end.
Definition sample_dropped (guard : str) : str :=
  $"loss -- guarded: `" ++ guard ++ $"` fail-stops with `stop`; size -- irrelevant to `Writer`: bounded".
Definition sample_readme : str :=
  $"## Control.tla" ++ nl ++ $"| `Writer` | `uart_write` | one byte | " ++ sample_dropped ($"guard_stop") ++ $" | `0` |" ++ nl.
Definition sample_tla : list (str * str) := [($"Control", $"Writer == TRUE" ++ nl)].
Definition sample_defs : list (str * list str) := [($"Control", [$"Writer"])].

Definition sample_rows_b2 : list row := Eval vm_compute in sample_rows ($"guard_stop") ($"b2").
Definition sample_rows_b4 : list row := Eval vm_compute in sample_rows ($"guard_stop") ($"b4").
Definition stamped_readme : str := Eval vm_compute in restamp sample_sha sample_readme (Program sample_rows_b2).
Definition stamped_digests : str := Eval vm_compute in write_digests (table_rows stamped_readme) (Program sample_rows_b2).
Definition stamped_cells : list str := Eval vm_compute in match table_rows stamped_readme with (_, cells) :: _ => cells | [] => [] end.

Lemma restamp_settles_witness :
  restamp sample_sha stamped_readme (Program sample_rows_b2) = stamped_readme ∧
  row_errors sample_source sample_sha ($"Control") stamped_cells sample_defs (Program sample_rows_b2) (Some (read_digests stamped_digests)) = Ok [].
Proof.
  destruct (restamp_settles sample_source sample_sha sample_defs (sample_table ($"guard_stop") ($"b2")) [$"qemu.tsv"] sample_rows_b2 sample_readme
    sample_sha_hex ltac:(by vm_compute) ltac:(apply (bool_decide_unpack _); by vm_compute)) as (_ & H2 & H3).
  assert (restamp sample_sha sample_readme (Program sample_rows_b2) = stamped_readme) as E by by vm_compute. rewrite E in H2, H3.
  split; [exact H2|]. assert (write_digests (table_rows stamped_readme) (Program sample_rows_b2) = stamped_digests) as Ed by by vm_compute. rewrite Ed in H3.
  rewrite (H3 ($"Control") stamped_cells); [by vm_compute|apply (bool_decide_unpack _); by vm_compute|by vm_compute].
Defined.

Lemma stamp_kept_iff_witness :
  stamp_of sample_sha stamped_cells (Program sample_rows_b2) = stamp_of sample_sha stamped_cells (Program sample_rows_b4) ↔
  ∀ name, name ∈ stamped_names stamped_cells → ∀ hash, body sample_rows_b2 name hash ↔ body sample_rows_b4 name hash.
Proof.
  apply (stamp_kept_iff sample_sha stamped_cells sample_rows_b2 sample_rows_b4).
  - repeat constructor; done.
  - repeat constructor; done.
  - intros a b -> -> E. vm_compute in E. discriminate E.
Defined.

Definition sample_verdict (hash : str) : res (Z * list str) :=
  o_result (main sample_source sample_sha (sample_table ($"guard_stop") hash) sample_tla stamped_readme (Some stamped_digests) [$"qemu.tsv"]).
Definition sample_lines (hash : str) : list str := match sample_verdict hash with Ok (_, lines) => lines | Err _ => [] end.

(** The stamped README passes with the table it was stamped from; with another body of the
    guard it is refused. *)
Lemma function_map_passes_witness :
  let holds rows := row_holds sample_source sample_sha (map (fun pt => (pt.1, defined_names pt.2)) sample_tla) (Program rows) (read_digests stamped_digests) in
  Forall (holds sample_rows_b2) (table_rows stamped_readme) ∧ ∃ mc, mc ∈ table_rows stamped_readme ∧ ¬ holds sample_rows_b4 mc.
Proof.
  split.
  - refine (proj1 (proj2 (proj2 (function_map_passes sample_source sample_sha (sample_table ($"guard_stop") ($"b2")) sample_tla stamped_readme (Some stamped_digests)
      [$"qemu.tsv"] sample_rows_b2 0 (sample_lines ($"b2")) _ _ _ _)) _)); by vm_compute.
  - refine (proj1 (proj1 (proj2 (function_map_passes sample_source sample_sha (sample_table ($"guard_stop") ($"b4")) sample_tla stamped_readme (Some stamped_digests)
      [$"qemu.tsv"] sample_rows_b4 1 (sample_lines ($"b4")) _ _ _ _))) _); [by vm_compute..|].
    exists (default [] (head (sample_lines ($"b4")))). split; [apply (bool_decide_unpack _)|]; by vm_compute.
Defined.

(** A row whose guard has a capital in its name, and which maps a function no kernel has. *)
Definition capital_cells (stamp : str) : list str :=
  [$"`Writer`"; $"`uart_write`, `Uart_absent`"; $"one byte"; sample_dropped ($"Guard_stop"); stamp].
Definition capital_program (hash : str) : list (str * list row) := Program (sample_rows ($"Guard_stop") hash).

(** A guard whose name has a capital letter is accepted as the reason of a dropped path
    but is not among the names of the stamp: the row passes with the same stamp and
    digests before and after the guard's body changes.  A mapped name with a capital is not
    looked at either, whether a kernel defines it or not. *)
Theorem capital_names_unseen sha256 :
  let row_of hash stamped := row_errors sample_source sha256 ($"Control") (capital_cells (stamp_of sha256 (capital_cells []) stamped)) sample_defs
    (capital_program hash) (Some [($"uart_write", $"a1")]) in
  row_of ($"b2") (capital_program ($"b2")) = Ok [] ∧ row_of ($"b4") (capital_program ($"b2")) = Ok [] ∧
  digest (capital_program ($"b2")) ($"Guard_stop") ≠ digest (capital_program ($"b4")) ($"Guard_stop") ∧
  defined (capital_program ($"b2")) ($"Uart_absent") = false.
Proof.
  assert (∀ stamp, stamped_names (capital_cells stamp) = [$"uart_write"]) as Hn by by intros; vm_compute.
  assert (∀ hash, hash = $"b2" ∨ hash = $"b4" → digest (capital_program hash) ($"uart_write") = $"a1") as Hd by by intros hash [->| ->]; vm_compute.
  assert (∀ hash, hash = $"b2" ∨ hash = $"b4" → row_errors sample_source sha256 ($"Control") (capital_cells (stamp_of sha256 (capital_cells []) (capital_program ($"b2"))))
    sample_defs (capital_program hash) (Some [($"uart_write", $"a1")]) = Ok []) as H.
  { intros hash Hh. rewrite row_errors_current; [by destruct Hh as [->| ->]; vm_compute|done| |].
    - unfold stamp_of, row_hash. rewrite !Hn. cbn [map concat]. rewrite !Hd by auto. done.
    - intros name. rewrite Hn. intros ->%list_elem_of_singleton. by rewrite Hd. }
  cbn zeta. split_and!; [by apply H; left|by apply H; right|by vm_compute|by vm_compute].
Qed.
